(** * Transcript chunking and rate-limited map-reduce summarization

    A shallow embedding of the chunking strategies, the transcript
    validator, the API throttler and the chunk summarizer of the
    youtube-summarizer sources, with the properties stated about them;
    and, in a second part, of the generative services that call the
    throttler, the chunker node, the command-line configuration, the
    chunking service, the summary reducer and the summary formatter.

    Conventions of the embedding.
    - A JavaScript string is the list of its UTF-16 code units.
    - Integers (lengths, indices, token counts, millisecond clocks) are [Z].
      Where the source turns a quotient of two counts into an integer at
      once ([Math.floor(a / b)], [Math.ceil(a / b)]) the integer quotient
      stands for it, and the validator compares its ratio without
      rounding it: for counts below 2^53 the rounding of the division
      does not show ([floor_of_rounded_quotient] and the lemmas after it).
    - The fractional quantities of the chunking strategies (a reduction
      factor, a share of the sentence count) are doubles: a rational that
      every multiplication and division rounds to the nearest number of
      53 significant bits, ties to the even significand ([Num.round],
      [round_is_nearest]), and the two non-finite values that a division
      by zero produces ([Num.num]).  A decimal literal is rounded the
      same way ([Num.lit]), and the limit [maxLength] of a strategy is a
      finite double.  The range of the exponent is not modelled: no
      result overflows to an infinity or underflows.  With counts below
      2^53 this is what the program computes for every limit that is
      zero or lies between 2^-900 and 2^900 in absolute value. *)

From Stdlib Require Import Ascii String.
From Stdlib Require Import ZArith QArith Qround Qabs Qpower Qreduction.
From Stdlib Require Import List Lia Lqa Bool.
From Stdlib Require Import Permutation Sorted DecimalString.
Import ListNotations.
Open Scope Z_scope.

(** ** JavaScript strings *)

Module Js.

Definition char := N.
Definition str := list char.

(** A literal of ASCII characters. *)
Definition of_string (s : string) : str :=
  map N_of_ascii (list_ascii_of_string s).

(** [s.length] *)
Definition len (s : str) : Z := Z.of_nat (List.length s).

(** The character class [\s] (white space and line terminators). *)
Definition isWhitespace (c : char) : bool :=
  (((9 <=? c) && (c <=? 13)) || (c =? 32) || (c =? 160) || (c =? 5760)
   || ((8192 <=? c) && (c <=? 8202)) || (c =? 8232) || (c =? 8233)
   || (c =? 8239) || (c =? 8287) || (c =? 12288) || (c =? 65279))%N.

Fixpoint dropWhile {A} (p : A -> bool) (l : list A) : list A :=
  match l with
  | [] => []
  | x :: r => if p x then dropWhile p r else l
  end.

Fixpoint takeWhile {A} (p : A -> bool) (l : list A) : list A :=
  match l with
  | [] => []
  | x :: r => if p x then x :: takeWhile p r else []
  end.

Definition trimStart (s : str) : str := dropWhile isWhitespace s.
Definition trimEnd (s : str) : str := rev (dropWhile isWhitespace (rev s)).
(** [s.trim()] *)
Definition trim (s : str) : str := trimEnd (trimStart s).

(** [l.join(sep)] *)
Fixpoint join (sep : str) (l : list str) : str :=
  match l with
  | [] => []
  | x :: r =>
      match r with
      | [] => x
      | _ :: _ => x ++ sep ++ join sep r
      end
  end.

Definition space : str := [32%N].

(** Strict equality [a === b] of two strings. *)
Fixpoint eqb (a b : str) : bool :=
  match a, b with
  | [], [] => true
  | x :: a', y :: b' => (x =? y)%N && eqb a' b'
  | _, _ => false
  end.

(** [l.indexOf(x)], counted from [i]. *)
Fixpoint indexOfFrom (x : str) (l : list str) (i : Z) : Z :=
  match l with
  | [] => -1
  | y :: r => if eqb x y then i else indexOfFrom x r (i + 1)
  end.

Definition indexOf (l : list str) (x : str) : Z := indexOfFrom x l 0.

(** [l[i]] for an index inside the array. *)
Definition item (l : list str) (i : Z) : str := nth (Z.to_nat i) l [].

(** [l.sort(cmp)] for a comparator that is a total preorder;
    [before x y] tells [cmp(x, y) <= 0].  The sort is stable: an element
    is placed in front of the first one it may precede. *)
Fixpoint insertBy {A} (before : A -> A -> bool) (x : A) (l : list A)
  : list A :=
  match l with
  | [] => [x]
  | y :: r => if before x y then x :: l else y :: insertBy before x r
  end.

Definition sortWith {A} (before : A -> A -> bool) (l : list A) : list A :=
  fold_right (insertBy before) [] l.

(** [l.sort((a, b) => key(a) - key(b))] *)
Definition sortBy {A} (key : A -> Z) (l : list A) : list A :=
  sortWith (fun x y => key x <=? key y) l.

(** [s.startsWith(t)] *)
Fixpoint startsWith (s t : str) : bool :=
  match t, s with
  | [], _ => true
  | y :: t', x :: s' => (x =? y)%N && startsWith s' t'
  | _ :: _, [] => false
  end.

(** [s.indexOf(t)], counted from [i]. *)
Fixpoint strIndexOfFrom (s t : str) (i : Z) : Z :=
  if startsWith s t then i
  else match s with
       | [] => -1
       | _ :: s' => strIndexOfFrom s' t (i + 1)
       end.

Definition strIndexOf (s t : str) : Z := strIndexOfFrom s t 0.

(** [s.includes(t)] *)
Definition includes (s t : str) : bool := negb (strIndexOf s t =? -1).

(** [s.substring(a, b)] for [0 <= a <= b]. *)
Definition substring (s : str) (a b : Z) : str :=
  firstn (Z.to_nat (b - a)) (skipn (Z.to_nat a) s).

(** [l.slice(a, b)]: a negative index counts from the end, and both are
    clamped to the array. *)
Definition sliceIndex (n k : Z) : Z :=
  if k <? 0 then Z.max (n + k) 0 else Z.min k n.

Definition slice {A} (l : list A) (a b : Z) : list A :=
  let n := Z.of_nat (List.length l) in
  let from := sliceIndex n a in
  let to := sliceIndex n b in
  firstn (Z.to_nat (to - from)) (skipn (Z.to_nat from) l).

(** [s.split(re)] for a regular expression [re] of the shape
    [(?<=[pre])sep+] (or [sep+] when [pre] accepts everything): a match
    starts at a separator whose preceding character satisfies [pre] and
    takes the whole run of separators that follows.  [cur] is the piece
    being collected, reversed; [prev] the character before the scan
    position; [skipping] tells that the scan is inside a match. *)
Fixpoint splitGo (pre : option char -> bool) (sep : char -> bool)
         (prev : option char) (cur : str) (skipping : bool) (s : str)
  : list str :=
  match s with
  | [] => [rev cur]
  | c :: r =>
      if skipping then
        if sep c then splitGo pre sep (Some c) [] true r
        else splitGo pre sep (Some c) [c] false r
      else if sep c && pre prev then
        rev cur :: splitGo pre sep (Some c) [] true r
      else splitGo pre sep (Some c) (c :: cur) false r
  end.

Definition split (pre : option char -> bool) (sep : char -> bool) (s : str)
  : list str :=
  splitGo pre sep None [] false s.

End Js.

(** ** JavaScript numbers *)

Module Num.

(** *** Rounding to a double *)

(** [2^e] *)
Definition pow2 (e : Z) : Q := (2 ^ e)%Q.

(** The binary exponent of [q > 0]:
    [2^(ilog2 q) <= q < 2^(ilog2 q + 1)]. *)
Definition ilog2 (q : Q) : Z :=
  let l := Z.log2 (Qnum q) - Z.log2 (Z.pos (Qden q)) in
  if Qle_bool (pow2 l) q then l else l - 1.

(** The integer nearest to [x]; of two that are as near, the even one. *)
Definition nearestEven (x : Q) : Z :=
  let f := Qfloor x in
  match (x - inject_Z f ?= 1 # 2)%Q with
  | Lt => f
  | Gt => f + 1
  | Eq => if Z.even f then f else f + 1
  end.

(** The double nearest to [q > 0]: [q = s * 2^e] with a significand
    [2^52 <= s < 2^53], and [s] is rounded to an integer. *)
Definition roundPos (q : Q) : Q :=
  let e := ilog2 q - 52 in
  Qred (inject_Z (nearestEven (q / pow2 e)) * pow2 e).

(** The double that an arithmetic operation returns when its exact
    result is [q]: round to nearest, ties to even. *)
Definition round (q : Q) : Q :=
  match Qnum q with
  | Z0 => 0
  | Zpos _ => roundPos q
  | Zneg _ => - roundPos (- q)
  end.

(** The value of the decimal literal [q]. *)
Definition lit (q : Q) : Q := round q.

(** [2^-53], the largest relative error of [round]. *)
Definition unitRoundoff : Q := 1 # 2 ^ 53.

(** *** Numbers that need not be finite *)

(** The value of a division whose divisor may be zero.  Dividends are
    counts (never negative), so a zero divisor gives [+Infinity], or
    [NaN] for [0 / 0]. *)
Inductive num : Type :=
| Fin (q : Q)
| PInf
| NaN.

(** A count or a length; it is below 2^53 and so a double. *)
Definition ofZ (z : Z) : num := Fin (inject_Z z).

(** [a * b] for two finite numbers. *)
Definition mulQ (a b : Q) : num := Fin (round (a * b)).

(** [t / d] for an integer [t >= 0]. *)
Definition divZ (t : Z) (d : num) : num :=
  match d with
  | Fin q =>
      if Qeq_bool q 0 then (if t =? 0 then NaN else PInf)
      else Fin (round (inject_Z t / q))
  | PInf => Fin 0
  | NaN => NaN
  end.

Definition Qltb (a b : Q) : bool := negb (Qle_bool b a).
Definition Qmaxb (a b : Q) : Q := if Qle_bool a b then b else a.
Definition Qminb (a b : Q) : Q := if Qle_bool a b then a else b.

(** [Math.max(x, y)] *)
Definition max2 (x y : num) : num :=
  match x, y with
  | NaN, _ | _, NaN => NaN
  | PInf, _ | _, PInf => PInf
  | Fin a, Fin b => Fin (Qmaxb a b)
  end.

(** [Math.max(k, x)] for a finite [k]. *)
Definition max (k : Q) (x : num) : num := max2 (Fin k) x.

(** [Math.min(k, x)] for a finite [k]. *)
Definition min (k : Q) (x : num) : num :=
  match x with
  | Fin q => Fin (Qminb k q)
  | PInf => Fin k
  | NaN => NaN
  end.

(** [n * x] for an integer [n >= 0]. *)
Definition mulZ (n : Z) (x : num) : num :=
  match x with
  | Fin q => Fin (round (inject_Z n * q))
  | PInf => if n =? 0 then NaN else PInf
  | NaN => NaN
  end.

(** [Math.ceil(x)] *)
Definition ceil (x : num) : num :=
  match x with
  | Fin q => Fin (inject_Z (Qceiling q))
  | _ => x
  end.

(** [Math.floor(x)] *)
Definition floor (x : num) : num :=
  match x with
  | Fin q => Fin (inject_Z (Qfloor q))
  | _ => x
  end.

(** [x < y] on numbers: false as soon as one side is [NaN]. *)
Definition ltb (x y : num) : bool :=
  match x, y with
  | NaN, _ | _, NaN => false
  | PInf, _ => false
  | Fin _, PInf => true
  | Fin a, Fin b => negb (Qle_bool b a)
  end.

(** [z > x] for an integer [z]. *)
Definition Zgtb (z : Z) (x : num) : bool := ltb x (ofZ z).

End Num.

(** ** BaseChunkingStrategy: token estimate and greedy packer *)

Module BaseChunkingStrategy.
Import Js.

(** *** splitIntoSentences *)

(** The class [[.!?…]] *)
Definition isTerminator (c : char) : bool :=
  ((c =? 46) || (c =? 33) || (c =? 63) || (c =? 8230))%N.

(** The class of the two quote characters, code units 34 and 39 *)
Definition isQuote (c : char) : bool := ((c =? 34) || (c =? 39))%N.

Definition notTerminator (c : char) : bool := negb (isTerminator c).

(** One attempt of the sentence expression at the head of [s]: a run of
    characters that are no terminators, a run of terminators, an
    optional quote, and a lookahead for white space or the end of the
    text.  The result is the matched text and what follows it.  Both runs are greedy and the
    two classes are complementary, so giving back characters of a run
    never helps: a shorter first run is followed by a character that is
    no terminator, and after a shorter second run (or a dropped quote)
    the lookahead sees a terminator (or the quote), which is no white
    space. *)
Definition matchSentenceAt (s : str) : option (str * str) :=
  let body := takeWhile notTerminator s in
  let r1 := dropWhile notTerminator s in
  let marks := takeWhile isTerminator r1 in
  let r2 := dropWhile isTerminator r1 in
  let '(quote, r3) :=
    match r2 with
    | c :: r => if isQuote c then ([c], r) else ([], r2)
    | [] => ([], [])
    end in
  let lookahead :=
    match r3 with
    | [] => true
    | c :: _ => isWhitespace c
    end in
  match body, marks with
  | _ :: _, _ :: _ =>
      if lookahead then Some (body ++ marks ++ quote, r3) else None
  | _, _ => None
  end.

(** [Array.from(text.matchAll(sentenceRegex)).map(match => match[0])]:
    after a match the scan resumes behind it, after a failed attempt one
    character further.  Every round consumes a character, so the length
    of the text is fuel enough. *)
Fixpoint matchAllSentences (fuel : nat) (s : str) : list str :=
  match fuel with
  | O => []
  | S fuel' =>
      match s with
      | [] => []
      | _ :: tl =>
          match matchSentenceAt s with
          | Some (m, rest) => m :: matchAllSentences fuel' rest
          | None => matchAllSentences fuel' tl
          end
      end
  end.

(** [text[i]] *)
Definition charAt (text : str) (i : Z) : option char :=
  if i <? 0 then None else nth_error text (Z.to_nat i).

(** The two descending searches
    [for (let i = endIdx; i >= endIdx - searchRange && i > startIdx; i--)]
    with their [break]: the break point found, if any. *)
Fixpoint searchBack (test : Z -> bool) (lo startIdx : Z) (fuel : nat) (i : Z)
  : option Z :=
  match fuel with
  | O => None
  | S fuel' =>
      if (lo <=? i) && (startIdx <? i) then
        if test i then Some (i + 1)
        else searchBack test lo startIdx fuel' (i - 1)
      else None
  end.

Definition sentenceEndAt (text : str) (i : Z) : bool :=
  match charAt text i with
  | Some c => isTerminator c
  | None => false
  end
  && ((len text <=? i + 1)
      || match charAt text (i + 1) with
         | Some c => isWhitespace c
         | None => false
         end).

Definition whitespaceAt (text : str) (i : Z) : bool :=
  match charAt text i with
  | Some c => isWhitespace c
  | None => false
  end.

(** The body of [while (startIdx < text.length)]; a round advances
    [startIdx] by at least one when [targetLength >= 1].  [searchRange]
    is [Math.floor(targetLength * 0.2)], a fifth of the target rounded
    down ([searchRange_rounded]). *)
Fixpoint forceSplitLoop (fuel : nat) (text : str) (targetLength : Z)
         (startIdx : Z) : list str :=
  match fuel with
  | O => []
  | S fuel' =>
      if startIdx <? len text then
        let endIdx0 := Z.min (startIdx + targetLength) (len text) in
        let endIdx :=
          if endIdx0 <? len text then
            let searchRange := targetLength / 5 in
            let steps := Z.to_nat (searchRange + 1) in
            match searchBack (sentenceEndAt text) (endIdx0 - searchRange)
                    startIdx steps endIdx0 with
            | Some breakPoint => breakPoint
            | None =>
                match searchBack (whitespaceAt text) (endIdx0 - searchRange)
                        startIdx steps endIdx0 with
                | Some breakPoint => breakPoint
                | None => endIdx0
                end
            end
          else endIdx0 in
        trim (substring text startIdx endIdx)
          :: forceSplitLoop fuel' text targetLength endIdx
      else []
  end.

(** [forceSplitByCharCount(text, targetLength)], for [targetLength >= 1]
    (the only call passes 800). *)
Definition forceSplitByCharCount (text : str) (targetLength : Z) : list str :=
  forceSplitLoop (List.length text) text targetLength 0.

Definition afterTerminal (prev : option char) : bool :=
  match prev with
  | Some c => ((c =? 46) || (c =? 33) || (c =? 63))%N
  | None => false
  end.

Definition isLineFeed (c : char) : bool := (c =? 10)%N.

Definition count {A} (l : list A) : Z := Z.of_nat (List.length l).

Definition splitIntoSentences (text : str) : list str :=
  let sentences := matchAllSentences (List.length text) text in
  if (count sentences <=? 5) && (0 <? len (trim text)) then
    (* text.split(/(?<=[.!?])\s+/) *)
    let simpleSplit := split afterTerminal isWhitespace text in
    let sentences1 :=
      if count sentences <? count simpleSplit then simpleSplit
      else sentences in
    let sentences2 :=
      if count sentences1 <=? 5 then
        (* text.split(/\n+/).filter(line => line.trim().length > 0) *)
        let lineBreakSplit :=
          filter (fun line => 0 <? len (trim line))
                 (split (fun _ => true) isLineFeed text) in
        if count sentences1 <? count lineBreakSplit then lineBreakSplit
        else sentences1
      else sentences1 in
    if count sentences2 <=? 5 then forceSplitByCharCount text 800
    else filter (fun s => 5 <=? len (trim s)) sentences2
  else filter (fun s => 5 <=? len (trim s)) sentences.

(** *** estimateTokens and createChunksFromSentences *)

(** [Math.ceil(text.length / 4)] *)
Definition estimateTokens (text : str) : Z := (len text + 3) / 4.

(** The target size of [createChunksFromSentences]: with more than ten
    sentences, [ceil(totalTokens / max(3, ceil(totalTokens / max)))],
    else the requested maximum. *)
Definition forcedChunkSize (sentences : list str) (maxTokensPerChunk : Q)
  : Num.num :=
  let forceChunks := 10 <? count sentences in
  let totalText := join space sentences in
  let totalTokens := estimateTokens totalText in
  if forceChunks then
    Num.ceil
      (Num.divZ totalTokens
         (Num.max 3 (Num.ceil (Num.divZ totalTokens (Num.Fin maxTokensPerChunk)))))
  else Num.Fin maxTokensPerChunk.

(** The [for (const sentence of sentences)] loop, then the final push of
    a non-empty [currentChunk]. *)
Fixpoint packLoop (size : Num.num) (sentences : list str)
         (chunks : list str) (currentChunk : list str) (currentTokenCount : Z)
  : list str :=
  match sentences with
  | [] =>
      match currentChunk with
      | [] => chunks
      | _ :: _ => chunks ++ [join space currentChunk]
      end
  | sentence :: rest =>
      let sentenceTokens := estimateTokens sentence in
      if Num.Zgtb (currentTokenCount + sentenceTokens) size
         && (0 <? count currentChunk)
      then packLoop size rest (chunks ++ [join space currentChunk])
                    [sentence] sentenceTokens
      else packLoop size rest chunks (currentChunk ++ [sentence])
                    (currentTokenCount + sentenceTokens)
  end.

Definition createChunksFromSentences (sentences : list str)
           (maxTokensPerChunk : Q) : list str :=
  packLoop (forcedChunkSize sentences maxTokensPerChunk) sentences [] [] 0.

End BaseChunkingStrategy.

(** ** UniformSamplingStrategy *)

Module UniformSamplingStrategy.
Import Js BaseChunkingStrategy.

(** [Math.max(1, totalTokens / (maxLength * 0.9))] *)
Definition reductionFactor (transcript : str) (maxLength : Q) : Num.num :=
  let totalTokens := estimateTokens transcript in
  let maxTokensPerChunk := Num.mulQ maxLength (Num.lit (9 # 10)) in
  Num.max 1 (Num.divZ totalTokens maxTokensPerChunk).

(** [for (let i = 0; i < sentences.length; i += samplingInterval)] *)
Fixpoint sampleLoop (fuel : nat) (sentences : list str) (windowSize : Z)
         (samplingInterval : Num.num) (i : Z) : list str :=
  match fuel with
  | O => []
  | S fuel' =>
      if i <? count sentences then
        item sentences i
          :: (if (0 <? windowSize) && (i + 1 <? count sentences)
                 && Num.ltb (Num.ofZ 2) samplingInterval
              then [item sentences (i + 1)] else [])
          ++ match samplingInterval with
             | Num.Fin q =>
                 sampleLoop fuel' sentences windowSize samplingInterval
                            (i + Qfloor q)
             | _ => []
             end
      else []
  end.

Definition sampleSentences (sentences : list str) (reductionFactor : Num.num)
  : list str :=
  let n := count sentences in
  let windowSize := Z.min 3 (n / 10) in
  let samplingInterval :=
    Num.max 1 (Num.floor (Num.divZ n (Num.divZ n reductionFactor))) in
  sampleLoop (List.length sentences) sentences windowSize samplingInterval 0.

Definition chunkTranscript (transcript : str) (maxLength : Q) : list str :=
  let sentences := splitIntoSentences transcript in
  if count sentences <=? 1 then [transcript]
  else
    let reductionFactor := reductionFactor transcript maxLength in
    if Num.ltb reductionFactor (Num.Fin (3 # 2)) then
      createChunksFromSentences sentences maxLength
    else
      createChunksFromSentences
        (sampleSentences sentences reductionFactor) maxLength.

End UniformSamplingStrategy.

(** ** BookendSamplingStrategy *)

Module BookendSamplingStrategy.
Import Js BaseChunkingStrategy.

(** [Math.max(1, totalTokens / (maxLength * 0.9))] *)
Definition reductionFactor (transcript : str) (maxLength : Q) : Num.num :=
  let totalTokens := estimateTokens transcript in
  let maxTokensPerChunk := Num.mulQ maxLength (Num.lit (9 # 10)) in
  Num.max 1 (Num.divZ totalTokens maxTokensPerChunk).

(** [for (let i = middleStart; i < middleEnd; i += samplingInterval)],
    with the extra [i += 1] after a context sentence. *)
Fixpoint middleLoop (fuel : nat) (sentences : list str)
         (samplingInterval middleEnd i : Z) : list str :=
  match fuel with
  | O => []
  | S fuel' =>
      if i <? middleEnd then
        if (2 <? samplingInterval) && (i + 1 <? middleEnd) then
          item sentences i :: item sentences (i + 1)
            :: middleLoop fuel' sentences samplingInterval middleEnd
                 (i + 1 + samplingInterval)
        else
          item sentences i
            :: middleLoop fuel' sentences samplingInterval middleEnd
                 (i + samplingInterval)
      else []
  end.

(** [Math.floor(totalSentencesToKeep * 0.4)] *)
Definition bookendSizeOf (totalSentencesToKeep : Z) : Z :=
  Qfloor (Num.round (inject_Z totalSentencesToKeep * Num.lit (2 # 5))).

(** The three collecting loops for a finite [totalSentencesToKeep]
    (never negative: the reduction factor is at least 1). *)
Definition collect (sentences : list str) (totalSentencesToKeep : Z)
  : list str :=
  let n := count sentences in
  let bookendSize := bookendSizeOf totalSentencesToKeep in
  let middleSentencesToKeep :=
    Z.max 0 (totalSentencesToKeep - bookendSize * 2) in
  let beginning := firstn (Z.to_nat bookendSize) sentences in
  let middle :=
    if (0 <? middleSentencesToKeep) && (bookendSize * 2 <? n) then
      let middleStart := bookendSize in
      let middleEnd := n - bookendSize in
      let middleRange := middleEnd - middleStart in
      if 0 <? middleRange then
        let samplingInterval :=
          Z.max 1 (middleRange / middleSentencesToKeep) in
        middleLoop (List.length sentences) sentences samplingInterval
                   middleEnd middleStart
      else []
    else [] in
  let ending := skipn (Z.to_nat (Z.max 0 (n - bookendSize))) sentences in
  beginning ++ middle ++ ending.

(** [totalSentencesToKeep = Math.floor(sentences.length / reductionFactor)].
    When it is infinite both bookend loops run over the whole array and
    the middle count is [NaN]; when it is [NaN] every loop guard is
    false. *)
Definition totalSentencesToKeep (sentences : list str)
           (reductionFactor : Num.num) : Num.num :=
  Num.floor (Num.divZ (count sentences) reductionFactor).

Definition sampleSentences (sentences : list str) (reductionFactor : Num.num)
  : list str :=
  let sampledSentences :=
    match totalSentencesToKeep sentences reductionFactor with
    | Num.Fin k => collect sentences (Qfloor k)
    | Num.PInf => sentences ++ sentences
    | Num.NaN => []
    end in
  sortBy (indexOf sentences) sampledSentences.

Definition chunkTranscript (transcript : str) (maxLength : Q) : list str :=
  let sentences := splitIntoSentences transcript in
  if count sentences <=? 1 then [transcript]
  else
    let reductionFactor := reductionFactor transcript maxLength in
    if Num.ltb reductionFactor (Num.Fin (3 # 2)) then
      createChunksFromSentences sentences maxLength
    else
      createChunksFromSentences
        (sampleSentences sentences reductionFactor) maxLength.

End BookendSamplingStrategy.

(** ** IntelligentSamplingStrategy *)

Module IntelligentSamplingStrategy.
Import Js BaseChunkingStrategy.

Definition importantKeywords : list str :=
  map of_string
    [ "summary"; "conclusion"; "therefore"; "important"; "key";
      "significant"; "result"; "finding"; "main point"; "takeaway";
      "highlight"; "critical"; "essential"; "crucial"; "finally";
      "in summary"; "to summarize"; "ultimately"; "in conclusion";
      "altogether"; "overall" ]%string.

Record ScoredSentence : Type :=
  { sentence : str; score : Q; index : Z }.

Definition itemAt {A} (l : list A) (i : Z) : option A :=
  if i <? 0 then None else nth_error l (Z.to_nat i).

Definition isDigit (c : char) : bool := ((48 <=? c) && (c <=? 57))%N.

(** Line terminators, which the dot of a regular expression skips. *)
Definition isLineTerminator (c : char) : bool :=
  ((c =? 10) || (c =? 13) || (c =? 8232) || (c =? 8233))%N.

(** The test of a quote, any characters of one line, and a quote:
    [opened] tells that a quote was seen since the last line
    terminator. *)
Fixpoint hasQuotedPart (opened : bool) (s : str) : bool :=
  match s with
  | [] => false
  | c :: r =>
      if isQuote c then (if opened then true else hasQuotedPart true r)
      else if isLineTerminator c then hasQuotedPart false r
      else hasQuotedPart opened r
  end.

(** [createLargerContextChunks]: the window loop
    [for (let i = 0; i < sentences.length; i += sentencesPerChunk - overlap)]
    with its [break] once the window reaches the end. *)
Fixpoint windowLoop (fuel : nat) (sentences : list str)
         (sentencesPerChunk overlap : Z) (i : Z) : list str :=
  match fuel with
  | O => []
  | S fuel' =>
      if i <? count sentences then
        let end_ := Z.min (i + sentencesPerChunk) (count sentences) in
        let chunk := join space (slice sentences i end_) in
        (if 0 <? len (trim chunk) then [chunk] else [])
          ++ (if count sentences <=? end_ then []
              else windowLoop fuel' sentences sentencesPerChunk overlap
                     (i + (sentencesPerChunk - overlap)))
      else []
  end.

(** [Math.ceil(sentencesPerChunk * 0.15)] *)
Definition overlapOf (sentencesPerChunk : Z) : Z :=
  Qceiling (Num.round (inject_Z sentencesPerChunk * Num.lit (15 # 100))).

(** [minChunks] is [None] for an omitted argument.  An infinite window
    width takes every sentence in the first window; a [NaN] width makes
    the first window empty and ends the loop. *)
Definition createLargerContextChunks (sentences : list str) (targetSize : Z)
           (minChunks : option Num.num) : list str :=
  if count sentences <=? 10 then [join space sentences]
  else
    let totalTokens := estimateTokens (join space sentences) in
    let calculatedChunks :=
      Num.max 1 (Num.ceil (Num.divZ totalTokens (Num.ofZ targetSize))) in
    let numChunks :=
      match minChunks with
      | Some (Num.Fin q) =>
          if Qeq_bool q 0 then calculatedChunks
          else Num.max2 calculatedChunks (Num.Fin q)
      | Some Num.PInf => Num.max2 calculatedChunks Num.PInf
      | Some Num.NaN | None => calculatedChunks
      end in
    match Num.max 5 (Num.ceil (Num.divZ (count sentences) numChunks)) with
    | Num.Fin q =>
        let sentencesPerChunk := Qfloor q in
        let overlap := overlapOf sentencesPerChunk in
        windowLoop (List.length sentences) sentences sentencesPerChunk
                   overlap 0
    | Num.PInf =>
        let chunk := join space sentences in
        if 0 <? len (trim chunk) then [chunk] else []
    | Num.NaN => []
    end.

Definition createForcedChunks (sentences : list str) (targetSize : Z)
  : list str :=
  let viaMinChunks :=
    if 10 <? count sentences then
      let totalText := join space sentences in
      let totalTokens := estimateTokens totalText in
      let minChunks :=
        Num.max 3 (Num.ceil (Num.divZ totalTokens (Num.ofZ targetSize))) in
      let sentencesPerChunk :=
        Num.floor (Num.divZ (count sentences) minChunks) in
      if negb (Num.ltb sentencesPerChunk (Num.ofZ 3))
         && match sentencesPerChunk with Num.NaN => false | _ => true end
      then Some (createLargerContextChunks sentences targetSize
                   (Some minChunks))
      else None
    else None in
  match viaMinChunks with
  | Some chunks => chunks
  | None =>
      if 5 <? count sentences then
        createLargerContextChunks sentences targetSize (Some (Num.ofZ 2))
      else createLargerContextChunks sentences targetSize None
  end.

(** [Math.ceil(length * Math.min(0.8, 2.0 / reductionFactor))] *)
Definition numSentencesToKeep (length : Z) (reductionFactor : Num.num)
  : Num.num :=
  let percentToKeep :=
    Num.min (Num.lit (4 # 5)) (Num.divZ 2 reductionFactor) in
  Num.ceil (Num.mulZ length percentToKeep).

Definition byScoreDescending (a b : ScoredSentence) : bool :=
  Qle_bool (score b) (score a).

(** [None] stands for the [TypeError] of reading [.score] of an array
    element that does not exist. *)
Definition calculateImportanceThreshold
           (scoredSentences : list ScoredSentence)
           (reductionFactor : Num.num) : option Q :=
  let sortedByScore := sortWith byScoreDescending scoredSentences in
  match numSentencesToKeep (count scoredSentences) reductionFactor with
  | Num.Fin k =>
      if count sortedByScore <=? Qfloor k then Some 0%Q
      else option_map score (itemAt sortedByScore (Qfloor k - 1))
  | Num.PInf => Some 0%Q
  | Num.NaN => None
  end.

(** The state of the segment loop. *)
Record SegmentState : Type :=
  { segments : list (list str);
    currentSegment : list str;
    inImportantSection : bool }.

(** [for (let i = 0; i < taggedSentences.length; i++)], where the branch
    that closes a segment skips two more sentences. *)
Fixpoint segmentLoop (fuel : nat) (tagged : list (str * bool)) (i : Z)
         (st : SegmentState) : SegmentState :=
  match fuel with
  | O => st
  | S fuel' =>
      let n := count tagged in
      match itemAt tagged i with
      | None => st
      | Some (itemSentence, isImportant) =>
          let startPercentage := Num.lit (15 # 100) in
          let endPercentage := Num.lit (15 # 100) in
          let isBeginningOrEnd :=
            Num.Qltb (inject_Z i) (Num.round (inject_Z n * startPercentage))
            || Num.Qltb
                 (Num.round (inject_Z n * Num.round (1 - endPercentage)))
                 (inject_Z i) in
          if isImportant || isBeginningOrEnd then
            let context :=
              if inImportantSection st then []
              else map fst (slice tagged (Z.max 0 (i - 3)) i) in
            segmentLoop fuel' tagged (i + 1)
              {| segments := segments st;
                 currentSegment :=
                   currentSegment st ++ context ++ [itemSentence];
                 inImportantSection := true |}
          else if inImportantSection st then
            let trailing :=
              map fst (slice tagged (i + 1) (Z.min (i + 3) n)) in
            segmentLoop fuel' tagged (i + 2 + 1)
              {| segments :=
                   segments st
                     ++ [currentSegment st ++ [itemSentence] ++ trailing];
                 currentSegment := [];
                 inImportantSection := false |}
          else segmentLoop fuel' tagged (i + 1) st
      end
  end.

(** [.slice(0, k)] for a count [k] that may be [NaN] or infinite. *)
Definition sliceTo {A} (l : list A) (k : Num.num) : list A :=
  match k with
  | Num.Fin q => firstn (Z.to_nat (Qfloor q)) l
  | Num.PInf => l
  | Num.NaN => []
  end.

Definition extractImportantSegments (scoredSentences : list ScoredSentence)
           (reductionFactor : Num.num) : option (list (list str)) :=
  let sortedSentences := sortBy index scoredSentences in
  match calculateImportanceThreshold sortedSentences reductionFactor with
  | None => None
  | Some importanceThreshold =>
      let taggedSentences :=
        map (fun item =>
               (sentence item, Qle_bool importanceThreshold (score item)))
            sortedSentences in
      let st :=
        segmentLoop (List.length taggedSentences) taggedSentences 0
          {| segments := []; currentSegment := [];
             inImportantSection := false |} in
      let segments1 :=
        match currentSegment st with
        | [] => segments st
        | _ :: _ => segments st ++ [currentSegment st]
        end in
      match segments1 with
      | [] =>
          let topSentences :=
            map sentence
              (sortBy index
                 (sliceTo (sortWith byScoreDescending scoredSentences)
                    (numSentencesToKeep (count taggedSentences)
                       reductionFactor))) in
          Some [topSentences]
      | _ :: _ => Some segments1
      end
  end.

(** [length * share] for a share given by a decimal literal. *)
Definition shareOf (n : Z) (share : Q) : Q :=
  Num.round (inject_Z n * Num.lit share).

Section Scoring.

(** [String.prototype.toLowerCase] follows the Unicode case tables; it
    is a parameter of the scoring. *)
Variable toLowerCase : str -> str.

Definition positionScore (index n : Z) : Q :=
  if Num.Qltb (inject_Z index) (shareOf n (15 # 100)) then 3
  else if Num.Qltb (shareOf n (85 # 100)) (inject_Z index) then 5 # 2
  else if Num.Qltb (shareOf n (4 # 10)) (inject_Z index)
          && Num.Qltb (inject_Z index) (shareOf n (6 # 10)) then 1
  else 0.

Definition lengthScore (sentence : str) : Q :=
  let wordCount := count (split (fun _ => true) isWhitespace sentence) in
  if (8 <? wordCount) && (wordCount <? 30) then 3 # 2
  else if (30 <=? wordCount) && (wordCount <? 60) then 1
  else 0.

Definition keywordScore (lowerSentence keyword : str) : Q :=
  if includes lowerSentence (toLowerCase keyword) then
    let keywordIndex := strIndexOf lowerSentence (toLowerCase keyword) in
    let normalizedPosition :=
      Num.divZ keywordIndex (Num.ofZ (len lowerSentence)) in
    if Num.ltb normalizedPosition (Num.Fin (Num.lit (3 # 10))) then 3 else 2
  else 0.

(** The scores are multiples of one half, which the additions do not
    round. *)
Definition scoreSentence (n : Z) (sentence : str) (index : Z)
  : ScoredSentence :=
  let lowerSentence := toLowerCase sentence in
  let score :=
    (positionScore index n
     + lengthScore sentence
     + fold_left (fun acc keyword =>
                    acc + keywordScore lowerSentence keyword)
                 importantKeywords 0
     + (if existsb isDigit sentence then 3 # 2 else 0)
     + (if hasQuotedPart false sentence then 3 # 2 else 0))%Q in
  {| sentence := sentence; score := score; index := index |}.

Fixpoint scoreFrom (n : Z) (sentences : list str) (index : Z)
  : list ScoredSentence :=
  match sentences with
  | [] => []
  | s :: r => scoreSentence n s index :: scoreFrom n r (index + 1)
  end.

(** [sentences.map((sentence, index) => ...)] *)
Definition scoreSentences (sentences : list str) : list ScoredSentence :=
  scoreFrom (count sentences) sentences 0.

(** [Math.min(1500, Math.floor(totalTokens /
     Math.max(3, Math.ceil(totalTokens / 3000))))] *)
Definition targetChunkSize (totalTokens : Z) : Z :=
  Z.min 1500 (totalTokens / Z.max 3 ((totalTokens + 2999) / 3000)).

(** [Math.max(1.1, totalTokens /
     (targetChunkSize * Math.ceil(totalTokens / 4000)))] *)
Definition reductionFactor (totalTokens : Z) : Num.num :=
  Num.max (Num.lit (11 # 10))
    (Num.divZ totalTokens
       (Num.ofZ (targetChunkSize totalTokens
                 * ((totalTokens + 3999) / 4000)))).

(** [maxLength] is not used.  [None] stands for a [TypeError]
    raised by [calculateImportanceThreshold]. *)
Definition chunkTranscript (transcript : str) (maxLength : Q)
  : option (list str) :=
  let sentences := splitIntoSentences transcript in
  if count sentences <=? 1 then Some [transcript]
  else
    let totalTokens := estimateTokens transcript in
    let minimumChunking := 3000 in
    let targetChunkSize := targetChunkSize totalTokens in
    if totalTokens <=? minimumChunking then
      Some (createForcedChunks sentences targetChunkSize)
    else
      let scoredSentences := scoreSentences sentences in
      match extractImportantSegments scoredSentences
              (reductionFactor totalTokens) with
      | None => None
      | Some importantSegments =>
          let sampledSentences := concat importantSegments in
          Some (createForcedChunks sampledSentences targetChunkSize)
      end.

End Scoring.

(** Lower case on the ASCII letters; [toLowerCase] on a string of ASCII
    characters. *)
Definition asciiLower (s : str) : str :=
  map (fun c => if ((65 <=? c) && (c <=? 90))%N then (c + 32)%N else c) s.

End IntelligentSamplingStrategy.

(** ** TranscriptValidatorNode *)

Module TranscriptValidatorNode.
Import Js.

(** The four messages, by their data:
    - [NoTranscript]: No transcript found
    - [TooShort l m]: Transcript is too short (l chars, minimum m required)
    - [TooFewWords w]: Transcript has too few words (w, minimum 20 required)
    - [LowQuality a t]: Transcript appears to be low quality
      (round(100 a / t)% alphanumeric) *)
Inductive Reason : Type :=
| NoTranscript
| TooShort (length minimum : Z)
| TooFewWords (words : Z)
| LowQuality (alphanumericChars totalChars : Z).

(** The text every message of a reason starts with. *)
Definition messageStart (r : Reason) : string :=
  match r with
  | NoTranscript => "No transcript found"
  | TooShort _ _ => "Transcript is too short ("
  | TooFewWords _ => "Transcript has too few words ("
  | LowQuality _ _ => "Transcript appears to be low quality ("
  end.

Record Validation : Type :=
  { isValid : bool; reason : option Reason }.

Definition invalid (r : Reason) : Validation :=
  {| isValid := false; reason := Some r |}.

Definition isAsciiAlphanumeric (c : char) : bool :=
  (((97 <=? c) && (c <=? 122)) || ((65 <=? c) && (c <=? 90))
   || ((48 <=? c) && (c <=? 57)))%N.

(** The characters that [replace(/[^a-zA-Z0-9\s]/g, '')] keeps. *)
Definition isKept (c : char) : bool :=
  isAsciiAlphanumeric c || isWhitespace c.

(** [transcript.split(/\s+/).length] *)
Definition wordsOf (transcript : str) : Z :=
  Z.of_nat (List.length (split (fun _ => true) isWhitespace transcript)).

(** [transcript.replace(/[^a-zA-Z0-9\s]/g, '').length] *)
Definition alphanumericCharsOf (transcript : str) : Z :=
  Z.of_nat (List.length (filter isKept transcript)).

(** [exec]; [None] is [undefined], and [!transcript] also holds of the
    empty string.  The ratio is the exact quotient: its rounding does not
    change the comparison with 0.5 ([ratio_below_half_rounded]). *)
Definition exec (minTranscriptLength : Z) (transcript : option str)
  : Validation :=
  match transcript with
  | None => invalid NoTranscript
  | Some transcript =>
      if len transcript =? 0 then invalid NoTranscript
      else if len transcript <? minTranscriptLength then
        invalid (TooShort (len transcript) minTranscriptLength)
      else
        let words := wordsOf transcript in
        if words <? 20 then invalid (TooFewWords words)
        else
          let alphanumericChars := alphanumericCharsOf transcript in
          let totalChars := len transcript in
          let alphanumericRatio :=
            (inject_Z alphanumericChars / inject_Z totalChars)%Q in
          if Num.Qltb alphanumericRatio (1 # 2) then
            invalid (LowQuality alphanumericChars totalChars)
          else {| isValid := true; reason := None |}
  end.

(** The part of the shared store the node touches. *)
Record YoutubeSharedStore : Type :=
  { transcript : option str; error : option Reason }.

(** The edge taken after the node. *)
Inductive Action : Type := valid | invalid_.

(** [post]: the action returned and the store after it.  A reason is
    always present on an invalid result, so the fallback text
    [Invalid transcript] is never stored. *)
Definition post (shared : YoutubeSharedStore) (execRes : Validation)
  : Action * YoutubeSharedStore :=
  if isValid execRes then (valid, shared)
  else (invalid_, {| transcript := transcript shared;
                     error := reason execRes |}).

(** [prep], [exec] and [post] in a row. *)
Definition run (minTranscriptLength : Z) (shared : YoutubeSharedStore)
  : Action * YoutubeSharedStore :=
  post shared (exec minTranscriptLength (transcript shared)).

(** The constructor's default. *)
Definition defaultMinTranscriptLength : Z := 100.

End TranscriptValidatorNode.

(** ** ChunkSummarizerNode *)

Module ChunkSummarizerNode.
Import Js.

(** An [Error] object, by its message.  [FailedToSummarize c m] is the
    error made by [summarizeChunkWithRetry] itself, with the message
    [Failed to summarize chunk c after m attempts]; [NoChunks] the one
    of [exec], [No chunks available for summarization]. *)
Inductive Error : Type :=
| ErrorOf (message : str)
| FailedToSummarize (chunkNumber maxRetries : Z)
| NoChunks.

(** What a rejected call throws: an [Error], or another value given by
    its [String(value)]. *)
Inductive Thrown : Type :=
| ThrownError (e : Error)
| ThrownValue (text : str).

(** [error instanceof Error ? error : new Error(String(error))] *)
Definition toError (t : Thrown) : Error :=
  match t with
  | ThrownError e => e
  | ThrownValue text => ErrorOf text
  end.

Inductive Outcome : Type :=
| Resolved (summary : str)
| Rejected (t : Thrown).

(** The generative service as seen by one call of
    [summarizeChunkWithRetry]: the outcome of its [attempt]-th call of
    [generateContent] (counted from 0) for a prompt. *)
Definition Backend : Type := nat -> str -> Outcome.

Definition quote : str := [34%N].

Definition promptHead : str :=
  (of_string "You are summarizing a section of a YouTube video transcript. Create a comprehensive and detailed summary that captures all important information from this section of the transcript.
    
Focus on:
- The main topics and themes in detail
- Key facts, information, and concepts presented
- Important points, arguments, examples, and explanations
- Retain all quantitative information (statistics, dates, figures)
- Preserve technical terms, proper nouns, and specialized vocabulary
- Maintain the logical flow and structure of the original content
- Include important transitions and relationships between ideas
- Capture both explicit statements and implicit meanings

Do not:
- Include your own opinions or evaluations
- Mention that this is a summary or a transcript
- Refer to "
    ++ quote
    ++ of_string "the speaker"
    ++ quote
    ++ of_string " or "
    ++ quote
    ++ of_string "the video"
    ++ quote
    ++ of_string " - just state the information directly
- Omit significant details even if they seem minor

Format your response as detailed paragraphs that fully capture the content. Use bullet points only for lists that appear in the original content.

TRANSCRIPT SECTION:
")%list.

Definition promptTail : str :=
  (of_string "

DETAILED SECTION SUMMARY:")%list.
Definition createChunkSummaryPrompt (chunk : str) : str :=
  promptHead ++ chunk ++ promptTail.

(** What [summarizeChunkWithRetry] did: the prompts it sent, the
    back-off delays it slept (milliseconds), and how it ended. *)
Inductive Completion : Type :=
| Returned (summary : str)
| Threw (e : Error).

Record Attempts : Type :=
  { prompts : list str; backoffs : list Z; completion : Completion }.

(** [while (attemptCount < this._maxRetries)]; the loop runs at most
    [maxRetries] rounds, which [fuel] counts. *)
Fixpoint retryLoop (fuel : nat) (maxRetries : Z) (generateContent : Backend)
         (chunk : str) (chunkIndex : Z) (attemptCount : Z)
         (lastError : option Error) (prompts : list str) (backoffs : list Z)
  : Attempts :=
  let giveUp :=
    {| prompts := prompts; backoffs := backoffs;
       completion :=
         Threw match lastError with
               | Some e => e
               | None => FailedToSummarize (chunkIndex + 1) maxRetries
               end |} in
  match fuel with
  | O => giveUp
  | S fuel' =>
      if attemptCount <? maxRetries then
        let attemptCount' := attemptCount + 1 in
        let prompt := createChunkSummaryPrompt chunk in
        match generateContent (List.length prompts) prompt with
        | Resolved summary =>
            {| prompts := prompts ++ [prompt]; backoffs := backoffs;
               completion := Returned summary |}
        | Rejected error =>
            let backoffMs := 2 ^ attemptCount' * 1000 in
            retryLoop fuel' maxRetries generateContent chunk chunkIndex
                      attemptCount' (Some (toError error))
                      (prompts ++ [prompt]) (backoffs ++ [backoffMs])
        end
      else giveUp
  end.

Definition summarizeChunkWithRetry (maxRetries : Z)
           (generateContent : Backend) (chunk : str) (chunkIndex : Z)
  : Attempts :=
  retryLoop (Z.to_nat maxRetries) maxRetries generateContent chunk
            chunkIndex 0 None [] [].

(** [Math.min(maxConcurrent, Math.max(2, Math.ceil(6 / chunkCount)))],
    for [chunkCount >= 1]. *)
Definition actualConcurrency (maxConcurrent chunkCount : Z) : Z :=
  Z.min maxConcurrent (Z.max 2 ((6 + chunkCount - 1) / chunkCount)).

(** What can be observed of [exec]: the two console lines around a
    batch, the start of a chunk's summarization, and its settling. *)
Inductive Event : Type :=
| StartingBatch (number : Z)
| Started (chunkIndex : Z)
| Fulfilled (chunkIndex : Z)
| Failed (chunkIndex : Z)
| CompletedBatch (number : Z).

(** One batch under [Promise.all].  The summarizations of the batch run
    concurrently; [settledAt] gives the instant at which the one of a
    chunk index settles, so they settle in the order of these instants.
    [Promise.all] rejects with the first rejection, and fulfils, once
    all have, with the values in the order of the batch. *)
Fixpoint awaitAll (order : list (Z * Attempts)) : list Event * option Error :=
  match order with
  | [] => ([], None)
  | (chunkIndex, a) :: r =>
      match completion a with
      | Returned _ =>
          let '(events, e) := awaitAll r in
          (Fulfilled chunkIndex :: events, e)
      | Threw e => ([Failed chunkIndex], Some e)
      end
  end.

Definition summaryOf (a : Attempts) : str :=
  match completion a with
  | Returned summary => summary
  | Threw _ => []
  end.

Record Run : Type :=
  { events : list Event; result : list str + Error }.

Section Exec.

Variable maxConcurrent : Z.
Variable maxRetries : Z.
(** The service as seen by the summarization of each chunk index. *)
Variable service : Z -> Backend.
Variable settledAt : Z -> Z.

(** [batch.map((chunk, batchIndex) =>
      this.summarizeChunkWithRetry(chunk, i + batchIndex))] *)
Fixpoint startBatch (batch : list str) (chunkIndex : Z)
  : list (Z * Attempts) :=
  match batch with
  | [] => []
  | chunk :: r =>
      (chunkIndex,
       summarizeChunkWithRetry maxRetries (service chunkIndex) chunk
                               chunkIndex)
        :: startBatch r (chunkIndex + 1)
  end.

(** [for (let i = 0; i < chunks.length; i += actualConcurrency)].
    The loop need not end ([actualConcurrency <= 0]); [None] tells
    that [fuel] rounds did not end it. *)
Fixpoint batchLoop (fuel : nat) (chunks : list str)
         (actualConcurrency : Z) (i : Z) (chunkSummaries : list str)
         (events : list Event) : option Run :=
  match fuel with
  | O => None
  | S fuel' =>
      if i <? Z.of_nat (List.length chunks) then
        let number := i / actualConcurrency + 1 in
        let batch := slice chunks i (i + actualConcurrency) in
        let batchPromises := startBatch batch i in
        let '(settled, rejection) :=
          awaitAll (sortBy (fun p => settledAt (fst p)) batchPromises) in
        let events1 :=
          events ++ [StartingBatch number]
                 ++ map (fun p => Started (fst p)) batchPromises
                 ++ settled in
        match rejection with
        | Some e => Some {| events := events1; result := inr e |}
        | None =>
            batchLoop fuel' chunks actualConcurrency
                      (i + actualConcurrency)
                      (chunkSummaries
                         ++ map (fun p => summaryOf (snd p)) batchPromises)
                      (events1 ++ [CompletedBatch number])
        end
      else Some {| events := events; result := inl chunkSummaries |}
  end.

(** [exec(chunks)]; [None] for [chunks] is [undefined]. *)
Definition exec (fuel : nat) (chunks : option (list str)) : option Run :=
  match chunks with
  | None | Some [] => Some {| events := []; result := inr NoChunks |}
  | Some chunks =>
      batchLoop fuel chunks
        (actualConcurrency maxConcurrent (Z.of_nat (List.length chunks)))
        0 [] []
  end.

End Exec.

End ChunkSummarizerNode.

(** ** ApiThrottler *)

Module ApiThrottler.

Record ApiThrottlerConfig : Type :=
  { cfgRequestsPerMinute : Z;
    cfgTokensPerMinute : Z;
    cfgMaxDailyRequests : Z }.

(** The constructor's default. *)
Definition defaultConfig : ApiThrottlerConfig :=
  {| cfgRequestsPerMinute := 15;
     cfgTokensPerMinute := 1000000;
     cfgMaxDailyRequests := 1500 |}.

(** The fields of the object.  Instants are milliseconds. *)
Record ApiThrottler : Type :=
  { requestsPerMinute : Z;
    tokensPerMinute : Z;
    maxDailyRequests : Z;
    requestQueue : list Z;
    tokenQueue : list Z;
    dailyRequests : Z;
    dailyResetTime : Z }.

(** Which of the three limits made [throttle] wait. *)
Inductive Limit : Type := Daily | Requests | Tokens.

(** What the throttler does to its environment: it sets a timer (with
    the delay asked for, [None] for [NaN]), it resets its daily counter,
    and it records a call at an instant. *)
Inductive Event : Type :=
| Waited (limit : Limit) (timeToWait : option Z)
| DailyReset
| Recorded (now : Z).

(** The throttler in its environment: the clock [Date.now()] and the
    events so far, latest last. *)
Record World : Type :=
  { clock : Z; self : ApiThrottler; log : list Event }.

Definition msPerDay : Z := 24 * 60 * 60 * 1000.

(** [d = new Date(now); d.setHours(24, 0, 0, 0)]: the next local
    midnight.  Instants are counted from a local midnight and a day has
    24 hours. *)
Definition nextMidnight (now : Z) : Z := (now / msPerDay + 1) * msPerDay.

(** The calendar day of an instant. *)
Definition dayOf (now : Z) : Z := now / msPerDay.

Definition new (config : ApiThrottlerConfig) (now : Z) : World :=
  {| clock := now;
     self := {| requestsPerMinute := cfgRequestsPerMinute config;
                tokensPerMinute := cfgTokensPerMinute config;
                maxDailyRequests := cfgMaxDailyRequests config;
                requestQueue := [];
                tokenQueue := [];
                dailyRequests := 0;
                dailyResetTime := nextMidnight now |};
     log := [] |}.

Definition withSelf (w : World) (t : ApiThrottler) : World :=
  {| clock := clock w; self := t; log := log w |}.

(** Time passing in the environment. *)
Definition elapse (dt : N) (w : World) : World :=
  {| clock := clock w + Z.of_N dt; self := self w; log := log w |}.

(** [await new Promise(resolve => setTimeout(resolve, timeToWait))]:
    the timer fires after the delay (at once for a negative delay or
    [NaN]) and the caller resumes [late] milliseconds after that. *)
Definition sleep (limit : Limit) (timeToWait : option Z) (late : N)
           (w : World) : World :=
  let delay := match timeToWait with
               | Some d => Z.max 0 d
               | None => 0
               end in
  {| clock := clock w + delay + Z.of_N late;
     self := self w;
     log := log w ++ [Waited limit timeToWait] |}.

(** The daily counter set to zero and the reset instant to the next
    midnight. *)
Definition resetDaily (w : World) : World :=
  let t := self w in
  {| clock := clock w;
     self := {| requestsPerMinute := requestsPerMinute t;
                tokensPerMinute := tokensPerMinute t;
                maxDailyRequests := maxDailyRequests t;
                requestQueue := requestQueue t;
                tokenQueue := tokenQueue t;
                dailyRequests := 0;
                dailyResetTime := nextMidnight (clock w) |};
     log := log w ++ [DailyReset] |}.

Definition checkDailyReset (w : World) : World :=
  if dailyResetTime (self w) <=? clock w then resetDaily w else w.

(** How late the three timers of one [throttle] fire. *)
Record Lateness : Type :=
  { lateDaily : N; lateRequests : N; lateTokens : N }.

(** The daily limit: [checkDailyReset], then the wait for the reset. *)
Definition dailyStage (late : Lateness) (w : World) : World :=
  let w := checkDailyReset w in
  if maxDailyRequests (self w) <=? dailyRequests (self w) then
    let timeToReset := dailyResetTime (self w) - clock w in
    resetDaily (sleep Daily (Some timeToReset) (lateDaily late) w)
  else w.

(** Both queues cut down to the last minute before [now]. *)
Definition pruneStage (w : World) : World :=
  let now := clock w in
  let oneMinuteAgo := now - 60 * 1000 in
  let t := self w in
  withSelf w
    {| requestsPerMinute := requestsPerMinute t;
       tokensPerMinute := tokensPerMinute t;
       maxDailyRequests := maxDailyRequests t;
       requestQueue :=
         filter (fun timestamp => oneMinuteAgo <? timestamp) (requestQueue t);
       tokenQueue :=
         filter (fun timestamp => oneMinuteAgo <? timestamp) (tokenQueue t);
       dailyRequests := dailyRequests t;
       dailyResetTime := dailyResetTime t |}.

(** The requests-per-minute limit; [now] is the instant of the pruning.
    An empty queue has no oldest request and the delay is [NaN]. *)
Definition requestsStage (late : Lateness) (now : Z) (w : World) : World :=
  let t := self w in
  if requestsPerMinute t <=? Z.of_nat (List.length (requestQueue t)) then
    let timeToWait :=
      match requestQueue t with
      | oldestRequest :: _ => Some (60 * 1000 - (now - oldestRequest))
      | [] => None
      end in
    sleep Requests timeToWait (lateRequests late) w
  else w.

(** [this.tokenQueue.length] *)
Definition currentTokensThisMinute (w : World) : Z :=
  Z.of_nat (List.length (tokenQueue (self w))).

(** The tokens-per-minute limit. *)
Definition tokensStage (estimatedTokens : Z) (late : Lateness) (w : World)
  : World :=
  if tokensPerMinute (self w) <? currentTokensThisMinute w + estimatedTokens
  then
    let timeToWait := 60 * 1000 in
    sleep Tokens (Some timeToWait) (lateTokens late) w
  else w.

Definition throttle (estimatedTokens : Z) (late : Lateness) (w : World)
  : World :=
  let w1 := pruneStage (dailyStage late w) in
  tokensStage estimatedTokens late (requestsStage late (clock w1) w1).

Definition recordApiCall (tokenCount : Z) (w : World) : World :=
  let now := clock w in
  let t := self w in
  {| clock := clock w;
     self := {| requestsPerMinute := requestsPerMinute t;
                tokensPerMinute := tokensPerMinute t;
                maxDailyRequests := maxDailyRequests t;
                requestQueue := requestQueue t ++ [now];
                tokenQueue :=
                  tokenQueue t ++ repeat now (Z.to_nat tokenCount);
                dailyRequests := dailyRequests t + 1;
                dailyResetTime := dailyResetTime t |};
     log := log w ++ [Recorded now] |}.

(** One use of the throttler by a caller: after [idle] milliseconds it
    awaits [throttle], makes its request, which takes [latency]
    milliseconds, and records it. *)
Record Call : Type :=
  { idle : N;
    estimatedTokens : Z;
    late : Lateness;
    latency : N;
    tokenCount : Z }.

Definition call (w : World) (c : Call) : World :=
  recordApiCall (tokenCount c)
    (elapse (latency c)
       (throttle (estimatedTokens c) (late c) (elapse (idle c) w))).

(** A sequence of [throttle]/[recordApiCall] pairs on one throttler. *)
Definition calls (cs : list Call) (w : World) : World :=
  fold_left call cs w.

(** The instants of the recorded calls, oldest first. *)
Fixpoint recordedCalls (l : list Event) : list Z :=
  match l with
  | [] => []
  | Recorded now :: r => now :: recordedCalls r
  | _ :: r => recordedCalls r
  end.

(** The recorded calls in the minute that ends at [t]. *)
Definition inTrailingWindow (t : Z) (timestamp : Z) : bool :=
  (t - 60 * 1000 <? timestamp) && (timestamp <=? t).

Definition callsInWindow (l : list Event) (t : Z) : Z :=
  Z.of_nat (List.length (filter (inTrailingWindow t) (recordedCalls l))).

(** The recorded calls on a calendar day. *)
Definition callsOnDay (l : list Event) (day : Z) : Z :=
  Z.of_nat
    (List.length (filter (fun now => dayOf now =? day) (recordedCalls l))).

(** The numbers of calls recorded between consecutive resets of the
    daily counter, oldest period first; the last number counts the
    calls since the last reset.  The state of the count is the closed
    periods and the current number. *)
Definition countStep (st : list Z * Z) (e : Event) : list Z * Z :=
  match e with
  | DailyReset => (fst st ++ [snd st], 0)
  | Recorded _ => (fst st, snd st + 1)
  | Waited _ _ => st
  end.

Definition countPeriods (l : list Event) : list Z * Z :=
  fold_left countStep l ([], 0).

Definition callsBetweenResets (l : list Event) : list Z :=
  fst (countPeriods l) ++ [snd (countPeriods l)].

End ApiThrottler.

(** ** The Map stage described by its batches *)

Module MapStage.
Import Js ChunkSummarizerNode.

(** A list cut into consecutive batches of [width] elements (the last
    one may be shorter); [rounds] bounds the number of batches. *)
Fixpoint chop {A} (rounds : nat) (width : nat) (l : list A)
  : list (list A) :=
  match rounds with
  | O => []
  | S rounds' =>
      match l with
      | [] => []
      | _ :: _ =>
          firstn width l :: chop rounds' width (skipn width l)
      end
  end.

Definition batchesOf {A} (width : Z) (l : list A) : list (list A) :=
  chop (List.length l) (Z.to_nat width) l.

(** [ceil(6 / chunkCount)], in the rationals: the rounding of the
    quotient does not change its ceiling ([ceilSixOver_rounded]). *)
Definition ceilSixOver (chunkCount : Z) : Z :=
  Qceiling (inject_Z 6 / inject_Z chunkCount).

(** The batches run one after the other: a batch is started as a whole
    and awaited as a whole before the next one is looked at; a
    rejection ends the run. *)
Fixpoint runBatches (settledAt : Z -> Z) (number : Z)
         (batches : list (list (Z * Attempts)))
         (chunkSummaries : list str) (events : list Event) : Run :=
  match batches with
  | [] => {| events := events; result := inl chunkSummaries |}
  | batch :: rest =>
      let '(settled, rejection) :=
        awaitAll (sortBy (fun p => settledAt (fst p)) batch) in
      let events1 :=
        events ++ [StartingBatch number]
               ++ map (fun p => Started (fst p)) batch
               ++ settled in
      match rejection with
      | Some e => {| events := events1; result := inr e |}
      | None =>
          runBatches settledAt (number + 1) rest
                     (chunkSummaries
                        ++ map (fun p => summaryOf (snd p)) batch)
                     (events1 ++ [CompletedBatch number])
      end
  end.

(** The summarizations in flight after an event, [n] being in flight
    before it. *)
Definition inFlightStep (n : Z) (e : Event) : Z :=
  match e with
  | Started _ => n + 1
  | Fulfilled _ | Failed _ => n - 1
  | StartingBatch _ | CompletedBatch _ => n
  end.

Definition inFlight (n : Z) (events : list Event) : Z :=
  fold_left inFlightStep events n.

(** The barrier between batches, read off the events: a batch starts
    only when no summarization is in flight, and at no instant are more
    than [width] of them in flight. *)
Fixpoint barrier (width : Z) (n : Z) (events : list Event) : Prop :=
  match events with
  | [] => True
  | e :: rest =>
      match e with
      | StartingBatch _ => n = 0
      | _ => True
      end
      /\ 0 <= inFlightStep n e <= width
      /\ barrier width (inFlightStep n e) rest
  end.

End MapStage.

(** ** Invariants of the throttler *)

Module MinuteInvariant.
Import ApiThrottler.

Definition recorded (w : World) : list Z := recordedCalls (log w).

(** The queue holds the recorded calls younger than some bound that is
    at least a minute old, no call lies in the future, and no trailing
    minute holds more calls than the limit. *)
Record Inv (w : World) : Prop :=
  { inv_limit : 1 <= requestsPerMinute (self w);
    inv_queue :
      exists b, b <= clock w - 60 * 1000
        /\ requestQueue (self w) = filter (fun ts => b <? ts) (recorded w);
    inv_past : Forall (fun ts => ts <= clock w) (recorded w);
    inv_window :
      forall t, callsInWindow (log w) t <= requestsPerMinute (self w) }.

(** There is room for one more call in the minute that ends now. *)
Definition Permit (w : World) : Prop :=
  callsInWindow (log w) (clock w) < requestsPerMinute (self w).

(** A step that only lets time pass, as far as the request queue and
    the recorded calls are concerned. *)
Record Frame (w w' : World) : Prop :=
  { fr_recorded : recorded w' = recorded w;
    fr_queue : requestQueue (self w') = requestQueue (self w);
    fr_limit : requestsPerMinute (self w') = requestsPerMinute (self w);
    fr_clock : clock w <= clock w' }.

End MinuteInvariant.

Module DailyInvariant.
Import ApiThrottler.

(** The daily counter is the number of calls recorded since the last
    reset, and no period between two resets saw more calls than the
    limit. *)
Record Inv (w : World) : Prop :=
  { inv_daily_limit : 1 <= maxDailyRequests (self w);
    inv_counter : snd (countPeriods (log w)) = dailyRequests (self w);
    inv_closed :
      Forall (fun n => n <= maxDailyRequests (self w))
             (fst (countPeriods (log w)));
    inv_current : dailyRequests (self w) <= maxDailyRequests (self w) }.

Definition Permit (w : World) : Prop :=
  dailyRequests (self w) < maxDailyRequests (self w).

(** A step that touches neither the counter nor the count. *)
Record Frame (w w' : World) : Prop :=
  { fr_periods : countPeriods (log w') = countPeriods (log w);
    fr_counter : dailyRequests (self w') = dailyRequests (self w);
    fr_daily_limit : maxDailyRequests (self w') = maxDailyRequests (self w) }.

End DailyInvariant.

(** ** Invariant of the batch loop *)

Module MapInvariant.
Import Js ChunkSummarizerNode.

Section Summarized.
Variable maxRetries : Z.
Variable service : Z -> Backend.

Definition returned (p : Z * Attempts) : Prop :=
exists summary, completion (snd p) = Returned summary.

(** What the loop has when it is about to look at index [i]: the
  summaries of the chunks before [i], all of them returned. *)
Definition summarizedTo (chunks : list str) (i : Z)
         (chunkSummaries : list str) : Prop :=
chunkSummaries
= map (fun p => summaryOf (snd p))
      (startBatch maxRetries service (firstn (Z.to_nat i) chunks) 0)
/\ Forall returned (startBatch maxRetries service (firstn (Z.to_nat i) chunks) 0).

End Summarized.

End MapInvariant.

(** ** Inputs of the examples *)

Module ThrottlerExamples.
Import ApiThrottler.

Definition onTime : Lateness :=
  {| lateDaily := 0; lateRequests := 0; lateTokens := 0 |}.

(** A caller that waits [idle] milliseconds, asks for 2000 tokens, and
    gets its answer after [latency] milliseconds. *)
Definition request (idle latency : N) : Call :=
  {| idle := idle; estimatedTokens := 2000; late := onTime;
     latency := latency; tokenCount := 1200 |}.

(** One request a day. *)
Definition oncePerDay : ApiThrottlerConfig :=
  {| cfgRequestsPerMinute := 15;
     cfgTokensPerMinute := 1000000;
     cfgMaxDailyRequests := 1 |}.

(** The first request passes [throttle] one millisecond before
    midnight and is recorded one millisecond after it; the second one
    comes a second later. *)
Definition aroundMidnight : list Call :=
  [ request 86399999 2; request 1000 5 ].

(** No request a minute. *)
Definition noRequests : ApiThrottlerConfig :=
{| cfgRequestsPerMinute := 0;
   cfgTokensPerMinute := 1000000;
   cfgMaxDailyRequests := 1500 |}.

(** A hundred tokens a minute. *)
Definition tightTokens : ApiThrottlerConfig :=
  {| cfgRequestsPerMinute := 15;
     cfgTokensPerMinute := 100;
     cfgMaxDailyRequests := 1500 |}.

(** Ninety tokens were recorded 59999 milliseconds ago: they leave the
    minute in one millisecond. *)
Definition almostClear : World :=
  elapse 59999 (recordApiCall 90 (new tightTokens 0)).

End ThrottlerExamples.

Module RetryExamples.
Import Js ChunkSummarizerNode.

(** A service that is out of quota twice and then answers. *)
Definition flaky : Backend :=
  fun attempt _ =>
    if (attempt <? 2)%nat
    then Rejected (ThrownError (ErrorOf (of_string "quota exceeded")))
    else Resolved (of_string "a summary").

(** A service that is down, with a different message each time. *)
Definition down : Backend :=
  fun attempt _ =>
    Rejected (ThrownError (ErrorOf (of_string "down" ++ [N.of_nat (48 + attempt)]))).

Definition chunk : str := of_string "Some text. More text.".

End RetryExamples.

Module ValidatorExamples.
Import Js.

(** The words of a text: its maximal runs of characters that are no
    white space. *)
Definition wordCount (t : str) : Z :=
Z.of_nat
  (List.length
     (filter (fun field => negb (len field =? 0))
             (split (fun _ => true) isWhitespace t))).

(** Nineteen words of eight letters, each followed by a space: 171
    characters. *)
Definition nineteenWords : str :=
concat (repeat (of_string "abcdefgh ") 19).

(** Thirty times a letter, a space, an exclamation mark and a space:
    120 characters, a quarter of them alphanumeric. *)
Definition shouting : str :=
  concat (repeat (of_string "a ! ") 30).

End ValidatorExamples.

Module ChunkingExamples.
Import Js.

(** Eight short sentences. *)
Definition talk : str :=
  of_string "Welcome to the show. Today we bake bread. First we mix flour. Then we add water. The dough must rest. Now heat the oven. Bake for an hour. Thanks for watching.".

Definition filler : str :=
  of_string "the quick brown fox jumps over the lazy dog the quick brown fox jumps over the lazy dog the quick brown fox jumps over the lazy dog the quick brown fox jumps over the lazy dog the quick brown fox jumps over the lazy dog the quick brown fox jumps over the lazy dog the quick brown fox jumps over the lazy dog".

(** Two letters that name a sentence. *)
Definition name (i : nat) : str :=
  [N.of_nat (97 + i / 26); N.of_nat (97 + Nat.modulo i 26)].

(** The sentences 8 to 16 carry no keyword. *)
Definition plain (i : nat) : bool := (Nat.leb 8 i && Nat.leb i 16)%bool.

Definition lectureSentence (i : nat) : str :=
  of_string "Part " ++ name i
    ++ (if plain i then of_string " " else of_string " summary ")
    ++ filler ++ of_string ".".

(** Forty-one long sentences, 13252 characters. *)
Definition lecture : str := join space (map lectureSentence (seq 0 41)).

(** 802 characters without punctuation. *)
Definition unpunctuated : str :=
  concat (repeat (of_string "abc ") 200) ++ of_string "xy".

End ChunkingExamples.

(** A transcript on which the rounding of the doubles shows. *)
Module RoundingExamples.
Import Js.

Definition noteSentence (i : nat) : str :=
  of_string "Item " ++ ChunkingExamples.name i
    ++ (if Nat.ltb i 29 then of_string " is seen." else of_string " is set.").

(** Thirty-five sentences, 588 characters. *)
Definition notes : str := join space (map noteSentence (seq 0 35)).

End RoundingExamples.

Module MapExamples.
Import Js ChunkSummarizerNode.

Definition chunks6 : list str :=
  map of_string
    [ "Welcome to the show."; "Today we bake bread.";
      "First we mix flour."; "Then we add water.";
      "The dough must rest."; "Thanks for watching." ]%string.

(** A service that answers at once with the digit of the chunk index. *)
Definition digits : Z -> Backend :=
  fun chunkIndex _ _ => Resolved [N.of_nat (48 + Z.to_nat chunkIndex)].

(** In every batch the later chunk settles first. *)
Definition lastFirst (chunkIndex : Z) : Z := - chunkIndex.

Definition summaries6 : list str :=
  map of_string [ "0"; "1"; "2"; "3"; "4"; "5" ]%string.

End MapExamples.


(** * Further parts of the program *)

Module ThrottlerConcurrency.
Import ApiThrottler.

(** Callers that reach [throttle] one after the other before any of
    them records its call; [estimates] are their token estimates.  When
    [throttle] sets no timer its body runs without giving up control, so
    this is what the calls of a batch started together do. *)
Definition admitAll (estimates : list Z) (late : Lateness) (w : World)
  : World :=
  fold_left (fun w estimatedTokens => throttle estimatedTokens late w)
            estimates w.

(** The answers then arrive one after the other, each [fst] milliseconds
    after the one before, and are recorded with [snd] tokens. *)
Definition recordAll (answers : list (N * Z)) (w : World) : World :=
  fold_left (fun w answer => recordApiCall (snd answer) (elapse (fst answer) w))
            answers w.

(** The time the answers take in all. *)
Definition totalLatency (answers : list (N * Z)) : Z :=
  fold_right (fun answer total => Z.of_N (fst answer) + total) 0 answers.

End ThrottlerConcurrency.

Module ThrottlerStates.
Import ApiThrottler.

(** Fifteen requests recorded in the same millisecond, twenty seconds
    ago. *)
Definition busy : World :=
  elapse 20000
    (calls (repeat (ThrottlerExamples.request 0 0) 15)
           (new defaultConfig 1000)).

End ThrottlerStates.

Module TokenInvariant.
Import ApiThrottler.

(** The instants that a sequence of calls pushes on the token queue, one
    per recorded token, oldest first. *)
Fixpoint recordedTokens (cs : list Call) (w : World) : list Z :=
  match cs with
  | [] => []
  | c :: rest =>
      let w' := call w c in
      repeat (clock w') (Z.to_nat (tokenCount c)) ++ recordedTokens rest w'
  end.

(** The tokens recorded in the minute that ends at [t]. *)
Definition tokensInWindow (tokens : list Z) (t : Z) : Z :=
  Z.of_nat (List.length (filter (inTrailingWindow t) tokens)).

(** The token queue holds the recorded tokens younger than some bound
    that is at least a minute old, no token lies in the future, and no
    trailing minute holds more tokens than the limit. *)
Record Inv (tokens : list Z) (w : World) : Prop :=
  { inv_token_limit : 0 <= tokensPerMinute (self w);
    inv_token_queue :
      exists b, b <= clock w - 60 * 1000
        /\ tokenQueue (self w) = filter (fun ts => b <? ts) tokens;
    inv_token_past : Forall (fun ts => ts <= clock w) tokens;
    inv_token_window :
      forall t, tokensInWindow tokens t <= tokensPerMinute (self w) }.

(** From now on there is room for [estimatedTokens] more tokens. *)
Definition Permit (tokens : list Z) (estimatedTokens : Z) (w : World)
  : Prop :=
  forall t, clock w <= t ->
    tokensInWindow tokens t + Z.max 0 estimatedTokens
    <= tokensPerMinute (self w).

End TokenInvariant.

(** ** GeminiService and GeminiApi: requests through the throttler *)

Module GeminiService.
Import Js ApiThrottler ChunkSummarizerNode.

(** What the client library makes of a request: the text of the
    response, or an error, given by
    [error instanceof Error ? error.message : String(error)]. *)
Inductive Reply : Type :=
| Text (text : str)
| Failure (errorMessage : str).

(** A request and what its environment does to it: the caller comes
    [idle] milliseconds after the request before, the timers of
    [throttle] are [late], and the reply takes [latency] milliseconds.
    [maxOutputTokens] is [None] when the option is left out. *)
Record Request : Type :=
  { prompt : str;
    maxOutputTokens : option Z;
    idle : N;
    late : Lateness;
    latency : N;
    reply : Reply }.

(** [Math.ceil(prompt.length / 4) + maxOutputTokens], with the default
    of 2048 output tokens. *)
Definition estimatedTotalTokens (r : Request) : Z :=
  let maxOutputTokens :=
    match maxOutputTokens r with
    | Some n => n
    | None => 2048
    end in
  let estimatedPromptTokens := (len (prompt r) + 3) / 4 in
  estimatedPromptTokens + maxOutputTokens.

(** [generateContent]: the throttler in its environment after the
    request, and how the promise settles. *)
Definition generateContent (r : Request) (w : World) : World * Outcome :=
  let w1 :=
    elapse (latency r) (throttle (estimatedTotalTokens r) (late r) w) in
  match reply r with
  | Text text => (recordApiCall (estimatedTotalTokens r) w1, Resolved text)
  | Failure errorMessage =>
      (w1,
       Rejected
         (ThrownError
            (ErrorOf (of_string "Failed to generate content: "
                      ++ errorMessage))))
  end.

Definition request (w : World) (r : Request) : World :=
  fst (generateContent r (elapse (idle r) w)).

(** Requests made one after the other on one service. *)
Definition requests (rs : list Request) (w : World) : World :=
  fold_left request rs w.

Definition isAnswered (r : Request) : bool :=
  match reply r with
  | Text _ => true
  | Failure _ => false
  end.

(** The instants that a sequence of requests pushes on the token
    queue, one per recorded token, oldest first. *)
Fixpoint recordedTokens (rs : list Request) (w : World) : list Z :=
  match rs with
  | [] => []
  | r :: rest =>
      let w' := request w r in
      (if isAnswered r
       then repeat (clock w') (Z.to_nat (estimatedTotalTokens r))
       else [])
        ++ recordedTokens rest w'
  end.

End GeminiService.

Module GeminiApi.
Import Js ApiThrottler ChunkSummarizerNode.

(** What the client library makes of a request: the text of the
    response, or what it throws. *)
Inductive Reply : Type :=
| Text (text : str)
| Failure (error : Thrown).

Record Request : Type :=
  { prompt : str;
    maxOutputTokens : option Z;
    idle : N;
    late : Lateness;
    latency : N;
    reply : Reply }.

(** [Math.ceil(prompt.length / 4)] *)
Definition estimatedPromptTokens (r : Request) : Z :=
  (len (prompt r) + 3) / 4.

Definition estimatedTotalTokens (r : Request) : Z :=
  let maxOutputTokens :=
    match maxOutputTokens r with
    | Some n => n
    | None => 2048
    end in
  estimatedPromptTokens r + maxOutputTokens.

(** [generateContent]: the tokens recorded are the estimate of the
    prompt and [Math.ceil(text.length / 4)] for the response; an error
    is thrown on as it is. *)
Definition generateContent (r : Request) (w : World) : World * Outcome :=
  let w1 :=
    elapse (latency r) (throttle (estimatedTotalTokens r) (late r) w) in
  match reply r with
  | Text text =>
      let responseTokens := (len text + 3) / 4 in
      let totalTokens := estimatedPromptTokens r + responseTokens in
      (recordApiCall totalTokens w1, Resolved text)
  | Failure error => (w1, Rejected error)
  end.

Definition request (w : World) (r : Request) : World :=
  fst (generateContent r (elapse (idle r) w)).

Definition requests (rs : list Request) (w : World) : World :=
  fold_left request rs w.

Definition isAnswered (r : Request) : bool :=
  match reply r with
  | Text _ => true
  | Failure _ => false
  end.

End GeminiApi.

Module ServiceExamples.
Import Js.

(** A request of 400 characters that is answered after 900
    milliseconds. *)
Definition answered : GeminiService.Request :=
  {| GeminiService.prompt := concat (repeat (of_string "word ") 80);
     GeminiService.maxOutputTokens := None;
     GeminiService.idle := 100;
     GeminiService.late := ThrottlerExamples.onTime;
     GeminiService.latency := 900;
     GeminiService.reply := GeminiService.Text (of_string "a summary") |}.

(** The same request, refused after 30 milliseconds. *)
Definition refused : GeminiService.Request :=
  {| GeminiService.prompt := concat (repeat (of_string "word ") 80);
     GeminiService.maxOutputTokens := None;
     GeminiService.idle := 100;
     GeminiService.late := ThrottlerExamples.onTime;
     GeminiService.latency := 30;
     GeminiService.reply :=
       GeminiService.Failure (of_string "quota exceeded") |}.

Definition answeredByApi : GeminiApi.Request :=
  {| GeminiApi.prompt := concat (repeat (of_string "word ") 80);
     GeminiApi.maxOutputTokens := Some 8192;
     GeminiApi.idle := 100;
     GeminiApi.late := ThrottlerExamples.onTime;
     GeminiApi.latency := 900;
     GeminiApi.reply := GeminiApi.Text (of_string "a summary") |}.

End ServiceExamples.

Module RetryShape.

(** [Math.pow(2, attemptCount) * 1000], the delay after the
    [attemptCount]-th failed attempt. *)
Definition backoffMs (attemptCount : nat) : Z :=
  2 ^ Z.of_nat attemptCount * 1000.

End RetryShape.

Module PackerBudget.
Import Js BaseChunkingStrategy.

(** The estimated tokens of the sentences of a chunk, as the packer
    adds them up. *)
Definition sentenceTokens (group : list str) : Z :=
  fold_right (fun sentence total => estimateTokens sentence + total) 0 group.

(** A chunk was closed only because the sentence that follows it did
    not fit. *)
Fixpoint greedy (size : Num.num) (groups : list (list str)) : Prop :=
  match groups with
  | [] => True
  | group :: rest =>
      match rest with
      | [] => True
      | next :: _ =>
          Num.Zgtb (sentenceTokens group + estimateTokens (hd [] next)) size
          = true
      end
      /\ greedy size rest
  end.

End PackerBudget.

Module ContextWindows.

(** A number of chunks that is at least [c]; it may be infinite. *)
Definition atLeast (c : Q) (x : Num.num) : Prop :=
  match x with
  | Num.Fin k => (c <= k)%Q
  | Num.PInf => True
  | Num.NaN => False
  end.

(** A text with a character that is no white space. *)
Definition hasVisible (s : Js.str) : bool :=
  existsb (fun c => negb (Js.isWhitespace c)) s.

End ContextWindows.

(** ** The application configuration *)

Module AppConfig.
Import Js.

(** The fields that [parseCommandLineArgs] sets; [samplingMethod] is the
    string of the source. *)
Record AppConfig : Type :=
  { maxTranscriptLength : Z;
    samplingMethod : str;
    longVideoMode : bool;
    highQualityMode : bool }.

Definition defaultConfig : AppConfig :=
  {| maxTranscriptLength := 300000;
     samplingMethod := of_string "intelligent";
     longVideoMode := false;
     highQualityMode := false |}.

(** [args.includes(flag)] *)
Definition includes (args : list str) (flag : str) : bool :=
  existsb (eqb flag) args.

Definition parseCommandLineArgs (args : list str) : AppConfig :=
  let longVideoMode := includes args (of_string "--long-video") in
  let highQualityMode := includes args (of_string "--high-quality") in
  {| maxTranscriptLength :=
       if highQualityMode then 500000
       else if longVideoMode then 120000
       else maxTranscriptLength defaultConfig;
     samplingMethod :=
       if includes args (of_string "--sample-uniform")
       then of_string "uniform"
       else if includes args (of_string "--sample-bookend")
       then of_string "bookend"
       else samplingMethod defaultConfig;
     longVideoMode := longVideoMode;
     highQualityMode := highQualityMode |}.

End AppConfig.

(** ** The strategies behind their interface *)

Module IChunkingStrategy.
Import Js.

(** An object that implements [IChunkingStrategy], by its class. *)
Inductive Strategy : Type := Uniform | Bookend | Intelligent.

(** [strategy.chunkTranscript(transcript, maxLength)]; [None] stands for
    the [TypeError] that the Intelligent strategy can raise. *)
Definition chunkTranscript (toLowerCase : str -> str) (strategy : Strategy)
           (transcript : str) (maxLength : Q) : option (list str) :=
  match strategy with
  | Uniform =>
      Some (UniformSamplingStrategy.chunkTranscript transcript maxLength)
  | Bookend =>
      Some (BookendSamplingStrategy.chunkTranscript transcript maxLength)
  | Intelligent =>
      IntelligentSamplingStrategy.chunkTranscript toLowerCase transcript
        maxLength
  end.

End IChunkingStrategy.

(** ** TranscriptChunkerNode *)

Module TranscriptChunkerNode.
Import Js IChunkingStrategy.

Definition createStrategyFromName (strategyName : str) : Strategy :=
  if eqb strategyName (of_string "uniform") then Uniform
  else if eqb strategyName (of_string "bookend") then Bookend
  else if eqb strategyName (of_string "intelligent") then Intelligent
  else Intelligent.

(** What [exec] throws: its own error, [No transcript available for
    chunking], or the [TypeError] of the strategy. *)
Inductive Error : Type := NoTranscript | TypeError.

(** The part of the shared store the node touches; [longVideoMode] is
    [None] while the field is not set. *)
Record YoutubeSharedStore : Type :=
  { transcript : option str;
    longVideoMode : option bool;
    chunks : option (list str) }.

Section Node.

Variable toLowerCase : str -> str.
(** The two fields of the node. *)
Variable maxTranscriptLength : Z.
Variable strategy : Strategy.

(** [exec]; [!transcript] holds of [undefined] and of the empty
    string. *)
Definition exec (transcript : option str) : list str + Error :=
  match transcript with
  | None | Some [] => inr NoTranscript
  | Some transcript =>
      match chunkTranscript toLowerCase strategy transcript
              (inject_Z maxTranscriptLength) with
      | Some chunks => inl chunks
      | None => inr TypeError
      end
  end.

Definition isLongVideo (transcript : option str) : bool :=
  match transcript with
  | None | Some [] => false
  | Some transcript => maxTranscriptLength <? len transcript
  end.

(** [post]: the store after it; the action returned is always
    [default]. *)
Definition post (shared : YoutubeSharedStore) (execRes : list str)
  : YoutubeSharedStore :=
  {| transcript := transcript shared;
     longVideoMode :=
       if isLongVideo (transcript shared) then Some true
       else longVideoMode shared;
     chunks := Some execRes |}.

(** [prep], [exec] and [post] in a row; an error of [exec] leaves the
    store as it is. *)
Definition run (shared : YoutubeSharedStore)
  : YoutubeSharedStore + Error :=
  match exec (transcript shared) with
  | inl execRes => inl (post shared execRes)
  | inr e => inr e
  end.

End Node.

End TranscriptChunkerNode.

(** ** ChunkingService *)

Module ChunkingService.
Import Js IChunkingStrategy.

(** [this.strategies.get(name)] for the map of the constructor. *)
Definition strategies (name : str) : option Strategy :=
  if eqb name (of_string "intelligent") then Some Intelligent
  else if eqb name (of_string "bookend") then Some Bookend
  else if eqb name (of_string "uniform") then Some Uniform
  else None.

(** The first of the strategies named intelligent and uniform that is
    registered; the first one is. *)
Definition getDefaultStrategy : Strategy :=
  match strategies (of_string "intelligent") with
  | Some strategy => strategy
  | None =>
      match strategies (of_string "uniform") with
      | Some strategy => strategy
      | None => Intelligent
      end
  end.

(** [chunkTranscript(transcript, strategy, maxLength)]; an argument
    left out is [None]. *)
Definition chunkTranscript (toLowerCase : str -> str) (transcript : str)
           (strategy : option str) (maxLength : option Q)
  : option (list str) :=
  let strategy :=
    match strategy with
    | Some name => name
    | None => of_string "intelligent"
    end in
  let maxLength :=
    match maxLength with
    | Some n => n
    | None => 100000%Q
    end in
  let chunkingStrategy :=
    match strategies strategy with
    | Some found => found
    | None => getDefaultStrategy
    end in
  IChunkingStrategy.chunkTranscript toLowerCase chunkingStrategy transcript
    maxLength.

End ChunkingService.

(** ** YouTubeSummarizerFlowBuilder: the nodes as [build] makes them *)

Module YouTubeSummarizerFlowBuilder.

(** The defaults of the two options. *)
Definition maxConcurrentSummaries : Z := 2.
Definition maxRetries : Z := 3.

(** [new TranscriptChunkerNode(this.config.maxTranscriptLength,
    this.config.samplingMethod)]: the two fields of the node. *)
Definition transcriptChunker (config : AppConfig.AppConfig)
  : Z * IChunkingStrategy.Strategy :=
  (AppConfig.maxTranscriptLength config,
   TranscriptChunkerNode.createStrategyFromName
     (AppConfig.samplingMethod config)).

End YouTubeSummarizerFlowBuilder.

(** ** Texts that keep their parts *)

Module TextContent.
Import Js.

(** The pieces of a text that are kept, in their order and without
    overlap, in another text. *)
Inductive keptInOrder : list str -> str -> Prop :=
| kept_nil (text : str) : keptInOrder [] text
| kept_cons (before piece : str) (pieces : list str) (rest : str) :
    keptInOrder pieces rest ->
    keptInOrder (piece :: pieces) (before ++ piece ++ rest).

End TextContent.

(** ** SummaryFormatterNode *)

Module SummaryFormatterNode.
Import Js.

(** A line feed. *)
Definition nl : str := [10%N].

Definition isHash (c : char) : bool := (c =? 35)%N.

(** Line terminators: the dot of a regular expression skips them, and
    with the flag [m] a line starts after each of them and ends before
    it. *)
Definition isLineTerminator (c : char) : bool :=
  ((c =? 10) || (c =? 13) || (c =? 8232) || (c =? 8233))%N.

(** One attempt of [#+\s.+$] at the head of [s]: a run of hashes, one
    white space character, and at least one character of the line.  The
    run of hashes is taken whole (a shorter run is followed by a hash,
    which is no white space), and the characters of the line are taken
    up to its end, where [$] holds. *)
Definition headerAt (s : str) : bool :=
  match takeWhile isHash s with
  | [] => false
  | _ :: _ =>
      match dropWhile isHash s with
      | c :: d :: _ => isWhitespace c && negb (isLineTerminator d)
      | _ => false
      end
  end.

(** [/^#+\s.+$/m.test(summary)]: an attempt at every start of a line. *)
Fixpoint hasHeadersFrom (lineStart : bool) (s : str) : bool :=
  match s with
  | [] => false
  | c :: r =>
      (lineStart && headerAt s) || hasHeadersFrom (isLineTerminator c) r
  end.

Definition hasHeaders (summary : str) : bool := hasHeadersFrom true summary.

Definition isLineFeed (c : char) : bool := (c =? 10)%N.

(** [summary.split(/\n{2,}/)]: a match is a whole run of two line feeds
    or more.  [cur] is the piece being collected, reversed; [skipping]
    tells that the scan is inside a match. *)
Fixpoint splitGo (skipping : bool) (cur : str) (s : str) : list str :=
  match s with
  | [] => [rev cur]
  | c :: r =>
      if skipping && isLineFeed c then splitGo true [] r
      else if isLineFeed c
              && match r with
                 | d :: _ => isLineFeed d
                 | [] => false
                 end
      then rev cur :: splitGo true [] r
      else splitGo false (c :: cur) r
  end.

Definition splitParagraphs (summary : str) : list str :=
  splitGo false [] summary.

(** [`${paragraphs[i]}`]: an element that does not exist is printed as
    [undefined]. *)
Definition itemText (l : list str) (i : Z) : str :=
  match (if i <? 0 then None else nth_error l (Z.to_nat i)) with
  | Some x => x
  | None => of_string "undefined"
  end.

(** The body of [mainContent.map(para => ...)] *)
Definition bullet (para : str) : str :=
  if startsWith (trim para) (of_string "-")
     || startsWith (trim para) (of_string "*")
  then para
  else if len para <? 100 then of_string "- " ++ para
  else para.

Definition addSectionsToLongSummary (paragraphs : list str) : str :=
  let result :=
    of_string "## Overview" ++ nl ++ nl ++ itemText paragraphs 0
      ++ nl ++ nl in
  let mainContent := slice paragraphs 1 (-1) in
  let result :=
    if 0 <? Z.of_nat (List.length mainContent) then
      (result ++ of_string "## Key Points" ++ nl ++ nl)
        ++ join (nl ++ nl) (map bullet mainContent)
        ++ nl ++ nl
    else result in
  if 2 <? Z.of_nat (List.length paragraphs) then
    result ++ of_string "## Conclusion" ++ nl ++ nl
      ++ itemText paragraphs (Z.of_nat (List.length paragraphs) - 1)
  else result.

Definition title : str := of_string "# YouTube Video Summary" ++ nl ++ nl.

(** The footer; [localeString] is [new Date().toLocaleString()]. *)
Definition footer (localeString : str) : str :=
  nl ++ nl ++ of_string "---" ++ nl ++ of_string "*Summary generated on "
    ++ localeString ++ of_string "*".

Definition enhanceSummary (localeString : str) (summary : str) : str :=
  let enhanced := title in
  let hasHeaders := hasHeaders summary in
  let enhanced :=
    if negb hasHeaders then
      let paragraphs := splitParagraphs summary in
      if 3 <? Z.of_nat (List.length paragraphs) then
        enhanced ++ addSectionsToLongSummary paragraphs
      else enhanced ++ of_string "## Summary" ++ nl ++ nl ++ summary
    else enhanced ++ summary in
  enhanced ++ footer localeString.

(** The error of [exec], [No summary available for formatting]. *)
Inductive Error : Type := NoSummary.

(** [exec]; [!summary] holds of [undefined] and of the empty string. *)
Definition exec (localeString : str) (summary : option str) : str + Error :=
  match summary with
  | None | Some [] => inr NoSummary
  | Some summary => inl (enhanceSummary localeString summary)
  end.

End SummaryFormatterNode.

(** ** SummaryReducerNode *)

Module SummaryReducerNode.
Import Js.

(** An [Error] object, by its message.  [FailedToGenerate m] is the
    error made by [exec] itself after the loop, with the message
    [Failed to generate final summary after m attempts];
    [NoChunkSummaries] the one it throws at once,
    [No chunk summaries available for reduction]. *)
Inductive Error : Type :=
| ErrorOf (message : str)
| FailedToGenerate (maxRetries : Z)
| NoChunkSummaries.

(** What a rejected call throws: an [Error], or another value given by
    its [String(value)]. *)
Inductive Thrown : Type :=
| ThrownError (e : Error)
| ThrownValue (text : str).

(** [error instanceof Error ? error : new Error(String(error))] *)
Definition toError (t : Thrown) : Error :=
  match t with
  | ThrownError e => e
  | ThrownValue text => ErrorOf text
  end.

Inductive Outcome : Type :=
| Resolved (summary : str)
| Rejected (t : Thrown).

(** The generative service as seen by [exec]: the outcome of its
    [attempt]-th call of [generateContent] (counted from 0) for a
    prompt. *)
Definition Backend : Type := nat -> str -> Outcome.

Definition quote : str := [34%N].
Definition nl : str := [10%N].

(** The decimal digits of a count. *)
Definition showZ (n : Z) : str :=
  of_string (NilZero.string_of_int (Z.to_int n)).

Definition promptHead : str :=
  (of_string "You are creating a high-quality, comprehensive summary of a YouTube video from detailed summaries of different sections.

The input contains ")%list.

Definition promptMiddle : str :=
  (of_string " summary sections that represent different parts of the video in sequential order. Each section contains important details that should be preserved.

Your task is to combine these section summaries into a single, well-organized document that captures all significant information and presents it in a cohesive, readable format.

Guidelines:
- Create a thorough, detailed summary with proper structure and organization
- Begin with an overview of the main topics and key takeaways
- Organize information logically by topic while respecting the original flow of information
- Preserve chronological or sequential relationships between concepts where they exist
- Eliminate redundancies while preserving all important details and nuance
- Create a cohesive narrative with clear transitions between topics
- Maintain the depth and substance from all sections - the more chunks there are, the more detailed your summary should be
- Structure with clear sections, headings, and subheadings
- Be factual and objective - retain all key information, explanations, examples, and insights
- Format the final summary with Markdown for optimal readability:
  * Use ## for main headings and ### for subheadings
  * Use bullet points for lists of related items
  * Use numbered lists for sequential steps or prioritized items
  * Use **bold** for emphasis on important terms or concepts
- Do not mention that this is based on multiple summaries or sections
- Do not refer to "
    ++ quote
    ++ of_string "the video"
    ++ quote
    ++ of_string " or "
    ++ quote
    ++ of_string "the speaker"
    ++ quote
    ++ of_string " - present information directly
- Include all significant points, technical terms, proper nouns, and quantitative data

If the content covers distinct topics, create separate sections with appropriate headings.

SECTION SUMMARIES:

")%list.

Definition promptTail : str :=
  (of_string "

COMPREHENSIVE SUMMARY:")%list.

Section Prompt.

(** [String(Math.round((index / (length - 1)) * 100))], for an index and
    a length; the rounding of the floating-point quotient is left to
    this parameter. *)
Variable approxPercentage : Z -> Z -> str.

Definition positionIndicator (index length : Z) : str :=
  if index =? 0 then of_string "Beginning"
  else if index =? length - 1 then of_string "End"
  else approxPercentage index length ++ of_string "% through".

(** The body of [chunkSummaries.map((summary, index) => ...)] *)
Definition section (length : Z) (summary : str) (index : Z) : str :=
  of_string "SECTION " ++ showZ (index + 1) ++ of_string " ["
    ++ positionIndicator index length ++ of_string "]:" ++ nl
    ++ summary ++ nl.

Fixpoint sectionsFrom (length : Z) (chunkSummaries : list str) (index : Z)
  : list str :=
  match chunkSummaries with
  | [] => []
  | summary :: rest =>
      section length summary index :: sectionsFrom length rest (index + 1)
  end.

Definition createSummaryReducePrompt (chunkSummaries : list str) : str :=
  let length := Z.of_nat (List.length chunkSummaries) in
  let combinedSummaries := join nl (sectionsFrom length chunkSummaries 0) in
  promptHead ++ showZ length ++ promptMiddle ++ combinedSummaries
    ++ promptTail.

(** What [exec] did: the prompts it sent, the back-off delays it slept
    (milliseconds), and how it ended. *)
Inductive Completion : Type :=
| Returned (summary : str)
| Threw (e : Error).

Record Attempts : Type :=
  { prompts : list str; backoffs : list Z; completion : Completion }.

(** [while (attemptCount < this._maxRetries)]; the loop runs at most
    [maxRetries] rounds, which [fuel] counts. *)
Fixpoint retryLoop (fuel : nat) (maxRetries : Z) (generateContent : Backend)
         (chunkSummaries : list str) (attemptCount : Z)
         (lastError : option Error) (prompts : list str) (backoffs : list Z)
  : Attempts :=
  let giveUp :=
    {| prompts := prompts; backoffs := backoffs;
       completion :=
         Threw match lastError with
               | Some e => e
               | None => FailedToGenerate maxRetries
               end |} in
  match fuel with
  | O => giveUp
  | S fuel' =>
      if attemptCount <? maxRetries then
        let attemptCount' := attemptCount + 1 in
        let prompt := createSummaryReducePrompt chunkSummaries in
        match generateContent (List.length prompts) prompt with
        | Resolved summary =>
            {| prompts := prompts ++ [prompt]; backoffs := backoffs;
               completion := Returned summary |}
        | Rejected error =>
            let backoffMs := 2 ^ attemptCount' * 1000 in
            retryLoop fuel' maxRetries generateContent chunkSummaries
                      attemptCount' (Some (toError error))
                      (prompts ++ [prompt]) (backoffs ++ [backoffMs])
        end
      else giveUp
  end.

(** [exec(chunkSummaries)]; [None] is [undefined]. *)
Definition exec (maxRetries : Z) (generateContent : Backend)
           (chunkSummaries : option (list str)) : Attempts :=
  match chunkSummaries with
  | None | Some [] =>
      {| prompts := []; backoffs := []; completion := Threw NoChunkSummaries |}
  | Some chunkSummaries =>
      retryLoop (Z.to_nat maxRetries) maxRetries generateContent
                chunkSummaries 0 None [] []
  end.

End Prompt.

End SummaryReducerNode.


(** * Properties *)

(** ** Rounding to a double *)

Section Rounding.

Lemma pow2_pos (e : Z) : (0 < Num.pow2 e)%Q.
Proof. apply Qpower_0_lt. reflexivity. Qed.

Lemma pow2_add (a b : Z) : (Num.pow2 (a + b) == Num.pow2 a * Num.pow2 b)%Q.
Proof. apply Qpower_plus. discriminate. Qed.

Lemma pow2_Z (e : Z) : 0 <= e -> (Num.pow2 e == inject_Z (2 ^ e))%Q.
Proof. intros H. unfold Num.pow2. now rewrite Zpower_Qpower. Qed.

Lemma ilog2_spec (q : Q) :
  (0 < q)%Q ->
  (Num.pow2 (Num.ilog2 q) <= q /\ q < Num.pow2 (Num.ilog2 q + 1))%Q.
Proof.
  intros Hq. destruct q as [a b].
  assert (Ha : 0 < a) by (unfold Qlt in Hq; simpl in Hq; lia).
  unfold Num.ilog2. cbn [Qnum Qden].
  set (la := Z.log2 a). set (lb := Z.log2 (Z.pos b)).
  destruct (Z.log2_spec a Ha) as [A1 A2]. fold la in A1, A2.
  destruct (Z.log2_spec (Z.pos b) ltac:(lia)) as [B1 B2]. fold lb in B1, B2.
  assert (Hla : 0 <= la) by apply Z.log2_nonneg.
  assert (Hlb : 0 <= lb) by apply Z.log2_nonneg.
  assert (Hab : (inject_Z a == (a # b) * inject_Z (Z.pos b))%Q).
  { unfold Qeq, Qmult, inject_Z. cbn [Qnum Qden]. lia. }
  assert (Hb0 : (0 < inject_Z (Z.pos b))%Q) by reflexivity.
  assert (QA1 : (Num.pow2 la <= inject_Z a)%Q)
    by (rewrite pow2_Z by lia; rewrite <- Zle_Qle; exact A1).
  assert (QA2 : (inject_Z a < Num.pow2 (la + 1))%Q)
    by (rewrite pow2_Z by lia; rewrite <- Zlt_Qlt;
        replace (la + 1) with (Z.succ la) by lia; exact A2).
  assert (QB1 : (Num.pow2 lb <= inject_Z (Z.pos b))%Q)
    by (rewrite pow2_Z by lia; rewrite <- Zle_Qle; exact B1).
  assert (QB2 : (inject_Z (Z.pos b) < Num.pow2 (lb + 1))%Q)
    by (rewrite pow2_Z by lia; rewrite <- Zlt_Qlt;
        replace (lb + 1) with (Z.succ lb) by lia; exact B2).
  set (q := (a # b)%Q) in *. set (B := inject_Z (Z.pos b)) in *.
  set (A := inject_Z a) in *.
  pose proof (pow2_pos (la - lb - 1)) as P0.
  pose proof (pow2_pos (la - lb)) as P1.
  pose proof (pow2_pos (la - lb + 1)) as P2.
  pose proof (pow2_pos lb) as P3.
  assert (U : (q < Num.pow2 (la - lb + 1))%Q).
  { assert (E : (Num.pow2 (la + 1) == Num.pow2 (la - lb + 1) * Num.pow2 lb)%Q)
      by (rewrite <- pow2_add; f_equiv; lia).
    apply Qnot_le_lt. intros C.
    assert (Num.pow2 (la - lb + 1) * Num.pow2 lb <= q * B)%Q.
    { apply Qle_trans with (Num.pow2 (la - lb + 1) * B)%Q.
      - apply Qmult_le_l; assumption.
      - apply Qmult_le_r; assumption. }
    rewrite <- E, <- Hab in H. apply (Qlt_not_le _ _ QA2 H). }
  assert (L : (Num.pow2 (la - lb - 1) < q)%Q).
  { assert (E : (Num.pow2 la == Num.pow2 (la - lb - 1) * Num.pow2 (lb + 1))%Q)
      by (rewrite <- pow2_add; f_equiv; lia).
    apply Qnot_le_lt. intros C.
    assert (q * B < Num.pow2 (la - lb - 1) * Num.pow2 (lb + 1))%Q.
    { apply Qle_lt_trans with (Num.pow2 (la - lb - 1) * B)%Q.
      - apply Qmult_le_r; assumption.
      - apply Qmult_lt_l; assumption. }
    rewrite <- E, <- Hab in H. apply (Qlt_not_le _ _ H QA1). }
  destruct (Qle_bool (Num.pow2 (la - lb)) q) eqn:E.
  - apply Qle_bool_iff in E. split; assumption.
  - replace (la - lb - 1 + 1) with (la - lb) by lia. split.
    + apply Qlt_le_weak. exact L.
    + apply Qnot_le_lt. intros C. apply Qle_bool_iff in C. congruence.
Qed.

Lemma nearestEven_bounds (x : Q) :
  (x - (1 # 2) <= inject_Z (Num.nearestEven x) <= x + (1 # 2))%Q.
Proof.
  unfold Num.nearestEven.
  pose proof (Qfloor_le x) as F1. pose proof (Qlt_floor x) as F2.
  rewrite inject_Z_plus in F2. change (inject_Z 1) with 1%Q in F2.
  set (f := Qfloor x) in *.
  destruct (Qcompare_spec (x - inject_Z f) (1 # 2)) as [E|E|E].
  - destruct (Z.even f); [|rewrite inject_Z_plus; change (inject_Z 1) with 1%Q];
      lra.
  - lra.
  - rewrite inject_Z_plus. change (inject_Z 1) with 1%Q. lra.
Qed.

Lemma roundPos_error (q : Q) :
  (0 < q)%Q ->
  (q * (1 - Num.unitRoundoff) <= Num.roundPos q <= q * (1 + Num.unitRoundoff))%Q.
Proof.
  intros Hq. unfold Num.roundPos. rewrite Qred_correct.
  destruct (ilog2_spec q Hq) as [L _].
  set (e := Num.ilog2 q - 52).
  pose proof (pow2_pos e) as Hp.
  assert (E : (Num.pow2 (Num.ilog2 q) == Num.pow2 52 * Num.pow2 e)%Q)
    by (rewrite <- pow2_add; f_equiv; unfold e; lia).
  rewrite E in L.
  pose proof (nearestEven_bounds (q / Num.pow2 e)) as [M1 M2].
  set (m := inject_Z (Num.nearestEven (q / Num.pow2 e))) in *.
  assert (Hs : (q / Num.pow2 e * Num.pow2 e == q)%Q).
  { field. intros C. rewrite C in Hp. discriminate Hp. }
  set (s := (q / Num.pow2 e)%Q) in *. set (p := Num.pow2 e) in *.
  assert (H52 : (Num.pow2 52 == inject_Z (2 ^ 52))%Q) by (apply pow2_Z; lia).
  rewrite H52 in L.
  assert (N1 : ((s - (1 # 2)) * p <= m * p)%Q)
    by (apply Qmult_le_r; assumption).
  assert (N2 : (m * p <= (s + (1 # 2)) * p)%Q)
    by (apply Qmult_le_r; assumption).
  unfold Num.unitRoundoff.
  change (inject_Z (2 ^ 52)) with (4503599627370496 # 1)%Q in L.
  change (1 # 2 ^ 53)%Q with (1 # 9007199254740992)%Q.
  split; nra.
Qed.

Lemma round_error (q : Q) :
  (0 < q)%Q ->
  (q * (1 - Num.unitRoundoff) <= Num.round q <= q * (1 + Num.unitRoundoff))%Q.
Proof.
  intros Hq. unfold Num.round. destruct q as [[|a|a] b].
  - discriminate Hq.
  - cbn [Qnum]. now apply roundPos_error.
  - discriminate Hq.
Qed.

Lemma round_pos (q : Q) : (0 < q)%Q -> (0 < Num.round q)%Q.
Proof.
  intros Hq. destruct (round_error q Hq) as [H _].
  eapply Qlt_le_trans; [|exact H].
  apply Qmult_lt_0_compat; [exact Hq | reflexivity].
Qed.

Lemma round_neg (q : Q) : (q < 0)%Q -> (Num.round q < 0)%Q.
Proof.
  intros Hq. unfold Num.round. destruct q as [[|a|a] b]; try discriminate Hq.
  cbn [Qnum].
  assert (H : (0 < - (Z.neg a # b))%Q) by reflexivity.
  destruct (roundPos_error _ H) as [H1 _].
  assert (0 < Num.roundPos (- (Z.neg a # b)))%Q.
  { eapply Qlt_le_trans; [|exact H1].
    apply Qmult_lt_0_compat; [exact H | reflexivity]. }
  lra.
Qed.

(** The same bounds with the constants written out. *)
Lemma round_within (q : Q) :
  (0 < q)%Q ->
  (q * (9007199254740991 # 9007199254740992) <= Num.round q
   /\ Num.round q <= q * (9007199254740993 # 9007199254740992))%Q.
Proof.
  intros Hq. destruct (round_error q Hq) as [H1 H2].
  unfold Num.unitRoundoff in H1, H2.
  change (1 # 2 ^ 53)%Q with (1 # 9007199254740992)%Q in H1, H2.
  split; lra.
Qed.

Lemma round_zero (q : Q) : (q == 0)%Q -> Num.round q = 0%Q.
Proof.
  intros H. unfold Num.round. destruct q as [[|a|a] b]; try reflexivity;
    unfold Qeq in H; simpl in H; lia.
Qed.

Lemma round_within_nonneg (q : Q) :
  (0 <= q)%Q ->
  (q * (9007199254740991 # 9007199254740992) <= Num.round q
   /\ Num.round q <= q * (9007199254740993 # 9007199254740992))%Q.
Proof.
  intros Hq. destruct (Qlt_le_dec 0 q) as [H|H].
  - now apply round_within.
  - assert (E : (q == 0)%Q) by lra.
    rewrite (round_zero q E). split; lra.
Qed.

End Rounding.

Section RoundingOrder.

Lemma pow2_le (a b : Z) : a <= b -> (Num.pow2 a <= Num.pow2 b)%Q.
Proof. intros H. apply Qpower_le_compat_l; [exact H | discriminate]. Qed.

Lemma nearestEven_floor (x : Q) :
  Qfloor x <= Num.nearestEven x <= Qfloor x + 1.
Proof.
  unfold Num.nearestEven.
  destruct (Qcompare _ _); [destruct (Z.even _)| |]; lia.
Qed.

Lemma nearestEven_mono (x y : Q) :
  (x <= y)%Q -> Num.nearestEven x <= Num.nearestEven y.
Proof.
  intros H. pose proof (Qfloor_resp_le x y H) as Hf.
  pose proof (nearestEven_floor x) as Bx.
  pose proof (nearestEven_floor y) as By.
  destruct (Z.eq_dec (Qfloor x) (Qfloor y)) as [E|E]; [|lia].
  unfold Num.nearestEven in *. rewrite <- E in *.
  destruct (Qcompare_spec (x - inject_Z (Qfloor x)) (1 # 2)) as [Cx|Cx|Cx];
    destruct (Qcompare_spec (y - inject_Z (Qfloor x)) (1 # 2)) as [Cy|Cy|Cy];
    try destruct (Z.even (Qfloor x)); try lia; exfalso; lra.
Qed.

Lemma nearestEven_Z (x : Q) (z : Z) :
  (x == inject_Z z)%Q -> Num.nearestEven x = z.
Proof.
  intros H. unfold Num.nearestEven.
  assert (Hf : Qfloor x = z) by (rewrite H; apply Qfloor_Z).
  rewrite Hf.
  destruct (Qcompare_spec (x - inject_Z z) (1 # 2)) as [C|C|C];
    try reflexivity; exfalso; lra.
Qed.

Lemma ilog2_mono (x y : Q) :
  (0 < x)%Q -> (x <= y)%Q -> Num.ilog2 x <= Num.ilog2 y.
Proof.
  intros Hx Hxy.
  destruct (ilog2_spec x Hx) as [X1 _].
  destruct (ilog2_spec y ltac:(lra)) as [_ Y2].
  destruct (Z_le_gt_dec (Num.ilog2 x) (Num.ilog2 y)) as [H|H]; [exact H|].
  pose proof (pow2_le (Num.ilog2 y + 1) (Num.ilog2 x) ltac:(lia)). lra.
Qed.

(** The rounded value stays in the binade of the exact one. *)
Lemma roundPos_binade (q : Q) :
  (0 < q)%Q ->
  (Num.pow2 (Num.ilog2 q) <= Num.roundPos q <= Num.pow2 (Num.ilog2 q + 1))%Q.
Proof.
  intros Hq. unfold Num.roundPos. rewrite Qred_correct.
  destruct (ilog2_spec q Hq) as [L U].
  set (e := Num.ilog2 q - 52).
  pose proof (pow2_pos e) as Hp.
  assert (E1 : (Num.pow2 (Num.ilog2 q) == inject_Z (2 ^ 52) * Num.pow2 e)%Q).
  { rewrite <- (pow2_Z 52) by lia. rewrite <- pow2_add. f_equiv.
    unfold e. lia. }
  assert (E2 : (Num.pow2 (Num.ilog2 q + 1)
                == inject_Z (2 ^ 53) * Num.pow2 e)%Q).
  { rewrite <- (pow2_Z 53) by lia. rewrite <- pow2_add. f_equiv.
    unfold e. lia. }
  rewrite E1 in L |- *. rewrite E2 in U |- *.
  assert (S1 : (inject_Z (2 ^ 52) <= q / Num.pow2 e)%Q)
    by (apply Qle_shift_div_l; assumption).
  assert (S2 : (q / Num.pow2 e <= inject_Z (2 ^ 53))%Q)
    by (apply Qle_shift_div_r; [assumption | lra]).
  apply nearestEven_mono in S1, S2.
  rewrite (nearestEven_Z (inject_Z (2 ^ 52)) (2 ^ 52)) in S1 by reflexivity.
  rewrite (nearestEven_Z (inject_Z (2 ^ 53)) (2 ^ 53)) in S2 by reflexivity.
  rewrite Zle_Qle in S1, S2.
  split; apply Qmult_le_r; assumption.
Qed.

Lemma roundPos_mono (x y : Q) :
  (0 < x)%Q -> (x <= y)%Q -> (Num.roundPos x <= Num.roundPos y)%Q.
Proof.
  intros Hx Hxy. assert (Hy : (0 < y)%Q) by lra.
  pose proof (ilog2_mono x y Hx Hxy) as Hl.
  destruct (Z.eq_dec (Num.ilog2 x) (Num.ilog2 y)) as [E|E].
  - unfold Num.roundPos. rewrite !Qred_correct, E.
    set (e := Num.ilog2 y - 52).
    pose proof (pow2_pos e) as Hp.
    apply Qmult_le_r; [exact Hp|]. rewrite <- Zle_Qle.
    apply nearestEven_mono. apply Qmult_le_r; [|exact Hxy].
    now apply Qinv_lt_0_compat.
  - destruct (roundPos_binade x Hx) as [_ U].
    destruct (roundPos_binade y Hy) as [L _].
    pose proof (pow2_le (Num.ilog2 x + 1) (Num.ilog2 y) ltac:(lia)). lra.
Qed.

(** Rounding keeps the order. *)
Lemma round_mono (x y : Q) :
  (x <= y)%Q -> (Num.round x <= Num.round y)%Q.
Proof.
  intros H.
  destruct (Qlt_le_dec 0 x) as [Hx|Hx].
  - assert (Hy : (0 < y)%Q) by lra.
    unfold Num.round.
    destruct x as [[|a|a] b]; try discriminate Hx.
    destruct y as [[|c|c] d]; try discriminate Hy.
    cbn [Qnum]. now apply roundPos_mono.
  - destruct (Qlt_le_dec 0 y) as [Hy|Hy].
    + pose proof (round_pos y Hy).
      destruct (Qlt_le_dec x 0) as [Hx'|Hx'].
      * pose proof (round_neg x Hx'). lra.
      * rewrite (round_zero x) by lra. lra.
    + destruct (Qlt_le_dec y 0) as [Hy'|Hy'].
      * assert (Hx' : (x < 0)%Q) by lra.
        unfold Num.round.
        destruct x as [[|a|a] b]; try discriminate Hx'.
        destruct y as [[|c|c] d]; try discriminate Hy'.
        cbn [Qnum].
        assert (M : (Num.roundPos (- (Z.neg c # d))
                     <= Num.roundPos (- (Z.neg a # b)))%Q).
        { apply roundPos_mono; [reflexivity|].
          apply Qopp_le_compat. exact H. }
        lra.
      * rewrite (round_zero y) by lra.
        destruct (Qlt_le_dec x 0) as [Hx'|Hx'].
        -- pose proof (round_neg x Hx'). lra.
        -- rewrite (round_zero x) by lra. lra.
Qed.

(** An integer of at most 53 bits is a double. *)
Lemma round_Z (z : Z) :
  0 <= z <= 2 ^ 53 -> (Num.round (inject_Z z) == inject_Z z)%Q.
Proof.
  intros [H0 H1].
  destruct (Z.eq_dec z 0) as [->|Hz]; [reflexivity|].
  destruct (Z.eq_dec z (2 ^ 53)) as [->|Hm];
    [apply Qeq_bool_iff; vm_compute; reflexivity|].
  assert (Hq : (0 < inject_Z z)%Q)
    by (change 0%Q with (inject_Z 0); rewrite <- Zlt_Qlt; lia).
  unfold Num.round. destruct z as [|p|p]; try lia.
  cbn [inject_Z Qnum]. change (Z.pos p # 1)%Q with (inject_Z (Z.pos p)).
  set (z := Z.pos p) in *.
  unfold Num.roundPos. rewrite Qred_correct.
  destruct (ilog2_spec _ Hq) as [L _].
  set (l := Num.ilog2 (inject_Z z)) in *.
  assert (Hl : l <= 52).
  { destruct (Z_le_gt_dec l 52) as [H|H]; [exact H|].
    pose proof (pow2_le 53 l ltac:(lia)) as P.
    rewrite (pow2_Z 53) in P by lia.
    assert (inject_Z (2 ^ 53) <= inject_Z z)%Q by lra.
    rewrite <- Zle_Qle in H2. lia. }
  set (e := l - 52).
  pose proof (pow2_pos e) as Hp.
  assert (E : (Num.pow2 (- e) * Num.pow2 e == 1)%Q).
  { rewrite <- pow2_add. replace (- e + e) with 0 by lia. reflexivity. }
  assert (Hs : (inject_Z z / Num.pow2 e == inject_Z (z * 2 ^ (- e)))%Q).
  { rewrite inject_Z_mult, <- (pow2_Z (- e)) by (unfold e; lia).
    apply (Qmult_inj_r _ _ (Num.pow2 e)); [lra|].
    transitivity (inject_Z z); [field; lra|].
    rewrite <- Qmult_assoc, E. ring. }
  rewrite (nearestEven_Z _ _ Hs).
  rewrite inject_Z_mult, <- (pow2_Z (- e)) by (unfold e; lia).
  rewrite <- Qmult_assoc, E. ring.
Qed.

(** [Math.floor(a / b)] of two counts is the integer quotient. *)
Lemma floor_of_rounded_quotient (a b : Z) :
  0 <= a < 2 ^ 53 -> 0 < b ->
  Qfloor (Num.round (inject_Z a / inject_Z b)) = a / b.
Proof.
  intros [A0 A1] Hb.
  pose proof (Z.div_mod a b ltac:(lia)) as Hd.
  pose proof (Z.mod_pos_bound a b Hb) as Hm.
  pose proof (Z.div_pos a b A0 Hb) as Hk0.
  set (k := a / b) in *.
  assert (Hk1 : k <= a) by (unfold k; apply Z.div_le_upper_bound; nia).
  assert (QB : (0 < inject_Z b)%Q)
    by (change 0%Q with (inject_Z 0); rewrite <- Zlt_Qlt; lia).
  assert (QA : (0 <= inject_Z a)%Q)
    by (change 0%Q with (inject_Z 0); rewrite <- Zle_Qle; lia).
  assert (Hq0 : (0 <= inject_Z a / inject_Z b)%Q)
    by (apply Qle_shift_div_l; [exact QB | lra]).
  assert (Hlow : (inject_Z k <= inject_Z a / inject_Z b)%Q).
  { apply Qle_shift_div_l; [exact QB|].
    rewrite <- inject_Z_mult, <- Zle_Qle. nia. }
  assert (Hup : (inject_Z a + 1 <= inject_Z (k + 1) * inject_Z b)%Q).
  { change 1%Q with (inject_Z 1).
    rewrite <- inject_Z_plus, <- inject_Z_mult, <- Zle_Qle. nia. }
  assert (QA1 : (inject_Z a + 1 <= 9007199254740992)%Q).
  { change 1%Q with (inject_Z 1).
    change 9007199254740992%Q with (inject_Z (2 ^ 53)).
    rewrite <- inject_Z_plus, <- Zle_Qle. lia. }
  pose proof (round_mono _ _ Hlow) as M.
  rewrite (round_Z k) in M by lia.
  destruct (round_within_nonneg _ Hq0) as [_ R].
  assert (Hqb : (inject_Z a / inject_Z b * inject_Z b == inject_Z a)%Q)
    by (field; lra).
  set (q := (inject_Z a / inject_Z b)%Q) in *.
  set (r := Num.round q) in *.
  assert (Hlt : (r < inject_Z (k + 1))%Q).
  { apply Qnot_le_lt. intros C.
    assert (0 <= (q * (9007199254740993 # 9007199254740992)
                  - inject_Z (k + 1)) * inject_Z b)%Q
      by (apply Qmult_le_0_compat; lra).
    nra. }
  apply Z.le_antisymm.
  - assert (H : Qfloor r < k + 1); [|lia].
    rewrite Zlt_Qlt. eapply Qle_lt_trans; [apply Qfloor_le | exact Hlt].
  - rewrite <- (Qfloor_Z k). apply Qfloor_resp_le. exact M.
Qed.

End RoundingOrder.

Section NearestDouble.

(** No integer is nearer to [x] than [nearestEven x]. *)
Lemma nearestEven_nearest (x : Q) (j : Z) :
  (Qabs (inject_Z (Num.nearestEven x) - x) <= Qabs (inject_Z j - x))%Q.
Proof.
  destruct (nearestEven_bounds x) as [B1 B2].
  set (n := Num.nearestEven x) in *.
  destruct (Z.eq_dec j n) as [->|Hj]; [apply Qle_refl|].
  assert (Hfar : (inject_Z j <= inject_Z n - 1 \/ inject_Z n + 1 <= inject_Z j)%Q).
  { change 1%Q with (inject_Z 1).
    rewrite <- inject_Z_plus. unfold Qminus. rewrite <- inject_Z_opp.
    rewrite <- inject_Z_plus, <- !Zle_Qle. lia. }
  apply Qabs_case; intros _; apply Qabs_case; intros H; destruct Hfar; lra.
Qed.

(** The distance of [q > 0] from its rounded value, in units of the
    last place. *)
Lemma roundPos_scaled (q : Q) :
  (0 < q)%Q ->
  let p := Num.pow2 (Num.ilog2 q - 52) in
  let n := inject_Z (Num.nearestEven (q / p)) in
  (0 < p /\ Num.roundPos q == n * p /\ q / p * p == q
   /\ inject_Z (2 ^ 52) * p <= q /\ inject_Z (2 ^ 52) <= n <= inject_Z (2 ^ 53))%Q.
Proof.
  intros Hq p n. unfold Num.roundPos. rewrite Qred_correct. fold p n.
  pose proof (pow2_pos (Num.ilog2 q - 52)) as Hp. fold p in Hp.
  destruct (ilog2_spec q Hq) as [L U].
  assert (E1 : (Num.pow2 (Num.ilog2 q) == inject_Z (2 ^ 52) * p)%Q).
  { rewrite <- (pow2_Z 52) by lia. unfold p. rewrite <- pow2_add.
    f_equiv. lia. }
  assert (E2 : (Num.pow2 (Num.ilog2 q + 1) == inject_Z (2 ^ 53) * p)%Q).
  { rewrite <- (pow2_Z 53) by lia. unfold p. rewrite <- pow2_add.
    f_equiv. lia. }
  rewrite E1 in L. rewrite E2 in U.
  assert (S1 : (inject_Z (2 ^ 52) <= q / p)%Q)
    by (apply Qle_shift_div_l; assumption).
  assert (S2 : (q / p <= inject_Z (2 ^ 53))%Q)
    by (apply Qle_shift_div_r; [assumption | lra]).
  apply nearestEven_mono in S1, S2.
  rewrite (nearestEven_Z (inject_Z (2 ^ 52)) (2 ^ 52)) in S1 by reflexivity.
  rewrite (nearestEven_Z (inject_Z (2 ^ 53)) (2 ^ 53)) in S2 by reflexivity.
  rewrite Zle_Qle in S1, S2. fold n in S1, S2.
  split; [exact Hp|]. split; [reflexivity|]. split; [field; lra|].
  split; [exact L|]. split; assumption.
Qed.

Lemma roundPos_is_nearest (q : Q) (m e : Z) :
  (0 < q)%Q -> Z.abs m <= 2 ^ 53 ->
  (Qabs (Num.roundPos q - q) <= Qabs (inject_Z m * Num.pow2 e - q))%Q.
Proof.
  intros Hq Hm.
  destruct (roundPos_scaled q Hq) as (Hp & Er & Es & L & N1 & N2).
  set (e0 := Num.ilog2 q - 52) in *. set (p := Num.pow2 e0) in *.
  set (s := (q / p)%Q) in *.
  set (n := Num.nearestEven s) in *.
  rewrite Er.
  assert (Hgrid : forall j : Z,
             (Qabs (inject_Z n * p - q) <= Qabs (inject_Z j * p - q))%Q).
  { intros j. pose proof (nearestEven_nearest s j) as H. fold n in H.
    assert (E : forall k : Z,
               (Qabs (inject_Z k * p - q) == Qabs (inject_Z k - s) * p)%Q).
    { intros k. rewrite <- (Qabs_pos p) at 2 by lra.
      rewrite <- Qabs_Qmult. apply Qabs_wd. rewrite <- Es at 1. ring. }
    rewrite !E. apply Qmult_le_r; assumption. }
  destruct (Z_le_gt_dec e0 e) as [He|He].
  - (* a multiple of the last place *)
    assert (E : (inject_Z m * Num.pow2 e
                 == inject_Z (m * 2 ^ (e - e0)) * p)%Q).
    { rewrite inject_Z_mult, <- (pow2_Z (e - e0)) by lia.
      rewrite <- Qmult_assoc. unfold p. rewrite <- pow2_add.
      replace (e - e0 + e0) with e by lia. reflexivity. }
    rewrite E. apply Hgrid.
  - (* a number below the binade of [q] *)
    assert (Hf : (inject_Z m * Num.pow2 e <= inject_Z (2 ^ 52) * p)%Q).
    { assert (Hm' : (inject_Z m <= inject_Z (2 ^ 53))%Q)
        by (rewrite <- Zle_Qle; lia).
      pose proof (pow2_pos e) as Hpe.
      pose proof (pow2_le (e + 1) e0 ltac:(lia)) as Hle. fold p in Hle.
      rewrite pow2_add in Hle.
      change (Num.pow2 1) with 2%Q in Hle.
      change (inject_Z (2 ^ 53)) with 9007199254740992%Q in Hm'.
      change (inject_Z (2 ^ 52)) with 4503599627370496%Q.
      assert (inject_Z m * Num.pow2 e <= 9007199254740992 * Num.pow2 e)%Q
        by (apply Qmult_le_r; assumption).
      lra. }
    eapply Qle_trans; [apply (Hgrid (2 ^ 52))|].
    set (f := (inject_Z m * Num.pow2 e)%Q) in *.
    set (g := (inject_Z (2 ^ 52) * p)%Q) in *.
    apply Qabs_case; intros H1; apply Qabs_case; intros H2; lra.
Qed.

(** [round q] is a number of 53 significant bits, and no such number is
    nearer to [q]. *)
Lemma round_is_nearest (q : Q) :
  (exists m e : Z,
      Z.abs m <= 2 ^ 53 /\ (Num.round q == inject_Z m * Num.pow2 e)%Q)
  /\ forall m e : Z,
       Z.abs m <= 2 ^ 53 ->
       (Qabs (Num.round q - q) <= Qabs (inject_Z m * Num.pow2 e - q))%Q.
Proof.
  unfold Num.round. destruct q as [[|a|a] b]; cbn [Qnum].
  - split.
    + exists 0, 0. split; [simpl; lia | reflexivity].
    + intros m e _.
      assert (E : (Qabs (0 - (0 # b)) == 0)%Q) by reflexivity.
      rewrite E. apply Qabs_nonneg.
  - assert (Hq : (0 < Z.pos a # b)%Q) by reflexivity.
    split.
    + destruct (roundPos_scaled _ Hq) as (_ & Er & _ & _ & N1 & N2).
      exists (Num.nearestEven
                ((Z.pos a # b) / Num.pow2 (Num.ilog2 (Z.pos a # b) - 52))),
             (Num.ilog2 (Z.pos a # b) - 52).
      split; [|exact Er].
      rewrite <- Zle_Qle in N1, N2. lia.
    + intros m e Hm. now apply roundPos_is_nearest.
  - assert (Hq : (0 < - (Z.neg a # b))%Q) by reflexivity.
    split.
    + destruct (roundPos_scaled _ Hq) as (_ & Er & _ & _ & N1 & N2).
      exists (- Num.nearestEven
                  (- (Z.neg a # b)
                   / Num.pow2 (Num.ilog2 (- (Z.neg a # b)) - 52))),
             (Num.ilog2 (- (Z.neg a # b)) - 52).
      split.
      * rewrite <- Zle_Qle in N1, N2. lia.
      * rewrite Er, inject_Z_opp. ring.
    + intros m e Hm.
      pose proof (roundPos_is_nearest _ (- m) e Hq ltac:(lia)) as H.
      rewrite inject_Z_opp in H.
      rewrite <- (Qabs_opp (_ - (Z.neg a # b))).
      rewrite <- (Qabs_opp (inject_Z m * _ - _)).
      eapply Qle_trans; [|eapply Qle_trans; [exact H|]];
        apply Qle_lteq; right; apply Qabs_wd; ring.
Qed.

End NearestDouble.

(** Some literals and their doubles. *)
Example doubles_of_literals :
  Num.lit (1 # 10) = (3602879701896397 # 36028797018963968)%Q
  /\ Num.lit (9 # 10) = (8106479329266893 # 9007199254740992)%Q
  /\ Num.lit (2 # 5) = (3602879701896397 # 9007199254740992)%Q
  /\ Num.lit (15 # 100) = (5404319552844595 # 36028797018963968)%Q
  /\ Num.lit (3 # 2) = (3 # 2)%Q
  /\ Num.round (inject_Z (2 ^ 53 + 1)) = inject_Z (2 ^ 53)
  /\ Num.round (inject_Z (2 ^ 53 + 3)) = inject_Z (2 ^ 53 + 4).
Proof. repeat split; vm_compute; reflexivity. Qed.

(** ** Properties of the packer *)

Section JoinLemmas.
Import Js.
Variable sep : str.

Lemma join_cons (x : str) (l : list str) :
  l <> [] -> join sep (x :: l) = x ++ sep ++ join sep l.
Proof. destruct l; [congruence | reflexivity]. Qed.

Lemma join_app (l1 l2 : list str) :
  l1 <> [] -> l2 <> [] ->
  join sep (l1 ++ l2) = join sep l1 ++ sep ++ join sep l2.
Proof.
  induction l1 as [|x l1 IH]; intros H1 H2; [congruence|].
  destruct l1 as [|y l1].
  - simpl app. now rewrite join_cons.
  - change ((x :: y :: l1) ++ l2) with (x :: ((y :: l1) ++ l2)).
    rewrite join_cons by (simpl; congruence).
    rewrite IH by congruence.
    rewrite (join_cons x (y :: l1)) by congruence.
    now rewrite <- !app_assoc.
Qed.

Lemma join_groups (groups : list (list str)) :
  Forall (fun g => g <> []) groups ->
  join sep (map (join sep) groups) = join sep (concat groups).
Proof.
  induction groups as [|g groups IH]; intros H; [reflexivity|].
  inversion H as [|? ? Hg Hrest]; subst.
  destruct groups as [|g' groups].
  - simpl. now rewrite app_nil_r.
  - change (map (join sep) (g :: g' :: groups))
      with (join sep g :: map (join sep) (g' :: groups)).
    rewrite join_cons by (simpl; congruence).
    rewrite IH by assumption.
    change (concat (g :: g' :: groups)) with (g ++ concat (g' :: groups)).
    assert (Hne : concat (g' :: groups) <> []).
    { inversion Hrest as [|? ? Hg' _]; subst. simpl.
      destruct g'; [congruence | simpl; congruence]. }
    now rewrite join_app.
Qed.

End JoinLemmas.

Section PackerLemmas.
Import Js BaseChunkingStrategy.

(** The loop closes groups of consecutive sentences, none of them empty. *)
Lemma packLoop_groups (size : Num.num) (sentences : list str) :
  forall chunks cur tok,
  exists groups,
    packLoop size sentences chunks cur tok
      = chunks ++ map (join space) groups
    /\ concat groups = cur ++ sentences
    /\ Forall (fun g => g <> []) groups.
Proof.
  induction sentences as [|s rest IH]; intros chunks cur tok.
  - destruct cur as [|c cur].
    + exists []. simpl. now rewrite app_nil_r.
    + exists [c :: cur]. simpl. rewrite !app_nil_r.
      repeat split. constructor; [congruence | constructor].
  - cbn [packLoop].
    destruct (Num.Zgtb (tok + estimateTokens s) size
              && (0 <? count cur)) eqn:E.
    + apply andb_true_iff in E as [_ E].
      assert (Hc : cur <> []) by (destruct cur; [discriminate | congruence]).
      destruct (IH (chunks ++ [join space cur]) [s] (estimateTokens s))
        as (groups & Heq & Hcat & Hne).
      exists (cur :: groups). rewrite Heq. simpl.
      rewrite <- app_assoc. simpl. repeat split.
      * now rewrite Hcat.
      * now constructor.
    + destruct (IH chunks (cur ++ [s]) (tok + estimateTokens s))
        as (groups & Heq & Hcat & Hne).
      exists groups. rewrite Heq, Hcat, <- app_assoc. now repeat split.
Qed.

End PackerLemmas.

Lemma createChunksFromSentences_groups (sentences : list Js.str)
      (maxTokensPerChunk : Q) :
  exists groups : list (list Js.str),
    BaseChunkingStrategy.createChunksFromSentences sentences maxTokensPerChunk
    = map (Js.join Js.space) groups
    /\ concat groups = sentences
    /\ Forall (fun g => g <> []) groups.
Proof.
  unfold BaseChunkingStrategy.createChunksFromSentences.
  destruct (packLoop_groups
              (BaseChunkingStrategy.forcedChunkSize sentences maxTokensPerChunk)
              sentences [] [] 0) as (groups & Heq & Hcat & Hne).
  now exists groups.
Qed.

Lemma createChunksFromSentences_content (sentences : list Js.str)
      (maxTokensPerChunk : Q) :
  Js.join Js.space
    (BaseChunkingStrategy.createChunksFromSentences sentences maxTokensPerChunk)
  = Js.join Js.space sentences.
Proof.
  destruct (createChunksFromSentences_groups sentences maxTokensPerChunk)
    as (groups & Heq & Hcat & Hne).
  rewrite Heq, join_groups by assumption. now rewrite Hcat.
Qed.

(** C10. The greedy packer loses and duplicates nothing: the chunks of
    [createChunksFromSentences], joined with single spaces, are the input
    sentences joined with single spaces; the chunks are the joins of
    consecutive non-empty groups whose concatenation is the input. *)
Theorem createChunksFromSentences_preserves_content :
  forall (sentences : list Js.str) (maxTokensPerChunk : Q),
    Js.join Js.space
      (BaseChunkingStrategy.createChunksFromSentences sentences maxTokensPerChunk)
      = Js.join Js.space sentences
    /\ exists groups : list (list Js.str),
         BaseChunkingStrategy.createChunksFromSentences sentences maxTokensPerChunk
           = map (Js.join Js.space) groups
         /\ concat groups = sentences
         /\ Forall (fun g => g <> []) groups.
Proof.
  intros sentences m. split.
  - apply createChunksFromSentences_content.
  - apply createChunksFromSentences_groups.
Qed.

(** ** Properties of the throttler: the per-minute limit *)

Module ThrottlerMinute.
Import ApiThrottler MinuteInvariant.

Lemma recordedCalls_app (l1 l2 : list Event) :
  recordedCalls (l1 ++ l2) = recordedCalls l1 ++ recordedCalls l2.
Proof.
  induction l1 as [|e l1 IH]; [reflexivity|].
  destruct e; simpl; now rewrite IH.
Qed.

Lemma Frame_refl (w : World) : Frame w w.
Proof. split; reflexivity || lia. Qed.

Lemma Frame_trans (w1 w2 w3 : World) :
  Frame w1 w2 -> Frame w2 w3 -> Frame w1 w3.
Proof.
  intros [a1 b1 c1 d1] [a2 b2 c2 d2].
  split; try congruence. lia.
Qed.

Lemma Frame_elapse (dt : N) (w : World) : Frame w (elapse dt w).
Proof. split; try reflexivity. simpl. lia. Qed.

Lemma Frame_sleep limit (d : option Z) (late : N) (w : World) :
  Frame w (sleep limit d late w).
Proof.
  split; try reflexivity.
  - unfold recorded. simpl. rewrite recordedCalls_app. simpl.
    now rewrite app_nil_r.
  - unfold sleep. cbn [clock]. destruct d; lia.
Qed.

Lemma Frame_resetDaily (w : World) : Frame w (resetDaily w).
Proof.
  split; try reflexivity.
  unfold recorded. simpl. rewrite recordedCalls_app. simpl.
  now rewrite app_nil_r.
Qed.

Lemma Frame_checkDailyReset (w : World) : Frame w (checkDailyReset w).
Proof.
  unfold checkDailyReset.
  destruct (dailyResetTime (self w) <=? clock w);
    [apply Frame_resetDaily | apply Frame_refl].
Qed.

Lemma Frame_dailyStage (late : Lateness) (w : World) :
  Frame w (dailyStage late w).
Proof.
  unfold dailyStage.
  destruct (maxDailyRequests (self (checkDailyReset w))
            <=? dailyRequests (self (checkDailyReset w))).
  - eapply Frame_trans; [apply Frame_checkDailyReset|].
    eapply Frame_trans; [apply Frame_sleep | apply Frame_resetDaily].
  - apply Frame_checkDailyReset.
Qed.

Lemma Frame_tokensStage (est : Z) (late : Lateness) (w : World) :
  Frame w (tokensStage est late w).
Proof.
  unfold tokensStage.
  destruct (tokensPerMinute (self w) <? currentTokensThisMinute w + est);
    [apply Frame_sleep | apply Frame_refl].
Qed.

Lemma filter_length_mono {A} (p q : A -> bool) (l : list A) :
  Forall (fun x => p x = true -> q x = true) l ->
  (List.length (filter p l) <= List.length (filter q l))%nat.
Proof.
  induction 1 as [|x l Hx _ IH]; [constructor|].
  simpl. destruct (p x) eqn:E.
  - rewrite (Hx eq_refl). simpl. lia.
  - destruct (q x); simpl; lia.
Qed.

(** Once no recorded call lies after [t], the minute that ends at a
    later instant holds no more calls than the one that ends at [t]. *)
Lemma window_shrinks (l : list Z) (t t' : Z) :
  Forall (fun ts => ts <= t) l -> t <= t' ->
  (List.length (filter (inTrailingWindow t') l)
   <= List.length (filter (inTrailingWindow t) l))%nat.
Proof.
  intros Hpast Hle. apply filter_length_mono.
  eapply Forall_impl; [|exact Hpast]. simpl.
  intros x Hx. unfold inTrailingWindow.
  rewrite !andb_true_iff, !Z.ltb_lt, !Z.leb_le. lia.
Qed.

Lemma Frame_Inv (w w' : World) : Frame w w' -> Inv w -> Inv w'.
Proof.
  intros [Hr Hq Hl Hc] [H1 (b & Hb & Hqueue) Hpast Hwin].
  split.
  - congruence.
  - exists b. split; [lia|]. now rewrite Hq, Hr.
  - rewrite Hr. eapply Forall_impl; [|exact Hpast]. simpl. intros; lia.
  - intros t. unfold callsInWindow. fold (recorded w'). rewrite Hr, Hl.
    apply Hwin.
Qed.

Lemma Frame_Permit (w w' : World) :
  Frame w w' -> Inv w -> Permit w -> Permit w'.
Proof.
  intros [Hr Hq Hl Hc] HI HP. unfold Permit, callsInWindow in *.
  fold (recorded w'). fold (recorded w) in HP. rewrite Hr, Hl.
  pose proof (window_shrinks (recorded w) (clock w) (clock w')
                (inv_past w HI) Hc).
  lia.
Qed.

Lemma filter_filter_and {A} (f g : A -> bool) (l : list A) :
  filter f (filter g l) = filter (fun x => g x && f x) l.
Proof.
  induction l as [|x l IH]; [reflexivity|].
  simpl. destruct (g x); simpl; [destruct (f x)|]; now rewrite IH.
Qed.

Lemma filter_ext_Forall {A} (f g : A -> bool) (l : list A) :
  Forall (fun x => f x = g x) l -> filter f l = filter g l.
Proof.
  induction 1 as [|x l Hx _ IH]; [reflexivity|].
  simpl. now rewrite Hx, IH.
Qed.

(** After the pruning, the queue is the minute that ends now. *)
Lemma Inv_pruneStage (w : World) :
  Inv w ->
  Inv (pruneStage w)
  /\ requestQueue (self (pruneStage w))
     = filter (fun ts => clock w - 60 * 1000 <? ts) (recorded w)
  /\ callsInWindow (log w) (clock w)
     = Z.of_nat (List.length (requestQueue (self (pruneStage w)))).
Proof.
  intros [H1 (b & Hb & Hqueue) Hpast Hwin].
  assert (Hq : requestQueue (self (pruneStage w))
               = filter (fun ts => clock w - 60 * 1000 <? ts) (recorded w)).
  { unfold pruneStage, withSelf. cbn [self requestQueue].
    rewrite Hqueue, filter_filter_and.
    apply filter_ext_Forall, Forall_forall. intros x _.
    destruct (clock w - 60 * 1000 <? x) eqn:E.
    - apply Z.ltb_lt in E.
      replace (b <? x) with true by (symmetry; apply Z.ltb_lt; lia).
      reflexivity.
    - apply andb_false_r. }
  split; [|split].
  - split; try assumption.
    exists (clock w - 60 * 1000). split; [simpl; lia | exact Hq].
  - exact Hq.
  - rewrite Hq. unfold callsInWindow. fold (recorded w). f_equal. f_equal.
    apply filter_ext_Forall.
    eapply Forall_impl; [|exact Hpast]. simpl. intros x Hx.
    unfold inTrailingWindow.
    replace (x <=? clock w) with true by (symmetry; now apply Z.leb_le).
    apply andb_true_r.
Qed.

(** After the wait for the oldest request there is room for a call. *)
Lemma Inv_requestsStage (late : Lateness) (w : World) :
  Inv w ->
  let w1 := pruneStage w in
  let w2 := requestsStage late (clock w1) w1 in
  Inv w2 /\ Permit w2.
Proof.
  intros HI w1 w2.
  destruct (Inv_pruneStage w HI) as (HI1 & Hq & Hcount).
  fold w1 in HI1, Hq, Hcount.
  assert (Hfr : Frame w1 w2).
  { unfold w2, requestsStage.
    destruct (requestsPerMinute (self w1)
              <=? Z.of_nat (List.length (requestQueue (self w1))));
      [apply Frame_sleep | apply Frame_refl]. }
  split; [now apply (Frame_Inv w1 w2)|].
  pose proof (inv_window w HI (clock w)) as Hwin.
  pose proof (inv_limit w HI) as Hlim.
  rewrite Hcount in Hwin.
  change (requestsPerMinute (self w)) with (requestsPerMinute (self w1))
    in Hwin, Hlim.
  unfold w2, requestsStage.
  destruct (requestsPerMinute (self w1)
            <=? Z.of_nat (List.length (requestQueue (self w1)))) eqn:E.
  - apply Z.leb_le in E.
    destruct (requestQueue (self w1)) as [|oldest rest] eqn:Eq;
      [cbn [List.length] in E; lia|].
    unfold Permit, callsInWindow, sleep. cbn [log self clock].
    rewrite recordedCalls_app, app_nil_r.
    change (recordedCalls (log w1)) with (recorded w).
    set (c2 := clock w1 + Z.max 0 (60 * 1000 - (clock w1 - oldest))
               + Z.of_N (lateRequests late)).
    assert (Hc2 : oldest + 60 * 1000 <= c2) by (unfold c2; lia).
    assert (Hnow : clock w <= c2).
    { unfold c2. change (clock w1) with (clock w). lia. }
    pose proof (filter_length_mono (inTrailingWindow c2)
                  (fun ts => (clock w - 60 * 1000 <? ts) && (oldest <? ts))
                  (recorded w)) as Hmono.
    rewrite <- filter_filter_and in Hmono.
    change (filter (Z.ltb (clock w - 60 * 1000)) (recorded w))
      with (filter (fun ts => clock w - 60 * 1000 <? ts) (recorded w))
      in Hmono.
    rewrite <- Hq in Hmono.
    simpl filter in Hmono. rewrite Z.ltb_irrefl in Hmono.
    pose proof (List.filter_length_le (Z.ltb oldest) rest) as Hrest.
    simpl List.length in E, Hwin.
    assert (Hall : Forall
              (fun x => inTrailingWindow c2 x = true ->
                        (clock w - 60 * 1000 <? x) && (oldest <? x) = true)
              (recorded w)).
    { apply Forall_forall. intros x _. unfold inTrailingWindow.
      rewrite !andb_true_iff, !Z.ltb_lt, Z.leb_le. lia. }
    specialize (Hmono Hall). lia.
  - apply Z.leb_gt in E. unfold Permit. simpl log. simpl clock.
    change (log w1) with (log w). change (clock w1) with (clock w).
    rewrite Hcount. exact E.
Qed.

Lemma Inv_throttle (est : Z) (late : Lateness) (w : World) :
  Inv w -> Inv (throttle est late w) /\ Permit (throttle est late w).
Proof.
  intros HI. unfold throttle.
  set (w0 := dailyStage late w).
  assert (HI0 : Inv w0) by (apply (Frame_Inv w); [apply Frame_dailyStage | exact HI]).
  destruct (Inv_requestsStage late w0 HI0) as [HI2 HP2].
  set (w2 := requestsStage late (clock (pruneStage w0)) (pruneStage w0)) in *.
  pose proof (Frame_tokensStage est late w2) as Hfr.
  split; [now apply (Frame_Inv w2) | now apply (Frame_Permit w2)].
Qed.

Lemma filter_snoc {A} (f : A -> bool) (l : list A) (x : A) :
  filter f (l ++ [x]) = filter f l ++ (if f x then [x] else []).
Proof. rewrite filter_app. reflexivity. Qed.

Lemma Inv_recordApiCall (tok : Z) (w : World) :
  Inv w -> Permit w -> Inv (recordApiCall tok w).
Proof.
  intros [H1 (b & Hb & Hqueue) Hpast Hwin] HP.
  assert (Hrec : recorded (recordApiCall tok w) = recorded w ++ [clock w]).
  { unfold recorded. simpl. now rewrite recordedCalls_app. }
  split.
  - exact H1.
  - exists b. split; [simpl; lia|]. rewrite Hrec, filter_snoc. simpl.
    rewrite Hqueue.
    replace (b <? clock w) with true by (symmetry; apply Z.ltb_lt; lia).
    reflexivity.
  - rewrite Hrec. apply Forall_app. split.
    + exact Hpast.
    + constructor; [simpl; lia | constructor].
  - intros t. unfold callsInWindow. fold (recorded (recordApiCall tok w)).
    rewrite Hrec, filter_snoc, length_app.
    change (requestsPerMinute (self (recordApiCall tok w)))
      with (requestsPerMinute (self w)).
    destruct (inTrailingWindow t (clock w)) eqn:E.
    + unfold inTrailingWindow in E.
      apply andb_true_iff in E as [_ E]. apply Z.leb_le in E.
      pose proof (window_shrinks (recorded w) (clock w) t Hpast E).
      unfold Permit, callsInWindow in HP. fold (recorded w) in HP.
      simpl List.length. lia.
    + specialize (Hwin t). unfold callsInWindow in Hwin.
      fold (recorded w) in Hwin. simpl List.length. lia.
Qed.

Lemma Inv_call (w : World) (c : Call) : Inv w -> Inv (call w c).
Proof.
  intros HI. unfold call.
  pose proof (Frame_Inv _ _ (Frame_elapse (idle c) w) HI) as HI1.
  destruct (Inv_throttle (estimatedTokens c) (late c) _ HI1) as [HI2 HP2].
  apply Inv_recordApiCall.
  - exact (Frame_Inv _ _ (Frame_elapse (latency c) _) HI2).
  - exact (Frame_Permit _ _ (Frame_elapse (latency c) _) HI2 HP2).
Qed.

Lemma Inv_calls (cs : list Call) :
  forall w, Inv w -> Inv (calls cs w).
Proof.
  induction cs as [|c cs IH]; intros w HI; [exact HI|].
  simpl. apply IH. now apply Inv_call.
Qed.

Lemma Inv_new (config : ApiThrottlerConfig) (now : Z) :
  1 <= cfgRequestsPerMinute config -> Inv (new config now).
Proof.
  intros H. split.
  - exact H.
  - exists (now - 60 * 1000). split; [simpl; lia | reflexivity].
  - constructor.
  - intros t. unfold callsInWindow. simpl. lia.
Qed.

End ThrottlerMinute.

(** ** Properties of the throttler: the daily limit *)

Module ThrottlerDaily.
Import ApiThrottler DailyInvariant.

Lemma countPeriods_snoc (l : list Event) (e : Event) :
  countPeriods (l ++ [e]) = countStep (countPeriods l) e.
Proof. unfold countPeriods. now rewrite fold_left_app. Qed.

Lemma daily_Frame_Inv (w w' : World) :
  Frame w w' -> (Inv w -> Inv w') /\ (Permit w -> Permit w').
Proof.
  intros [Hp Hc Hl]. split.
  - intros [H1 H2 H3 H4]. split; rewrite ?Hp, ?Hc, ?Hl; assumption.
  - unfold Permit. now rewrite Hc, Hl.
Qed.

Lemma daily_Frame_elapse (dt : N) (w : World) : Frame w (elapse dt w).
Proof. split; reflexivity. Qed.

Lemma daily_Frame_sleep limit (d : option Z) (late : N) (w : World) :
  Frame w (sleep limit d late w).
Proof.
  split; try reflexivity.
  unfold sleep. cbn [log]. now rewrite countPeriods_snoc.
Qed.

Lemma daily_Frame_pruneStage (w : World) : Frame w (pruneStage w).
Proof. split; reflexivity. Qed.

Lemma daily_Frame_requestsStage (late : Lateness) (now : Z) (w : World) :
  Frame w (requestsStage late now w).
Proof.
  unfold requestsStage.
  destruct (requestsPerMinute (self w)
            <=? Z.of_nat (List.length (requestQueue (self w))));
    [apply daily_Frame_sleep | split; reflexivity].
Qed.

Lemma daily_Frame_tokensStage (est : Z) (late : Lateness) (w : World) :
  Frame w (tokensStage est late w).
Proof.
  unfold tokensStage.
  destruct (tokensPerMinute (self w) <? currentTokensThisMinute w + est);
    [apply daily_Frame_sleep | split; reflexivity].
Qed.

Lemma daily_Inv_resetDaily (w : World) :
  Inv w -> Inv (resetDaily w) /\ Permit (resetDaily w).
Proof.
  intros [H1 H2 H3 H4]. split; [split|].
  - exact H1.
  - unfold resetDaily. cbn [log self dailyRequests].
    now rewrite countPeriods_snoc.
  - unfold resetDaily. cbn [log self maxDailyRequests].
    rewrite countPeriods_snoc. cbn [countStep fst].
    apply Forall_app. split; [exact H3|].
    constructor; [rewrite H2; exact H4 | constructor].
  - unfold resetDaily. cbn [self dailyRequests maxDailyRequests]. lia.
  - unfold Permit, resetDaily. cbn [self dailyRequests maxDailyRequests].
    lia.
Qed.

Lemma daily_Inv_checkDailyReset (w : World) : Inv w -> Inv (checkDailyReset w).
Proof.
  intros HI. unfold checkDailyReset.
  destruct (dailyResetTime (self w) <=? clock w);
    [now apply daily_Inv_resetDaily | exact HI].
Qed.

Lemma daily_Inv_dailyStage (late : Lateness) (w : World) :
  Inv w -> Inv (dailyStage late w) /\ Permit (dailyStage late w).
Proof.
  intros HI. apply daily_Inv_checkDailyReset in HI. unfold dailyStage.
  set (w1 := checkDailyReset w) in *.
  destruct (maxDailyRequests (self w1) <=? dailyRequests (self w1)) eqn:E.
  - apply daily_Inv_resetDaily.
    now apply (daily_Frame_Inv w1 _ (daily_Frame_sleep Daily _ _ w1)).
  - split; [exact HI|]. apply Z.leb_gt in E. exact E.
Qed.

Lemma daily_Inv_throttle (est : Z) (late : Lateness) (w : World) :
  Inv w -> Inv (throttle est late w) /\ Permit (throttle est late w).
Proof.
  intros HI. unfold throttle.
  destruct (daily_Inv_dailyStage late w HI) as [HI0 HP0].
  set (w0 := dailyStage late w) in *.
  assert (Hfr : Frame w0
            (tokensStage est late
               (requestsStage late (clock (pruneStage w0)) (pruneStage w0)))).
  { pose proof (daily_Frame_pruneStage w0) as [a1 b1 c1].
    pose proof (daily_Frame_requestsStage late (clock (pruneStage w0))
                  (pruneStage w0)) as [a2 b2 c2].
    pose proof (daily_Frame_tokensStage est late
                  (requestsStage late (clock (pruneStage w0))
                     (pruneStage w0))) as [a3 b3 c3].
    split; congruence. }
  destruct (daily_Frame_Inv _ _ Hfr) as [F1 F2]. split; auto.
Qed.

Lemma daily_Inv_recordApiCall (tok : Z) (w : World) :
  Inv w -> Permit w -> Inv (recordApiCall tok w).
Proof.
  intros [H1 H2 H3 H4] HP. unfold Permit in HP.
  split; unfold recordApiCall; cbn [log self dailyRequests maxDailyRequests];
    rewrite ?countPeriods_snoc; cbn [countStep fst snd];
    try assumption; lia.
Qed.

Lemma daily_Inv_call (w : World) (c : Call) : Inv w -> Inv (call w c).
Proof.
  intros HI. unfold call.
  destruct (daily_Frame_Inv _ _ (daily_Frame_elapse (idle c) w)) as [F1 _].
  destruct (daily_Inv_throttle (estimatedTokens c) (late c) _ (F1 HI))
    as [HI2 HP2].
  destruct (daily_Frame_Inv _ _ (daily_Frame_elapse (latency c)
              (throttle (estimatedTokens c) (late c) (elapse (idle c) w))))
    as [F3 F4].
  apply daily_Inv_recordApiCall; auto.
Qed.

Lemma daily_Inv_calls (cs : list Call) :
  forall w, Inv w -> Inv (calls cs w).
Proof.
  induction cs as [|c cs IH]; intros w HI; [exact HI|].
  simpl. apply IH. now apply daily_Inv_call.
Qed.

Lemma daily_Inv_new (config : ApiThrottlerConfig) (now : Z) :
  1 <= cfgMaxDailyRequests config -> Inv (new config now).
Proof.
  intros H. split; simpl; try lia; try reflexivity. constructor.
Qed.

End ThrottlerDaily.

(** ** The limits of the throttler *)

Section ThrottlerLimits.
Import ApiThrottler.

(** A throttler keeps the limits it was made with. *)
Lemma call_keeps_limits (w : World) (c : Call) :
  requestsPerMinute (self (call w c)) = requestsPerMinute (self w)
  /\ maxDailyRequests (self (call w c)) = maxDailyRequests (self w).
Proof.
  unfold call, throttle, tokensStage, requestsStage, dailyStage,
    checkDailyReset, currentTokensThisMinute.
  repeat match goal with
         | |- context [if ?b then _ else _] => destruct b
         end; split; reflexivity.
Qed.

Lemma calls_keep_limits (cs : list Call) :
  forall w,
    requestsPerMinute (self (calls cs w)) = requestsPerMinute (self w)
    /\ maxDailyRequests (self (calls cs w)) = maxDailyRequests (self w).
Proof.
  induction cs as [|c cs IH]; intros w; [split; reflexivity|].
  simpl. destruct (IH (call w c)) as [H1 H2].
  destruct (call_keeps_limits w c) as [H3 H4]. split; congruence.
Qed.

End ThrottlerLimits.

(** C1 (as amended). For limits of at least one request per minute and
    one request per day, after any sequence of [throttle]/[recordApiCall]
    pairs on one throttler, no trailing 60-second window holds more
    recorded calls than [requestsPerMinute], and no period between two
    consecutive resets of the daily counter holds more recorded calls than
    [maxDailyRequests]. *)
Theorem throttler_limits_hold :
  forall (config : ApiThrottler.ApiThrottlerConfig) (start : Z)
         (cs : list ApiThrottler.Call),
    1 <= ApiThrottler.cfgRequestsPerMinute config ->
    1 <= ApiThrottler.cfgMaxDailyRequests config ->
    let w := ApiThrottler.calls cs (ApiThrottler.new config start) in
    (forall t : Z,
        ApiThrottler.callsInWindow (ApiThrottler.log w) t
        <= ApiThrottler.cfgRequestsPerMinute config)
    /\ Forall (fun n => n <= ApiThrottler.cfgMaxDailyRequests config)
              (ApiThrottler.callsBetweenResets (ApiThrottler.log w)).
Proof.
  intros config start cs Hr Hd w.
  destruct (calls_keep_limits cs (ApiThrottler.new config start)) as [Kr Kd].
  fold w in Kr, Kd. simpl in Kr, Kd.
  pose proof (ThrottlerMinute.Inv_calls cs _
                (ThrottlerMinute.Inv_new config start Hr)) as HM.
  pose proof (ThrottlerDaily.daily_Inv_calls cs _
                (ThrottlerDaily.daily_Inv_new config start Hd)) as HD.
  fold w in HM, HD. split.
  - intros t. rewrite <- Kr. apply (MinuteInvariant.inv_window w HM).
  - unfold ApiThrottler.callsBetweenResets. rewrite <- Kd.
    apply Forall_app. split.
    + apply (DailyInvariant.inv_closed w HD).
    + constructor; [|constructor].
      rewrite (DailyInvariant.inv_counter w HD).
      apply (DailyInvariant.inv_current w HD).
Qed.


Lemma throttler_limits_hold_witness :
  let w := ApiThrottler.calls ThrottlerExamples.aroundMidnight
             (ApiThrottler.new ThrottlerExamples.oncePerDay 0) in
  (forall t : Z,
      ApiThrottler.callsInWindow (ApiThrottler.log w) t <= 15)
  /\ Forall (fun n => n <= 1)
            (ApiThrottler.callsBetweenResets (ApiThrottler.log w)).
Proof.
  apply (throttler_limits_hold ThrottlerExamples.oncePerDay 0
           ThrottlerExamples.aroundMidnight); simpl; lia.
Defined.

(** The limits as they are stated can be exceeded.  The daily limit does
    not bound the calls recorded on a calendar day: with one request a day
    allowed, a request that passes [throttle] before midnight and is
    recorded after it is followed by a second request recorded on the same
    day.  And a limit of no request a minute delays a request (by a timer
    without delay, the queue being empty) but lets it through. *)
Lemma throttler_limits_overrun :
  (let w := ApiThrottler.calls ThrottlerExamples.aroundMidnight
              (ApiThrottler.new ThrottlerExamples.oncePerDay 0) in
   ApiThrottler.recordedCalls (ApiThrottler.log w) = [86400001; 86401006]
   /\ ApiThrottler.callsOnDay (ApiThrottler.log w) 1 = 2
   /\ ~ (forall day : Z,
           ApiThrottler.callsOnDay (ApiThrottler.log w) day
           <= ApiThrottler.cfgMaxDailyRequests ThrottlerExamples.oncePerDay))
  /\ (let w := ApiThrottler.calls [ThrottlerExamples.request 0 5]
                 (ApiThrottler.new ThrottlerExamples.noRequests 0) in
      ApiThrottler.log w
      = [ApiThrottler.Waited ApiThrottler.Requests None;
         ApiThrottler.Recorded 5]
      /\ ~ (forall t : Z,
              ApiThrottler.callsInWindow (ApiThrottler.log w) t
              <= ApiThrottler.cfgRequestsPerMinute
                   ThrottlerExamples.noRequests)).
Proof.
  split.
  - assert (H : ApiThrottler.callsOnDay
                  (ApiThrottler.log
                     (ApiThrottler.calls ThrottlerExamples.aroundMidnight
                        (ApiThrottler.new ThrottlerExamples.oncePerDay 0))) 1
                = 2) by (vm_compute; reflexivity).
    cbv zeta. split; [vm_compute; reflexivity|]. split; [exact H|].
    intros Hall. specialize (Hall 1). rewrite H in Hall. simpl in Hall. lia.
  - cbv zeta. split; [vm_compute; reflexivity|].
    intros Hall. specialize (Hall 5). vm_compute in Hall. apply Hall.
    reflexivity.
Qed.

(** C7. When [throttle] finds that the tokens of the last minute (the
    token queue as pruned at [now]) plus the estimate exceed
    [tokensPerMinute], its last act is a timer of exactly 60000
    milliseconds, whatever the age of the tokens in the queue: it
    returns 60000 milliseconds (and the lateness of that timer) after
    the requests-per-minute stage. *)
Theorem token_limit_waits_a_full_minute :
  forall (estimatedTokens : Z) (late : ApiThrottler.Lateness)
         (w : ApiThrottler.World),
    let w0 := ApiThrottler.dailyStage late w in
    let now := ApiThrottler.clock w0 in
    let w2 := ApiThrottler.requestsStage late now (ApiThrottler.pruneStage w0) in
    let tokensThisMinute :=
      Z.of_nat
        (List.length
           (filter (fun timestamp => now - 60 * 1000 <? timestamp)
                   (ApiThrottler.tokenQueue (ApiThrottler.self w)))) in
    ApiThrottler.tokensPerMinute (ApiThrottler.self w)
      < tokensThisMinute + estimatedTokens ->
    ApiThrottler.currentTokensThisMinute w2 = tokensThisMinute
    /\ ApiThrottler.log (ApiThrottler.throttle estimatedTokens late w)
       = ApiThrottler.log w2
           ++ [ApiThrottler.Waited ApiThrottler.Tokens (Some 60000)]
    /\ ApiThrottler.clock (ApiThrottler.throttle estimatedTokens late w)
       = ApiThrottler.clock w2 + 60000
         + Z.of_N (ApiThrottler.lateTokens late).
Proof.
  intros est late w w0 now w2 tokensThisMinute H.
  assert (Hq : ApiThrottler.tokenQueue (ApiThrottler.self w0)
               = ApiThrottler.tokenQueue (ApiThrottler.self w)).
  { unfold w0, ApiThrottler.dailyStage, ApiThrottler.checkDailyReset.
    repeat match goal with
           | |- context [if ?b then _ else _] => destruct b
           end; reflexivity. }
  assert (Hl : ApiThrottler.tokensPerMinute (ApiThrottler.self w2)
               = ApiThrottler.tokensPerMinute (ApiThrottler.self w)).
  { unfold w2, ApiThrottler.requestsStage, w0, ApiThrottler.dailyStage,
      ApiThrottler.checkDailyReset.
    repeat match goal with
           | |- context [if ?b then _ else _] => destruct b
           end; reflexivity. }
  assert (Hc : ApiThrottler.currentTokensThisMinute w2 = tokensThisMinute).
  { unfold tokensThisMinute, ApiThrottler.currentTokensThisMinute.
    rewrite <- Hq. unfold w2, ApiThrottler.requestsStage.
    destruct (ApiThrottler.requestsPerMinute _ <=? _); reflexivity. }
  split; [exact Hc|].
  change (ApiThrottler.throttle est late w)
    with (ApiThrottler.tokensStage est late w2).
  unfold ApiThrottler.tokensStage. rewrite Hc, Hl.
  replace (ApiThrottler.tokensPerMinute (ApiThrottler.self w)
           <? tokensThisMinute + est) with true
    by (symmetry; apply Z.ltb_lt; exact H).
  split; reflexivity.
Qed.

Lemma token_limit_waits_a_full_minute_witness :
  ApiThrottler.clock
    (ApiThrottler.throttle 20 ThrottlerExamples.onTime
       ThrottlerExamples.almostClear)
  = 59999 + 60000 + 0.
Proof.
  exact (proj2 (proj2 (token_limit_waits_a_full_minute 20
                         ThrottlerExamples.onTime
                         ThrottlerExamples.almostClear
                         ltac:(vm_compute; reflexivity)))).
Defined.

(** ** The retry loop of the chunk summarizer *)

Section RetryLoop.
Import Js ChunkSummarizerNode.

Variable maxRetries : Z.
Variable generateContent : Backend.
Variable chunk : str.
Variable chunkIndex : Z.

Local Abbreviation prompt := (createChunkSummaryPrompt chunk).

(** The service fails on the next [k] attempts and then succeeds. *)
Lemma retryLoop_succeeds (k : nat) (summary : str) :
  forall (fuel : nat) (attemptCount : Z) (lastError : option Error)
         (sent : list str) (backoffs : list Z),
    Z.of_nat fuel = maxRetries - attemptCount ->
    (k < fuel)%nat ->
    (forall j, (j < k)%nat ->
       exists t, generateContent (List.length sent + j)%nat prompt
                 = Rejected t) ->
    generateContent (List.length sent + k)%nat prompt = Resolved summary ->
    let a := retryLoop fuel maxRetries generateContent chunk chunkIndex
               attemptCount lastError sent backoffs in
    List.length (prompts a) = (List.length sent + S k)%nat
    /\ completion a = Returned summary.
Proof.
  induction k as [|k IH]; intros fuel attemptCount lastError sent backoffs
    Hfuel Hk Hfail Hok; (destruct fuel as [|fuel]; [lia|]).
  - cbn [retryLoop].
    replace (attemptCount <? maxRetries) with true
      by (symmetry; apply Z.ltb_lt; lia).
    fold prompt. rewrite Nat.add_0_r in Hok. rewrite Hok.
    cbn [prompts completion]. rewrite length_app. simpl. auto.
  - cbn [retryLoop].
    replace (attemptCount <? maxRetries) with true
      by (symmetry; apply Z.ltb_lt; lia).
    fold prompt.
    destruct (Hfail 0%nat ltac:(lia)) as (t & Ht).
    rewrite Nat.add_0_r in Ht. rewrite Ht.
    specialize (IH fuel (attemptCount + 1) (Some (toError t))
                  (sent ++ [prompt])
                  (backoffs ++ [2 ^ (attemptCount + 1) * 1000])).
    rewrite length_app in IH. simpl List.length in IH.
    replace (List.length sent + 1 + S k)%nat
      with (List.length sent + S (S k))%nat in IH by lia.
    apply IH.
    + lia.
    + lia.
    + intros j Hj. destruct (Hfail (S j) ltac:(lia)) as (t' & Ht').
      exists t'. rewrite <- Ht'. f_equal. lia.
    + rewrite <- Hok. f_equal. lia.
Qed.

(** The service fails on every attempt that is left. *)
Lemma retryLoop_gives_up :
  forall (fuel : nat) (attemptCount : Z) (lastError : option Error)
         (sent : list str) (backoffs : list Z),
    Z.of_nat fuel = maxRetries - attemptCount ->
    (forall j, (j < fuel)%nat ->
       exists t, generateContent (List.length sent + j)%nat prompt
                 = Rejected t) ->
    let a := retryLoop fuel maxRetries generateContent chunk chunkIndex
               attemptCount lastError sent backoffs in
    List.length (prompts a) = (List.length sent + fuel)%nat
    /\ match fuel with
       | O =>
           completion a
           = Threw match lastError with
                   | Some e => e
                   | None => FailedToSummarize (chunkIndex + 1) maxRetries
                   end
       | S last =>
           exists t,
             generateContent (List.length sent + last)%nat prompt
             = Rejected t
             /\ completion a = Threw (toError t)
       end.
Proof.
  induction fuel as [|fuel IH]; intros attemptCount lastError sent backoffs
    Hfuel Hfail.
  - cbn [retryLoop prompts completion]. split; [lia | reflexivity].
  - cbn [retryLoop].
    replace (attemptCount <? maxRetries) with true
      by (symmetry; apply Z.ltb_lt; lia).
    fold prompt.
    destruct (Hfail 0%nat ltac:(lia)) as (t & Ht).
    rewrite Nat.add_0_r in Ht. rewrite Ht.
    specialize (IH (attemptCount + 1) (Some (toError t))
                  (sent ++ [prompt])
                  (backoffs ++ [2 ^ (attemptCount + 1) * 1000])).
    rewrite length_app in IH. simpl List.length in IH.
    destruct IH as [IH1 IH2].
    + lia.
    + intros j Hj. destruct (Hfail (S j) ltac:(lia)) as (t' & Ht').
      exists t'. rewrite <- Ht'. f_equal. lia.
    + split; [rewrite IH1; lia|].
      destruct fuel as [|last].
      * exists t. rewrite Nat.add_0_r. split; [exact Ht | exact IH2].
      * destruct IH2 as (t' & Ht' & Hthrow). exists t'. split; [|exact Hthrow].
        rewrite <- Ht'. f_equal. lia.
Qed.

End RetryLoop.

(** C2. [summarizeChunkWithRetry] with the bound [maxRetries]: when the
    service fails on its first [k < maxRetries] calls and succeeds on the
    next one, exactly [k + 1] calls are made and the summary of the
    successful one is returned; when the service fails on every call,
    exactly [maxRetries] calls are made and the error of the last call is
    thrown (as it is when it is an [Error], else made into one). *)
Theorem summarizeChunkWithRetry_attempts :
  forall (maxRetries : Z) (generateContent : ChunkSummarizerNode.Backend)
         (chunk : Js.str) (chunkIndex : Z),
    let prompt := ChunkSummarizerNode.createChunkSummaryPrompt chunk in
    let a := ChunkSummarizerNode.summarizeChunkWithRetry maxRetries
               generateContent chunk chunkIndex in
    (forall (k : nat) (summary : Js.str),
        Z.of_nat k < maxRetries ->
        (forall j, (j < k)%nat ->
           exists t, generateContent j prompt = ChunkSummarizerNode.Rejected t) ->
        generateContent k prompt = ChunkSummarizerNode.Resolved summary ->
        List.length (ChunkSummarizerNode.prompts a) = S k
        /\ ChunkSummarizerNode.completion a
           = ChunkSummarizerNode.Returned summary)
    /\ (0 < maxRetries ->
        (forall j, Z.of_nat j < maxRetries ->
           exists t, generateContent j prompt = ChunkSummarizerNode.Rejected t) ->
        Z.of_nat (List.length (ChunkSummarizerNode.prompts a)) = maxRetries
        /\ exists t,
             generateContent (Z.to_nat (maxRetries - 1)) prompt
             = ChunkSummarizerNode.Rejected t
             /\ ChunkSummarizerNode.completion a
                = ChunkSummarizerNode.Threw (ChunkSummarizerNode.toError t)
             /\ forall e, t = ChunkSummarizerNode.ThrownError e ->
                          ChunkSummarizerNode.completion a
                          = ChunkSummarizerNode.Threw e).
Proof.
  intros maxRetries generateContent chunk chunkIndex prompt a.
  subst a. unfold ChunkSummarizerNode.summarizeChunkWithRetry. split.
  - intros k summary Hk Hfail Hok.
    destruct (retryLoop_succeeds maxRetries generateContent chunk chunkIndex
                k summary (Z.to_nat maxRetries) 0 None [] [])
      as [H1 H2]; try (simpl; assumption); try lia.
    split; [exact H1 | exact H2].
  - intros Hpos Hfail.
    destruct (retryLoop_gives_up maxRetries generateContent chunk chunkIndex
                (Z.to_nat maxRetries) 0 None [] []) as [H1 H2].
    + lia.
    + intros j Hj. simpl. apply Hfail. lia.
    + simpl in H1. split; [lia|].
      destruct (Z.to_nat maxRetries) as [|last] eqn:E; [lia|].
      destruct H2 as (t & Ht & Hthrow). exists t.
      replace (Z.to_nat (maxRetries - 1)) with last by lia.
      simpl in Ht. split; [exact Ht|]. split; [exact Hthrow|].
      intros e ->. exact Hthrow.
Qed.


Lemma summarizeChunkWithRetry_attempts_witness :
  (let a := ChunkSummarizerNode.summarizeChunkWithRetry 3
              RetryExamples.flaky RetryExamples.chunk 0 in
   List.length (ChunkSummarizerNode.prompts a) = 3%nat
   /\ ChunkSummarizerNode.completion a
      = ChunkSummarizerNode.Returned (Js.of_string "a summary"))
  /\ (let a := ChunkSummarizerNode.summarizeChunkWithRetry 3
                 RetryExamples.down RetryExamples.chunk 0 in
      Z.of_nat (List.length (ChunkSummarizerNode.prompts a)) = 3
      /\ ChunkSummarizerNode.completion a
         = ChunkSummarizerNode.Threw
             (ChunkSummarizerNode.ErrorOf (Js.of_string "down2"))).
Proof.
  split.
  - apply (proj1 (summarizeChunkWithRetry_attempts 3 RetryExamples.flaky
                    RetryExamples.chunk 0) 2%nat (Js.of_string "a summary")).
    + lia.
    + intros j Hj. destruct j as [|[|j]]; [eexists; reflexivity ..| lia].
    + reflexivity.
  - destruct (proj2 (summarizeChunkWithRetry_attempts 3 RetryExamples.down
                       RetryExamples.chunk 0)) as (H1 & t & Ht & Hthrow & _).
    + lia.
    + intros j _. eexists. reflexivity.
    + split; [exact H1|]. rewrite Hthrow.
      vm_compute in Ht. injection Ht as <-. reflexivity.
Defined.

(** ** Sorting permutes *)

Section SortLemmas.
Import Js.
Context {A : Type}.
Variable before : A -> A -> bool.

Lemma insertBy_Permutation (x : A) (l : list A) :
  Permutation (insertBy before x l) (x :: l).
Proof.
  induction l as [|y l IH]; [reflexivity|].
  simpl. destruct (before x y); [reflexivity|].
  rewrite IH. apply perm_swap.
Qed.

Lemma sortWith_Permutation (l : list A) : Permutation (sortWith before l) l.
Proof.
  induction l as [|x l IH]; [reflexivity|].
  simpl. rewrite insertBy_Permutation. now constructor.
Qed.

End SortLemmas.

(** ** The batches of the Map stage *)

Section Chop.
Import MapStage.
Context {A : Type}.
Variable width : nat.
Hypothesis width_pos : (1 <= width)%nat.

Lemma chop_fuel (r1 : nat) :
  forall (r2 : nat) (l : list A),
    (List.length l <= r1)%nat -> (List.length l <= r2)%nat ->
    chop r1 width l = chop r2 width l.
Proof.
  induction r1 as [|r1 IH]; intros r2 l H1 H2.
  - destruct l; [|simpl in H1; lia]. destruct r2; reflexivity.
  - destruct l as [|x l]; [destruct r2; reflexivity|].
    destruct r2 as [|r2]; [simpl in H2; lia|].
    cbn [chop]. f_equal.
    assert (Hs : (List.length (skipn width (x :: l)) <= List.length l)%nat).
    { rewrite length_skipn. cbn [List.length]. lia. }
    simpl in H1, H2. apply IH; lia.
Qed.

Lemma chop_cons (x : A) (l : list A) :
  chop (List.length (x :: l)) width (x :: l)
  = firstn width (x :: l)
      :: chop (List.length (skipn width (x :: l))) width
              (skipn width (x :: l)).
Proof.
  cbn [List.length chop]. f_equal. apply chop_fuel; [|lia].
  rewrite length_skipn. cbn [List.length]. lia.
Qed.

Lemma chop_concat (r : nat) :
  forall l : list A, (List.length l <= r)%nat -> concat (chop r width l) = l.
Proof.
  induction r as [|r IH]; intros l H.
  - destruct l; [reflexivity | simpl in H; lia].
  - destruct l as [|x l]; [reflexivity|].
    cbn [chop concat]. rewrite IH.
    + apply firstn_skipn.
    + rewrite length_skipn. cbn [List.length] in *. lia.
Qed.

Lemma chop_sizes (r : nat) :
  forall l : list A,
    Forall (fun b => (1 <= List.length b <= width)%nat) (chop r width l).
Proof.
  induction r as [|r IH]; intros l; [constructor|].
  destruct l as [|x l]; [constructor|].
  cbn [chop]. constructor; [|apply IH].
  rewrite length_firstn. cbn [List.length]. lia.
Qed.

Lemma chop_full (r : nat) :
  forall (l : list A) (b : list A),
    In b (removelast (chop r width l)) -> List.length b = width.
Proof.
  induction r as [|r IH]; intros l b Hin; [contradiction|].
  destruct l as [|x l]; [contradiction|].
  cbn [chop] in Hin.
  destruct (chop r width (skipn width (x :: l))) as [|b' rest] eqn:E;
    [contradiction|].
  cbn [removelast] in Hin. destruct Hin as [<- | Hin].
  - rewrite length_firstn.
    destruct (skipn width (x :: l)) as [|y s] eqn:Es.
    + destruct r; discriminate.
    + assert (Hl : List.length (skipn width (x :: l)) = S (List.length s))
        by now rewrite Es.
      rewrite length_skipn in Hl. lia.
  - apply (IH (skipn width (x :: l))). rewrite E. exact Hin.
Qed.

End Chop.

Section ExecBatches.
Import Js ChunkSummarizerNode MapStage.

Variable maxRetries : Z.
Variable service : Z -> Backend.
Variable settledAt : Z -> Z.

Local Abbreviation tasksFrom := (startBatch maxRetries service).

Lemma startBatch_length (l : list str) :
  forall i, List.length (tasksFrom l i) = List.length l.
Proof.
  induction l as [|c l IH]; intros i; [reflexivity|].
  simpl. now rewrite IH.
Qed.

Lemma startBatch_firstn (k : nat) :
  forall (l : list str) (i : Z),
    firstn k (tasksFrom l i) = tasksFrom (firstn k l) i.
Proof.
  induction k as [|k IH]; intros l i; [reflexivity|].
  destruct l as [|c l]; [reflexivity|].
  simpl. now rewrite <- IH.
Qed.

Lemma startBatch_skipn (k : nat) :
  forall (l : list str) (i : Z),
    skipn k (tasksFrom l i) = tasksFrom (skipn k l) (i + Z.of_nat k).
Proof.
  induction k as [|k IH]; intros l i.
  - simpl. now rewrite Z.add_0_r.
  - destruct l as [|c l]; [reflexivity|].
    cbn [skipn]. cbn [startBatch skipn].
    rewrite IH. f_equal. lia.
Qed.

(** Inside the array, a batch is the next [width] chunks. *)
Lemma slice_batch (chunks : list str) (i width : Z) :
  0 <= i -> i < Z.of_nat (List.length chunks) -> 1 <= width ->
  slice chunks i (i + width)
  = firstn (Z.to_nat width) (skipn (Z.to_nat i) chunks).
Proof.
  intros Hi Hn Hw. unfold slice, sliceIndex.
  replace (i <? 0) with false by (symmetry; apply Z.ltb_ge; lia).
  replace (i + width <? 0) with false by (symmetry; apply Z.ltb_ge; lia).
  rewrite (Z.min_l i) by lia.
  destruct (Z.le_gt_cases (i + width) (Z.of_nat (List.length chunks))) as [H|H].
  - rewrite Z.min_l by lia. f_equal. lia.
  - rewrite Z.min_r by lia.
    rewrite !firstn_all2; [reflexivity | |]; rewrite length_skipn; lia.
Qed.

Lemma batchLoop_runBatches (chunks : list str) (width : Z) :
  1 <= width ->
  forall (fuel : nat) (i : Z) (chunkSummaries : list str)
         (events : list Event),
    0 <= i ->
    (Z.to_nat (Z.of_nat (List.length chunks) - i) < fuel)%nat ->
    batchLoop maxRetries service settledAt fuel chunks width i
              chunkSummaries events
    = Some (runBatches settledAt (i / width + 1)
              (batchesOf width (tasksFrom (skipn (Z.to_nat i) chunks) i))
              chunkSummaries events).
Proof.
  intros Hw. induction fuel as [|fuel IH];
    intros i chunkSummaries events Hi Hfuel; [lia|].
  cbn [batchLoop].
  destruct (i <? Z.of_nat (List.length chunks)) eqn:E.
  - apply Z.ltb_lt in E.
    rewrite slice_batch by assumption.
    set (rest := skipn (Z.to_nat i) chunks).
    assert (Hrest : rest <> []).
    { intros H. apply (f_equal (@List.length _)) in H.
      unfold rest in H. rewrite length_skipn in H. simpl in H. lia. }
    unfold batchesOf.
    destruct (tasksFrom rest i) as [|t ts] eqn:Et.
    { apply (f_equal (@List.length _)) in Et.
      rewrite startBatch_length in Et. destruct rest; [congruence|discriminate]. }
    rewrite chop_cons by lia. rewrite <- Et.
    rewrite startBatch_firstn. 
    cbn [runBatches].
    destruct (awaitAll
                (sortBy (fun p => settledAt (fst p))
                   (tasksFrom (firstn (Z.to_nat width) rest) i)))
      as [settled [e|]]; [reflexivity|].
    rewrite IH by lia.
    rewrite startBatch_skipn. unfold rest. rewrite skipn_skipn.
    replace (Z.to_nat width + Z.to_nat i)%nat with (Z.to_nat (i + width))
      by lia.
    rewrite Z2Nat.id by lia.
    replace ((i + width) / width) with (i / width + 1).
    + reflexivity.
    + replace (i + width) with (i + 1 * width) by lia.
      rewrite Z.div_add by lia. reflexivity.
  - apply Z.ltb_ge in E.
    rewrite skipn_all2 by lia. reflexivity.
Qed.

End ExecBatches.

Section Barrier.
Import Js ChunkSummarizerNode MapStage.

Variable width : Z.

Lemma barrier_app (l1 l2 : list Event) :
  forall n,
    barrier width n (l1 ++ l2)
    <-> barrier width n l1 /\ barrier width (inFlight n l1) l2.
Proof.
  induction l1 as [|e l1 IH]; intros n.
  - simpl. tauto.
  - cbn [app barrier inFlight fold_left]. rewrite IH.
    unfold inFlight. tauto.
Qed.

Lemma inFlight_app (l1 l2 : list Event) (n : Z) :
  inFlight n (l1 ++ l2) = inFlight (inFlight n l1) l2.
Proof. unfold inFlight. apply fold_left_app. Qed.

(** Starting a batch puts all of it in flight. *)
Lemma barrier_started (batch : list (Z * Attempts)) :
  forall n,
    0 <= n -> n + Z.of_nat (List.length batch) <= width ->
    barrier width n (map (fun p => Started (fst p)) batch)
    /\ inFlight n (map (fun p => Started (fst p)) batch)
       = n + Z.of_nat (List.length batch).
Proof.
  induction batch as [|p batch IH]; intros n Hn Hw.
  - simpl. split; [exact I | lia].
  - cbn [map barrier inFlight fold_left inFlightStep List.length] in *.
    destruct (IH (n + 1)) as [H1 H2]; [lia | lia |].
    unfold inFlight in H2. rewrite H2. repeat split; try lia. exact H1.
Qed.

(** Settling takes the settled ones out of flight; all of them when no
    summarization is rejected. *)
Lemma barrier_settled (order : list (Z * Attempts)) :
  forall n,
    Z.of_nat (List.length order) <= n -> n <= width ->
    barrier width n (fst (awaitAll order))
    /\ 0 <= inFlight n (fst (awaitAll order))
    /\ (snd (awaitAll order) = None ->
        inFlight n (fst (awaitAll order))
        = n - Z.of_nat (List.length order)).
Proof.
  induction order as [|[i a] order IH]; intros n Hn Hw.
  - simpl. repeat split; try lia.
  - cbn [awaitAll List.length] in *.
    destruct (completion a) as [summary|e].
    + destruct (IH (n - 1)) as (H1 & H2 & H3); [lia | lia |].
      destruct (awaitAll order) as [settled rejection].
      cbn [fst snd barrier inFlight fold_left inFlightStep] in *.
      repeat split; try lia; try assumption.
      intros Hnone. unfold inFlight in H3. rewrite (H3 Hnone). lia.
    + cbn [fst snd barrier inFlight fold_left inFlightStep].
      repeat split; try lia. discriminate.
Qed.

Lemma runBatches_barrier (settledAt : Z -> Z) :
  forall (batches : list (list (Z * Attempts))) (number : Z)
         (chunkSummaries : list str) (events : list Event),
    Forall (fun b => Z.of_nat (List.length b) <= width) batches ->
    barrier width 0 events ->
    inFlight 0 events = 0 ->
    barrier width 0
      (ChunkSummarizerNode.events
         (runBatches settledAt number batches chunkSummaries events)).
Proof.
  induction batches as [|batch rest IH];
    intros number chunkSummaries events Hsizes Hb H0; [exact Hb|].
  inversion Hsizes as [|? ? Hsize Hrest]; subst.
  cbn [runBatches].
  set (order := sortBy (fun p => settledAt (fst p)) batch).
  assert (Hlen : List.length order = List.length batch).
  { apply Permutation_length. apply sortWith_Permutation. }
  destruct (barrier_started batch 0 ltac:(lia) ltac:(lia)) as [Hs1 Hs2].
  destruct (barrier_settled order (Z.of_nat (List.length batch))
              ltac:(lia) Hsize) as (Ha1 & Ha2 & Ha3).
  destruct (awaitAll order) as [settled rejection].
  cbn [fst snd] in *.
  assert (Hev : barrier width 0
                  (events ++ [StartingBatch number]
                      ++ map (fun p => Started (fst p)) batch ++ settled)).
  { apply barrier_app. split; [exact Hb|]. rewrite H0.
    change ([StartingBatch number] ++ ?l) with (StartingBatch number :: l).
    cbn [barrier inFlightStep]. split; [reflexivity|]. split; [lia|].
    apply barrier_app. split; [exact Hs1|]. rewrite Hs2. exact Ha1. }
  destruct rejection as [e|]; [exact Hev|].
  assert (Hcount : inFlight 0
                     (events ++ [StartingBatch number]
                        ++ map (fun p => Started (fst p)) batch ++ settled)
                   = 0).
  { rewrite !inFlight_app, H0.
    change (inFlight 0 [StartingBatch number]) with 0.
    rewrite Hs2, Z.add_0_l, (Ha3 eq_refl). lia. }
  apply IH; [exact Hrest | |].
  - apply barrier_app. split; [exact Hev|].
    rewrite Hcount. cbn [barrier inFlightStep]. repeat split; lia.
  - rewrite inFlight_app, Hcount. reflexivity.
Qed.

End Barrier.

Lemma ceilSixOver_Z (chunkCount : Z) :
  1 <= chunkCount ->
  MapStage.ceilSixOver chunkCount = (6 + chunkCount - 1) / chunkCount.
Proof.
  intros H. destruct chunkCount as [|p|p]; try lia.
  cbv [MapStage.ceilSixOver Qceiling Qfloor Qdiv Qmult Qinv Qopp inject_Z
       Qnum Qden].
  rewrite Pos.mul_1_l. change (- (6 * 1)) with (-6).
  apply Z.div_unique with (r := Z.pos p - 1 - (-6) mod Z.pos p).
  - left. pose proof (Z.mod_pos_bound (-6) (Z.pos p)). lia.
  - pose proof (Z.div_mod (-6) (Z.pos p)). lia.
Qed.

(** C5. For a non-empty chunk array and a configured maximum of at least
    one, [exec] runs the summarizations in consecutive batches of width
    [min(configuredMax, max(2, ceil(6 / chunkCount)))]: the batches are
    the chunks in order, each of at most that width and all but the last
    of exactly that width, and each batch is started and awaited as a
    whole before the next one, so that a batch starts only when no
    summarization is in flight and never more than that width are in
    flight.  With 6 chunks and a maximum of 3 there are 3 batches of
    2. *)
Theorem exec_runs_consecutive_batches :
  forall (maxConcurrent maxRetries : Z)
         (service : Z -> ChunkSummarizerNode.Backend) (settledAt : Z -> Z)
         (chunks : list Js.str) (fuel : nat),
    chunks <> [] ->
    1 <= maxConcurrent ->
    (List.length chunks < fuel)%nat ->
    let chunkCount := Z.of_nat (List.length chunks) in
    let width :=
      Z.min maxConcurrent (Z.max 2 (MapStage.ceilSixOver chunkCount)) in
    let tasks := ChunkSummarizerNode.startBatch maxRetries service chunks 0 in
    let batches := MapStage.batchesOf width tasks in
    ChunkSummarizerNode.actualConcurrency maxConcurrent chunkCount = width
    /\ ChunkSummarizerNode.exec maxConcurrent maxRetries service settledAt
         fuel (Some chunks)
       = Some (MapStage.runBatches settledAt 1 batches [] [])
    /\ MapStage.barrier width 0
         (ChunkSummarizerNode.events
            (MapStage.runBatches settledAt 1 batches [] []))
    /\ concat batches = tasks
    /\ Forall (fun b => (1 <= List.length b <= Z.to_nat width)%nat) batches
    /\ (forall b, In b (removelast batches) ->
                  List.length b = Z.to_nat width)
    /\ (chunkCount = 6 -> maxConcurrent = 3 ->
        map (@List.length _) batches = [2; 2; 2]%nat).
Proof.
  intros maxConcurrent maxRetries service settledAt chunks fuel Hne Hmax Hfuel
         chunkCount width tasks batches.
  assert (Hn : 1 <= chunkCount).
  { unfold chunkCount. destruct chunks; [congruence | simpl; lia]. }
  assert (Hwidth : ChunkSummarizerNode.actualConcurrency maxConcurrent chunkCount
                   = width).
  { unfold ChunkSummarizerNode.actualConcurrency, width.
    now rewrite ceilSixOver_Z. }
  assert (Hw1 : 1 <= width) by (unfold width; lia).
  assert (Hsizes : Forall (fun b => (1 <= List.length b <= Z.to_nat width)%nat)
                     batches).
  { apply chop_sizes. lia. }
  split; [exact Hwidth|]. split; [|split; [|split; [|split; [|split]]]].
  - destruct chunks as [|c chunks]; [congruence|].
    unfold ChunkSummarizerNode.exec. fold chunkCount. rewrite Hwidth.
    rewrite (batchLoop_runBatches maxRetries service settledAt (c :: chunks)
               width Hw1 fuel 0 [] []); [reflexivity | lia | lia].
  - apply runBatches_barrier; [|exact I | reflexivity].
    eapply Forall_impl; [|exact Hsizes]. simpl. intros b Hb. lia.
  - unfold batches, MapStage.batchesOf.
    apply (chop_concat (Z.to_nat width) ltac:(lia)). apply Nat.le_refl.
  - exact Hsizes.
  - apply (chop_full (Z.to_nat width)). lia.
  - intros H6 H3. unfold batches, tasks, width. rewrite H6, H3.
    unfold chunkCount in H6.
    destruct chunks as [|c1 [|c2 [|c3 [|c4 [|c5 [|c6 [|c7 chunks]]]]]]];
      simpl in H6; try lia.
    reflexivity.
Qed.

(** ** The order of the summaries *)


Lemma firstn_plus {A} (a b : nat) :
  forall l : list A, firstn (a + b) l = firstn a l ++ firstn b (skipn a l).
Proof.
  induction a as [|a IH]; intros l; [reflexivity|].
  destruct l as [|x l]; [simpl; now rewrite firstn_nil|].
  simpl. now rewrite IH.
Qed.

Section ExecOrder.
Import Js ChunkSummarizerNode.

Variable maxRetries : Z.
Variable service : Z -> Backend.
Variable settledAt : Z -> Z.

Local Abbreviation tasksFrom := (startBatch maxRetries service).
Local Abbreviation returned := MapInvariant.returned.
Local Abbreviation summarizedTo :=
  (MapInvariant.summarizedTo maxRetries service).

Lemma awaitAll_fulfilled (l : list (Z * Attempts)) :
  snd (awaitAll l) = None -> Forall returned l.
Proof.
  induction l as [|[i a] l IH]; intros H; [constructor|].
  cbn [awaitAll] in H. destruct (completion a) as [s|e] eqn:E.
  - destruct (awaitAll l) as [ev r]. cbn [snd] in *.
    constructor; [exists s; exact E | now apply IH].
  - discriminate.
Qed.

Lemma startBatch_app (l1 l2 : list str) :
  forall i,
    tasksFrom (l1 ++ l2) i
    = tasksFrom l1 i ++ tasksFrom l2 (i + Z.of_nat (List.length l1)).
Proof.
  induction l1 as [|c l1 IH]; intros i.
  - simpl. now rewrite Z.add_0_r.
  - cbn [app startBatch List.length].
    rewrite IH. do 3 f_equal. lia.
Qed.

Lemma startBatch_nth (l : list str) :
  forall (i : Z) (k : nat) (chunk : str),
    nth_error l k = Some chunk ->
    nth_error (tasksFrom l i) k
    = Some (i + Z.of_nat k,
            summarizeChunkWithRetry maxRetries (service (i + Z.of_nat k))
              chunk (i + Z.of_nat k)).
Proof.
  induction l as [|c l IH]; intros i k chunk H; [destruct k; discriminate|].
  destruct k as [|k].
  - injection H as <-. simpl. now rewrite Z.add_0_r.
  - cbn [nth_error] in *. cbn [startBatch nth_error].
    rewrite (IH (i + 1) k chunk H). do 2 f_equal; try lia.
    f_equal; try lia. f_equal. lia.
Qed.

Lemma batchLoop_in_order (chunks : list str) (width : Z) :
  1 <= width ->
  forall (fuel : nat) (i : Z) (chunkSummaries : list str)
         (events : list Event) (run : Run) (out : list str),
    0 <= i ->
    summarizedTo chunks i chunkSummaries ->
    batchLoop maxRetries service settledAt fuel chunks width i
              chunkSummaries events = Some run ->
    result run = inl out ->
    summarizedTo chunks (Z.of_nat (List.length chunks)) out.
Proof.
  intros Hw. induction fuel as [|fuel IH];
    intros i chunkSummaries events run out Hi [Hs Hr] Hrun Hout;
    [discriminate|].
  cbn [batchLoop] in Hrun.
  destruct (i <? Z.of_nat (List.length chunks)) eqn:E.
  - apply Z.ltb_lt in E.
    rewrite slice_batch in Hrun by assumption.
    set (batch := firstn (Z.to_nat width) (skipn (Z.to_nat i) chunks)) in *.
    destruct (awaitAll
                (sortBy (fun p => settledAt (fst p))
                   (startBatch maxRetries service batch i)))
      as [settled rejection] eqn:Ea.
    destruct rejection as [e|].
    { injection Hrun as <-. discriminate. }
    assert (Hb : Forall returned (tasksFrom batch i)).
    { apply (Permutation_Forall
               (sortWith_Permutation
                  (fun x y => settledAt (fst x) <=? settledAt (fst y))
                  (tasksFrom batch i))).
      apply awaitAll_fulfilled.
      change (sortWith _ (startBatch maxRetries service batch i))
        with (sortBy (fun p => settledAt (fst p))
                (startBatch maxRetries service batch i)).
      now rewrite Ea. }
    assert (Hsplit : firstn (Z.to_nat (i + width)) chunks
                     = firstn (Z.to_nat i) chunks ++ batch).
    { unfold batch. replace (Z.to_nat (i + width))
        with (Z.to_nat i + Z.to_nat width)%nat by lia.
      apply firstn_plus. }
    assert (Hlen : Z.of_nat (List.length (firstn (Z.to_nat i) chunks)) = i).
    { rewrite length_firstn. lia. }
    eapply (IH (i + width)); [lia | | exact Hrun | exact Hout].
    unfold summarizedTo. rewrite Hsplit, startBatch_app, Hlen, Z.add_0_l.
    split.
    + rewrite map_app. now rewrite <- Hs.
    + apply Forall_app. split; assumption.
  - apply Z.ltb_ge in E. injection Hrun as <-. cbn [result] in Hout.
    injection Hout as <-.
    unfold summarizedTo in *.
    rewrite Nat2Z.id, firstn_all.
    rewrite firstn_all2 in Hs, Hr by lia. split; assumption.
Qed.

(** With a width below one the loop never gets past the first chunk,
    so it never returns summaries. *)
Lemma batchLoop_stuck (chunks : list str) (width : Z) :
  width <= 0 -> chunks <> [] ->
  forall (fuel : nat) (i : Z) (chunkSummaries : list str)
         (events : list Event) (run : Run) (out : list str),
    i <= 0 ->
    batchLoop maxRetries service settledAt fuel chunks width i
              chunkSummaries events = Some run ->
    result run <> inl out.
Proof.
  intros Hw Hne. induction fuel as [|fuel IH];
    intros i chunkSummaries events run out Hi Hrun; [discriminate|].
  cbn [batchLoop] in Hrun.
  assert (Hn : 0 < Z.of_nat (List.length chunks)).
  { destruct chunks; [congruence | simpl; lia]. }
  replace (i <? Z.of_nat (List.length chunks)) with true in Hrun
    by (symmetry; apply Z.ltb_lt; lia).
  destruct (awaitAll _) as [settled [e|]].
  - injection Hrun as <-. discriminate.
  - apply (IH _ _ _ run out) in Hrun; [exact Hrun | lia].
Qed.

End ExecOrder.

(** C6. When [exec] succeeds on a chunk array, the array of summaries it
    returns has the length of the chunk array, and its element at each
    position is the summary that [summarizeChunkWithRetry] returned for
    the chunk at that position, whatever the order in which the
    summarizations of a batch settled. *)
Theorem exec_preserves_input_order :
  forall (maxConcurrent maxRetries : Z)
         (service : Z -> ChunkSummarizerNode.Backend) (settledAt : Z -> Z)
         (fuel : nat) (chunks : option (list Js.str))
         (run : ChunkSummarizerNode.Run) (summaries : list Js.str),
    ChunkSummarizerNode.exec maxConcurrent maxRetries service settledAt
      fuel chunks = Some run ->
    ChunkSummarizerNode.result run = inl summaries ->
    exists cs : list Js.str,
      chunks = Some cs
      /\ cs <> []
      /\ List.length summaries = List.length cs
      /\ forall (i : nat) (chunk : Js.str),
           nth_error cs i = Some chunk ->
           exists summary,
             nth_error summaries i = Some summary
             /\ ChunkSummarizerNode.completion
                  (ChunkSummarizerNode.summarizeChunkWithRetry maxRetries
                     (service (Z.of_nat i)) chunk (Z.of_nat i))
                = ChunkSummarizerNode.Returned summary.
Proof.
  intros maxConcurrent maxRetries service settledAt fuel chunks run summaries
         Hrun Hout.
  destruct chunks as [[|c cs]|]; cbn [ChunkSummarizerNode.exec] in Hrun;
    try (injection Hrun as <-; discriminate).
  exists (c :: cs). split; [reflexivity|]. split; [discriminate|].
  set (chunks := c :: cs) in *.
  set (width := ChunkSummarizerNode.actualConcurrency maxConcurrent
                  (Z.of_nat (List.length chunks))) in *.
  destruct (Z.le_gt_cases width 0) as [Hw|Hw].
  { exfalso.
    apply (batchLoop_stuck maxRetries service settledAt chunks width Hw
             ltac:(discriminate) fuel 0 [] [] run summaries ltac:(lia) Hrun).
    exact Hout. }
  destruct (batchLoop_in_order maxRetries service settledAt chunks width
              ltac:(lia) fuel 0 [] [] run summaries ltac:(lia)
              ltac:(split; [reflexivity | constructor]) Hrun Hout)
    as [Hs Hr].
  rewrite Nat2Z.id, firstn_all in Hs, Hr.
  split.
  - rewrite Hs, length_map. apply startBatch_length.
  - intros i chunk Hi.
    pose proof (startBatch_nth maxRetries service chunks 0 i chunk Hi) as Hn.
    rewrite Z.add_0_l in Hn.
    rewrite Forall_forall in Hr.
    destruct (Hr _ (nth_error_In _ _ Hn)) as (summary & Hsum).
    cbn [snd] in Hsum. exists summary. split; [|exact Hsum].
    rewrite Hs. rewrite nth_error_map, Hn. cbn [option_map snd].
    unfold ChunkSummarizerNode.summaryOf. now rewrite Hsum.
Qed.

(** ** The transcript validator *)


Lemma Qltb_lt (a b : Q) : Num.Qltb a b = true <-> (a < b)%Q.
Proof.
  unfold Num.Qltb. rewrite negb_true_iff. split.
  - intros H. apply Qnot_le_lt. intros Hle.
    apply Qle_bool_iff in Hle. congruence.
  - intros H. destruct (Qle_bool b a) eqn:E; [|reflexivity].
    apply Qle_bool_iff in E. exfalso. exact (Qlt_not_le _ _ H E).
Qed.

(** C4 (as amended). The validator rejects a transcript exactly when it
    is absent or empty, or shorter than the minimum, or splits at runs of
    white space into fewer than 20 fields, or has fewer than half of its
    characters among the ASCII letters, the digits and the white space;
    the reason tells which of the four checks failed, the four messages
    start differently, and [post] takes the [invalid] edge with the
    reason stored as the error exactly on a rejection. *)
Theorem validator_rejects_exactly :
  forall (minTranscriptLength : Z) (transcript : option Js.str),
    let r := TranscriptValidatorNode.exec minTranscriptLength transcript in
    let ratio t :=
      (inject_Z (TranscriptValidatorNode.alphanumericCharsOf t)
       / inject_Z (Js.len t))%Q in
    (TranscriptValidatorNode.isValid r = false <->
       transcript = None
       \/ exists t, transcript = Some t
            /\ (t = []
                \/ Js.len t < minTranscriptLength
                \/ TranscriptValidatorNode.wordsOf t < 20
                \/ (ratio t < 1 # 2)%Q))
    /\ match TranscriptValidatorNode.reason r with
       | None => TranscriptValidatorNode.isValid r = true
       | Some reason =>
           TranscriptValidatorNode.isValid r = false
           /\ match reason with
              | TranscriptValidatorNode.NoTranscript =>
                  transcript = None \/ transcript = Some []
              | TranscriptValidatorNode.TooShort l m =>
                  exists t, transcript = Some t /\ t <> []
                    /\ l = Js.len t /\ m = minTranscriptLength /\ l < m
              | TranscriptValidatorNode.TooFewWords w =>
                  exists t, transcript = Some t /\ t <> []
                    /\ minTranscriptLength <= Js.len t
                    /\ w = TranscriptValidatorNode.wordsOf t /\ w < 20
              | TranscriptValidatorNode.LowQuality a n =>
                  exists t, transcript = Some t /\ t <> []
                    /\ minTranscriptLength <= Js.len t
                    /\ 20 <= TranscriptValidatorNode.wordsOf t
                    /\ a = TranscriptValidatorNode.alphanumericCharsOf t
                    /\ n = Js.len t /\ (ratio t < 1 # 2)%Q
              end
       end
    /\ (forall r1 r2,
          TranscriptValidatorNode.messageStart r1
          = TranscriptValidatorNode.messageStart r2 ->
          match r1, r2 with
          | TranscriptValidatorNode.NoTranscript,
            TranscriptValidatorNode.NoTranscript
          | TranscriptValidatorNode.TooShort _ _,
            TranscriptValidatorNode.TooShort _ _
          | TranscriptValidatorNode.TooFewWords _,
            TranscriptValidatorNode.TooFewWords _
          | TranscriptValidatorNode.LowQuality _ _,
            TranscriptValidatorNode.LowQuality _ _ => True
          | _, _ => False
          end)
    /\ (forall error,
          let shared :=
            {| TranscriptValidatorNode.transcript := transcript;
               TranscriptValidatorNode.error := error |} in
          TranscriptValidatorNode.run minTranscriptLength shared
          = if TranscriptValidatorNode.isValid r
            then (TranscriptValidatorNode.valid, shared)
            else (TranscriptValidatorNode.invalid_,
                  {| TranscriptValidatorNode.transcript := transcript;
                     TranscriptValidatorNode.error :=
                       TranscriptValidatorNode.reason r |})).
Proof.
  intros minLen transcript r ratio.
  assert (Hlen0 : forall t : Js.str, Js.len t = 0 <-> t = []).
  { intros t. unfold Js.len. destruct t; simpl; split; intros H;
      try reflexivity; try discriminate; lia. }
  split; [|split; [|split]].
  - subst r. unfold TranscriptValidatorNode.exec.
    destruct transcript as [t|]; [|simpl; split; auto].
    destruct (Js.len t =? 0) eqn:E0.
    { apply Z.eqb_eq, Hlen0 in E0. simpl. split; [|reflexivity].
      intros _. right. exists t. auto. }
    apply Z.eqb_neq in E0.
    destruct (Js.len t <? minLen) eqn:E1.
    { apply Z.ltb_lt in E1. simpl. split; [|reflexivity].
      intros _. right. exists t. auto. }
    apply Z.ltb_ge in E1.
    destruct (TranscriptValidatorNode.wordsOf t <? 20) eqn:E2.
    { apply Z.ltb_lt in E2. simpl. split; [|reflexivity].
      intros _. right. exists t. auto. }
    apply Z.ltb_ge in E2. fold (ratio t).
    destruct (Num.Qltb (ratio t) (1 # 2)) eqn:E3.
    { apply Qltb_lt in E3. simpl. split; [|reflexivity].
      intros _. right. exists t. auto 6. }
    simpl. split; [discriminate|].
    intros [H | (t' & Ht & H)]; [discriminate|].
    injection Ht as <-.
    destruct H as [H | [H | [H | H]]].
    + apply Hlen0 in H. contradiction.
    + lia.
    + lia.
    + apply Qltb_lt in H. congruence.
  - subst r. unfold TranscriptValidatorNode.exec.
    destruct transcript as [t|]; [|simpl; auto].
    destruct (Js.len t =? 0) eqn:E0.
    { apply Z.eqb_eq, Hlen0 in E0. subst t. simpl. auto. }
    apply Z.eqb_neq in E0.
    assert (Hne : t <> []) by (intros ->; apply E0; reflexivity).
    destruct (Js.len t <? minLen) eqn:E1.
    { apply Z.ltb_lt in E1. simpl. split; [reflexivity|].
      exists t. auto. }
    apply Z.ltb_ge in E1.
    destruct (TranscriptValidatorNode.wordsOf t <? 20) eqn:E2.
    { apply Z.ltb_lt in E2. simpl. split; [reflexivity|].
      exists t. auto. }
    apply Z.ltb_ge in E2. fold (ratio t).
    destruct (Num.Qltb (ratio t) (1 # 2)) eqn:E3.
    { apply Qltb_lt in E3. simpl. split; [reflexivity|].
      exists t. auto 8. }
    reflexivity.
  - intros [] []; simpl; intros H; try exact I; discriminate.
  - intros error shared. unfold TranscriptValidatorNode.run,
      TranscriptValidatorNode.post.
    change (TranscriptValidatorNode.transcript shared) with transcript.
    fold r. destruct (TranscriptValidatorNode.isValid r); reflexivity.
Qed.

(** Two transcripts that the validator accepts: one of which only a
    quarter of the characters are alphanumeric (half of them are spaces),
    and one of nineteen words (the space after the last word makes a
    twentieth, empty field). *)
Lemma validator_accepts_what_is_stated_rejected :
  (let t := ValidatorExamples.shouting in
   TranscriptValidatorNode.isValid
     (TranscriptValidatorNode.exec
        TranscriptValidatorNode.defaultMinTranscriptLength (Some t)) = true
   /\ Js.len t = 120
   /\ Z.of_nat (List.length
                  (filter TranscriptValidatorNode.isAsciiAlphanumeric t)) = 30
   /\ (inject_Z 30 / inject_Z 120 < 1 # 2)%Q)
  /\ (let t := ValidatorExamples.nineteenWords in
      TranscriptValidatorNode.isValid
        (TranscriptValidatorNode.exec
           TranscriptValidatorNode.defaultMinTranscriptLength (Some t)) = true
      /\ ValidatorExamples.wordCount t = 19
      /\ TranscriptValidatorNode.wordsOf t = 20).
Proof.
  cbv zeta. repeat split; vm_compute; reflexivity.
Qed.

(** ** The chunking strategies *)


Lemma ltb_max_one (x : Num.num) :
  Num.ltb (Num.max 1 x) (Num.Fin (3 # 2)) = Num.ltb x (Num.Fin (3 # 2)).
Proof.
  destruct x as [q| |]; try reflexivity.
  unfold Num.max, Num.max2, Num.Qmaxb, Num.ltb.
  destruct (Qle_bool 1 q) eqn:E; [reflexivity|].
  change (negb (Qle_bool (3 # 2) 1)) with true. symmetry.
  apply negb_true_iff. destruct (Qle_bool (3 # 2) q) eqn:E2; [|reflexivity].
  apply Qle_bool_iff in E2.
  assert (H : (1 <= q)%Q) by (eapply Qle_trans; [|exact E2]; discriminate).
  apply Qle_bool_iff in H. congruence.
Qed.

(** C3 (as amended). For a transcript that splits into more than one
    sentence: the Uniform and the Bookend strategy, when
    [estimatedTokens(transcript) / (maxLength * 0.9) < 1.5], do not
    sample and pack every sentence of the splitter with
    [createChunksFromSentences], so that the chunks joined are the
    sentences joined; the Intelligent strategy does not look at
    [maxLength]: when [estimatedTokens(transcript) <= 3000] it does not
    sample and packs every sentence of the splitter with
    [createForcedChunks]. *)
Theorem small_transcripts_are_not_sampled :
  forall (transcript : Js.str) (maxLength : Q),
    let sentences := BaseChunkingStrategy.splitIntoSentences transcript in
    let totalTokens := BaseChunkingStrategy.estimateTokens transcript in
    let reductionFactor :=
      Num.divZ totalTokens (Num.mulQ maxLength (Num.lit (9 # 10))) in
    1 < BaseChunkingStrategy.count sentences ->
    (Num.ltb reductionFactor (Num.Fin (3 # 2)) = true ->
     UniformSamplingStrategy.chunkTranscript transcript maxLength
     = BaseChunkingStrategy.createChunksFromSentences sentences maxLength
     /\ BookendSamplingStrategy.chunkTranscript transcript maxLength
        = BaseChunkingStrategy.createChunksFromSentences sentences maxLength
     /\ Js.join Js.space
          (BaseChunkingStrategy.createChunksFromSentences sentences maxLength)
        = Js.join Js.space sentences)
    /\ (totalTokens <= 3000 ->
        forall toLowerCase : Js.str -> Js.str,
          IntelligentSamplingStrategy.chunkTranscript toLowerCase transcript
            maxLength
          = Some (IntelligentSamplingStrategy.createForcedChunks sentences
                    (IntelligentSamplingStrategy.targetChunkSize totalTokens))).
Proof.
  intros transcript maxLength sentences totalTokens reductionFactor Hmany.
  assert (Hgt : (BaseChunkingStrategy.count sentences <=? 1) = false)
    by (apply Z.leb_gt; exact Hmany).
  split.
  - intros Hlow.
    unfold UniformSamplingStrategy.chunkTranscript,
      BookendSamplingStrategy.chunkTranscript.
    fold sentences. rewrite Hgt.
    unfold UniformSamplingStrategy.reductionFactor,
      BookendSamplingStrategy.reductionFactor.
    fold totalTokens. fold reductionFactor.
    rewrite ltb_max_one, Hlow.
    split; [reflexivity|]. split; [reflexivity|].
    apply createChunksFromSentences_content.
  - intros Hsmall toLowerCase.
    unfold IntelligentSamplingStrategy.chunkTranscript.
    fold sentences. rewrite Hgt. fold totalTokens.
    replace (totalTokens <=? 3000) with true
      by (symmetry; apply Z.leb_le; exact Hsmall).
    reflexivity.
Qed.

Lemma small_transcripts_are_not_sampled_witness :
  UniformSamplingStrategy.chunkTranscript ChunkingExamples.talk 1000
  = BaseChunkingStrategy.createChunksFromSentences
      (BaseChunkingStrategy.splitIntoSentences ChunkingExamples.talk) 1000
  /\ BookendSamplingStrategy.chunkTranscript ChunkingExamples.talk 1000
     = BaseChunkingStrategy.createChunksFromSentences
         (BaseChunkingStrategy.splitIntoSentences ChunkingExamples.talk) 1000
  /\ IntelligentSamplingStrategy.chunkTranscript
       IntelligentSamplingStrategy.asciiLower ChunkingExamples.talk 1000
     = Some (IntelligentSamplingStrategy.createForcedChunks
               (BaseChunkingStrategy.splitIntoSentences ChunkingExamples.talk)
               (IntelligentSamplingStrategy.targetChunkSize 40)).
Proof.
  destruct (small_transcripts_are_not_sampled ChunkingExamples.talk 1000
              ltac:(vm_compute; reflexivity)) as [H1 H2].
  destruct (H1 ltac:(vm_compute; reflexivity)) as (Hu & Hb & _).
  split; [exact Hu|]. split; [exact Hb|].
  apply (H2 ltac:(vm_compute; discriminate)).
Defined.

(** The Intelligent strategy samples a transcript of 3313 estimated
    tokens although [maxLength = 100000] puts the reduction factor far
    below 1.5: the twelfth sentence of the splitter is in none of the
    chunks returned. *)
Lemma intelligent_samples_below_threshold :
  let transcript := ChunkingExamples.lecture in
  let maxLength := 100000%Q in
  let sentences := BaseChunkingStrategy.splitIntoSentences transcript in
  1 < BaseChunkingStrategy.count sentences
  /\ Num.ltb
       (Num.divZ (BaseChunkingStrategy.estimateTokens transcript)
                 (Num.mulQ maxLength (Num.lit (9 # 10))))
       (Num.Fin (3 # 2)) = true
  /\ exists chunks sentence,
       IntelligentSamplingStrategy.chunkTranscript
         IntelligentSamplingStrategy.asciiLower transcript maxLength
       = Some chunks
       /\ nth_error sentences 11 = Some sentence
       /\ forallb (fun chunk => negb (Js.includes chunk sentence)) chunks
          = true.
Proof.
  cbv zeta. split; [vm_compute; reflexivity|].
  split; [vm_compute; reflexivity|].
  assert (H :
    match IntelligentSamplingStrategy.chunkTranscript
            IntelligentSamplingStrategy.asciiLower ChunkingExamples.lecture
            100000,
          nth_error
            (BaseChunkingStrategy.splitIntoSentences ChunkingExamples.lecture)
            11
    with
    | Some chunks, Some sentence =>
        forallb (fun chunk => negb (Js.includes chunk sentence)) chunks
    | _, _ => false
    end = true) by (vm_compute; reflexivity).
  destruct (IntelligentSamplingStrategy.chunkTranscript _ _ _) as [chunks|];
    [|discriminate].
  destruct (nth_error _ 11) as [sentence|]; [|discriminate].
  exists chunks, sentence. auto.
Qed.

Lemma last_in_skipn {A} (l : list A) (d : A) (k : nat) :
  (k < List.length l)%nat -> In (last l d) (skipn k l).
Proof.
  revert k. induction l as [|x l IH]; intros k H; [simpl in H; lia|].
  destruct k as [|k].
  - simpl skipn. destruct l as [|y l]; [now left|].
    right. apply (IH 0%nat). simpl. lia.
  - destruct l as [|y l]; [simpl in H; lia|].
    change (last (x :: y :: l) d) with (last (y :: l) d).
    apply IH. simpl in *. lia.
Qed.

(** C8. When the Bookend strategy samples (more than one sentence, a
    reduction factor not below 1.5, and a bookend size of at least one
    sentence), the sampled sentences that are packed into the chunks
    contain the first and the last sentence of the splitter.  The
    reduction factor, the number of sentences to keep and the bookend
    size are the doubles that the program computes. *)
Theorem bookend_keeps_first_and_last :
  forall (transcript : Js.str) (maxLength : Q) (keep : Q),
    let sentences := BaseChunkingStrategy.splitIntoSentences transcript in
    let reductionFactor :=
      BookendSamplingStrategy.reductionFactor transcript maxLength in
    1 < BaseChunkingStrategy.count sentences ->
    Num.ltb reductionFactor (Num.Fin (3 # 2)) = false ->
    BookendSamplingStrategy.totalSentencesToKeep sentences reductionFactor
    = Num.Fin keep ->
    1 <= BookendSamplingStrategy.bookendSizeOf (Qfloor keep) ->
    let sampled :=
      BookendSamplingStrategy.sampleSentences sentences reductionFactor in
    BookendSamplingStrategy.chunkTranscript transcript maxLength
    = BaseChunkingStrategy.createChunksFromSentences sampled maxLength
    /\ In (hd [] sentences) sampled
    /\ In (last sentences []) sampled.
Proof.
  intros transcript maxLength keep sentences reductionFactor Hmany Hhigh
         Hkeep Hsize sampled.
  split.
  - unfold BookendSamplingStrategy.chunkTranscript. fold sentences.
    replace (BaseChunkingStrategy.count sentences <=? 1) with false
      by (symmetry; apply Z.leb_gt; exact Hmany).
    fold reductionFactor. rewrite Hhigh. reflexivity.
  - unfold sampled, BookendSamplingStrategy.sampleSentences.
    rewrite Hkeep. unfold Js.sortBy.
    set (size := BookendSamplingStrategy.bookendSizeOf (Qfloor keep)) in *.
    assert (Hin : forall x,
               In x (BookendSamplingStrategy.collect sentences (Qfloor keep)) ->
               In x (Js.sortWith
                       (fun x y => Js.indexOf sentences x
                                   <=? Js.indexOf sentences y)
                       (BookendSamplingStrategy.collect sentences
                          (Qfloor keep)))).
    { intros x Hx. eapply Permutation_in; [|exact Hx].
      symmetry. apply sortWith_Permutation. }
    unfold BaseChunkingStrategy.count in Hmany.
    split; apply Hin; unfold BookendSamplingStrategy.collect; fold size.
    + apply in_or_app. left.
      destruct sentences as [|s rest]; [simpl in Hmany; lia|].
      destruct (Z.to_nat size) as [|k] eqn:E; [lia|]. now left.
    + apply in_or_app. right. apply in_or_app. right.
      apply last_in_skipn. unfold BaseChunkingStrategy.count. lia.
Qed.

Lemma bookend_keeps_first_and_last_witness :
  let sentences :=
    BaseChunkingStrategy.splitIntoSentences ChunkingExamples.talk in
  let sampled :=
    BookendSamplingStrategy.sampleSentences sentences
      (BookendSamplingStrategy.reductionFactor ChunkingExamples.talk 20) in
  BookendSamplingStrategy.chunkTranscript ChunkingExamples.talk 20
  = BaseChunkingStrategy.createChunksFromSentences sampled 20
  /\ In (hd [] sentences) sampled
  /\ In (last sentences []) sampled.
Proof.
  apply (bookend_keeps_first_and_last ChunkingExamples.talk 20 3).
  - vm_compute. reflexivity.
  - vm_compute. reflexivity.
  - vm_compute. reflexivity.
  - vm_compute. discriminate.
Defined.

(** The bookends hold a sentence as soon as three sentences are to be
    kept: [3 * 0.4] is above 1 and [2 * 0.4] below. *)
Lemma bookendSizeOf_positive (totalSentencesToKeep : Z) :
  1 <= BookendSamplingStrategy.bookendSizeOf totalSentencesToKeep
  <-> 3 <= totalSentencesToKeep.
Proof.
  unfold BookendSamplingStrategy.bookendSizeOf.
  assert (Hc : (0 < Num.lit (2 # 5))%Q) by reflexivity.
  set (c := Num.lit (2 # 5)) in *.
  set (k := totalSentencesToKeep).
  split; intros H.
  - destruct (Z_le_gt_dec 3 k) as [Hk|Hk]; [exact Hk|]. exfalso.
    assert (Hle : (inject_Z k * c <= inject_Z 2 * c)%Q).
    { apply Qmult_le_r; [exact Hc|]. rewrite <- Zle_Qle. lia. }
    apply round_mono, Qfloor_resp_le in Hle.
    change (Qfloor (Num.round (inject_Z 2 * c))) with 0 in Hle. lia.
  - assert (Hle : (inject_Z 3 * c <= inject_Z k * c)%Q).
    { apply Qmult_le_r; [exact Hc|]. rewrite <- Zle_Qle. exact H. }
    apply round_mono, Qfloor_resp_le in Hle.
    change (Qfloor (Num.round (inject_Z 3 * c))) with 1 in Hle. exact Hle.
Qed.

(** C9, on a transcript of 802 characters without punctuation: the
    splitter falls through to the forced split and returns its pieces
    without the filter on short fragments; the second piece has two
    characters. *)
Theorem forced_split_keeps_short_fragment :
  exists piece,
    BaseChunkingStrategy.splitIntoSentences ChunkingExamples.unpunctuated
    = [piece; Js.of_string "xy"]
    /\ Js.len (Js.trim (Js.of_string "xy")) = 2
    /\ Js.len ChunkingExamples.unpunctuated = 802.
Proof.
  eexists. split; [vm_compute; reflexivity|].
  split; vm_compute; reflexivity.
Qed.


Lemma exec_runs_consecutive_batches_witness :
  option_map ChunkSummarizerNode.events
    (ChunkSummarizerNode.exec 3 3 MapExamples.digits MapExamples.lastFirst 7
       (Some MapExamples.chunks6))
  = Some [ ChunkSummarizerNode.StartingBatch 1;
           ChunkSummarizerNode.Started 0; ChunkSummarizerNode.Started 1;
           ChunkSummarizerNode.Fulfilled 1; ChunkSummarizerNode.Fulfilled 0;
           ChunkSummarizerNode.CompletedBatch 1;
           ChunkSummarizerNode.StartingBatch 2;
           ChunkSummarizerNode.Started 2; ChunkSummarizerNode.Started 3;
           ChunkSummarizerNode.Fulfilled 3; ChunkSummarizerNode.Fulfilled 2;
           ChunkSummarizerNode.CompletedBatch 2;
           ChunkSummarizerNode.StartingBatch 3;
           ChunkSummarizerNode.Started 4; ChunkSummarizerNode.Started 5;
           ChunkSummarizerNode.Fulfilled 5; ChunkSummarizerNode.Fulfilled 4;
           ChunkSummarizerNode.CompletedBatch 3 ].
Proof.
  destruct (exec_runs_consecutive_batches 3 3 MapExamples.digits
              MapExamples.lastFirst MapExamples.chunks6 7
              ltac:(discriminate) ltac:(lia) ltac:(simpl; lia))
    as (_ & H & _).
  rewrite H. vm_compute. reflexivity.
Defined.

Lemma exec_preserves_input_order_witness :
  exists cs : list Js.str,
    Some MapExamples.chunks6 = Some cs
    /\ cs <> []
    /\ List.length MapExamples.summaries6 = List.length cs
    /\ forall (i : nat) (chunk : Js.str),
         nth_error cs i = Some chunk ->
         exists summary,
           nth_error MapExamples.summaries6 i = Some summary
           /\ ChunkSummarizerNode.completion
                (ChunkSummarizerNode.summarizeChunkWithRetry 3
                   (MapExamples.digits (Z.of_nat i)) chunk (Z.of_nat i))
              = ChunkSummarizerNode.Returned summary.
Proof.
  eapply (exec_preserves_input_order 3 3 MapExamples.digits
            MapExamples.lastFirst 7 (Some MapExamples.chunks6)).
  - vm_compute. reflexivity.
  - reflexivity.
Defined.

(** X27. Outside the forced split, the splitter returns no fragment
    shorter than five characters. *)
Lemma splitIntoSentences_filtered (text : Js.str) :
  BaseChunkingStrategy.splitIntoSentences text
  = BaseChunkingStrategy.forceSplitByCharCount text 800
  \/ Forall (fun s => 5 <= Js.len (Js.trim s))
            (BaseChunkingStrategy.splitIntoSentences text).
Proof.
  unfold BaseChunkingStrategy.splitIntoSentences.
  repeat match goal with
         | |- context [if ?b then _ else _] => destruct b
         end;
    try (left; reflexivity);
    right; apply Forall_forall; intros s Hs;
    apply filter_In in Hs; destruct Hs as [_ Hs]; now apply Z.leb_le.
Qed.

(** ** The loop bounds of the splitter are enough *)

Section SplitterBounds.
Import Js BaseChunkingStrategy.

Lemma dropWhile_length {A} (p : A -> bool) (l : list A) :
  (List.length (dropWhile p l) <= List.length l)%nat.
Proof.
  induction l as [|x l IH]; [constructor|].
  simpl. destruct (p x); simpl; lia.
Qed.

(** A match of the sentence expression consumes a character. *)
Lemma matchSentenceAt_shorter (s m rest : str) :
  matchSentenceAt s = Some (m, rest) ->
  (List.length rest < List.length s)%nat.
Proof.
  unfold matchSentenceAt. destruct s as [|c s]; [discriminate|].
  cbn [takeWhile dropWhile]. destruct (notTerminator c).
  2:{ intros H.
      destruct (takeWhile isTerminator (c :: s));
        destruct (dropWhile isTerminator (c :: s)) as [|q r];
        try destruct (isQuote q); cbn in H; discriminate. }
  pose proof (dropWhile_length notTerminator s) as H1.
  pose proof (dropWhile_length isTerminator (dropWhile notTerminator s)) as H2.
  set (r2 := dropWhile isTerminator (dropWhile notTerminator s)) in *.
  intros H.
  destruct (takeWhile isTerminator (dropWhile notTerminator s)) as [|t ts].
  { destruct r2 as [|q r]; [|destruct (isQuote q)]; cbn in H; discriminate. }
  destruct r2 as [|q r]; cbn in H.
  - injection H as _ <-. simpl. lia.
  - destruct (isQuote q); cbn in H.
    + destruct r as [|c' r']; [|destruct (isWhitespace c')];
        try discriminate; injection H as _ <-; simpl in *; lia.
    + destruct (isWhitespace q); try discriminate.
      injection H as _ <-. simpl in *. lia.
Qed.

Lemma matchAllSentences_fuel (f1 : nat) :
  forall (f2 : nat) (s : str),
    (List.length s <= f1)%nat -> (List.length s <= f2)%nat ->
    matchAllSentences f1 s = matchAllSentences f2 s.
Proof.
  induction f1 as [|f1 IH]; intros f2 s H1 H2.
  - destruct s; [|simpl in H1; lia]. destruct f2; reflexivity.
  - destruct s as [|c s]; [destruct f2; reflexivity|].
    destruct f2 as [|f2]; [simpl in H2; lia|].
    cbn [matchAllSentences].
    destruct (matchSentenceAt (c :: s)) as [[m rest]|] eqn:E.
    + apply matchSentenceAt_shorter in E. simpl in *.
      f_equal. apply IH; lia.
    + simpl in *. apply IH; lia.
Qed.

Lemma searchBack_after (test : Z -> bool) (lo startIdx : Z) (fuel : nat) :
  forall (i b : Z),
    searchBack test lo startIdx fuel i = Some b -> startIdx + 1 < b.
Proof.
  induction fuel as [|fuel IH]; intros i b H; [discriminate|].
  cbn [searchBack] in H.
  destruct ((lo <=? i) && (startIdx <? i)) eqn:E; [|discriminate].
  apply andb_true_iff in E as [_ E]. apply Z.ltb_lt in E.
  destruct (test i).
  - injection H as <-. lia.
  - apply (IH _ _ H).
Qed.

(** A round of the forced split advances by at least one character. *)
Lemma forceSplitLoop_fuel (text : str) (targetLength : Z) :
  1 <= targetLength ->
  forall (f1 f2 : nat) (startIdx : Z),
    (Z.to_nat (len text - startIdx) <= f1)%nat ->
    (Z.to_nat (len text - startIdx) <= f2)%nat ->
    forceSplitLoop f1 text targetLength startIdx
    = forceSplitLoop f2 text targetLength startIdx.
Proof.
  intros Ht. induction f1 as [|f1 IH]; intros f2 startIdx H1 H2.
  - destruct f2 as [|f2]; [reflexivity|].
    cbn [forceSplitLoop].
    replace (startIdx <? len text) with false
      by (symmetry; apply Z.ltb_ge; lia).
    reflexivity.
  - destruct f2 as [|f2].
    + cbn [forceSplitLoop].
      replace (startIdx <? len text) with false
        by (symmetry; apply Z.ltb_ge; lia).
      reflexivity.
    + cbn [forceSplitLoop].
      destruct (startIdx <? len text) eqn:E; [|reflexivity].
      apply Z.ltb_lt in E.
      set (endIdx0 := Z.min (startIdx + targetLength) (len text)).
      set (endIdx :=
             if endIdx0 <? len text
             then
               match searchBack (sentenceEndAt text)
                       (endIdx0 - targetLength / 5) startIdx
                       (Z.to_nat (targetLength / 5 + 1)) endIdx0 with
               | Some breakPoint => breakPoint
               | None =>
                   match searchBack (whitespaceAt text)
                           (endIdx0 - targetLength / 5) startIdx
                           (Z.to_nat (targetLength / 5 + 1)) endIdx0 with
                   | Some breakPoint => breakPoint
                   | None => endIdx0
                   end
               end
             else endIdx0).
      assert (Hadv : startIdx < endIdx).
      { unfold endIdx.
        assert (H0 : startIdx < endIdx0) by (unfold endIdx0; lia).
        destruct (endIdx0 <? len text); [|exact H0].
        destruct (searchBack (sentenceEndAt text) _ _ _ _) as [b|] eqn:Eb.
        - apply searchBack_after in Eb. lia.
        - destruct (searchBack (whitespaceAt text) _ _ _ _) as [b|] eqn:Ew.
          + apply searchBack_after in Ew. lia.
          + exact H0. }
      f_equal. apply IH; lia.
Qed.

End SplitterBounds.

(** ** The loop bounds of the strategies are enough *)

Section StrategyBounds.
Import Js BaseChunkingStrategy.

Lemma sampleLoop_fuel (sentences : list str) (windowSize : Z)
      (samplingInterval : Num.num) :
  match samplingInterval with
  | Num.Fin q => 1 <= Qfloor q
  | _ => True
  end ->
  forall (f1 f2 : nat) (i : Z),
    (Z.to_nat (count sentences - i) <= f1)%nat ->
    (Z.to_nat (count sentences - i) <= f2)%nat ->
    UniformSamplingStrategy.sampleLoop f1 sentences windowSize
      samplingInterval i
    = UniformSamplingStrategy.sampleLoop f2 sentences windowSize
        samplingInterval i.
Proof.
  intros Hstep. induction f1 as [|f1 IH]; intros f2 i H1 H2.
  - destruct f2 as [|f2]; [reflexivity|].
    cbn [UniformSamplingStrategy.sampleLoop].
    replace (i <? count sentences) with false
      by (symmetry; apply Z.ltb_ge; lia).
    reflexivity.
  - destruct f2 as [|f2]; cbn [UniformSamplingStrategy.sampleLoop];
      destruct (i <? count sentences) eqn:E; try reflexivity;
      apply Z.ltb_lt in E; try lia.
    do 2 f_equal. destruct samplingInterval as [q| |]; try reflexivity.
    apply IH; lia.
Qed.

Lemma middleLoop_fuel (sentences : list str) (samplingInterval middleEnd : Z) :
  1 <= samplingInterval ->
  forall (f1 f2 : nat) (i : Z),
    (Z.to_nat (middleEnd - i) <= f1)%nat ->
    (Z.to_nat (middleEnd - i) <= f2)%nat ->
    BookendSamplingStrategy.middleLoop f1 sentences samplingInterval
      middleEnd i
    = BookendSamplingStrategy.middleLoop f2 sentences samplingInterval
        middleEnd i.
Proof.
  intros Hstep. induction f1 as [|f1 IH]; intros f2 i H1 H2.
  - destruct f2 as [|f2]; [reflexivity|].
    cbn [BookendSamplingStrategy.middleLoop].
    replace (i <? middleEnd) with false by (symmetry; apply Z.ltb_ge; lia).
    reflexivity.
  - destruct f2 as [|f2]; cbn [BookendSamplingStrategy.middleLoop];
      destruct (i <? middleEnd) eqn:E; try reflexivity;
      apply Z.ltb_lt in E; try lia.
    destruct ((2 <? samplingInterval) && (i + 1 <? middleEnd));
      [do 2 f_equal | f_equal]; apply IH; lia.
Qed.

Lemma windowLoop_fuel (sentences : list str) (sentencesPerChunk overlap : Z) :
  1 <= sentencesPerChunk - overlap ->
  forall (f1 f2 : nat) (i : Z),
    (Z.to_nat (count sentences - i) <= f1)%nat ->
    (Z.to_nat (count sentences - i) <= f2)%nat ->
    IntelligentSamplingStrategy.windowLoop f1 sentences sentencesPerChunk
      overlap i
    = IntelligentSamplingStrategy.windowLoop f2 sentences sentencesPerChunk
        overlap i.
Proof.
  intros Hstep. induction f1 as [|f1 IH]; intros f2 i H1 H2.
  - destruct f2 as [|f2]; [reflexivity|].
    cbn [IntelligentSamplingStrategy.windowLoop].
    replace (i <? count sentences) with false
      by (symmetry; apply Z.ltb_ge; lia).
    reflexivity.
  - destruct f2 as [|f2]; cbn [IntelligentSamplingStrategy.windowLoop];
      destruct (i <? count sentences) eqn:E; try reflexivity;
      apply Z.ltb_lt in E; try lia.
    f_equal.
    destruct (count sentences
              <=? Z.min (i + sentencesPerChunk) (count sentences));
      [reflexivity|].
    apply IH; lia.
Qed.

Lemma itemAt_outside {A} (l : list A) (i : Z) :
  Z.of_nat (List.length l) <= i ->
  IntelligentSamplingStrategy.itemAt l i = None.
Proof.
  intros H. unfold IntelligentSamplingStrategy.itemAt.
  destruct (i <? 0); [reflexivity|]. apply nth_error_None. lia.
Qed.

Lemma segmentLoop_fuel (tagged : list (str * bool)) :
  forall (f1 f2 : nat) (i : Z) (st : IntelligentSamplingStrategy.SegmentState),
    0 <= i ->
    (Z.to_nat (count tagged - i) <= f1)%nat ->
    (Z.to_nat (count tagged - i) <= f2)%nat ->
    IntelligentSamplingStrategy.segmentLoop f1 tagged i st
    = IntelligentSamplingStrategy.segmentLoop f2 tagged i st.
Proof.
  induction f1 as [|f1 IH]; intros f2 i st Hi H1 H2.
  - destruct f2 as [|f2]; [reflexivity|].
    cbn [IntelligentSamplingStrategy.segmentLoop].
    rewrite itemAt_outside by (unfold count in H1; lia). reflexivity.
  - destruct f2 as [|f2]; cbn [IntelligentSamplingStrategy.segmentLoop].
    + rewrite itemAt_outside by (unfold count in H2; lia). reflexivity.
    + destruct (IntelligentSamplingStrategy.itemAt tagged i)
        as [[itemSentence isImportant]|] eqn:E; [|reflexivity].
      assert (Hin : i < count tagged).
      { destruct (Z.lt_ge_cases i (count tagged)) as [H|H]; [exact H|].
        rewrite itemAt_outside in E by (unfold count in H; lia).
        discriminate. }
      repeat match goal with
             | |- context [if ?b then _ else _] => destruct b
             end; apply IH; lia.
Qed.

End StrategyBounds.

(** ** The models on small inputs *)

Section Examples.
Import Js.

Example splitIntoSentences_talk :
  BaseChunkingStrategy.splitIntoSentences ChunkingExamples.talk
  = map of_string
      [ "Welcome to the show."; " Today we bake bread.";
        " First we mix flour."; " Then we add water.";
        " The dough must rest."; " Now heat the oven.";
        " Bake for an hour."; " Thanks for watching." ]%string.
Proof. vm_compute. reflexivity. Qed.

(** A sentence whose terminator is followed by a letter is not matched,
    and with five sentences or fewer the splitter falls back: here to the
    split after terminal punctuation, and then to the forced split, which
    returns the text as one piece. *)
Example splitIntoSentences_few :
  BaseChunkingStrategy.matchAllSentences 6 (of_string "a.b. c")
  = [of_string "b."]
  /\ split BaseChunkingStrategy.afterTerminal isWhitespace (of_string "a.b. c")
     = [of_string "a.b."; of_string "c"]
  /\ BaseChunkingStrategy.splitIntoSentences (of_string "a.b. c")
     = [of_string "a.b. c"].
Proof. repeat split; vm_compute; reflexivity. Qed.

Example bookend_talk :
  BookendSamplingStrategy.sampleSentences
    (BaseChunkingStrategy.splitIntoSentences ChunkingExamples.talk)
    (BookendSamplingStrategy.reductionFactor ChunkingExamples.talk 20)
  = map of_string
      [ "Welcome to the show."; " Today we bake bread.";
        " First we mix flour."; " Thanks for watching." ]%string.
Proof. vm_compute. reflexivity. Qed.

Example validator_short :
  TranscriptValidatorNode.exec 100 (Some ChunkingExamples.unpunctuated)
  = {| TranscriptValidatorNode.isValid := true;
       TranscriptValidatorNode.reason := None |}
  /\ TranscriptValidatorNode.exec 100 (Some (of_string "Hi"))
     = TranscriptValidatorNode.invalid (TranscriptValidatorNode.TooShort 2 100)
  /\ TranscriptValidatorNode.exec 100 (Some [])
     = TranscriptValidatorNode.invalid TranscriptValidatorNode.NoTranscript.
Proof. repeat split; vm_compute; reflexivity. Qed.

(** Fifteen requests in the same millisecond fill the minute: the
    sixteenth waits for the oldest one to leave it. *)
Example sixteenth_request_waits :
  let busy := ApiThrottler.calls
                (repeat (ThrottlerExamples.request 0 0) 15)
                (ApiThrottler.new ApiThrottler.defaultConfig 1000) in
  ApiThrottler.log
    (ApiThrottler.throttle 2000 ThrottlerExamples.onTime busy)
  = ApiThrottler.log busy
      ++ [ApiThrottler.Waited ApiThrottler.Requests (Some 60000)]
  /\ ApiThrottler.clock
       (ApiThrottler.throttle 2000 ThrottlerExamples.onTime busy)
     = 61000.
Proof. cbv zeta. split; vm_compute; reflexivity. Qed.

(** With three attempts allowed and a service that is down, the delays
    between the attempts double; there is one after the last attempt
    too. *)
Example backoff_doubles :
  ChunkSummarizerNode.backoffs
    (ChunkSummarizerNode.summarizeChunkWithRetry 3 RetryExamples.down
       RetryExamples.chunk 0)
  = [2000; 4000; 8000].
Proof. vm_compute. reflexivity. Qed.

(** With no attempt allowed the service is not called and the error is
    the one of the summarizer itself. *)
Example no_attempt_allowed :
  ChunkSummarizerNode.summarizeChunkWithRetry 0 RetryExamples.flaky
    RetryExamples.chunk 4
  = {| ChunkSummarizerNode.prompts := [];
       ChunkSummarizerNode.backoffs := [];
       ChunkSummarizerNode.completion :=
         ChunkSummarizerNode.Threw
           (ChunkSummarizerNode.FailedToSummarize 5 0) |}.
Proof. reflexivity. Qed.

(** With a maximum of no concurrent summarization the loop does not
    advance. *)
Example no_concurrency_does_not_end :
  ChunkSummarizerNode.exec 0 3 MapExamples.digits MapExamples.lastFirst 50
    (Some MapExamples.chunks6)
  = None.
Proof. vm_compute. reflexivity. Qed.

End Examples.

(** ** Where the rounding does not show *)

Section IntegerQuotients.

(** [Math.ceil(a / b)] of two counts is the ceiling of the exact
    quotient. *)
Lemma ceiling_of_rounded_quotient (a b : Z) :
  0 <= a < 2 ^ 53 -> 0 < b ->
  Qceiling (Num.round (inject_Z a / inject_Z b))
  = Qceiling (inject_Z a / inject_Z b).
Proof.
  intros [A0 A1] Hb.
  assert (QB : (0 < inject_Z b)%Q)
    by (change 0%Q with (inject_Z 0); rewrite <- Zlt_Qlt; lia).
  assert (QB1 : (1 <= inject_Z b)%Q)
    by (change 1%Q with (inject_Z 1); rewrite <- Zle_Qle; lia).
  assert (QA : (0 <= inject_Z a)%Q)
    by (change 0%Q with (inject_Z 0); rewrite <- Zle_Qle; lia).
  assert (QA1 : (inject_Z a + 1 <= 9007199254740992)%Q).
  { change 1%Q with (inject_Z 1).
    change 9007199254740992%Q with (inject_Z (2 ^ 53)).
    rewrite <- inject_Z_plus, <- Zle_Qle. lia. }
  assert (Hq0 : (0 <= inject_Z a / inject_Z b)%Q)
    by (apply Qle_shift_div_l; [exact QB | lra]).
  assert (Hqb : (inject_Z a / inject_Z b * inject_Z b == inject_Z a)%Q)
    by (field; lra).
  set (q := (inject_Z a / inject_Z b)%Q) in *.
  pose proof (Qle_ceiling q) as C1. pose proof (Qceiling_lt q) as C2.
  set (c := Qceiling q) in *.
  assert (Hc0 : 0 <= c).
  { assert (H : (inject_Z 0 <= inject_Z c)%Q)
      by (change (inject_Z 0) with 0%Q; lra).
    now rewrite <- Zle_Qle in H. }
  assert (Hca : c <= a).
  { unfold c. rewrite <- (Qceiling_Z a). apply Qceiling_resp_le.
    assert (0 <= q * (inject_Z b - 1))%Q
      by (apply Qmult_le_0_compat; lra).
    lra. }
  pose proof (round_mono _ _ C1) as M.
  rewrite (round_Z c) in M by lia.
  destruct (round_within_nonneg _ Hq0) as [R _].
  set (r := Num.round q) in *.
  apply Z.le_antisymm.
  - rewrite <- (Qceiling_Z c). apply Qceiling_resp_le. exact M.
  - assert (H : c - 1 < Qceiling r); [|lia].
    rewrite Zlt_Qlt. eapply Qlt_le_trans; [|apply Qle_ceiling].
    (* an integer below the quotient is below it by one part in [b] *)
    assert (Hint : (inject_Z (c - 1) * inject_Z b + 1 <= inject_Z a)%Q).
    { assert (Hlt : (inject_Z (c - 1) * inject_Z b < inject_Z a)%Q).
      { rewrite <- Hqb. apply Qmult_lt_r; assumption. }
      rewrite <- inject_Z_mult, <- Zlt_Qlt in Hlt.
      change 1%Q with (inject_Z 1).
      rewrite <- inject_Z_mult, <- inject_Z_plus, <- Zle_Qle. lia. }
    apply Qnot_le_lt. intros C.
    assert (0 <= (inject_Z (c - 1)
                  - q * (9007199254740991 # 9007199254740992))
                 * inject_Z b)%Q
      by (apply Qmult_le_0_compat; lra).
    nra.
Qed.

(** [Math.ceil(text.length / 4)] *)
Lemma estimateTokens_rounded (text : Js.str) :
  Js.len text < 2 ^ 53 ->
  Qceiling (Num.round (inject_Z (Js.len text) / 4))
  = BaseChunkingStrategy.estimateTokens text.
Proof.
  intros H. assert (H0 : 0 <= Js.len text) by (unfold Js.len; lia).
  change 4%Q with (inject_Z 4).
  rewrite ceiling_of_rounded_quotient by lia.
  unfold BaseChunkingStrategy.estimateTokens.
  pose proof (Z.div_mod (Js.len text + 3) 4 ltac:(lia)) as Hd.
  pose proof (Z.mod_pos_bound (Js.len text + 3) 4 ltac:(lia)) as Hm.
  cbv [Qceiling Qfloor Qdiv Qmult Qinv Qopp inject_Z Qnum Qden].
  cbn [Pos.mul Z.mul].
  pose proof (Z.div_mod (- (Js.len text * 1)) 4 ltac:(lia)) as Hd'.
  pose proof (Z.mod_pos_bound (- (Js.len text * 1)) 4 ltac:(lia)) as Hm'.
  change (Z.pos (1 * 4)) with 4. lia.
Qed.

(** [Math.ceil(6 / chunkCount)] *)
Lemma ceilSixOver_rounded (chunkCount : Z) :
  0 < chunkCount ->
  Qceiling (Num.round (inject_Z 6 / inject_Z chunkCount))
  = MapStage.ceilSixOver chunkCount.
Proof.
  intros H. unfold MapStage.ceilSixOver.
  apply ceiling_of_rounded_quotient; [|exact H].
  change (2 ^ 53) with 9007199254740992. lia.
Qed.

(** [Math.min(1500, Math.floor(totalTokens /
     Math.max(3, Math.ceil(totalTokens / 3000))))] *)
Lemma targetChunkSize_rounded (totalTokens : Z) :
  0 <= totalTokens < 2 ^ 53 ->
  Z.min 1500
    (Qfloor
       (Num.round
          (inject_Z totalTokens
           / inject_Z
               (Z.max 3
                  (Qceiling (Num.round (inject_Z totalTokens / 3000)))))))
  = IntelligentSamplingStrategy.targetChunkSize totalTokens.
Proof.
  intros H. change 3000%Q with (inject_Z 3000).
  rewrite ceiling_of_rounded_quotient by lia.
  assert (E : Qceiling (inject_Z totalTokens / inject_Z 3000)
              = (totalTokens + 2999) / 3000).
  { pose proof (Z.div_mod (totalTokens + 2999) 3000 ltac:(lia)) as Hd.
    pose proof (Z.mod_pos_bound (totalTokens + 2999) 3000 ltac:(lia)) as Hm.
    cbv [Qceiling Qfloor Qdiv Qmult Qinv Qopp inject_Z Qnum Qden].
    cbn [Pos.mul Z.mul].
    pose proof (Z.div_mod (- (totalTokens * 1)) 3000 ltac:(lia)) as Hd'.
    pose proof (Z.mod_pos_bound (- (totalTokens * 1)) 3000 ltac:(lia))
      as Hm'.
    change (Z.pos (1 * 3000)) with 3000. lia. }
  rewrite E. rewrite floor_of_rounded_quotient by lia.
  reflexivity.
Qed.

(** The comparison of the validator,
    [alphanumericChars / transcript.length < 0.5]. *)
Lemma ratio_below_half_rounded (a n : Z) :
  0 <= a -> 0 < n < 2 ^ 53 ->
  Num.Qltb (Num.round (inject_Z a / inject_Z n)) (1 # 2)
  = Num.Qltb (inject_Z a / inject_Z n) (1 # 2).
Proof.
  intros Ha [Hn0 Hn1].
  assert (QN : (0 < inject_Z n)%Q)
    by (change 0%Q with (inject_Z 0); rewrite <- Zlt_Qlt; lia).
  assert (QN1 : (inject_Z n <= 9007199254740991)%Q).
  { change 9007199254740991%Q with (inject_Z (2 ^ 53 - 1)).
    rewrite <- Zle_Qle. lia. }
  assert (QA : (0 <= inject_Z a)%Q)
    by (change 0%Q with (inject_Z 0); rewrite <- Zle_Qle; lia).
  assert (Hq0 : (0 <= inject_Z a / inject_Z n)%Q)
    by (apply Qle_shift_div_l; [exact QN | lra]).
  assert (Hqn : (inject_Z a / inject_Z n * inject_Z n == inject_Z a)%Q)
    by (field; lra).
  set (q := (inject_Z a / inject_Z n)%Q) in *.
  destruct (Num.Qltb q (1 # 2)) eqn:E.
  - apply Qltb_lt in E. apply Qltb_lt.
    assert (Hint : (2 * inject_Z a + 1 <= inject_Z n)%Q).
    { assert (Hlt : (2 * inject_Z a < inject_Z n)%Q) by nra.
      change 2%Q with (inject_Z 2) in Hlt.
      rewrite <- inject_Z_mult, <- Zlt_Qlt in Hlt.
      change 2%Q with (inject_Z 2). change 1%Q with (inject_Z 1).
      rewrite <- inject_Z_mult, <- inject_Z_plus, <- Zle_Qle. lia. }
    destruct (round_within_nonneg _ Hq0) as [_ R].
    apply Qnot_le_lt. intros C.
    assert (0 <= (q * (9007199254740993 # 9007199254740992) - (1 # 2))
                 * inject_Z n)%Q
      by (apply Qmult_le_0_compat; lra).
    nra.
  - destruct (Num.Qltb (Num.round q) (1 # 2)) eqn:F; [|reflexivity].
    exfalso. apply Qltb_lt in F.
    assert (Hge : ((1 # 2) <= q)%Q).
    { apply Qnot_lt_le. intros C. apply Qltb_lt in C. congruence. }
    pose proof (round_mono _ _ Hge) as M.
    change (Num.round (1 # 2)) with (1 # 2)%Q in M. lra.
Qed.

End IntegerQuotients.

Section FifthOfTheTarget.

(** [Math.floor(targetLength * 0.2)], the range in which
    [forceSplitByCharCount] looks for a breaking point. *)
Lemma searchRange_rounded (targetLength : Z) :
  0 <= targetLength < 2 ^ 50 ->
  Qfloor (Num.round (inject_Z targetLength * Num.lit (2 # 10)))
  = targetLength / 5.
Proof.
  intros [T0 T1].
  assert (Hc : (1 # 5 <= Num.lit (2 # 10)
                /\ Num.lit (2 # 10)
                   <= (1 # 5) * (9007199254740993 # 9007199254740992))%Q)
    by (split; apply Qle_bool_iff; vm_compute; reflexivity).
  destruct Hc as [C1 C2]. set (c := Num.lit (2 # 10)) in *.
  pose proof (Z.div_mod targetLength 5 ltac:(lia)) as Hd.
  pose proof (Z.mod_pos_bound targetLength 5 ltac:(lia)) as Hm.
  set (k := targetLength / 5) in *.
  assert (QT : (0 <= inject_Z targetLength)%Q)
    by (change 0%Q with (inject_Z 0); rewrite <- Zle_Qle; lia).
  assert (QT1 : (inject_Z targetLength <= 1125899906842624)%Q).
  { change 1125899906842624%Q with (inject_Z (2 ^ 50)).
    rewrite <- Zle_Qle. lia. }
  assert (Hlow : (inject_Z k <= inject_Z targetLength * c)%Q).
  { assert (H : (5 * inject_Z k <= inject_Z targetLength)%Q).
    { change 5%Q with (inject_Z 5).
      rewrite <- inject_Z_mult, <- Zle_Qle. lia. }
    nra. }
  assert (Hup : (inject_Z targetLength + 1 <= 5 * inject_Z (k + 1))%Q).
  { change 5%Q with (inject_Z 5). change 1%Q with (inject_Z 1).
    rewrite <- inject_Z_plus, <- inject_Z_mult, <- Zle_Qle. lia. }
  assert (Hx0 : (0 <= inject_Z targetLength * c)%Q) by nra.
  pose proof (round_mono _ _ Hlow) as M.
  rewrite (round_Z k) in M
    by (change (2 ^ 53) with 9007199254740992;
        change (2 ^ 50) with 1125899906842624 in T1; lia).
  destruct (round_within_nonneg _ Hx0) as [_ R].
  set (r := Num.round (inject_Z targetLength * c)) in *.
  assert (Hlt : (r < inject_Z (k + 1))%Q) by nra.
  apply Z.le_antisymm.
  - assert (H : Qfloor r < k + 1); [|lia].
    rewrite Zlt_Qlt. eapply Qle_lt_trans; [apply Qfloor_le | exact Hlt].
  - rewrite <- (Qfloor_Z k). apply Qfloor_resp_le. exact M.
Qed.

End FifthOfTheTarget.

(** * Further properties *)

Section ThrottlePasses.
Import ApiThrottler.

Variable estimatedTokens : Z.
Variable late : Lateness.
Variable w : World.

Local Abbreviation lastMinute :=
  (fun timestamp => clock w - 60 * 1000 <? timestamp).

Hypothesis before_reset : clock w < dailyResetTime (self w).
Hypothesis daily_room : dailyRequests (self w) < maxDailyRequests (self w).
Hypothesis request_room :
  Z.of_nat (List.length (filter lastMinute (requestQueue (self w))))
  < requestsPerMinute (self w).
Hypothesis token_room :
  Z.of_nat (List.length (filter lastMinute (tokenQueue (self w))))
  + estimatedTokens <= tokensPerMinute (self w).

Lemma dailyStage_passes : dailyStage late w = w.
Proof.
  unfold dailyStage, checkDailyReset.
  replace (dailyResetTime (self w) <=? clock w) with false
    by (symmetry; apply Z.leb_gt; lia).
  replace (maxDailyRequests (self w) <=? dailyRequests (self w)) with false
    by (symmetry; apply Z.leb_gt; lia).
  reflexivity.
Qed.

Lemma throttle_passes : throttle estimatedTokens late w = pruneStage w.
Proof.
  unfold throttle. rewrite dailyStage_passes.
  unfold requestsStage.
  cbn [pruneStage withSelf self requestQueue clock].
  replace (requestsPerMinute (self w) <=? _) with false
    by (symmetry; apply Z.leb_gt; exact request_room).
  unfold tokensStage, currentTokensThisMinute.
  cbn [pruneStage withSelf self tokenQueue tokensPerMinute clock].
  replace (tokensPerMinute (self w) <? _) with false
    by (symmetry; apply Z.ltb_ge; exact token_room).
  reflexivity.
Qed.

End ThrottlePasses.

Section ThrottleStages.
Import ApiThrottler.

(** Every stage of [throttle] only adds to the log. *)
Lemma dailyStage_log (late : Lateness) (w : World) :
  exists l, log (dailyStage late w) = log w ++ l
            /\ (l = [] -> clock w < dailyResetTime (self w)
                          /\ dailyRequests (self w) < maxDailyRequests (self w)).
Proof.
  unfold dailyStage, checkDailyReset.
  destruct (dailyResetTime (self w) <=? clock w) eqn:E1.
  - destruct (maxDailyRequests (self (resetDaily w))
              <=? dailyRequests (self (resetDaily w))).
    + eexists. cbn [resetDaily sleep log]. rewrite <- !app_assoc.
      split; [reflexivity|]. discriminate.
    + eexists. cbn [resetDaily log]. split; [reflexivity|]. discriminate.
  - destruct (maxDailyRequests (self w) <=? dailyRequests (self w)) eqn:E2.
    + eexists. cbn [resetDaily sleep log]. rewrite <- !app_assoc.
      split; [reflexivity|]. discriminate.
    + exists []. rewrite app_nil_r. split; [reflexivity|]. intros _.
      apply Z.leb_gt in E1, E2. lia.
Qed.

Lemma requestsStage_log (late : Lateness) (now : Z) (w : World) :
  exists l, log (requestsStage late now w) = log w ++ l
            /\ (l = [] ->
                Z.of_nat (List.length (requestQueue (self w)))
                < requestsPerMinute (self w)).
Proof.
  unfold requestsStage.
  destruct (requestsPerMinute (self w) <=? _) eqn:E.
  - eexists. cbn [sleep log]. split; [reflexivity|]. discriminate.
  - exists []. rewrite app_nil_r. split; [reflexivity|]. intros _.
    apply Z.leb_gt in E. exact E.
Qed.

Lemma tokensStage_log (est : Z) (late : Lateness) (w : World) :
  exists l, log (tokensStage est late w) = log w ++ l
            /\ (l = [] ->
                currentTokensThisMinute w + est <= tokensPerMinute (self w)).
Proof.
  unfold tokensStage.
  destruct (tokensPerMinute (self w) <? _) eqn:E.
  - eexists. cbn [sleep log]. split; [reflexivity|]. discriminate.
  - exists []. rewrite app_nil_r. split; [reflexivity|]. intros _.
    apply Z.ltb_ge in E. exact E.
Qed.

Lemma app_nil_same {A} (l l1 : list A) : l = l ++ l1 -> l1 = [].
Proof.
  intros H. apply (f_equal (@List.length A)) in H. rewrite length_app in H.
  destruct l1; [reflexivity | simpl in H; lia].
Qed.

End ThrottleStages.

(** X1. [throttle] returns at once, having set no timer and reset nothing,
    exactly when the daily reset is not due, the daily counter is below
    its limit, the requests of the last minute are fewer than
    [requestsPerMinute], and the tokens of the last minute plus the
    estimate do not exceed [tokensPerMinute]; all it does then is to
    drop the entries older than a minute from its two queues. *)
Theorem throttle_returns_at_once_iff :
  forall (estimatedTokens : Z) (late : ApiThrottler.Lateness)
         (w : ApiThrottler.World),
    let lastMinute :=
      fun timestamp => ApiThrottler.clock w - 60 * 1000 <? timestamp in
    let t := ApiThrottler.self w in
    let underLimits :=
      ApiThrottler.clock w < ApiThrottler.dailyResetTime t
      /\ ApiThrottler.dailyRequests t < ApiThrottler.maxDailyRequests t
      /\ Z.of_nat (List.length (filter lastMinute (ApiThrottler.requestQueue t)))
         < ApiThrottler.requestsPerMinute t
      /\ Z.of_nat (List.length (filter lastMinute (ApiThrottler.tokenQueue t)))
         + estimatedTokens <= ApiThrottler.tokensPerMinute t in
    (ApiThrottler.log (ApiThrottler.throttle estimatedTokens late w)
     = ApiThrottler.log w <-> underLimits)
    /\ (underLimits ->
        ApiThrottler.throttle estimatedTokens late w = ApiThrottler.pruneStage w
        /\ ApiThrottler.clock (ApiThrottler.throttle estimatedTokens late w)
           = ApiThrottler.clock w).
Proof.
  intros est late w lastMinute t underLimits.
  assert (Hpass : underLimits ->
                  ApiThrottler.throttle est late w = ApiThrottler.pruneStage w).
  { intros (H1 & H2 & H3 & H4). now apply throttle_passes. }
  split; [split|].
  - intros Hlog. unfold ApiThrottler.throttle in Hlog.
    destruct (dailyStage_log late w) as (l1 & E1 & N1).
    set (w0 := ApiThrottler.dailyStage late w) in *.
    destruct (requestsStage_log late (ApiThrottler.clock (ApiThrottler.pruneStage w0))
                (ApiThrottler.pruneStage w0)) as (l2 & E2 & N2).
    destruct (tokensStage_log est late
                (ApiThrottler.requestsStage late
                   (ApiThrottler.clock (ApiThrottler.pruneStage w0))
                   (ApiThrottler.pruneStage w0))) as (l3 & E3 & N3).
    rewrite E3, E2 in Hlog. cbn [ApiThrottler.pruneStage ApiThrottler.withSelf
                                   ApiThrottler.log] in Hlog.
    rewrite E1, <- !app_assoc in Hlog. symmetry in Hlog.
    apply app_nil_same in Hlog.
    apply app_eq_nil in Hlog as [L1 Hlog].
    apply app_eq_nil in Hlog as [L2 L3].
    specialize (N1 L1). specialize (N2 L2). specialize (N3 L3).
    destruct N1 as [N1 N1'].
    assert (Ew : w0 = w) by (apply dailyStage_passes; assumption).
    rewrite Ew in *.
    unfold underLimits. repeat split; try assumption.
    unfold ApiThrottler.requestsStage in N3.
    cbn [ApiThrottler.pruneStage ApiThrottler.withSelf ApiThrottler.self
           ApiThrottler.requestQueue ApiThrottler.requestsPerMinute] in N2, N3.
    replace (ApiThrottler.requestsPerMinute (ApiThrottler.self w) <=? _)
      with false in N3 by (symmetry; apply Z.leb_gt; exact N2).
    exact N3.
  - intros H. rewrite (Hpass H). reflexivity.
  - intros H. split; [exact (Hpass H)|]. rewrite (Hpass H). reflexivity.
Qed.

Lemma throttle_returns_at_once_iff_witness :
  ApiThrottler.throttle 2000 ThrottlerExamples.onTime
    (ApiThrottler.new ApiThrottler.defaultConfig 0)
  = ApiThrottler.pruneStage (ApiThrottler.new ApiThrottler.defaultConfig 0)
  /\ ApiThrottler.clock
       (ApiThrottler.throttle 2000 ThrottlerExamples.onTime
          (ApiThrottler.new ApiThrottler.defaultConfig 0)) = 0.
Proof.
  apply (proj2 (throttle_returns_at_once_iff 2000 ThrottlerExamples.onTime
                  (ApiThrottler.new ApiThrottler.defaultConfig 0))).
  vm_compute. repeat split; discriminate.
Defined.

Section Concurrency.
Import ApiThrottler ThrottlerConcurrency.

Lemma filter_idem {A} (f : A -> bool) (l : list A) :
  filter f (filter f l) = filter f l.
Proof.
  induction l as [|x l IH]; [reflexivity|]. simpl.
  destruct (f x) eqn:E; simpl; [rewrite E, IH|]; easy.
Qed.

Lemma pruneStage_idem (w : World) : pruneStage (pruneStage w) = pruneStage w.
Proof.
  unfold pruneStage at 1 3. cbn [pruneStage withSelf self clock log
    requestsPerMinute tokensPerMinute maxDailyRequests requestQueue tokenQueue
    dailyRequests dailyResetTime].
  now rewrite !filter_idem.
Qed.

Lemma admitAll_passes (late : Lateness) (w : World) (estimates : list Z) :
  clock w < dailyResetTime (self w) ->
  dailyRequests (self w) < maxDailyRequests (self w) ->
  Z.of_nat (List.length
              (filter (fun timestamp => clock w - 60 * 1000 <? timestamp)
                      (requestQueue (self w))))
  < requestsPerMinute (self w) ->
  Forall (fun estimatedTokens =>
            Z.of_nat (List.length
                        (filter (fun timestamp =>
                                   clock w - 60 * 1000 <? timestamp)
                                (tokenQueue (self w))))
            + estimatedTokens <= tokensPerMinute (self w)) estimates ->
  estimates <> [] ->
  admitAll estimates late w = pruneStage w.
Proof.
  intros H1 H2 H3 H4 Hne.
  assert (Hgo : forall es,
             Forall (fun estimatedTokens =>
                       Z.of_nat (List.length
                                   (filter (fun timestamp =>
                                              clock w - 60 * 1000 <? timestamp)
                                           (tokenQueue (self w))))
                       + estimatedTokens <= tokensPerMinute (self w)) es ->
             admitAll es late (pruneStage w) = pruneStage w).
  { induction es as [|e es IH]; intros Hes; [reflexivity|].
    inversion Hes as [|? ? He Hes']; subst. unfold admitAll. simpl.
    rewrite throttle_passes.
    - rewrite pruneStage_idem. apply IH. exact Hes'.
    - exact H1.
    - exact H2.
    - cbn [pruneStage withSelf self clock requestQueue requestsPerMinute].
      rewrite filter_idem. exact H3.
    - cbn [pruneStage withSelf self clock tokenQueue tokensPerMinute].
      rewrite filter_idem. exact He. }
  destruct estimates as [|e es]; [congruence|].
  inversion H4 as [|? ? He Hes]; subst. unfold admitAll. simpl.
  rewrite throttle_passes by assumption. apply Hgo. exact Hes.
Qed.

Lemma recordAll_log (answers : list (N * Z)) :
  forall w,
    clock (recordAll answers w) = clock w + totalLatency answers
    /\ exists instants,
         recordedCalls (log (recordAll answers w))
         = recordedCalls (log w) ++ instants
         /\ List.length instants = List.length answers
         /\ Forall (fun now => clock w <= now <= clock w + totalLatency answers)
                   instants.
Proof.
  induction answers as [|[dt tok] answers IH]; intros w.
  - simpl. split; [lia|]. exists []. rewrite app_nil_r.
    repeat split. constructor.
  - unfold recordAll. cbn [fold_left fst snd totalLatency fold_right].
    fold (recordAll answers (recordApiCall tok (elapse dt w))).
    fold (totalLatency answers).
    destruct (IH (recordApiCall tok (elapse dt w))) as (Hc & l & Hl & Hn & Hin).
    cbn [recordApiCall elapse clock log] in Hc, Hl, Hin.
    assert (Ht : 0 <= totalLatency answers).
    { clear. induction answers as [|[d k] r IHr]; simpl; [lia|].
      fold (totalLatency r). lia. }
    split; [rewrite Hc; lia|].
    exists ((clock w + Z.of_N dt) :: l).
    rewrite Hl, ThrottlerMinute.recordedCalls_app. simpl.
    rewrite <- app_assoc. simpl. repeat split.
    + now rewrite Hn.
    + constructor; [lia|].
      eapply Forall_impl; [|exact Hin]. simpl. intros a Ha. lia.
Qed.

End Concurrency.

(** X2. [throttle] reserves nothing for the caller it lets through.
    Callers that reach [throttle] before any of them has recorded its
    call (as the summarizations of a batch do) are all let through at
    once when the first one is, however many they are; once their
    answers are recorded within a minute, the trailing minute holds all
    of them on top of the earlier calls, whatever [requestsPerMinute]
    is. *)
Theorem callers_admitted_together_are_not_limited :
  forall (estimates : list Z) (late : ApiThrottler.Lateness)
         (w : ApiThrottler.World) (answers : list (N * Z)),
    let lastMinute :=
      fun timestamp => ApiThrottler.clock w - 60 * 1000 <? timestamp in
    let t := ApiThrottler.self w in
    ApiThrottler.clock w < ApiThrottler.dailyResetTime t ->
    ApiThrottler.dailyRequests t < ApiThrottler.maxDailyRequests t ->
    Z.of_nat (List.length (filter lastMinute (ApiThrottler.requestQueue t)))
    < ApiThrottler.requestsPerMinute t ->
    Forall (fun estimatedTokens =>
              Z.of_nat (List.length
                          (filter lastMinute (ApiThrottler.tokenQueue t)))
              + estimatedTokens <= ApiThrottler.tokensPerMinute t)
           estimates ->
    List.length answers = List.length estimates ->
    ThrottlerConcurrency.totalLatency answers < 60 * 1000 ->
    let admitted := ThrottlerConcurrency.admitAll estimates late w in
    let w' := ThrottlerConcurrency.recordAll answers admitted in
    ApiThrottler.log admitted = ApiThrottler.log w
    /\ ApiThrottler.clock admitted = ApiThrottler.clock w
    /\ ApiThrottler.callsInWindow (ApiThrottler.log w') (ApiThrottler.clock w')
       = ApiThrottler.callsInWindow (ApiThrottler.log w) (ApiThrottler.clock w')
         + Z.of_nat (List.length estimates).
Proof.
  intros estimates late w answers lastMinute t H1 H2 H3 H4 Hn Hlat admitted w'.
  assert (Ha : ApiThrottler.log admitted = ApiThrottler.log w
               /\ ApiThrottler.clock admitted = ApiThrottler.clock w).
  { destruct estimates as [|e es] eqn:E; [split; reflexivity|].
    unfold admitted. rewrite admitAll_passes; try assumption;
      [split; reflexivity | discriminate]. }
  destruct Ha as [Hlog Hclock]. split; [exact Hlog|]. split; [exact Hclock|].
  destruct (recordAll_log answers admitted) as (Hc & l & Hl & Hlen & Hin).
  fold w' in Hc, Hl. unfold ApiThrottler.callsInWindow.
  rewrite Hl, Hlog, filter_app, length_app, Nat2Z.inj_add. f_equal.
  rewrite <- Hn, <- Hlen. f_equal. f_equal.
  rewrite Hc, Hclock. rewrite Hclock in Hin.
  clear - Hin Hlat. induction Hin as [|x l Hx Hin IH]; [reflexivity|].
  simpl. unfold ApiThrottler.inTrailingWindow at 1.
  replace (_ && _) with true; [now rewrite IH|].
  symmetry. apply andb_true_iff. split; [apply Z.ltb_lt | apply Z.leb_le]; lia.
Qed.

Lemma callers_admitted_together_are_not_limited_witness :
  let w := ApiThrottler.new ThrottlerExamples.oncePerDay 0 in
  let admitted :=
    ThrottlerConcurrency.admitAll [2000; 2000] ThrottlerExamples.onTime w in
  let w' := ThrottlerConcurrency.recordAll [(900%N, 1200); (50%N, 1100)]
              admitted in
  ApiThrottler.log admitted = ApiThrottler.log w
  /\ ApiThrottler.clock admitted = ApiThrottler.clock w
  /\ ApiThrottler.callsInWindow (ApiThrottler.log w') (ApiThrottler.clock w')
     = ApiThrottler.callsInWindow (ApiThrottler.log w) (ApiThrottler.clock w')
       + 2.
Proof.
  apply (callers_admitted_together_are_not_limited [2000; 2000]
           ThrottlerExamples.onTime
           (ApiThrottler.new ThrottlerExamples.oncePerDay 0)
           [(900%N, 1200); (50%N, 1100)]).
  - vm_compute. reflexivity.
  - vm_compute. reflexivity.
  - vm_compute. reflexivity.
  - repeat constructor; vm_compute; discriminate.
  - reflexivity.
  - vm_compute. reflexivity.
Defined.

(** X3. When the daily counter has reached [maxDailyRequests] and the
    reset is not yet due, [throttle] first sets one timer for the time
    left until the reset instant, and resumes at that instant or later;
    it then sets the counter to zero and the reset instant to the next
    midnight after the instant at which it resumed. *)
Theorem daily_limit_waits_for_the_reset :
  forall (estimatedTokens : Z) (late : ApiThrottler.Lateness)
         (w : ApiThrottler.World),
    let t := ApiThrottler.self w in
    let w0 := ApiThrottler.dailyStage late w in
    let w' := ApiThrottler.throttle estimatedTokens late w in
    ApiThrottler.clock w < ApiThrottler.dailyResetTime t ->
    ApiThrottler.maxDailyRequests t <= ApiThrottler.dailyRequests t ->
    ApiThrottler.log w0
    = ApiThrottler.log w
        ++ [ApiThrottler.Waited ApiThrottler.Daily
              (Some (ApiThrottler.dailyResetTime t - ApiThrottler.clock w));
            ApiThrottler.DailyReset]
    /\ ApiThrottler.clock w0
       = ApiThrottler.dailyResetTime t
         + Z.of_N (ApiThrottler.lateDaily late)
    /\ ApiThrottler.dailyResetTime t <= ApiThrottler.clock w'
    /\ ApiThrottler.dailyRequests (ApiThrottler.self w') = 0
    /\ ApiThrottler.dailyResetTime (ApiThrottler.self w')
       = ApiThrottler.nextMidnight (ApiThrottler.clock w0)
    /\ ApiThrottler.clock w0
       < ApiThrottler.dailyResetTime (ApiThrottler.self w').
Proof.
  intros est late w t w0 w' H1 H2.
  assert (E0 : w0 = ApiThrottler.resetDaily
                      (ApiThrottler.sleep ApiThrottler.Daily
                         (Some (ApiThrottler.dailyResetTime t
                                - ApiThrottler.clock w))
                         (ApiThrottler.lateDaily late) w)).
  { unfold w0, ApiThrottler.dailyStage, ApiThrottler.checkDailyReset.
    replace (ApiThrottler.dailyResetTime (ApiThrottler.self w)
             <=? ApiThrottler.clock w) with false
      by (symmetry; apply Z.leb_gt; exact H1).
    replace (ApiThrottler.maxDailyRequests (ApiThrottler.self w)
             <=? ApiThrottler.dailyRequests (ApiThrottler.self w)) with true
      by (symmetry; apply Z.leb_le; exact H2).
    reflexivity. }
  assert (Hc0 : ApiThrottler.clock w0
                = ApiThrottler.dailyResetTime t
                  + Z.of_N (ApiThrottler.lateDaily late)).
  { rewrite E0. cbn [ApiThrottler.resetDaily ApiThrottler.sleep
                       ApiThrottler.clock]. lia. }
  assert (Hself : ApiThrottler.dailyRequests (ApiThrottler.self w')
                  = ApiThrottler.dailyRequests (ApiThrottler.self w0)
                  /\ ApiThrottler.dailyResetTime (ApiThrottler.self w')
                     = ApiThrottler.dailyResetTime (ApiThrottler.self w0)
                  /\ ApiThrottler.clock w0 <= ApiThrottler.clock w').
  { unfold w', ApiThrottler.throttle. fold w0.
    unfold ApiThrottler.tokensStage, ApiThrottler.requestsStage.
    repeat match goal with
           | |- context [if ?b then _ else _] => destruct b
           end;
      cbn [ApiThrottler.sleep ApiThrottler.pruneStage ApiThrottler.withSelf
             ApiThrottler.self ApiThrottler.clock ApiThrottler.dailyRequests
             ApiThrottler.dailyResetTime];
      repeat split; try reflexivity;
      repeat match goal with
             | |- context [match ?x with _ => _ end] => destruct x
             end; lia. }
  destruct Hself as (Hd & Hr & Hc).
  split; [rewrite E0; cbn [ApiThrottler.resetDaily ApiThrottler.sleep
                             ApiThrottler.log];
          now rewrite <- app_assoc|].
  split; [exact Hc0|].
  split; [lia|].
  split; [rewrite Hd, E0; reflexivity|].
  assert (Hreset : ApiThrottler.dailyResetTime (ApiThrottler.self w0)
                   = ApiThrottler.nextMidnight (ApiThrottler.clock w0)).
  { rewrite E0. reflexivity. }
  split; [rewrite Hr; exact Hreset|].
  rewrite Hr, Hreset. unfold ApiThrottler.nextMidnight, ApiThrottler.msPerDay.
  pose proof (Z.mul_div_le (ApiThrottler.clock w0) (24 * 60 * 60 * 1000)
                ltac:(lia)).
  pose proof (Z.mod_pos_bound (ApiThrottler.clock w0) (24 * 60 * 60 * 1000)
                ltac:(lia)).
  pose proof (Z.div_mod (ApiThrottler.clock w0) (24 * 60 * 60 * 1000)
                ltac:(lia)).
  lia.
Qed.

Lemma daily_limit_waits_for_the_reset_witness :
  let w := ApiThrottler.recordApiCall 1200
             (ApiThrottler.new ThrottlerExamples.oncePerDay 5000) in
  let w' := ApiThrottler.throttle 2000 ThrottlerExamples.onTime w in
  ApiThrottler.log (ApiThrottler.dailyStage ThrottlerExamples.onTime w)
  = ApiThrottler.log w
      ++ [ApiThrottler.Waited ApiThrottler.Daily (Some (86400000 - 5000));
          ApiThrottler.DailyReset]
  /\ ApiThrottler.clock (ApiThrottler.dailyStage ThrottlerExamples.onTime w)
     = 86400000 + 0
  /\ 86400000 <= ApiThrottler.clock w'
  /\ ApiThrottler.dailyRequests (ApiThrottler.self w') = 0
  /\ ApiThrottler.dailyResetTime (ApiThrottler.self w')
     = ApiThrottler.nextMidnight
         (ApiThrottler.clock
            (ApiThrottler.dailyStage ThrottlerExamples.onTime w))
  /\ ApiThrottler.clock (ApiThrottler.dailyStage ThrottlerExamples.onTime w)
     < ApiThrottler.dailyResetTime (ApiThrottler.self w').
Proof.
  apply (daily_limit_waits_for_the_reset 2000 ThrottlerExamples.onTime
           (ApiThrottler.recordApiCall 1200
              (ApiThrottler.new ThrottlerExamples.oncePerDay 5000)));
    vm_compute; [reflexivity | discriminate].
Defined.

(** X4. When the requests of the last minute have reached
    [requestsPerMinute], [throttle] sets a timer for the time until the
    oldest of them is a minute old, and goes on at that instant or
    later: no earlier than a minute after that request was recorded. *)
Theorem request_limit_waits_for_the_oldest :
  forall (estimatedTokens : Z) (late : ApiThrottler.Lateness)
         (w : ApiThrottler.World) (oldestRequest : Z) (others : list Z),
    let w0 := ApiThrottler.dailyStage late w in
    let now := ApiThrottler.clock w0 in
    let w2 := ApiThrottler.requestsStage late now (ApiThrottler.pruneStage w0) in
    filter (fun timestamp => now - 60 * 1000 <? timestamp)
           (ApiThrottler.requestQueue (ApiThrottler.self w))
    = oldestRequest :: others ->
    ApiThrottler.requestsPerMinute (ApiThrottler.self w)
    <= 1 + Z.of_nat (List.length others) ->
    ApiThrottler.log w2
    = ApiThrottler.log w0
        ++ [ApiThrottler.Waited ApiThrottler.Requests
              (Some (60 * 1000 - (now - oldestRequest)))]
    /\ 0 < 60 * 1000 - (now - oldestRequest)
    /\ ApiThrottler.clock w2
       = oldestRequest + 60 * 1000 + Z.of_N (ApiThrottler.lateRequests late)
    /\ oldestRequest + 60 * 1000
       <= ApiThrottler.clock (ApiThrottler.throttle estimatedTokens late w).
Proof.
  intros est late w oldest others w0 now w2 Hq Hfull.
  assert (Hsame : ApiThrottler.requestQueue (ApiThrottler.self w0)
                  = ApiThrottler.requestQueue (ApiThrottler.self w)
                  /\ ApiThrottler.requestsPerMinute (ApiThrottler.self w0)
                     = ApiThrottler.requestsPerMinute (ApiThrottler.self w)).
  { unfold w0, ApiThrottler.dailyStage, ApiThrottler.checkDailyReset.
    repeat match goal with
           | |- context [if ?b then _ else _] => destruct b
           end; split; reflexivity. }
  destruct Hsame as [Hsq Hsl].
  assert (Hold : now - 60 * 1000 < oldest).
  { assert (Hin : In oldest
                     (filter (fun timestamp => now - 60 * 1000 <? timestamp)
                        (ApiThrottler.requestQueue (ApiThrottler.self w))))
      by (rewrite Hq; left; reflexivity).
    apply filter_In in Hin as [_ Hin]. apply Z.ltb_lt in Hin. exact Hin. }
  assert (E2 : w2 = ApiThrottler.sleep ApiThrottler.Requests
                      (Some (60 * 1000 - (now - oldest)))
                      (ApiThrottler.lateRequests late)
                      (ApiThrottler.pruneStage w0)).
  { unfold w2, ApiThrottler.requestsStage.
    cbn [ApiThrottler.pruneStage ApiThrottler.withSelf ApiThrottler.self
           ApiThrottler.requestQueue ApiThrottler.requestsPerMinute].
    fold now. rewrite Hsq, Hsl, Hq.
    replace (ApiThrottler.requestsPerMinute (ApiThrottler.self w)
             <=? Z.of_nat (List.length (oldest :: others))) with true
      by (symmetry; apply Z.leb_le; simpl List.length; lia).
    reflexivity. }
  assert (Hc2 : ApiThrottler.clock w2
                = oldest + 60 * 1000
                  + Z.of_N (ApiThrottler.lateRequests late)).
  { rewrite E2. cbn [ApiThrottler.sleep ApiThrottler.pruneStage
                       ApiThrottler.withSelf ApiThrottler.clock].
    fold now. lia. }
  split; [rewrite E2; reflexivity|].
  split; [lia|].
  split; [exact Hc2|].
  change (ApiThrottler.throttle est late w)
    with (ApiThrottler.tokensStage est late w2).
  unfold ApiThrottler.tokensStage.
  destruct (ApiThrottler.tokensPerMinute _ <? _);
    cbn [ApiThrottler.sleep ApiThrottler.clock]; lia.
Qed.

Lemma request_limit_waits_for_the_oldest_witness :
  let w0 := ApiThrottler.dailyStage ThrottlerExamples.onTime
              ThrottlerStates.busy in
  let now := ApiThrottler.clock w0 in
  let w2 := ApiThrottler.requestsStage ThrottlerExamples.onTime now
              (ApiThrottler.pruneStage w0) in
  ApiThrottler.log w2
  = ApiThrottler.log w0
      ++ [ApiThrottler.Waited ApiThrottler.Requests
            (Some (60 * 1000 - (now - 1000)))]
  /\ 0 < 60 * 1000 - (now - 1000)
  /\ ApiThrottler.clock w2
     = 1000 + 60 * 1000
       + Z.of_N (ApiThrottler.lateRequests ThrottlerExamples.onTime)
  /\ 1000 + 60 * 1000
     <= ApiThrottler.clock
          (ApiThrottler.throttle 2000 ThrottlerExamples.onTime
             ThrottlerStates.busy).
Proof.
  apply (request_limit_waits_for_the_oldest 2000 ThrottlerExamples.onTime
           ThrottlerStates.busy 1000 (repeat 1000 14)).
  - vm_compute. reflexivity.
  - vm_compute. discriminate.
Defined.

Module ThrottlerTokens.
Import ApiThrottler TokenInvariant.

Lemma token_Frame_Inv (tokens : list Z) (w w' : World) :
  tokenQueue (self w') = tokenQueue (self w) ->
  tokensPerMinute (self w') = tokensPerMinute (self w) ->
  clock w <= clock w' ->
  Inv tokens w -> Inv tokens w'.
Proof.
  intros Hq Hl Hc [I1 (b & Hb & I2) I3 I4]. constructor.
  - now rewrite Hl.
  - exists b. split; [lia | now rewrite Hq].
  - eapply Forall_impl; [|exact I3]. simpl. intros. lia.
  - intros t. rewrite Hl. apply I4.
Qed.

Lemma token_Frame_Permit (tokens : list Z) (est : Z) (w w' : World) :
  tokensPerMinute (self w') = tokensPerMinute (self w) ->
  clock w <= clock w' ->
  Permit tokens est w -> Permit tokens est w'.
Proof.
  intros Hl Hc H t Ht. rewrite Hl. apply H. lia.
Qed.

Lemma dailyStage_tokens (late : Lateness) (w : World) :
  tokenQueue (self (dailyStage late w)) = tokenQueue (self w)
  /\ tokensPerMinute (self (dailyStage late w)) = tokensPerMinute (self w)
  /\ clock w <= clock (dailyStage late w).
Proof.
  unfold dailyStage, checkDailyReset.
  repeat match goal with
         | |- context [if ?b then _ else _] => destruct b
         end;
    cbn [resetDaily sleep self clock tokenQueue tokensPerMinute];
    repeat split; try reflexivity; lia.
Qed.

Lemma requestsStage_tokens (late : Lateness) (now : Z) (w : World) :
  tokenQueue (self (requestsStage late now w)) = tokenQueue (self w)
  /\ tokensPerMinute (self (requestsStage late now w))
     = tokensPerMinute (self w)
  /\ clock w <= clock (requestsStage late now w).
Proof.
  unfold requestsStage.
  destruct (requestsPerMinute (self w) <=? _);
    cbn [sleep self clock]; repeat split; try reflexivity; try lia.
  destruct (requestQueue (self w)); lia.
Qed.

(** The tokens of a trailing minute that ends now or later are tokens
    of the queue as pruned now. *)
Lemma token_window_now (tokens : list Z) (w : World) :
  Inv tokens w ->
  tokenQueue (self (pruneStage w))
  = filter (fun ts => clock w - 60 * 1000 <? ts) tokens
  /\ forall t, clock w <= t ->
       tokensInWindow tokens t
       <= Z.of_nat (List.length (tokenQueue (self (pruneStage w)))).
Proof.
  intros [I1 (b & Hb & I2) I3 I4].
  assert (Hq : tokenQueue (self (pruneStage w))
               = filter (fun ts => clock w - 60 * 1000 <? ts) tokens).
  { cbn [pruneStage withSelf self tokenQueue]. rewrite I2.
    rewrite ThrottlerMinute.filter_filter_and.
    apply ThrottlerMinute.filter_ext_Forall.
    apply Forall_forall. intros ts _.
    destruct (clock w - 60 * 1000 <? ts) eqn:E.
    - apply Z.ltb_lt in E. rewrite andb_true_r. apply Z.ltb_lt. lia.
    - apply andb_false_r. }
  split; [exact Hq|]. intros t Ht. rewrite Hq. unfold tokensInWindow.
  apply inj_le. apply ThrottlerMinute.filter_length_mono.
  rewrite Forall_forall in I3 |- *. intros ts Hin. specialize (I3 ts Hin).
  unfold inTrailingWindow. intros H. apply andb_true_iff in H as [H _].
  apply Z.ltb_lt in H. apply Z.ltb_lt. lia.
Qed.

Lemma Inv_pruneStage_tokens (tokens : list Z) (w : World) :
  Inv tokens w -> Inv tokens (pruneStage w).
Proof.
  intros I. destruct (token_window_now tokens w I) as [Hq _].
  destruct I as [I1 _ I3 I4]. constructor.
  - exact I1.
  - exists (clock w - 60 * 1000). split; [cbn; lia | exact Hq].
  - exact I3.
  - exact I4.
Qed.

Lemma token_Inv_throttle (tokens : list Z) (est : Z) (late : Lateness)
      (w : World) :
  Inv tokens w ->
  est <= tokensPerMinute (self w) ->
  Inv tokens (throttle est late w) /\ Permit tokens est (throttle est late w).
Proof.
  intros I Hest.
  destruct (dailyStage_tokens late w) as (Dq & Dl & Dc).
  set (w0 := dailyStage late w) in *.
  assert (I0 : Inv tokens w0) by (eapply token_Frame_Inv; eassumption).
  destruct (token_window_now tokens w0 I0) as [Hq Hwin].
  pose proof (Inv_pruneStage_tokens tokens w0 I0) as I1.
  set (w1 := pruneStage w0) in *.
  destruct (requestsStage_tokens late (clock w1) w1) as (Rq & Rl & Rc).
  set (w2 := requestsStage late (clock w1) w1) in *.
  assert (I2 : Inv tokens w2) by (eapply token_Frame_Inv; eassumption).
  assert (L1 : tokensPerMinute (self w1) = tokensPerMinute (self w))
    by (unfold w1; cbn [pruneStage withSelf self tokensPerMinute]; exact Dl).
  assert (C1 : clock w1 = clock w0) by reflexivity.
  change (throttle est late w) with (tokensStage est late w2).
  unfold tokensStage, currentTokensThisMinute.
  destruct (tokensPerMinute (self w2) <? _) eqn:E.
  - (* the token timer *)
    split.
    + eapply token_Frame_Inv; [| | |exact I2];
        cbn [sleep self clock]; try reflexivity; lia.
    + intros t Ht. cbn [sleep self clock] in Ht |- *.
      assert (Hz : tokensInWindow tokens t = 0).
      { unfold tokensInWindow.
        assert (Hall : Forall (fun ts => inTrailingWindow t ts = false) tokens).
        { pose proof (inv_token_past tokens w2 I2) as P.
          eapply Forall_impl; [|exact P]. simpl. intros ts Hts.
          unfold inTrailingWindow. apply andb_false_iff. left.
          apply Z.ltb_ge. lia. }
        clear - Hall. induction Hall as [|x l Hx _ IH]; [reflexivity|].
        simpl. now rewrite Hx. }
      rewrite Hz, Rl, L1. pose proof (inv_token_limit tokens w I). lia.
  - (* no timer *)
    split; [exact I2|]. intros t Ht. apply Z.ltb_ge in E.
    rewrite Rq in E. rewrite Rl, L1 in E |- *.
    assert (Hw : tokensInWindow tokens t
                 <= Z.of_nat (List.length (tokenQueue (self w1)))).
    { apply Hwin. lia. }
    pose proof (inv_token_window tokens w I t). lia.
Qed.

Lemma token_Inv_recordApiCall (tokens : list Z) (est tok : Z) (w : World) :
  Inv tokens w -> Permit tokens est w -> tok <= est ->
  Inv (tokens ++ repeat (clock w) (Z.to_nat tok)) (recordApiCall tok w).
Proof.
  intros [I1 (b & Hb & I2) I3 I4] P Htok.
  assert (Hnew : forall t,
             filter (inTrailingWindow t) (repeat (clock w) (Z.to_nat tok))
             = if inTrailingWindow t (clock w)
               then repeat (clock w) (Z.to_nat tok) else []).
  { intros t. induction (Z.to_nat tok) as [|n IH]; simpl.
    - now destruct (inTrailingWindow t (clock w)).
    - rewrite IH. now destruct (inTrailingWindow t (clock w)). }
  constructor.
  - exact I1.
  - exists b. split; [cbn; lia|].
    cbn [recordApiCall self tokenQueue]. rewrite filter_app, I2. f_equal.
    symmetry.
    clear - Hb. induction (Z.to_nat tok) as [|n IH]; [reflexivity|]. simpl.
    replace (b <? clock w) with true by (symmetry; apply Z.ltb_lt; lia).
    now rewrite IH.
  - cbn [recordApiCall clock]. apply Forall_app. split; [exact I3|].
    apply Forall_forall. intros x Hx. apply repeat_spec in Hx. lia.
  - intros t. cbn [recordApiCall self tokensPerMinute].
    unfold tokensInWindow. rewrite filter_app, length_app, Nat2Z.inj_add, Hnew.
    destruct (inTrailingWindow t (clock w)) eqn:E.
    + unfold inTrailingWindow in E. apply andb_true_iff in E as [_ E].
      apply Z.leb_le in E. specialize (P t E). unfold tokensInWindow in P.
      rewrite repeat_length. lia.
    + specialize (I4 t). unfold tokensInWindow in I4. simpl. lia.
Qed.

Lemma call_keeps_token_limit (w : World) (c : Call) :
  tokensPerMinute (self (call w c)) = tokensPerMinute (self w).
Proof.
  unfold call, throttle, tokensStage, requestsStage, dailyStage,
    checkDailyReset, currentTokensThisMinute.
  repeat match goal with
         | |- context [if ?b then _ else _] => destruct b
         end; reflexivity.
Qed.

Lemma token_Inv_call (tokens : list Z) (w : World) (c : Call) :
  Inv tokens w ->
  tokenCount c <= estimatedTokens c ->
  estimatedTokens c <= tokensPerMinute (self w) ->
  Inv (tokens ++ repeat (clock (call w c)) (Z.to_nat (tokenCount c)))
      (call w c).
Proof.
  intros I Htok Hest.
  assert (I0 : Inv tokens (elapse (idle c) w)).
  { eapply token_Frame_Inv; [| | |exact I]; cbn [elapse self clock];
      try reflexivity; lia. }
  destruct (token_Inv_throttle tokens (estimatedTokens c) (late c)
              (elapse (idle c) w) I0 Hest) as [I1 P1].
  set (w1 := throttle (estimatedTokens c) (late c) (elapse (idle c) w)) in *.
  assert (I2 : Inv tokens (elapse (latency c) w1)).
  { eapply token_Frame_Inv; [| | |exact I1]; cbn [elapse self clock];
      try reflexivity; lia. }
  assert (P2 : Permit tokens (estimatedTokens c) (elapse (latency c) w1)).
  { eapply token_Frame_Permit; [| |exact P1]; cbn [elapse self clock];
      try reflexivity; lia. }
  change (call w c) with (recordApiCall (tokenCount c) (elapse (latency c) w1)).
  change (clock (recordApiCall (tokenCount c) (elapse (latency c) w1)))
    with (clock (elapse (latency c) w1)).
  eapply token_Inv_recordApiCall; eassumption.
Qed.

Lemma token_Inv_calls (cs : list Call) :
  forall (tokens : list Z) (w : World),
    Inv tokens w ->
    Forall (fun c => tokenCount c <= estimatedTokens c
                     /\ estimatedTokens c <= tokensPerMinute (self w)) cs ->
    Inv (tokens ++ recordedTokens cs w) (calls cs w).
Proof.
  induction cs as [|c cs IH]; intros tokens w I H.
  - simpl. now rewrite app_nil_r.
  - inversion H as [|? ? [Hc1 Hc2] Hcs]; subst.
    cbn [recordedTokens calls fold_left]. rewrite app_assoc.
    apply IH.
    + now apply token_Inv_call.
    + eapply Forall_impl; [|exact Hcs]. cbv beta. intros a [Ha1 Ha2].
      rewrite call_keeps_token_limit. split; assumption.
Qed.

Lemma calls_keep_token_limit (cs : list Call) :
  forall w, tokensPerMinute (self (calls cs w)) = tokensPerMinute (self w).
Proof.
  induction cs as [|c cs IH]; intros w; [reflexivity|]. simpl.
  change (fold_left call cs (call w c)) with (calls cs (call w c)).
  rewrite IH. apply call_keeps_token_limit.
Qed.

Lemma token_Inv_new (config : ApiThrottlerConfig) (now : Z) :
  0 <= cfgTokensPerMinute config -> Inv [] (new config now).
Proof.
  intros H. constructor.
  - exact H.
  - exists (now - 60 * 1000). split; [cbn; lia | reflexivity].
  - constructor.
  - intros t. cbn. exact H.
Qed.

End ThrottlerTokens.

(** X5. The tokens-per-minute limit is kept as long as no call records
    more tokens than it announced to [throttle] and no estimate exceeds
    the limit: after any sequence of [throttle]/[recordApiCall] pairs on
    one throttler, no trailing 60-second window holds more recorded
    tokens than [tokensPerMinute]. *)
Theorem token_limit_holds :
  forall (config : ApiThrottler.ApiThrottlerConfig) (start : Z)
         (cs : list ApiThrottler.Call),
    0 <= ApiThrottler.cfgTokensPerMinute config ->
    Forall (fun c =>
              ApiThrottler.tokenCount c <= ApiThrottler.estimatedTokens c
              /\ ApiThrottler.estimatedTokens c
                 <= ApiThrottler.cfgTokensPerMinute config) cs ->
    forall t : Z,
      TokenInvariant.tokensInWindow
        (TokenInvariant.recordedTokens cs (ApiThrottler.new config start)) t
      <= ApiThrottler.cfgTokensPerMinute config.
Proof.
  intros config start cs H0 Hcs t.
  pose proof (ThrottlerTokens.token_Inv_calls cs [] _
                (ThrottlerTokens.token_Inv_new config start H0) Hcs) as I.
  simpl app in I.
  pose proof (TokenInvariant.inv_token_window _ _ I t) as Hw.
  rewrite ThrottlerTokens.calls_keep_token_limit in Hw. exact Hw.
Qed.

Lemma token_limit_holds_witness :
  TokenInvariant.tokensInWindow
    (TokenInvariant.recordedTokens
       [ThrottlerExamples.request 0 5; ThrottlerExamples.request 100 5]
       (ApiThrottler.new ApiThrottler.defaultConfig 0)) 200
  <= 1000000.
Proof.
  apply (token_limit_holds ApiThrottler.defaultConfig 0
           [ThrottlerExamples.request 0 5; ThrottlerExamples.request 100 5]).
  - simpl. lia.
  - repeat constructor; simpl; lia.
Defined.

Section ThrottledAttempt.
Import ApiThrottler.

(** A request that passed [throttle] and waited for its reply may be
    recorded, and the limits hold whether it is or not. *)
Lemma attempt_keeps_limits (est : Z) (late : Lateness) (idle latency : N)
      (w : World) :
  MinuteInvariant.Inv w -> DailyInvariant.Inv w ->
  let w1 := elapse latency (throttle est late (elapse idle w)) in
  (MinuteInvariant.Inv w1 /\ DailyInvariant.Inv w1)
  /\ (forall tok, MinuteInvariant.Inv (recordApiCall tok w1)
                  /\ DailyInvariant.Inv (recordApiCall tok w1))
  /\ recordedCalls (log w1) = recordedCalls (log w)
  /\ requestsPerMinute (self w1) = requestsPerMinute (self w)
  /\ maxDailyRequests (self w1) = maxDailyRequests (self w).
Proof.
  intros M D w1.
  pose proof (ThrottlerMinute.Frame_elapse idle w) as F0.
  pose proof (ThrottlerMinute.Frame_Inv _ _ F0 M) as M0.
  destruct (ThrottlerMinute.Inv_throttle est late _ M0) as [M1 P1].
  pose proof (ThrottlerMinute.Frame_elapse latency
                (throttle est late (elapse idle w))) as F1.
  pose proof (ThrottlerMinute.Frame_Inv _ _ F1 M1) as M2.
  pose proof (ThrottlerMinute.Frame_Permit _ _ F1 M1 P1) as P2.
  destruct (ThrottlerDaily.daily_Frame_Inv _ _
              (ThrottlerDaily.daily_Frame_elapse idle w)) as [D0 _].
  specialize (D0 D).
  destruct (ThrottlerDaily.daily_Inv_throttle est late _ D0) as [D1 Q1].
  destruct (ThrottlerDaily.daily_Frame_Inv _ _
              (ThrottlerDaily.daily_Frame_elapse latency
                 (throttle est late (elapse idle w)))) as [D2 Q2].
  specialize (D2 D1). specialize (Q2 Q1).
  fold w1 in M2, P2, D2, Q2.
  split; [split; assumption|].
  split.
  { intros tok. split.
    - apply ThrottlerMinute.Inv_recordApiCall; assumption.
    - apply ThrottlerDaily.daily_Inv_recordApiCall; assumption. }
  assert (Hlims : requestsPerMinute (self w1) = requestsPerMinute (self w)
                  /\ maxDailyRequests (self w1) = maxDailyRequests (self w)).
  { unfold w1, throttle, tokensStage, requestsStage, dailyStage,
      checkDailyReset, currentTokensThisMinute.
    repeat match goal with
           | |- context [if ?b then _ else _] => destruct b
           end; split; reflexivity. }
  split; [|exact Hlims].
  (* the recorded calls *)
  unfold w1. cbn [elapse log].
  unfold throttle, tokensStage, requestsStage, dailyStage, checkDailyReset,
    currentTokensThisMinute.
  repeat match goal with
         | |- context [if ?b then _ else _] => destruct b
         end;
    cbn [sleep resetDaily pruneStage withSelf elapse log];
    rewrite ?ThrottlerMinute.recordedCalls_app; simpl;
    rewrite ?app_nil_r; reflexivity.
Qed.

End ThrottledAttempt.

Section ServiceRequests.
Import ApiThrottler.

Lemma service_request_keeps_limits (w : World) (r : GeminiService.Request) :
  MinuteInvariant.Inv w -> DailyInvariant.Inv w ->
  let w' := GeminiService.request w r in
  MinuteInvariant.Inv w' /\ DailyInvariant.Inv w'
  /\ requestsPerMinute (self w') = requestsPerMinute (self w)
  /\ maxDailyRequests (self w') = maxDailyRequests (self w)
  /\ recordedCalls (log w')
     = recordedCalls (log w)
         ++ (if GeminiService.isAnswered r then [clock w'] else []).
Proof.
  intros M D.
  destruct (attempt_keeps_limits (GeminiService.estimatedTotalTokens r)
              (GeminiService.late r) (GeminiService.idle r)
              (GeminiService.latency r) w M D)
    as ((M1 & D1) & Hrec & Hlog & Hr & Hd).
  unfold GeminiService.request, GeminiService.generateContent,
    GeminiService.isAnswered.
  destruct (GeminiService.reply r) as [text|msg]; cbn [fst].
  - destruct (Hrec (GeminiService.estimatedTotalTokens r)) as [M2 D2].
    split; [exact M2|]. split; [exact D2|].
    split; [exact Hr|]. split; [exact Hd|].
    cbn [recordApiCall log clock]. rewrite ThrottlerMinute.recordedCalls_app.
    rewrite Hlog. reflexivity.
  - split; [exact M1|]. split; [exact D1|].
    split; [exact Hr|]. split; [exact Hd|].
    rewrite app_nil_r. exact Hlog.
Qed.

Lemma api_request_keeps_limits (w : World) (r : GeminiApi.Request) :
  MinuteInvariant.Inv w -> DailyInvariant.Inv w ->
  let w' := GeminiApi.request w r in
  MinuteInvariant.Inv w' /\ DailyInvariant.Inv w'
  /\ requestsPerMinute (self w') = requestsPerMinute (self w)
  /\ maxDailyRequests (self w') = maxDailyRequests (self w)
  /\ recordedCalls (log w')
     = recordedCalls (log w)
         ++ (if GeminiApi.isAnswered r then [clock w'] else []).
Proof.
  intros M D.
  destruct (attempt_keeps_limits (GeminiApi.estimatedTotalTokens r)
              (GeminiApi.late r) (GeminiApi.idle r)
              (GeminiApi.latency r) w M D)
    as ((M1 & D1) & Hrec & Hlog & Hr & Hd).
  unfold GeminiApi.request, GeminiApi.generateContent, GeminiApi.isAnswered.
  destruct (GeminiApi.reply r) as [text|error]; cbn [fst].
  - destruct (Hrec (GeminiApi.estimatedPromptTokens r
                    + (Js.len text + 3) / 4)) as [M2 D2].
    split; [exact M2|]. split; [exact D2|].
    split; [exact Hr|]. split; [exact Hd|].
    cbn [recordApiCall log clock]. rewrite ThrottlerMinute.recordedCalls_app.
    rewrite Hlog. reflexivity.
  - split; [exact M1|]. split; [exact D1|].
    split; [exact Hr|]. split; [exact Hd|].
    rewrite app_nil_r. exact Hlog.
Qed.

Lemma service_requests_keep_limits (rs : list GeminiService.Request) :
  forall w,
    MinuteInvariant.Inv w -> DailyInvariant.Inv w ->
    let w' := GeminiService.requests rs w in
    MinuteInvariant.Inv w' /\ DailyInvariant.Inv w'
    /\ requestsPerMinute (self w') = requestsPerMinute (self w)
    /\ maxDailyRequests (self w') = maxDailyRequests (self w)
    /\ List.length (recordedCalls (log w'))
       = (List.length (recordedCalls (log w))
          + List.length (filter GeminiService.isAnswered rs))%nat.
Proof.
  induction rs as [|r rs IH]; intros w M D.
  - cbn [GeminiService.requests GeminiApi.requests fold_left filter
         List.length].
    split; [exact M|]. split; [exact D|]. split; [reflexivity|].
    split; [reflexivity|]. now rewrite Nat.add_0_r.
  - destruct (service_request_keeps_limits w r M D)
      as (M1 & D1 & Hr & Hd & Hlog).
    destruct (IH _ M1 D1) as (M2 & D2 & Hr2 & Hd2 & Hlen).
    cbn [GeminiService.requests fold_left].
    fold (GeminiService.requests rs (GeminiService.request w r)).
    split; [exact M2|]. split; [exact D2|]. split; [congruence|].
    split; [congruence|].
    rewrite Hlen, Hlog, length_app. simpl filter.
    destruct (GeminiService.isAnswered r); simpl; lia.
Qed.

Lemma api_requests_keep_limits (rs : list GeminiApi.Request) :
  forall w,
    MinuteInvariant.Inv w -> DailyInvariant.Inv w ->
    let w' := GeminiApi.requests rs w in
    MinuteInvariant.Inv w' /\ DailyInvariant.Inv w'
    /\ requestsPerMinute (self w') = requestsPerMinute (self w)
    /\ maxDailyRequests (self w') = maxDailyRequests (self w)
    /\ List.length (recordedCalls (log w'))
       = (List.length (recordedCalls (log w))
          + List.length (filter GeminiApi.isAnswered rs))%nat.
Proof.
  induction rs as [|r rs IH]; intros w M D.
  - cbn [GeminiService.requests GeminiApi.requests fold_left filter
         List.length].
    split; [exact M|]. split; [exact D|]. split; [reflexivity|].
    split; [reflexivity|]. now rewrite Nat.add_0_r.
  - destruct (api_request_keeps_limits w r M D)
      as (M1 & D1 & Hr & Hd & Hlog).
    destruct (IH _ M1 D1) as (M2 & D2 & Hr2 & Hd2 & Hlen).
    cbn [GeminiApi.requests fold_left].
    fold (GeminiApi.requests rs (GeminiApi.request w r)).
    split; [exact M2|]. split; [exact D2|]. split; [congruence|].
    split; [congruence|].
    rewrite Hlen, Hlog, length_app. simpl filter.
    destruct (GeminiApi.isAnswered r); simpl; lia.
Qed.

(** The limits read off the two invariants. *)
Lemma limits_of_invariants (w : World) :
  MinuteInvariant.Inv w -> DailyInvariant.Inv w ->
  (forall t : Z, callsInWindow (log w) t <= requestsPerMinute (self w))
  /\ Forall (fun n => n <= maxDailyRequests (self w))
            (callsBetweenResets (log w)).
Proof.
  intros M D. split.
  - apply (MinuteInvariant.inv_window w M).
  - unfold callsBetweenResets. apply Forall_app. split.
    + apply (DailyInvariant.inv_closed w D).
    + constructor; [|constructor].
      rewrite (DailyInvariant.inv_counter w D).
      apply (DailyInvariant.inv_current w D).
Qed.

End ServiceRequests.

(** X6. Requests made one after the other through [generateContent], of
    the service and of the older wrapper alike, keep the request limits
    whether they are answered or fail: no trailing 60-second window holds
    more recorded calls than [requestsPerMinute], and no period between
    two resets of the daily counter more than [maxDailyRequests].  The
    calls recorded are exactly the answered requests: a request whose
    reply is an error is not counted. *)
Theorem generateContent_keeps_request_limits :
  forall (config : ApiThrottler.ApiThrottlerConfig) (start : Z)
         (rs : list GeminiService.Request) (qs : list GeminiApi.Request),
    1 <= ApiThrottler.cfgRequestsPerMinute config ->
    1 <= ApiThrottler.cfgMaxDailyRequests config ->
    (let w := GeminiService.requests rs (ApiThrottler.new config start) in
     (forall t : Z,
         ApiThrottler.callsInWindow (ApiThrottler.log w) t
         <= ApiThrottler.cfgRequestsPerMinute config)
     /\ Forall (fun n => n <= ApiThrottler.cfgMaxDailyRequests config)
               (ApiThrottler.callsBetweenResets (ApiThrottler.log w))
     /\ List.length (ApiThrottler.recordedCalls (ApiThrottler.log w))
        = List.length (filter GeminiService.isAnswered rs))
    /\ (let w := GeminiApi.requests qs (ApiThrottler.new config start) in
        (forall t : Z,
            ApiThrottler.callsInWindow (ApiThrottler.log w) t
            <= ApiThrottler.cfgRequestsPerMinute config)
        /\ Forall (fun n => n <= ApiThrottler.cfgMaxDailyRequests config)
                  (ApiThrottler.callsBetweenResets (ApiThrottler.log w))
        /\ List.length (ApiThrottler.recordedCalls (ApiThrottler.log w))
           = List.length (filter GeminiApi.isAnswered qs)).
Proof.
  intros config start rs qs Hr Hd.
  pose proof (ThrottlerMinute.Inv_new config start Hr) as M.
  pose proof (ThrottlerDaily.daily_Inv_new config start Hd) as D.
  split.
  - destruct (service_requests_keep_limits rs _ M D)
      as (M' & D' & Kr & Kd & Hlen).
    destruct (limits_of_invariants _ M' D') as [L1 L2].
    cbv zeta. rewrite Kr in L1. rewrite Kd in L2.
    split; [exact L1|]. split; [exact L2|]. exact Hlen.
  - destruct (api_requests_keep_limits qs _ M D)
      as (M' & D' & Kr & Kd & Hlen).
    destruct (limits_of_invariants _ M' D') as [L1 L2].
    cbv zeta. rewrite Kr in L1. rewrite Kd in L2.
    split; [exact L1|]. split; [exact L2|]. exact Hlen.
Qed.

Lemma generateContent_keeps_request_limits_witness :
  (let w := GeminiService.requests
              [ServiceExamples.refused; ServiceExamples.answered;
               ServiceExamples.refused]
              (ApiThrottler.new ApiThrottler.defaultConfig 0) in
   (forall t : Z, ApiThrottler.callsInWindow (ApiThrottler.log w) t <= 15)
   /\ Forall (fun n => n <= 1500)
             (ApiThrottler.callsBetweenResets (ApiThrottler.log w))
   /\ List.length (ApiThrottler.recordedCalls (ApiThrottler.log w)) = 1%nat)
  /\ (let w := GeminiApi.requests [ServiceExamples.answeredByApi]
                 (ApiThrottler.new ApiThrottler.defaultConfig 0) in
      (forall t : Z, ApiThrottler.callsInWindow (ApiThrottler.log w) t <= 15)
      /\ Forall (fun n => n <= 1500)
                (ApiThrottler.callsBetweenResets (ApiThrottler.log w))
      /\ List.length (ApiThrottler.recordedCalls (ApiThrottler.log w))
         = 1%nat).
Proof.
  apply (generateContent_keeps_request_limits ApiThrottler.defaultConfig 0
           [ServiceExamples.refused; ServiceExamples.answered;
            ServiceExamples.refused]
           [ServiceExamples.answeredByApi]); simpl; lia.
Defined.

Section ServiceTokens.
Import ApiThrottler.

Lemma service_request_keeps_token_limit (tokens : list Z) (w : World)
      (r : GeminiService.Request) :
  TokenInvariant.Inv tokens w ->
  GeminiService.estimatedTotalTokens r <= tokensPerMinute (self w) ->
  let w' := GeminiService.request w r in
  TokenInvariant.Inv
    (tokens
     ++ (if GeminiService.isAnswered r
         then repeat (clock w')
                (Z.to_nat (GeminiService.estimatedTotalTokens r))
         else [])) w'
  /\ tokensPerMinute (self w') = tokensPerMinute (self w).
Proof.
  intros I Hest.
  set (est := GeminiService.estimatedTotalTokens r) in *.
  assert (I0 : TokenInvariant.Inv tokens (elapse (GeminiService.idle r) w)).
  { eapply ThrottlerTokens.token_Frame_Inv; [| | |exact I];
      cbn [elapse self clock]; try reflexivity; lia. }
  destruct (ThrottlerTokens.token_Inv_throttle tokens est
              (GeminiService.late r) _ I0 Hest) as [I1 P1].
  set (w1 := throttle est (GeminiService.late r)
               (elapse (GeminiService.idle r) w)) in *.
  assert (L1 : tokensPerMinute (self w1) = tokensPerMinute (self w)).
  { unfold w1, throttle, tokensStage, requestsStage, dailyStage,
      checkDailyReset, currentTokensThisMinute.
    repeat match goal with
           | |- context [if ?b then _ else _] => destruct b
           end; reflexivity. }
  assert (I2 : TokenInvariant.Inv tokens (elapse (GeminiService.latency r) w1)).
  { eapply ThrottlerTokens.token_Frame_Inv; [| | |exact I1];
      cbn [elapse self clock]; try reflexivity; lia. }
  assert (P2 : TokenInvariant.Permit tokens est
                 (elapse (GeminiService.latency r) w1)).
  { eapply ThrottlerTokens.token_Frame_Permit; [| |exact P1];
      cbn [elapse self clock]; try reflexivity; lia. }
  unfold GeminiService.request, GeminiService.generateContent,
    GeminiService.isAnswered.
  fold est. fold w1.
  destruct (GeminiService.reply r) as [text|msg]; cbn [fst].
  - split; [|exact L1].
    change (clock (recordApiCall est (elapse (GeminiService.latency r) w1)))
      with (clock (elapse (GeminiService.latency r) w1)).
    eapply ThrottlerTokens.token_Inv_recordApiCall; [exact I2 | exact P2 | lia].
  - split; [|exact L1]. rewrite app_nil_r. exact I2.
Qed.

Lemma service_requests_keep_token_limit (rs : list GeminiService.Request) :
  forall (tokens : list Z) (w : World),
    TokenInvariant.Inv tokens w ->
    Forall (fun r => GeminiService.estimatedTotalTokens r
                     <= tokensPerMinute (self w)) rs ->
    TokenInvariant.Inv (tokens ++ GeminiService.recordedTokens rs w)
                       (GeminiService.requests rs w)
    /\ tokensPerMinute (self (GeminiService.requests rs w))
       = tokensPerMinute (self w).
Proof.
  induction rs as [|r rs IH]; intros tokens w I H.
  - simpl. rewrite app_nil_r. split; [exact I | reflexivity].
  - inversion H as [|? ? Hr Hrs]; subst.
    destruct (service_request_keeps_token_limit tokens w r I Hr) as [I1 L1].
    cbn [GeminiService.recordedTokens GeminiService.requests fold_left].
    fold (GeminiService.requests rs (GeminiService.request w r)).
    rewrite app_assoc.
    destruct (IH _ _ I1) as [I2 L2].
    + eapply Forall_impl; [|exact Hrs]. cbv beta. intros a Ha.
      rewrite L1. exact Ha.
    + split; [exact I2 | congruence].
Qed.

End ServiceTokens.

(** X7. The service records for an answered request exactly the tokens
    it announced to [throttle], so it keeps the tokens-per-minute limit
    whenever no single request is estimated above it: after any sequence
    of requests, answered or failed, no trailing 60-second window holds
    more recorded tokens than [tokensPerMinute]. *)
Theorem service_keeps_token_limit :
  forall (config : ApiThrottler.ApiThrottlerConfig) (start : Z)
         (rs : list GeminiService.Request),
    0 <= ApiThrottler.cfgTokensPerMinute config ->
    Forall (fun r => GeminiService.estimatedTotalTokens r
                     <= ApiThrottler.cfgTokensPerMinute config) rs ->
    forall t : Z,
      TokenInvariant.tokensInWindow
        (GeminiService.recordedTokens rs (ApiThrottler.new config start)) t
      <= ApiThrottler.cfgTokensPerMinute config.
Proof.
  intros config start rs H0 Hrs t.
  destruct (service_requests_keep_token_limit rs [] _
              (ThrottlerTokens.token_Inv_new config start H0) Hrs) as [I L].
  simpl app in I.
  pose proof (TokenInvariant.inv_token_window _ _ I t) as Hw.
  rewrite L in Hw. exact Hw.
Qed.

Lemma service_keeps_token_limit_witness :
  TokenInvariant.tokensInWindow
    (GeminiService.recordedTokens
       [ServiceExamples.refused; ServiceExamples.answered]
       (ApiThrottler.new ApiThrottler.defaultConfig 0)) 2000
  <= 1000000.
Proof.
  apply (service_keeps_token_limit ApiThrottler.defaultConfig 0
           [ServiceExamples.refused; ServiceExamples.answered]).
  - simpl. lia.
  - repeat constructor; vm_compute; discriminate.
Defined.

Section RetryLoopShape.
Import Js ChunkSummarizerNode.

Variable maxRetries : Z.
Variable generateContent : Backend.
Variable chunk : str.
Variable chunkIndex : Z.

Local Abbreviation prompt := (createChunkSummaryPrompt chunk).

Lemma retryLoop_shape (fuel : nat) :
  forall (lastError : option Error) (sent : list str) (backoffs0 : list Z),
    Z.of_nat fuel = Z.max 0 (maxRetries - Z.of_nat (List.length sent)) ->
    let a := retryLoop fuel maxRetries generateContent chunk chunkIndex
               (Z.of_nat (List.length sent)) lastError sent backoffs0 in
    exists failures : nat,
      (forall j, (j < failures)%nat ->
         exists t, generateContent (List.length sent + j)%nat prompt
                   = Rejected t)
      /\ backoffs a
         = backoffs0
             ++ map RetryShape.backoffMs (seq (S (List.length sent)) failures)
      /\ match completion a with
         | Returned summary =>
             (failures < fuel)%nat
             /\ generateContent (List.length sent + failures)%nat prompt
                = Resolved summary
             /\ prompts a = sent ++ repeat prompt (S failures)
         | Threw e =>
             failures = fuel
             /\ prompts a = sent ++ repeat prompt failures
             /\ ((failures = O
                  /\ e = match lastError with
                         | Some e0 => e0
                         | None =>
                             FailedToSummarize (chunkIndex + 1) maxRetries
                         end)
                 \/ exists last t,
                      failures = S last
                      /\ generateContent (List.length sent + last)%nat prompt
                         = Rejected t
                      /\ e = toError t)
         end.
Proof.
  induction fuel as [|fuel IH]; intros lastError sent backoffs0 Hfuel a.
  - exists 0%nat. subst a. cbn [retryLoop prompts completion backoffs].
    rewrite !app_nil_r. split; [intros j Hj; lia|]. split; [reflexivity|].
    split; [reflexivity|]. split; [reflexivity|]. left. split; reflexivity.
  - subst a. cbn [retryLoop].
    replace (Z.of_nat (List.length sent) <? maxRetries) with true
      by (symmetry; apply Z.ltb_lt; lia).
    fold prompt.
    destruct (generateContent (List.length sent) prompt) as [summary|t] eqn:E.
    + exists 0%nat. cbn [prompts completion backoffs repeat seq map].
      rewrite app_nil_r, Nat.add_0_r.
      split; [intros j Hj; lia|]. split; [reflexivity|].
      split; [lia|]. split; [exact E | reflexivity].
    + assert (Hb1 : 2 ^ (Z.of_nat (List.length sent) + 1) * 1000
                    = RetryShape.backoffMs (S (List.length sent))).
      { unfold RetryShape.backoffMs. f_equal. f_equal. lia. }
      rewrite Hb1.
      pose proof (IH (Some (toError t)) (sent ++ [prompt])
                     (backoffs0
                      ++ [RetryShape.backoffMs (S (List.length sent))]))
        as IH'.
      rewrite length_app in IH'. cbn [List.length] in IH'.
      replace (Z.of_nat (List.length sent + 1))
        with (Z.of_nat (List.length sent) + 1) in IH' by lia.
      specialize (IH' ltac:(lia)). cbv zeta in IH'.
      destruct IH' as (f & Hj & Hb & Hc).
      exists (S f). split.
      { intros [|j] Hlt.
        - rewrite Nat.add_0_r. exists t. exact E.
        - destruct (Hj j ltac:(lia)) as (t' & Ht'). exists t'.
          rewrite <- Ht'. f_equal. lia. }
      split.
      { rewrite Hb, <- app_assoc. f_equal. cbn [app seq map]. f_equal.
        f_equal. f_equal. lia. }
      destruct (completion _) as [summary|e].
      * destruct Hc as (H1 & H2 & H3). split; [lia|]. split.
        -- rewrite <- H2. f_equal. lia.
        -- rewrite H3, <- app_assoc. reflexivity.
      * destruct Hc as (H1 & H2 & H3). split; [lia|]. split.
        -- rewrite H2, <- app_assoc. reflexivity.
        -- right. destruct H3 as [[H3 He]|(last & t' & H3 & Ht' & He)].
           ++ exists 0%nat, t. rewrite Nat.add_0_r.
              split; [lia|]. split; [exact E | exact He].
           ++ exists (S last), t'. split; [lia|]. split; [|exact He].
              rewrite <- Ht'. f_equal. lia.
Qed.

End RetryLoopShape.

(** X8. Whatever the service does, [summarizeChunkWithRetry] calls it at
    most [maxRetries] times, always with the prompt of the chunk.  The
    calls before the last are failures, every failure is followed by a
    delay of [2^k * 1000] milliseconds, [k] being the number of the
    attempt, also the failure after which it gives up; it returns the
    summary of the first call that succeeds, and it gives up only when
    [maxRetries] calls have failed (or none is allowed), with the error
    of the last call. *)
Theorem summarizeChunkWithRetry_shape :
  forall (maxRetries : Z) (generateContent : ChunkSummarizerNode.Backend)
         (chunk : Js.str) (chunkIndex : Z),
    let prompt := ChunkSummarizerNode.createChunkSummaryPrompt chunk in
    let a := ChunkSummarizerNode.summarizeChunkWithRetry maxRetries
               generateContent chunk chunkIndex in
    let calls := List.length (ChunkSummarizerNode.prompts a) in
    let failures := List.length (ChunkSummarizerNode.backoffs a) in
    Z.of_nat calls <= Z.max 0 maxRetries
    /\ ChunkSummarizerNode.prompts a = repeat prompt calls
    /\ ChunkSummarizerNode.backoffs a
       = map RetryShape.backoffMs (seq 1 failures)
    /\ (forall j, (j < failures)%nat ->
          exists t, generateContent j prompt = ChunkSummarizerNode.Rejected t)
    /\ match ChunkSummarizerNode.completion a with
       | ChunkSummarizerNode.Returned summary =>
           calls = S failures
           /\ generateContent failures prompt
              = ChunkSummarizerNode.Resolved summary
       | ChunkSummarizerNode.Threw e =>
           calls = failures
           /\ Z.of_nat failures = Z.max 0 maxRetries
           /\ ((failures = O
                /\ e = ChunkSummarizerNode.FailedToSummarize (chunkIndex + 1)
                         maxRetries)
               \/ exists last t,
                    failures = S last
                    /\ generateContent last prompt
                       = ChunkSummarizerNode.Rejected t
                    /\ e = ChunkSummarizerNode.toError t)
       end.
Proof.
  intros maxRetries g chunk chunkIndex prompt a calls failures.
  destruct (retryLoop_shape maxRetries g chunk chunkIndex
              (Z.to_nat maxRetries) None [] [] ltac:(simpl; lia))
    as (f & Hj & Hb & Hc).
  cbn [List.length app Z.of_nat] in Hj, Hb, Hc.
  change (ChunkSummarizerNode.retryLoop (Z.to_nat maxRetries) maxRetries g
            chunk chunkIndex 0 None [] []) with a in Hb, Hc.
  assert (Hf : failures = f).
  { unfold failures. rewrite Hb, length_map, length_seq. reflexivity. }
  rewrite <- Hf in *. clear Hf f.
  assert (Hcalls : forall n, ChunkSummarizerNode.prompts a = repeat prompt n ->
                             calls = n).
  { intros n Hn. unfold calls. rewrite Hn. apply repeat_length. }
  destruct (ChunkSummarizerNode.completion a) as [summary|e].
  - destruct Hc as (H1 & H2 & H3).
    rewrite (Hcalls _ H3). split; [lia|]. split; [exact H3|].
    split; [exact Hb|]. split; [exact Hj|]. split; [reflexivity | exact H2].
  - destruct Hc as (H1 & H2 & H3).
    rewrite (Hcalls _ H2). split; [lia|]. split; [exact H2|].
    split; [exact Hb|]. split; [exact Hj|]. split; [reflexivity|].
    split; [lia|]. exact H3.
Qed.

Section ExecOutcome.
Import Js ChunkSummarizerNode MapStage.

Local Abbreviation returned := MapInvariant.returned.

Lemma awaitAll_rejection (l : list (Z * Attempts)) :
  match snd (awaitAll l) with
  | None => Forall returned l
  | Some e => exists p, In p l /\ completion (snd p) = Threw e
  end.
Proof.
  induction l as [|[i a] l IH]; [constructor|].
  cbn [awaitAll]. destruct (completion a) as [summary|e] eqn:E.
  - destruct (awaitAll l) as [events rejection]. cbn [snd] in *.
    destruct rejection as [e|].
    + destruct IH as (p & Hin & Hp). exists p. split; [now right | exact Hp].
    + constructor; [|exact IH]. exists summary. exact E.
  - cbn [snd]. exists (i, a). split; [now left | exact E].
Qed.

Lemma runBatches_result (settledAt : Z -> Z) :
  forall (batches : list (list (Z * Attempts))) (number : Z)
         (chunkSummaries : list str) (events : list Event),
    match result (runBatches settledAt number batches chunkSummaries events)
    with
    | inl out =>
        Forall returned (concat batches)
        /\ out = chunkSummaries
                   ++ map (fun p => summaryOf (snd p)) (concat batches)
    | inr e =>
        exists p, In p (concat batches) /\ completion (snd p) = Threw e
    end.
Proof.
  induction batches as [|batch rest IH]; intros number acc events.
  - cbn [runBatches result concat map]. split; [constructor|].
    now rewrite app_nil_r.
  - cbn [runBatches concat].
    pose proof (awaitAll_rejection
                  (sortBy (fun p => settledAt (fst p)) batch)) as Ha.
    destruct (awaitAll (sortBy (fun p => settledAt (fst p)) batch))
      as [settled rejection].
    cbn [snd] in Ha.
    assert (Hperm : Permutation (sortBy (fun p => settledAt (fst p)) batch)
                                batch)
      by apply sortWith_Permutation.
    destruct rejection as [e|].
    + cbn [result]. destruct Ha as (p & Hin & Hp). exists p.
      split; [|exact Hp]. apply in_or_app. left.
      eapply Permutation_in; eassumption.
    + specialize (IH (number + 1)
                     (acc ++ map (fun p => summaryOf (snd p)) batch)
                     ((events ++ [StartingBatch number]
                              ++ map (fun p => Started (fst p)) batch
                              ++ settled) ++ [CompletedBatch number])).
      destruct (result _) as [out|e].
      * destruct IH as [IH1 IH2]. split.
        -- apply Forall_app. split; [|exact IH1].
           eapply Permutation_Forall; eassumption.
        -- rewrite IH2, map_app, app_assoc. reflexivity.
      * destruct IH as (p & Hin & Hp). exists p.
        split; [|exact Hp]. apply in_or_app. now right.
Qed.

End ExecOutcome.

(** X9. For a configured concurrency of at least 1, [exec] ends, and it
    returns the summaries exactly when the summarization of every chunk
    returns one; otherwise it throws the error of a chunk whose
    summarization gave up. *)
Theorem exec_returns_iff_every_chunk_does :
  forall (maxConcurrent maxRetries : Z)
         (service : Z -> ChunkSummarizerNode.Backend) (settledAt : Z -> Z)
         (chunks : list Js.str) (fuel : nat),
    chunks <> [] ->
    1 <= maxConcurrent ->
    (List.length chunks < fuel)%nat ->
    let tasks := ChunkSummarizerNode.startBatch maxRetries service chunks 0 in
    exists run,
      ChunkSummarizerNode.exec maxConcurrent maxRetries service settledAt
        fuel (Some chunks) = Some run
      /\ match ChunkSummarizerNode.result run with
         | inl summaries =>
             Forall MapInvariant.returned tasks
             /\ summaries
                = map (fun p => ChunkSummarizerNode.summaryOf (snd p)) tasks
         | inr e =>
             ~ Forall MapInvariant.returned tasks
             /\ exists p,
                  In p tasks
                  /\ ChunkSummarizerNode.completion (snd p)
                     = ChunkSummarizerNode.Threw e
         end.
Proof.
  intros maxConcurrent maxRetries service settledAt chunks fuel Hne Hmax
         Hfuel tasks.
  set (width := ChunkSummarizerNode.actualConcurrency maxConcurrent
                  (Z.of_nat (List.length chunks))).
  assert (Hw : 1 <= width).
  { unfold width, ChunkSummarizerNode.actualConcurrency. lia. }
  assert (Hexec : ChunkSummarizerNode.exec maxConcurrent maxRetries service
                    settledAt fuel (Some chunks)
                  = Some (MapStage.runBatches settledAt 1
                            (MapStage.batchesOf width tasks) [] [])).
  { destruct chunks as [|c cs]; [congruence|].
    unfold ChunkSummarizerNode.exec. fold width.
    rewrite (batchLoop_runBatches maxRetries service settledAt (c :: cs)
               width Hw fuel 0 [] []) by lia.
    reflexivity. }
  eexists. split; [exact Hexec|].
  pose proof (runBatches_result settledAt (MapStage.batchesOf width tasks)
                1 [] []) as R.
  assert (Hcat : concat (MapStage.batchesOf width tasks) = tasks).
  { unfold MapStage.batchesOf. apply chop_concat; lia. }
  rewrite Hcat in R.
  destruct (ChunkSummarizerNode.result _) as [out|e].
  - exact R.
  - split; [|exact R]. intros Hall. destruct R as (p & Hin & Hp).
    rewrite Forall_forall in Hall. destruct (Hall p Hin) as (s & Hs).
    congruence.
Qed.

Section TwoInFlight.
Import Js ChunkSummarizerNode MapStage.

Lemma concat_member_length {A} (ls : list (list A)) (b : list A) :
  In b ls -> (List.length b <= List.length (concat ls))%nat.
Proof.
  induction ls as [|x ls IH]; intros H; [destruct H|].
  cbn [concat]. rewrite length_app. destruct H as [->|H]; [lia|].
  specialize (IH H). lia.
Qed.

Lemma actualConcurrency_many (maxConcurrent chunkCount : Z) :
  3 <= chunkCount ->
  actualConcurrency maxConcurrent chunkCount = Z.min maxConcurrent 2.
Proof.
  intros H. unfold actualConcurrency. f_equal.
  assert (Hd : (6 + chunkCount - 1) / chunkCount <= 2).
  { apply Z.lt_succ_r. apply Z.div_lt_upper_bound; lia. }
  lia.
Qed.

End TwoInFlight.

(** X21. Whatever [maxConcurrent] is, [exec] never has more than two
    summarizations in flight: with three chunks or more the adaptive
    width is the smaller of [maxConcurrent] and 2, and with fewer chunks
    there are no more than two to start. *)
Theorem at_most_two_summarizations_in_flight :
  forall (maxConcurrent maxRetries : Z)
         (service : Z -> ChunkSummarizerNode.Backend) (settledAt : Z -> Z)
         (chunks : list Js.str) (fuel : nat),
    chunks <> [] ->
    1 <= maxConcurrent ->
    (List.length chunks < fuel)%nat ->
    let chunkCount := Z.of_nat (List.length chunks) in
    (3 <= chunkCount ->
     ChunkSummarizerNode.actualConcurrency maxConcurrent chunkCount
     = Z.min maxConcurrent 2)
    /\ exists run,
         ChunkSummarizerNode.exec maxConcurrent maxRetries service settledAt
           fuel (Some chunks) = Some run
         /\ MapStage.barrier 2 0 (ChunkSummarizerNode.events run).
Proof.
  intros maxConcurrent maxRetries service settledAt chunks fuel Hne Hmax
         Hfuel chunkCount.
  split; [apply actualConcurrency_many|].
  set (width := ChunkSummarizerNode.actualConcurrency maxConcurrent
                  chunkCount).
  set (tasks := ChunkSummarizerNode.startBatch maxRetries service chunks 0).
  assert (Hw : 1 <= width).
  { unfold width, ChunkSummarizerNode.actualConcurrency. lia. }
  assert (Hexec : ChunkSummarizerNode.exec maxConcurrent maxRetries service
                    settledAt fuel (Some chunks)
                  = Some (MapStage.runBatches settledAt 1
                            (MapStage.batchesOf width tasks) [] [])).
  { destruct chunks as [|c cs]; [congruence|].
    unfold ChunkSummarizerNode.exec. fold chunkCount. fold width.
    rewrite (batchLoop_runBatches maxRetries service settledAt (c :: cs)
               width Hw fuel 0 [] []) by lia.
    reflexivity. }
  eexists. split; [exact Hexec|].
  apply runBatches_barrier; [|exact I | reflexivity].
  assert (Hlen : List.length tasks = List.length chunks)
    by apply startBatch_length.
  assert (Hcat : concat (MapStage.batchesOf width tasks) = tasks).
  { unfold MapStage.batchesOf. apply chop_concat; lia. }
  pose proof (chop_sizes (Z.to_nat width) ltac:(lia) (List.length tasks)
                tasks) as Hsizes.
  fold (MapStage.batchesOf width tasks) in Hsizes.
  rewrite Forall_forall in Hsizes |- *. intros b Hb.
  pose proof (concat_member_length _ b Hb) as Hb1. rewrite Hcat in Hb1.
  specialize (Hsizes b Hb).
  destruct (Z_lt_ge_dec chunkCount 3) as [Hfew|Hmany].
  - unfold chunkCount in Hfew. lia.
  - assert (width = Z.min maxConcurrent 2)
      by (apply actualConcurrency_many; lia).
    lia.
Qed.

Lemma at_most_two_summarizations_in_flight_witness :
  (3 <= Z.of_nat (List.length MapExamples.chunks6) ->
   ChunkSummarizerNode.actualConcurrency 5
     (Z.of_nat (List.length MapExamples.chunks6)) = Z.min 5 2)
  /\ exists run,
       ChunkSummarizerNode.exec 5 3 MapExamples.digits MapExamples.lastFirst
         7 (Some MapExamples.chunks6) = Some run
       /\ MapStage.barrier 2 0 (ChunkSummarizerNode.events run).
Proof.
  apply (at_most_two_summarizations_in_flight 5 3 MapExamples.digits
           MapExamples.lastFirst MapExamples.chunks6 7).
  - discriminate.
  - lia.
  - simpl. lia.
Defined.

Lemma exec_returns_iff_every_chunk_does_witness :
  exists run,
    ChunkSummarizerNode.exec 3 3 MapExamples.digits MapExamples.lastFirst 7
      (Some MapExamples.chunks6) = Some run
    /\ match ChunkSummarizerNode.result run with
       | inl summaries =>
           Forall MapInvariant.returned
             (ChunkSummarizerNode.startBatch 3 MapExamples.digits
                MapExamples.chunks6 0)
           /\ summaries
              = map (fun p => ChunkSummarizerNode.summaryOf (snd p))
                  (ChunkSummarizerNode.startBatch 3 MapExamples.digits
                     MapExamples.chunks6 0)
       | inr e =>
           ~ Forall MapInvariant.returned
               (ChunkSummarizerNode.startBatch 3 MapExamples.digits
                  MapExamples.chunks6 0)
           /\ exists p,
                In p (ChunkSummarizerNode.startBatch 3 MapExamples.digits
                        MapExamples.chunks6 0)
                /\ ChunkSummarizerNode.completion (snd p)
                   = ChunkSummarizerNode.Threw e
       end.
Proof.
  apply (exec_returns_iff_every_chunk_does 3 3 MapExamples.digits
           MapExamples.lastFirst MapExamples.chunks6 7).
  - discriminate.
  - lia.
  - simpl. lia.
Defined.

Section NoConcurrency.
Import Js ChunkSummarizerNode.

Lemma batchLoop_idle (maxRetries : Z) (service : Z -> Backend)
      (settledAt : Z -> Z) (chunks : list str) :
  chunks <> [] ->
  forall (fuel : nat) (chunkSummaries : list str) (events : list Event),
    batchLoop maxRetries service settledAt fuel chunks 0 0 chunkSummaries
              events = None.
Proof.
  intros Hne. induction fuel as [|fuel IH]; intros acc events; [reflexivity|].
  cbn [batchLoop].
  replace (0 <? Z.of_nat (List.length chunks)) with true
    by (symmetry; apply Z.ltb_lt; destruct chunks; [congruence|simpl; lia]).
  assert (Hs : slice chunks 0 (0 + 0) = []).
  { unfold slice, sliceIndex. cbn [Z.add Z.ltb Z.compare].
    rewrite Z.min_l by lia. reflexivity. }
  rewrite Hs. cbn [startBatch sortBy sortWith fold_right awaitAll map app].
  apply IH.
Qed.

End NoConcurrency.

(** X26. With a configured concurrency below 1, [exec] never returns
    summaries for a list of chunks: with a concurrency of zero it starts
    empty batches without end, and with a negative one it either throws
    the error of a chunk of its first batch or does not end. *)
Theorem exec_needs_a_positive_concurrency :
  forall (maxConcurrent maxRetries : Z)
         (service : Z -> ChunkSummarizerNode.Backend) (settledAt : Z -> Z)
         (chunks : list Js.str),
    maxConcurrent <= 0 ->
    chunks <> [] ->
    (forall (fuel : nat) (run : ChunkSummarizerNode.Run)
            (summaries : list Js.str),
        ChunkSummarizerNode.exec maxConcurrent maxRetries service settledAt
          fuel (Some chunks) = Some run ->
        ChunkSummarizerNode.result run <> inl summaries)
    /\ (maxConcurrent = 0 ->
        forall fuel : nat,
          ChunkSummarizerNode.exec maxConcurrent maxRetries service settledAt
            fuel (Some chunks) = None).
Proof.
  intros maxConcurrent maxRetries service settledAt chunks Hmax Hne.
  assert (Hw : ChunkSummarizerNode.actualConcurrency maxConcurrent
                 (Z.of_nat (List.length chunks)) = maxConcurrent).
  { unfold ChunkSummarizerNode.actualConcurrency. lia. }
  split.
  - intros fuel run summaries Hrun.
    destruct chunks as [|c cs]; [congruence|].
    unfold ChunkSummarizerNode.exec in Hrun. rewrite Hw in Hrun.
    eapply (batchLoop_stuck maxRetries service settledAt (c :: cs)
              maxConcurrent Hmax Hne fuel 0 [] [] run summaries);
      [lia | exact Hrun].
  - intros -> fuel. destruct chunks as [|c cs]; [congruence|].
    unfold ChunkSummarizerNode.exec. rewrite Hw.
    apply batchLoop_idle. exact Hne.
Qed.

Lemma exec_needs_a_positive_concurrency_witness :
  (forall (fuel : nat) (run : ChunkSummarizerNode.Run)
          (summaries : list Js.str),
      ChunkSummarizerNode.exec 0 3 MapExamples.digits MapExamples.lastFirst
        fuel (Some MapExamples.chunks6) = Some run ->
      ChunkSummarizerNode.result run <> inl summaries)
  /\ (0 = 0 ->
      forall fuel : nat,
        ChunkSummarizerNode.exec 0 3 MapExamples.digits MapExamples.lastFirst
          fuel (Some MapExamples.chunks6) = None).
Proof.
  apply (exec_needs_a_positive_concurrency 0 3 MapExamples.digits
           MapExamples.lastFirst MapExamples.chunks6).
  - lia.
  - discriminate.
Defined.

Section PackerCount.
Import Js BaseChunkingStrategy PackerBudget.

(** The characters of a chunk are those of its sentences and one space
    between two of them; each sentence is counted with up to three
    characters more than it has. *)
Lemma sentenceTokens_join (group : list str) :
  group <> [] ->
  4 * sentenceTokens group - 3 * count group
  <= len (join space group) - (count group - 1)
  <= 4 * sentenceTokens group.
Proof.
  induction group as [|s group IH]; [congruence|]. intros _.
  assert (Hs : 4 * estimateTokens s - 3 <= len s <= 4 * estimateTokens s).
  { unfold estimateTokens.
    pose proof (Z.div_mod (len s + 3) 4 ltac:(lia)) as Hd.
    pose proof (Z.mod_pos_bound (len s + 3) 4 ltac:(lia)) as Hm. lia. }
  change (sentenceTokens (s :: group))
    with (estimateTokens s + sentenceTokens group).
  destruct group as [|s' group].
  - change (join space [s]) with s. change (count [s]) with 1.
    change (sentenceTokens []) with 0. lia.
  - specialize (IH ltac:(discriminate)).
    change (join space (s :: s' :: group))
      with (s ++ space ++ join space (s' :: group)).
    unfold len, count in *. rewrite !length_app.
    cbn [List.length space] in *. lia.
Qed.

End PackerCount.

Section RoundingOnExamples.
Import Js.

(** Five sentences of four characters count as five tokens; joined, they
    are estimated at six. *)
Example chunk_estimate_exceeds_count :
  let group := repeat (of_string "abcd") 5 in
  PackerBudget.sentenceTokens group = 5
  /\ BaseChunkingStrategy.estimateTokens (join space group) = 6.
Proof. split; reflexivity. Qed.

(** Thirty-five sentences of 147 tokens and a limit of 14: the reduction
    factor is the double next above 35/3, so that the number of
    sentences to keep is not the 3 of the exact quotient but 2; the
    bookends are empty and the last sentence is not sampled. *)
Example bookend_rounds_below_three :
  let sentences :=
    BaseChunkingStrategy.splitIntoSentences RoundingExamples.notes in
  let reductionFactor :=
    BookendSamplingStrategy.reductionFactor RoundingExamples.notes 14 in
  BaseChunkingStrategy.count sentences = 35
  /\ BaseChunkingStrategy.estimateTokens RoundingExamples.notes = 147
  /\ (inject_Z 35 / (inject_Z 147 / (14 * (9 # 10))) == 3)%Q
  /\ reductionFactor = Num.Fin (3283874728290987 # 281474976710656)
  /\ BookendSamplingStrategy.totalSentencesToKeep sentences reductionFactor
     = Num.Fin 2
  /\ BookendSamplingStrategy.bookendSizeOf 2 = 0
  /\ BookendSamplingStrategy.sampleSentences sentences reductionFactor
     = map (item sentences) [0; 1; 18; 19]
  /\ existsb (eqb (last sentences []))
       (BookendSamplingStrategy.sampleSentences sentences reductionFactor)
     = false.
Proof. cbv zeta. repeat split; vm_compute; reflexivity. Qed.

(** Nine sentences of 63 tokens and a limit of 10: the reduction factor
    is 7, but [9 / (9 / 7)] rounds below 7 and the sampling interval
    is 6. *)
Example uniform_interval_rounds_below_seven :
  let reductionFactor :=
    Num.max 1 (Num.divZ 63 (Num.mulQ 10 (Num.lit (9 # 10)))) in
  reductionFactor = Num.Fin 7
  /\ Num.max 1 (Num.floor (Num.divZ 9 (Num.divZ 9 reductionFactor)))
     = Num.Fin 6.
Proof. cbv zeta. split; vm_compute; reflexivity. Qed.

(** Fifty-one sentences and a reduction factor of 2.55: [2.0 / 2.55]
    times 51 rounds above 40, and 41 sentences are kept. *)
Example intelligent_keeps_one_more :
  (inject_Z 51 * (2 / (255 # 100)) == 40)%Q
  /\ IntelligentSamplingStrategy.numSentencesToKeep 51
       (Num.Fin (Num.lit (255 # 100)))
     = Num.Fin 41.
Proof. split; vm_compute; reflexivity. Qed.

End RoundingOnExamples.

Section PackerBudgetLemmas.
Import Js BaseChunkingStrategy PackerBudget.

Lemma sentenceTokens_app (g1 g2 : list str) :
  sentenceTokens (g1 ++ g2) = sentenceTokens g1 + sentenceTokens g2.
Proof.
  induction g1 as [|s g1 IH]; [reflexivity|].
  change (sentenceTokens ((s :: g1) ++ g2))
    with (estimateTokens s + sentenceTokens (g1 ++ g2)).
  change (sentenceTokens (s :: g1))
    with (estimateTokens s + sentenceTokens g1).
  rewrite IH. lia.
Qed.

Lemma packLoop_budget (size : Num.num) (sentences : list str) :
  forall chunks cur tok,
    tok = sentenceTokens cur ->
    ((2 <= List.length cur)%nat -> Num.Zgtb tok size = false) ->
    exists groups,
      packLoop size sentences chunks cur tok
      = chunks ++ map (join space) groups
      /\ concat groups = cur ++ sentences
      /\ Forall (fun g => g <> []
                          /\ ((2 <= List.length g)%nat ->
                              Num.Zgtb (sentenceTokens g) size = false))
                groups
      /\ greedy size groups
      /\ (cur <> [] ->
          exists more rest, groups = (cur ++ more) :: rest).
Proof.
  induction sentences as [|s rest IH]; intros chunks cur tok Htok Hfit.
  - destruct cur as [|c cur].
    + exists []. simpl. rewrite app_nil_r. repeat split; try constructor.
      congruence.
    + exists [c :: cur]. simpl. rewrite !app_nil_r.
      split; [reflexivity|]. split; [reflexivity|]. split.
      * constructor; [|constructor]. split; [congruence|].
        intros H. rewrite <- Htok. apply Hfit. exact H.
      * split; [split; constructor|]. intros _. exists [], [].
        now rewrite app_nil_r.
  - cbn [packLoop].
    destruct (Num.Zgtb (tok + estimateTokens s) size
              && (0 <? count cur)) eqn:E.
    + apply andb_true_iff in E as [E1 E2].
      assert (Hc : cur <> []) by (destruct cur; [discriminate | congruence]).
      destruct (IH (chunks ++ [join space cur]) [s] (estimateTokens s))
        as (groups & Heq & Hcat & Hall & Hgr & Hhd).
      { simpl. lia. }
      { simpl. lia. }
      destruct (Hhd ltac:(discriminate)) as (more & tl & Hg).
      exists (cur :: groups). rewrite Heq. simpl.
      rewrite <- app_assoc. simpl.
      split; [reflexivity|]. split; [now rewrite Hcat|]. split.
      * constructor; [|exact Hall]. split; [exact Hc|].
        intros H. rewrite <- Htok. apply Hfit. exact H.
      * split.
        -- split; [|exact Hgr]. rewrite Hg. simpl. rewrite <- Htok. exact E1.
        -- intros _. exists [], groups. now rewrite app_nil_r.
    + destruct (IH chunks (cur ++ [s]) (tok + estimateTokens s))
        as (groups & Heq & Hcat & Hall & Hgr & Hhd).
      { rewrite sentenceTokens_app, Htok. simpl. lia. }
      { intros Hlen. destruct cur as [|c cur]; [simpl in Hlen; lia|].
        apply andb_false_iff in E as [E|E]; [exact E|].
        unfold count in E. simpl in E. apply Z.ltb_ge in E. lia. }
      exists groups. rewrite Heq, Hcat, <- app_assoc.
      split; [reflexivity|]. split; [reflexivity|]. split; [exact Hall|].
      split; [exact Hgr|]. intros _.
      destruct (Hhd ltac:(destruct cur; discriminate)) as (more & tl & Hg).
      exists ([s] ++ more), tl. rewrite Hg, <- app_assoc. reflexivity.
Qed.

End PackerBudgetLemmas.

(** X11. The chunks of [createChunksFromSentences] keep to the target
    size wherever they can: a chunk of two or more sentences never
    exceeds it (only a sentence that is too long by itself does), and a
    chunk is closed only when the next sentence would not fit any more. *)
Theorem createChunksFromSentences_keeps_the_budget :
  forall (sentences : list Js.str) (maxTokensPerChunk : Q),
    let size :=
      BaseChunkingStrategy.forcedChunkSize sentences maxTokensPerChunk in
    exists groups : list (list Js.str),
      BaseChunkingStrategy.createChunksFromSentences sentences
        maxTokensPerChunk
      = map (Js.join Js.space) groups
      /\ concat groups = sentences
      /\ Forall (fun g =>
                   g <> []
                   /\ ((2 <= List.length g)%nat ->
                       Num.Zgtb (PackerBudget.sentenceTokens g) size = false
                       /\ forall q, size = Num.Fin q ->
                            (inject_Z (PackerBudget.sentenceTokens g) <= q)%Q))
                groups
      /\ PackerBudget.greedy size groups.
Proof.
  intros sentences m size.
  destruct (packLoop_budget size sentences [] [] 0 eq_refl
              ltac:(simpl; lia))
    as (groups & Heq & Hcat & Hall & Hgr & _).
  exists groups. split; [exact Heq|]. split; [exact Hcat|].
  split; [|exact Hgr].
  eapply Forall_impl; [|exact Hall]. cbv beta. intros g [Hne Hfit].
  split; [exact Hne|]. intros Hlen. specialize (Hfit Hlen).
  split; [exact Hfit|]. intros q Hq. rewrite Hq in Hfit.
  unfold Num.Zgtb, Num.ltb, Num.ofZ in Hfit.
  apply negb_false_iff in Hfit. apply Qle_bool_iff in Hfit. exact Hfit.
Qed.

(** X10. The packer counts the tokens of a chunk sentence by sentence,
    while [estimateTokens] of the chunk itself, which is also how the
    target size is derived from the joined sentences, counts the spaces
    that join them and rounds up once: the estimate of a chunk exceeds
    the count of the packer by at most a quarter token for each sentence
    and half a token more, and falls short of it by at most half a token
    for each sentence and a quarter token more.  So a chunk of two or
    more sentences that [createChunksFromSentences] returns can be
    estimated above the target size, by that much at most. *)
Theorem chunk_estimate_differs_from_packer_count :
  (forall group : list Js.str,
      let chunk := Js.join Js.space group in
      let counted := PackerBudget.sentenceTokens group in
      let k := BaseChunkingStrategy.count group in
      4 * BaseChunkingStrategy.estimateTokens chunk <= 4 * counted + k + 2
      /\ 4 * counted
         <= 4 * BaseChunkingStrategy.estimateTokens chunk + 2 * k + 1)
  /\ forall (sentences : list Js.str) (maxTokensPerChunk : Q),
       exists groups : list (list Js.str),
         BaseChunkingStrategy.createChunksFromSentences sentences
           maxTokensPerChunk
         = map (Js.join Js.space) groups
         /\ concat groups = sentences
         /\ Forall
              (fun group =>
                 (2 <= List.length group)%nat ->
                 forall size : Q,
                   BaseChunkingStrategy.forcedChunkSize sentences
                     maxTokensPerChunk = Num.Fin size ->
                   (inject_Z
                      (4 * BaseChunkingStrategy.estimateTokens
                             (Js.join Js.space group))
                    <= 4 * size
                       + inject_Z (BaseChunkingStrategy.count group + 2))%Q)
              groups.
Proof.
  assert (Hgroup : forall group : list Js.str,
             4 * BaseChunkingStrategy.estimateTokens (Js.join Js.space group)
             <= 4 * PackerBudget.sentenceTokens group
                + BaseChunkingStrategy.count group + 2
             /\ 4 * PackerBudget.sentenceTokens group
                <= 4 * BaseChunkingStrategy.estimateTokens
                         (Js.join Js.space group)
                   + 2 * BaseChunkingStrategy.count group + 1).
  { intros group. destruct group as [|s group]; [cbn; lia|].
    pose proof (sentenceTokens_join (s :: group) ltac:(discriminate)) as H.
    set (chunk := Js.join Js.space (s :: group)) in *.
    change (BaseChunkingStrategy.estimateTokens chunk)
      with ((Js.len chunk + 3) / 4).
    pose proof (Z.div_mod (Js.len chunk + 3) 4 ltac:(lia)) as Hd.
    pose proof (Z.mod_pos_bound (Js.len chunk + 3) 4 ltac:(lia)) as Hm.
    lia. }
  split; [intros group; apply Hgroup|].
  intros sentences maxTokensPerChunk.
  destruct (packLoop_budget
              (BaseChunkingStrategy.forcedChunkSize sentences
                 maxTokensPerChunk)
              sentences [] [] 0 eq_refl ltac:(simpl; lia))
    as (groups & Heq & Hcat & Hall & _).
  exists groups. split; [exact Heq|]. split; [exact Hcat|].
  eapply Forall_impl; [|exact Hall]. cbv beta.
  intros group [_ Hfit] Hlen size Hsize. specialize (Hfit Hlen).
  rewrite Hsize in Hfit.
  unfold Num.Zgtb, Num.ltb, Num.ofZ in Hfit.
  apply negb_false_iff in Hfit. apply Qle_bool_iff in Hfit.
  destruct (Hgroup group) as [H _].
  rewrite Zle_Qle in H.
  repeat (rewrite inject_Z_plus in H || rewrite inject_Z_mult in H).
  repeat (rewrite inject_Z_plus || rewrite inject_Z_mult).
  change (inject_Z 4) with 4%Q in *. change (inject_Z 2) with 2%Q in *.
  lra.
Qed.

Section ForcedSplit.
Import Js BaseChunkingStrategy.

Local Abbreviation visible := (fun c : char => negb (isWhitespace c)).

Lemma filter_dropWhile_neg {A} (p : A -> bool) (l : list A) :
  filter (fun x => negb (p x)) (dropWhile p l)
  = filter (fun x => negb (p x)) l.
Proof.
  induction l as [|x l IH]; [reflexivity|]. simpl.
  destruct (p x) eqn:E; simpl; [exact IH | now rewrite E].
Qed.

Lemma trim_keeps_visible (s : str) :
  filter visible (trim s) = filter visible s.
Proof.
  unfold trim, trimEnd, trimStart.
  rewrite filter_rev, (filter_dropWhile_neg isWhitespace), <- filter_rev,
    rev_involutive.
  apply (filter_dropWhile_neg isWhitespace).
Qed.

Lemma trim_length (s : str) : len (trim s) <= len s.
Proof.
  unfold len, trim, trimEnd, trimStart. rewrite length_rev.
  pose proof (dropWhile_length isWhitespace (rev (dropWhile isWhitespace s))).
  pose proof (dropWhile_length isWhitespace s).
  rewrite length_rev in *. lia.
Qed.

Lemma searchBack_before (test : Z -> bool) (lo startIdx : Z) (fuel : nat) :
  forall (i b : Z),
    searchBack test lo startIdx fuel i = Some b -> b <= i + 1.
Proof.
  induction fuel as [|fuel IH]; intros i b H; [discriminate|].
  cbn [searchBack] in H.
  destruct ((lo <=? i) && (startIdx <? i)); [|discriminate].
  destruct (test i).
  - injection H as <-. lia.
  - apply IH in H. lia.
Qed.

Lemma substring_skipn (text : str) (a b : Z) :
  0 <= a <= b ->
  substring text a b ++ skipn (Z.to_nat b) text = skipn (Z.to_nat a) text.
Proof.
  intros H. unfold substring.
  replace (Z.to_nat b) with (Z.to_nat (b - a) + Z.to_nat a)%nat by lia.
  rewrite <- skipn_skipn. apply firstn_skipn.
Qed.

Lemma substring_length (text : str) (a b : Z) :
  0 <= a <= b -> len (substring text a b) <= b - a.
Proof.
  intros H. unfold substring, len. rewrite length_firstn. lia.
Qed.

(** What one round of the loop does to the index. *)
Lemma forceSplit_step (text : str) (targetLength startIdx : Z) :
  1 <= targetLength -> 0 <= startIdx < len text ->
  let endIdx0 := Z.min (startIdx + targetLength) (len text) in
  let endIdx :=
    if endIdx0 <? len text then
      let searchRange := targetLength / 5 in
      let steps := Z.to_nat (searchRange + 1) in
      match searchBack (sentenceEndAt text) (endIdx0 - searchRange)
              startIdx steps endIdx0 with
      | Some breakPoint => breakPoint
      | None =>
          match searchBack (whitespaceAt text) (endIdx0 - searchRange)
                  startIdx steps endIdx0 with
          | Some breakPoint => breakPoint
          | None => endIdx0
          end
      end
    else endIdx0 in
  startIdx < endIdx <= len text /\ endIdx <= startIdx + targetLength + 1
  /\ (len text <= startIdx + targetLength -> endIdx = len text).
Proof.
  intros Ht Hs endIdx0 endIdx. subst endIdx.
  destruct (endIdx0 <? len text) eqn:E.
  - apply Z.ltb_lt in E. cbv zeta.
    destruct (searchBack (sentenceEndAt text) _ _ _ _) as [b|] eqn:S1.
    + pose proof (searchBack_after _ _ _ _ _ _ S1).
      pose proof (searchBack_before _ _ _ _ _ _ S1). subst endIdx0. lia.
    + destruct (searchBack (whitespaceAt text) _ _ _ _) as [b|] eqn:S2.
      * pose proof (searchBack_after _ _ _ _ _ _ S2).
        pose proof (searchBack_before _ _ _ _ _ _ S2). subst endIdx0. lia.
      * subst endIdx0. lia.
  - apply Z.ltb_ge in E. subst endIdx0. lia.
Qed.

Lemma forceSplitLoop_content (text : str) (targetLength : Z) :
  1 <= targetLength ->
  forall (fuel : nat) (startIdx : Z),
    0 <= startIdx ->
    (Z.to_nat (len text - startIdx) <= fuel)%nat ->
    let pieces := forceSplitLoop fuel text targetLength startIdx in
    filter visible (concat pieces)
    = filter visible (skipn (Z.to_nat startIdx) text)
    /\ Forall (fun piece => len piece <= targetLength + 1) pieces
    /\ (startIdx < len text -> len text <= startIdx + targetLength ->
        pieces = [trim (skipn (Z.to_nat startIdx) text)]).
Proof.
  intros Ht. induction fuel as [|fuel IH]; intros startIdx H0 Hfuel pieces.
  - subst pieces. cbn [forceSplitLoop concat].
    rewrite skipn_all2 by (unfold len in *; lia).
    split; [reflexivity|]. split; [constructor|]. intros. lia.
  - subst pieces. cbn [forceSplitLoop].
    destruct (startIdx <? len text) eqn:E.
    + apply Z.ltb_lt in E.
      pose proof (forceSplit_step text targetLength startIdx Ht
                    (conj H0 E)) as Hstep.
      cbv zeta in Hstep.
      set (endIdx :=
             if Z.min (startIdx + targetLength) (len text) <? len text
             then _ else _) in *.
      destruct Hstep as (H1 & H2 & H3).
      destruct (IH endIdx ltac:(lia) ltac:(lia)) as (IH1 & IH2 & _).
      split; [|split].
      * cbn [concat]. rewrite filter_app, trim_keeps_visible, IH1,
          <- filter_app.
        rewrite substring_skipn by lia. reflexivity.
      * constructor; [|exact IH2].
        pose proof (trim_length (substring text startIdx endIdx)).
        pose proof (substring_length text startIdx endIdx ltac:(lia)). lia.
      * intros _ Hshort. rewrite (H3 Hshort).
        replace (forceSplitLoop fuel text targetLength (len text))
          with (@nil str).
        -- f_equal. f_equal. unfold substring.
           apply firstn_all2. rewrite length_skipn. unfold len. lia.
        -- destruct fuel; [reflexivity|]. cbn [forceSplitLoop].
           now rewrite Z.ltb_irrefl.
    + apply Z.ltb_ge in E. cbn [concat].
      rewrite skipn_all2 by (unfold len in *; lia).
      split; [reflexivity|]. split; [constructor|]. intros. lia.
Qed.

End ForcedSplit.

(** X12. The forced split by character count loses no visible
    character: for a target length of at least 1, the pieces of
    [forceSplitByCharCount], one after the other, hold the characters of
    the text that are no white space, in their order; no piece is longer
    than the target length plus one; and a text that is not longer than
    the target stays in one piece. *)
Theorem forceSplitByCharCount_keeps_the_text :
  forall (text : Js.str) (targetLength : Z),
    1 <= targetLength ->
    let visible := fun c => negb (Js.isWhitespace c) in
    let pieces :=
      BaseChunkingStrategy.forceSplitByCharCount text targetLength in
    filter visible (concat pieces) = filter visible text
    /\ Forall (fun piece => Js.len piece <= targetLength + 1) pieces
    /\ (text <> [] -> Js.len text <= targetLength ->
        pieces = [Js.trim text])
    /\ (text = [] -> pieces = []).
Proof.
  intros text targetLength Ht visible pieces.
  destruct (forceSplitLoop_content text targetLength Ht (List.length text) 0
              ltac:(lia) ltac:(unfold Js.len; lia)) as (H1 & H2 & H3).
  split; [exact H1|]. split; [exact H2|]. split.
  - intros Hne Hshort. apply H3; [|lia].
    destruct text; [congruence|]. unfold Js.len. simpl. lia.
  - intros ->. reflexivity.
Qed.

Lemma forceSplitByCharCount_keeps_the_text_witness :
  let visible := fun c => negb (Js.isWhitespace c) in
  let pieces :=
    BaseChunkingStrategy.forceSplitByCharCount ChunkingExamples.unpunctuated
      800 in
  filter visible (concat pieces)
  = filter visible ChunkingExamples.unpunctuated
  /\ Forall (fun piece => Js.len piece <= 800 + 1) pieces
  /\ (ChunkingExamples.unpunctuated <> [] ->
      Js.len ChunkingExamples.unpunctuated <= 800 ->
      pieces = [Js.trim ChunkingExamples.unpunctuated])
  /\ (ChunkingExamples.unpunctuated = [] -> pieces = []).
Proof.
  apply (forceSplitByCharCount_keeps_the_text ChunkingExamples.unpunctuated
           800).
  lia.
Defined.

Section BlankText.
Import Js BaseChunkingStrategy.

Lemma whitespace_is_no_terminator (c : char) :
  isWhitespace c = true -> notTerminator c = true.
Proof.
  unfold notTerminator, isTerminator. intros H.
  destruct (N.eqb_spec c 46) as [->|_]; [discriminate H|].
  destruct (N.eqb_spec c 33) as [->|_]; [discriminate H|].
  destruct (N.eqb_spec c 63) as [->|_]; [discriminate H|].
  destruct (N.eqb_spec c 8230) as [->|_]; [discriminate H|].
  reflexivity.
Qed.

Lemma matchSentenceAt_blank (s : str) :
  forallb isWhitespace s = true -> matchSentenceAt s = None.
Proof.
  intros H. unfold matchSentenceAt.
  assert (Hd : dropWhile notTerminator s = []).
  { induction s as [|c s IH]; [reflexivity|]. simpl in H |- *.
    apply andb_true_iff in H as [Hc Hs].
    rewrite (whitespace_is_no_terminator c Hc). apply IH. exact Hs. }
  rewrite Hd. cbn [takeWhile dropWhile].
  destruct (takeWhile notTerminator s); reflexivity.
Qed.

Lemma matchAllSentences_blank (fuel : nat) :
  forall s, forallb isWhitespace s = true -> matchAllSentences fuel s = [].
Proof.
  induction fuel as [|fuel IH]; intros s H; [reflexivity|].
  cbn [matchAllSentences]. destruct s as [|c s]; [reflexivity|].
  rewrite (matchSentenceAt_blank _ H). apply IH.
  simpl in H. apply andb_true_iff in H. tauto.
Qed.

Lemma trim_blank (s : str) : forallb isWhitespace s = true -> trim s = [].
Proof.
  intros H. unfold trim, trimStart, trimEnd.
  assert (Hd : dropWhile isWhitespace s = []).
  { induction s as [|c s IH]; [reflexivity|]. simpl in H |- *.
    apply andb_true_iff in H as [Hc Hs]. rewrite Hc. apply IH. exact Hs. }
  rewrite Hd. reflexivity.
Qed.

Lemma splitIntoSentences_blank (text : str) :
  forallb isWhitespace text = true -> splitIntoSentences text = [].
Proof.
  intros H. unfold splitIntoSentences.
  rewrite (matchAllSentences_blank _ _ H), (trim_blank _ H). reflexivity.
Qed.

End BlankText.

(** X13. A transcript of white space only has no sentence, and each of
    the three strategies hands it on unchanged as its single chunk. *)
Theorem blank_transcript_is_one_chunk :
  forall (transcript : Js.str) (maxLength : Q)
         (toLowerCase : Js.str -> Js.str),
    forallb Js.isWhitespace transcript = true ->
    BaseChunkingStrategy.splitIntoSentences transcript = []
    /\ UniformSamplingStrategy.chunkTranscript transcript maxLength
       = [transcript]
    /\ BookendSamplingStrategy.chunkTranscript transcript maxLength
       = [transcript]
    /\ IntelligentSamplingStrategy.chunkTranscript toLowerCase transcript
         maxLength
       = Some [transcript].
Proof.
  intros transcript maxLength toLowerCase H.
  pose proof (splitIntoSentences_blank transcript H) as Hs.
  unfold UniformSamplingStrategy.chunkTranscript,
    BookendSamplingStrategy.chunkTranscript,
    IntelligentSamplingStrategy.chunkTranscript.
  rewrite Hs. repeat split.
Qed.

Lemma blank_transcript_is_one_chunk_witness :
  BaseChunkingStrategy.splitIntoSentences (Js.of_string "   ") = []
  /\ UniformSamplingStrategy.chunkTranscript (Js.of_string "   ") 1000
     = [Js.of_string "   "]
  /\ BookendSamplingStrategy.chunkTranscript (Js.of_string "   ") 1000
     = [Js.of_string "   "]
  /\ IntelligentSamplingStrategy.chunkTranscript
       IntelligentSamplingStrategy.asciiLower (Js.of_string "   ") 1000
     = Some [Js.of_string "   "].
Proof.
  apply (blank_transcript_is_one_chunk (Js.of_string "   ") 1000
           IntelligentSamplingStrategy.asciiLower).
  reflexivity.
Defined.

Section UniformSampling.
Import Js BaseChunkingStrategy UniformSamplingStrategy.

Lemma Qfloor_ge (q : Q) (z : Z) : (inject_Z z <= q)%Q -> z <= Qfloor q.
Proof.
  intros H. apply Qfloor_resp_le in H. now rewrite Qfloor_Z in H.
Qed.

(** The step of the sampling loop is at least one sentence, and at
    least two when the loop also takes the sentence that follows. *)
Lemma samplingInterval_step (x : Num.num) (q : Q) :
  Num.max 1 x = Num.Fin q ->
  1 <= Qfloor q
  /\ (Num.ltb (Num.ofZ 2) (Num.Fin q) = true -> 2 <= Qfloor q).
Proof.
  intros H. assert (H1 : (1 <= q)%Q).
  { destruct x as [b| |]; try discriminate. cbn in H. injection H as <-.
    unfold Num.Qmaxb. destruct (Qle_bool 1 b) eqn:E.
    - now apply Qle_bool_iff.
    - apply Qle_refl. }
  split.
  - apply (Qfloor_ge q 1). exact H1.
  - intros H2. cbn in H2. apply negb_true_iff in H2.
    apply (Qfloor_ge q 2). apply Qnot_lt_le. intros Hlt.
    assert (Hle : (q <= inject_Z 2)%Q) by (apply Qlt_le_weak; exact Hlt).
    apply Qle_bool_iff in Hle. congruence.
Qed.

Lemma sampleLoop_indices (sentences : list str) (windowSize : Z)
      (samplingInterval : Num.num) :
  (forall q, samplingInterval = Num.Fin q ->
     1 <= Qfloor q
     /\ (Num.ltb (Num.ofZ 2) samplingInterval = true -> 2 <= Qfloor q)) ->
  forall (fuel : nat) (i : Z),
    0 <= i ->
    exists indices,
      sampleLoop fuel sentences windowSize samplingInterval i
      = map (item sentences) indices
      /\ StronglySorted Z.lt indices
      /\ Forall (fun k => i <= k < count sentences) indices
      /\ (fuel <> O -> i < count sentences -> hd_error indices = Some i).
Proof.
  intros Hstep. induction fuel as [|fuel IH]; intros i Hi.
  - exists []. cbn [sampleLoop map]. repeat split; try constructor.
    congruence.
  - cbn [sampleLoop]. destruct (i <? count sentences) eqn:E.
    + apply Z.ltb_lt in E.
      set (next := (0 <? windowSize) && (i + 1 <? count sentences)
                   && Num.ltb (Num.ofZ 2) samplingInterval).
      assert (Hrest : exists rest,
                 match samplingInterval with
                 | Num.Fin q =>
                     sampleLoop fuel sentences windowSize samplingInterval
                                (i + Qfloor q)
                 | _ => []
                 end = map (item sentences) rest
                 /\ StronglySorted Z.lt rest
                 /\ Forall (fun k => i + 1 <= k < count sentences) rest
                 /\ (next = true ->
                     Forall (fun k => i + 2 <= k < count sentences) rest)).
      { destruct samplingInterval as [q| |] eqn:Eq.
        - destruct (Hstep q eq_refl) as [H1 H2].
          destruct (IH (i + Qfloor q) ltac:(lia)) as (rest & R1 & R2 & R3 & _).
          exists rest. split; [exact R1|]. split; [exact R2|]. split.
          + eapply Forall_impl; [|exact R3]. cbv beta. intros k Hk. lia.
          + intros Hn. unfold next in Hn.
            apply andb_true_iff in Hn as [_ Hn]. specialize (H2 Hn).
            eapply Forall_impl; [|exact R3]. cbv beta. intros k Hk. lia.
        - exists []. repeat split; constructor.
        - exists []. repeat split; constructor. }
      destruct Hrest as (rest & R1 & R2 & R3 & R4). rewrite R1.
      destruct next eqn:En.
      * exists (i :: (i + 1) :: rest). split; [reflexivity|].
        unfold next in En. apply andb_true_iff in En as [En _].
        apply andb_true_iff in En as [_ En]. apply Z.ltb_lt in En.
        specialize (R4 eq_refl). split.
        -- constructor; [constructor; [exact R2|]|].
           ++ eapply Forall_impl; [|exact R4]. cbv beta. intros k Hk. lia.
           ++ constructor; [lia|].
              eapply Forall_impl; [|exact R4]. cbv beta. intros k Hk. lia.
        -- split; [|reflexivity].
           constructor; [lia|]. constructor; [lia|].
           eapply Forall_impl; [|exact R4]. cbv beta. intros k Hk. lia.
      * exists (i :: rest). split; [reflexivity|]. split.
        -- constructor; [exact R2|].
           eapply Forall_impl; [|exact R3]. cbv beta. intros k Hk. lia.
        -- split; [|reflexivity]. constructor; [lia|].
           eapply Forall_impl; [|exact R3]. cbv beta. intros k Hk. lia.
    + exists []. cbn [map]. repeat split; try constructor.
      apply Z.ltb_ge in E. intros. lia.
Qed.

End UniformSampling.

(** X14. Uniform sampling keeps sentences of the input in their order
    and takes none of them twice: the sample is read off the sentence
    array at strictly increasing indices, and it starts with the first
    sentence whenever there is one, whatever the reduction factor. *)
Theorem uniform_sample_is_an_ordered_selection :
  forall (sentences : list Js.str) (reductionFactor : Num.num),
    exists indices : list Z,
      UniformSamplingStrategy.sampleSentences sentences reductionFactor
      = map (Js.item sentences) indices
      /\ StronglySorted Z.lt indices
      /\ Forall (fun k => 0 <= k < BaseChunkingStrategy.count sentences)
                indices
      /\ (sentences <> [] -> hd_error indices = Some 0).
Proof.
  intros sentences rf. unfold UniformSamplingStrategy.sampleSentences.
  destruct (sampleLoop_indices sentences
              (Z.min 3 (BaseChunkingStrategy.count sentences / 10))
              (Num.max 1
                 (Num.floor
                    (Num.divZ (BaseChunkingStrategy.count sentences)
                       (Num.divZ (BaseChunkingStrategy.count sentences) rf))))
              ltac:(intros q Hq; rewrite Hq;
                    exact (samplingInterval_step _ q Hq))
              (List.length sentences) 0 ltac:(lia))
    as (indices & H1 & H2 & H3 & H4).
  exists indices. split; [exact H1|]. split; [exact H2|]. split; [exact H3|].
  intros Hne. apply H4.
  - destruct sentences; [congruence | discriminate].
  - destruct sentences; [congruence|].
    unfold BaseChunkingStrategy.count. simpl List.length. lia.
Qed.

Section BookendNothing.
Import Js BaseChunkingStrategy BookendSamplingStrategy.

Lemma collect_nothing (sentences : list str) : collect sentences 0 = [].
Proof.
  unfold collect. change (bookendSizeOf 0) with 0.
  cbn [Z.mul Z.sub Z.max Z.ltb Z.compare andb Z.to_nat firstn app].
  replace (Z.to_nat (Z.max 0 (count sentences - 0)))
    with (List.length sentences) by (unfold count; lia).
  apply skipn_all.
Qed.

Lemma keep_nothing_means_sampling (x : Num.num) (n : Z) (keep : Q) :
  1 < n ->
  Num.floor (Num.divZ n (Num.max 1 x)) = Num.Fin keep ->
  Qfloor keep = 0 ->
  Num.ltb (Num.max 1 x) (Num.Fin (3 # 2)) = false.
Proof.
  intros Hn Hk H0. destruct x as [b| |]; try reflexivity.
  unfold Num.max, Num.max2, Num.ltb in Hk |- *.
  set (r := Num.Qmaxb 1 b) in *.
  apply negb_false_iff. apply Qle_bool_iff.
  unfold Num.divZ in Hk.
  destruct (Qeq_bool r 0) eqn:Ez.
  - destruct (n =? 0); discriminate.
  - unfold Num.floor in Hk.
    assert (Hk' : inject_Z (Qfloor (Num.round (inject_Z n / r))) = keep)
      by (injection Hk as Hk; exact Hk).
    rewrite <- Hk', Qfloor_Z in H0.
    assert (Hr : (1 <= r)%Q).
    { unfold r, Num.Qmaxb. destruct (Qle_bool 1 b) eqn:E.
      - now apply Qle_bool_iff.
      - apply Qle_refl. }
    apply Qnot_lt_le. intros Hlt.
    assert (Hpos : (0 < r)%Q) by (eapply Qlt_le_trans; [|exact Hr]; reflexivity).
    assert (H2 : (inject_Z 2 <= inject_Z n)%Q) by (rewrite <- Zle_Qle; lia).
    change (inject_Z 2) with 2%Q in H2.
    assert (H1 : ((4 # 3) <= inject_Z n / r)%Q)
      by (apply Qle_shift_div_l; [exact Hpos | lra]).
    assert (Hq : (0 < inject_Z n / r)%Q) by lra.
    destruct (round_within _ Hq) as [H3 _].
    assert (H4 : (1 <= Num.round (inject_Z n / r))%Q) by lra.
    apply Qfloor_resp_le in H4. change (Qfloor 1) with 1 in H4. lia.
Qed.

End BookendNothing.

(** X15. Bookend sampling can leave nothing: when the reduction factor
    exceeds the number of sentences, so that the number of sentences to
    keep rounds down to zero, the sample is empty and [chunkTranscript]
    returns no chunk at all. *)
Theorem bookend_can_keep_nothing :
  forall (transcript : Js.str) (maxLength : Q) (keep : Q),
    let sentences := BaseChunkingStrategy.splitIntoSentences transcript in
    let reductionFactor :=
      BookendSamplingStrategy.reductionFactor transcript maxLength in
    1 < BaseChunkingStrategy.count sentences ->
    BookendSamplingStrategy.totalSentencesToKeep sentences reductionFactor
    = Num.Fin keep ->
    Qfloor keep = 0 ->
    BookendSamplingStrategy.sampleSentences sentences reductionFactor = []
    /\ BookendSamplingStrategy.chunkTranscript transcript maxLength = [].
Proof.
  intros transcript maxLength keep sentences rf Hn Hk H0.
  assert (Hs : BookendSamplingStrategy.sampleSentences sentences rf = []).
  { unfold BookendSamplingStrategy.sampleSentences. rewrite Hk, H0.
    rewrite collect_nothing. reflexivity. }
  split; [exact Hs|].
  unfold BookendSamplingStrategy.chunkTranscript. fold sentences.
  replace (BaseChunkingStrategy.count sentences <=? 1) with false
    by (symmetry; apply Z.leb_gt; exact Hn).
  fold rf.
  assert (Hlt : Num.ltb rf (Num.Fin (3 # 2)) = false).
  { unfold rf, BookendSamplingStrategy.reductionFactor.
    apply (keep_nothing_means_sampling _
             (BaseChunkingStrategy.count sentences) keep Hn);
      [exact Hk | exact H0]. }
  rewrite Hlt, Hs. reflexivity.
Qed.

Lemma bookend_can_keep_nothing_witness :
  BookendSamplingStrategy.sampleSentences
    (BaseChunkingStrategy.splitIntoSentences ChunkingExamples.talk)
    (BookendSamplingStrategy.reductionFactor ChunkingExamples.talk 1) = []
  /\ BookendSamplingStrategy.chunkTranscript ChunkingExamples.talk 1 = [].
Proof.
  apply (bookend_can_keep_nothing ChunkingExamples.talk 1 0);
    vm_compute; reflexivity.
Defined.

Section Windows.
Import Js BaseChunkingStrategy IntelligentSamplingStrategy ContextWindows.

Lemma atLeast_max2_l (c : Q) (x y : Num.num) :
  atLeast c x -> y <> Num.NaN -> atLeast c (Num.max2 x y).
Proof.
  destruct x as [a| |], y as [b| |]; cbn; try tauto; try congruence.
  intros H _. unfold Num.Qmaxb. destruct (Qle_bool a b) eqn:E; [|exact H].
  apply Qle_bool_iff in E. eapply Qle_trans; eassumption.
Qed.

Lemma atLeast_max2_r (c : Q) (x y : Num.num) :
  atLeast c y -> x <> Num.NaN -> atLeast c (Num.max2 x y).
Proof.
  destruct x as [a| |], y as [b| |]; cbn; try tauto; try congruence.
  intros H _. unfold Num.Qmaxb. destruct (Qle_bool a b) eqn:E; [exact H|].
  destruct (Qlt_le_dec b a) as [Hlt|Hle].
  - apply Qlt_le_weak in Hlt. eapply Qle_trans; eassumption.
  - apply Qle_bool_iff in Hle. congruence.
Qed.

Lemma atLeast_weaken (c d : Q) (x : Num.num) :
  (c <= d)%Q -> atLeast d x -> atLeast c x.
Proof.
  destruct x; cbn; try tauto. intros H1 H2. eapply Qle_trans; eassumption.
Qed.

Lemma atLeast_not_NaN (c : Q) (x : Num.num) : atLeast c x -> x <> Num.NaN.
Proof. destruct x; cbn; congruence || tauto. Qed.

(** [max(c, ceil(t / d))] for a positive count [t]. *)
Lemma atLeast_max_ceil (c : Q) (t : Z) (d : Num.num) :
  0 < t -> d <> Num.NaN ->
  atLeast c (Num.max c (Num.ceil (Num.divZ t d))).
Proof.
  intros Ht Hd. unfold Num.max. apply atLeast_max2_l; [apply Qle_refl|].
  destruct d as [q| |]; cbn; try congruence.
  destruct (Qeq_bool q 0); [|discriminate].
  replace (t =? 0) with false by (symmetry; apply Z.eqb_neq; lia).
  discriminate.
Qed.

Lemma join_length (l : list str) :
  Z.of_nat (List.length l) - 1 <= len (join space l).
Proof.
  unfold len. induction l as [|x l IH]; [simpl; lia|].
  destruct l as [|y l]; [simpl; lia|].
  change (join space (x :: y :: l)) with (x ++ space ++ join space (y :: l)).
  rewrite !length_app. cbn [List.length space] in *. lia.
Qed.

(** The width of the windows: at least five sentences, and fewer than
    all of them when two chunks or more are asked for. *)
Lemma window_width (n : Z) (numChunks : Num.num) :
  10 < n -> atLeast 1 numChunks ->
  exists p,
    Num.max 5 (Num.ceil (Num.divZ n numChunks)) = Num.Fin p
    /\ 5 <= Qfloor p
    /\ (atLeast 2 numChunks -> Qfloor p < n).
Proof.
  intros Hn H1. destruct numChunks as [k| |]; cbn in H1; [| |tauto].
  - assert (Hk : Qeq_bool k 0 = false).
    { destruct (Qeq_bool k 0) eqn:E; [|reflexivity].
      apply Qeq_bool_eq in E. rewrite E in H1.
      unfold Qle in H1. simpl in H1. lia. }
    unfold Num.divZ. rewrite Hk. unfold Num.ceil, Num.max, Num.max2.
    eexists. split; [reflexivity|].
    set (z := Qceiling (Num.round (inject_Z n / k))).
    assert (Hp : Qfloor (Num.Qmaxb 5 (inject_Z z)) = Z.max 5 z).
    { unfold Num.Qmaxb. destruct (Qle_bool 5 (inject_Z z)) eqn:E.
      - rewrite Qfloor_Z. apply Qle_bool_iff in E.
        change 5%Q with (inject_Z 5) in E. rewrite <- Zle_Qle in E. lia.
      - change (Qfloor 5) with 5.
        destruct (Z_le_gt_dec 5 z) as [Hle|Hgt]; [|lia].
        exfalso. rewrite Zle_Qle in Hle. apply Qle_bool_iff in Hle.
        change (inject_Z 5) with 5%Q in Hle. congruence. }
    rewrite Hp. split; [lia|]. intros H2. cbn in H2.
    assert (Hz : z <= n - 1).
    { unfold z. rewrite <- (Qceiling_Z (n - 1)). apply Qceiling_resp_le.
      assert (Hkpos : (0 < k)%Q) by lra.
      assert (HnQ : (inject_Z 11 <= inject_Z n)%Q)
        by (rewrite <- Zle_Qle; lia).
      change (inject_Z 11) with 11%Q in HnQ.
      assert (Hq : (0 < inject_Z n / k)%Q)
        by (apply Qlt_shift_div_l; [exact Hkpos | lra]).
      assert (Hhalf : (inject_Z n / k <= inject_Z n * (1 # 2))%Q)
        by (apply Qle_shift_div_r; [exact Hkpos | nra]).
      destruct (round_within _ Hq) as [_ H3].
      unfold Z.sub. rewrite inject_Z_plus.
      change (inject_Z (- (1))) with (- (1))%Q. lra. }
    lia.
  - cbn. eexists. split; [reflexivity|]. cbn. lia.
Qed.

End Windows.

Section WindowLoop.
Import Js BaseChunkingStrategy IntelligentSamplingStrategy ContextWindows.

Lemma slice_inside {A} (l : list A) (a e : Z) :
  0 <= a <= e -> e <= Z.of_nat (List.length l) ->
  slice l a e = firstn (Z.to_nat (e - a)) (skipn (Z.to_nat a) l).
Proof.
  intros H1 H2. unfold slice, sliceIndex.
  replace (a <? 0) with false by (symmetry; apply Z.ltb_ge; lia).
  replace (e <? 0) with false by (symmetry; apply Z.ltb_ge; lia).
  rewrite !Z.min_l by lia. reflexivity.
Qed.

Lemma slice_nth {A} (l : list A) (a e : Z) (k : nat) (x : A) :
  0 <= a <= Z.of_nat k -> Z.of_nat k < e -> e <= Z.of_nat (List.length l) ->
  nth_error l k = Some x -> In x (slice l a e).
Proof.
  intros H1 H2 H3 Hx. rewrite slice_inside by lia.
  apply (nth_error_In _ (k - Z.to_nat a)).
  rewrite nth_error_firstn.
  replace (k - Z.to_nat a <? Z.to_nat (e - a))%nat with true
    by (symmetry; apply Nat.ltb_lt; lia).
  rewrite nth_error_skipn. rewrite <- Hx. f_equal. lia.
Qed.

(** White space between the sentences adds nothing visible. *)
Lemma join_visible (l : list str) :
  filter (fun c => negb (isWhitespace c)) (join space l)
  = concat (map (filter (fun c => negb (isWhitespace c))) l).
Proof.
  induction l as [|x l IH]; [reflexivity|].
  destruct l as [|y l]; [simpl; now rewrite app_nil_r|].
  change (join space (x :: y :: l)) with (x ++ space ++ join space (y :: l)).
  rewrite !filter_app, IH. reflexivity.
Qed.

Lemma visible_chunk (group : list str) (s : str) :
  In s group -> hasVisible s = true ->
  (0 <? len (trim (join space group))) = true.
Proof.
  intros Hin Hs. apply Z.ltb_lt.
  destruct (trim (join space group)) as [|c r] eqn:E;
    [|unfold len; simpl; lia].
  exfalso.
  pose proof (trim_keeps_visible (join space group)) as Hv.
  rewrite E, join_visible in Hv. cbn [filter] in Hv. symmetry in Hv.
  assert (Hall : forall g, In s g ->
             concat (map (filter (fun c => negb (isWhitespace c))) g) = [] ->
             filter (fun c => negb (isWhitespace c)) s = []).
  { clear. induction g as [|x g IH]; intros Hin H; [destruct Hin|].
    cbn [map concat] in H. apply app_eq_nil in H as [Hx Hg].
    destruct Hin as [->|Hin]; [exact Hx | now apply IH]. }
  specialize (Hall group Hin Hv).
  unfold hasVisible in Hs. apply existsb_exists in Hs as (c & Hc & Hvis).
  assert (Hc' : In c (filter (fun c => negb (isWhitespace c)) s))
    by (apply filter_In; split; assumption).
  rewrite Hall in Hc'. destruct Hc'.
Qed.

Variable sentences : list str.
Variable sentencesPerChunk : Z.
Hypothesis wide : 5 <= sentencesPerChunk.

Local Abbreviation overlap := (overlapOf sentencesPerChunk).

(** The windows overlap by at least one sentence and advance by at
    least one. *)
Lemma overlap_bounds : 1 <= overlap < sentencesPerChunk.
Proof.
  unfold overlapOf.
  assert (Hc : (14 # 100 <= Num.lit (15 # 100) <= 15 # 100)%Q)
    by (split; apply Qle_bool_iff; vm_compute; reflexivity).
  set (c := Num.lit (15 # 100)) in *.
  assert (Hw : (inject_Z 5 <= inject_Z sentencesPerChunk)%Q)
    by (rewrite <- Zle_Qle; exact wide).
  change (inject_Z 5) with 5%Q in Hw.
  assert (Hx : (0 < inject_Z sentencesPerChunk * c)%Q) by nra.
  destruct (round_within _ Hx) as [R1 R2].
  set (x := Num.round (inject_Z sentencesPerChunk * c)) in *.
  split.
  - pose proof (Qle_ceiling x) as C.
    assert (H0 : (inject_Z 0 < inject_Z (Qceiling x))%Q)
      by (change (inject_Z 0) with 0%Q; nra).
    rewrite <- Zlt_Qlt in H0. lia.
  - assert (H : Qceiling x <= sentencesPerChunk - 1); [|lia].
    rewrite <- (Qceiling_Z (sentencesPerChunk - 1)).
    apply Qceiling_resp_le. unfold Z.sub. rewrite inject_Z_plus.
    change (inject_Z (- (1))) with (- (1))%Q. nra.
Qed.

Lemma windowLoop_covers (fuel : nat) :
  forall (i : Z) (k : nat) (s : str),
    0 <= i <= Z.of_nat k ->
    (Z.to_nat (count sentences - i) <= fuel)%nat ->
    nth_error sentences k = Some s ->
    hasVisible s = true ->
    exists a e,
      0 <= a <= Z.of_nat k /\ Z.of_nat k < e <= count sentences
      /\ In (join space (slice sentences a e))
            (windowLoop fuel sentences sentencesPerChunk overlap i).
Proof.
  pose proof overlap_bounds as Ho.
  induction fuel as [|fuel IH]; intros i k s Hi Hfuel Hk Hs;
    assert (Hkn : Z.of_nat k < count sentences)
      by (unfold count; apply Nat2Z.inj_lt; apply nth_error_Some; congruence).
  - lia.
  - cbn [windowLoop].
    replace (i <? count sentences) with true
      by (symmetry; apply Z.ltb_lt; lia).
    set (end_ := Z.min (i + sentencesPerChunk) (count sentences)).
    destruct (Z_lt_ge_dec (Z.of_nat k) end_) as [Hin|Hout].
    + exists i, end_. split; [lia|]. split; [lia|].
      apply in_or_app. left.
      rewrite (visible_chunk (slice sentences i end_) s); [now left| |exact Hs].
      apply (slice_nth sentences i end_ k s); try lia; [|exact Hk].
      unfold count in *. lia.
    + replace (count sentences <=? end_) with false
        by (symmetry; apply Z.leb_gt; lia).
      destruct (IH (i + (sentencesPerChunk - overlap)) k s)
        as (a & e & Ha & He & Hchunk); try assumption; try lia.
      exists a, e. split; [exact Ha|]. split; [exact He|].
      apply in_or_app. right. exact Hchunk.
Qed.

(** Windows narrower than the list give two chunks or more. *)
Lemma windowLoop_two (fuel : nat) :
  (2 <= fuel)%nat ->
  sentencesPerChunk < count sentences ->
  Forall (fun s => hasVisible s = true) sentences ->
  (2 <= List.length
          (windowLoop fuel sentences sentencesPerChunk overlap 0))%nat.
Proof.
  pose proof overlap_bounds as Ho.
  intros Hfuel Hp Hvis. destruct fuel as [|[|fuel]]; try lia.
  assert (Hchunk : forall a e,
             0 <= a < e -> e <= count sentences ->
             (0 <? len (trim (join space (slice sentences a e)))) = true).
  { intros a e Ha He.
    destruct (nth_error sentences (Z.to_nat a)) as [s|] eqn:Es.
    - apply (visible_chunk _ s).
      + apply (slice_nth sentences a e (Z.to_nat a) s); try lia;
          [unfold count in He; lia | exact Es].
      + rewrite Forall_forall in Hvis. apply Hvis.
        eapply nth_error_In. exact Es.
    - apply nth_error_None in Es. unfold count in *. lia. }
  cbn [windowLoop].
  replace (0 <? count sentences) with true
    by (symmetry; apply Z.ltb_lt; lia).
  rewrite Z.min_l by lia. rewrite Hchunk by lia.
  replace (count sentences <=? 0 + sentencesPerChunk) with false
    by (symmetry; apply Z.leb_gt; lia).
  replace (0 + (sentencesPerChunk - overlap) <? count sentences) with true
    by (symmetry; apply Z.ltb_lt; lia).
  rewrite Hchunk by lia. cbn [app List.length]. lia.
Qed.

End WindowLoop.

Section ForcedChunks.
Import Js BaseChunkingStrategy IntelligentSamplingStrategy ContextWindows.

Lemma many_sentences_have_tokens (sentences : list str) :
  10 < count sentences -> 0 < estimateTokens (join space sentences).
Proof.
  intros Hn. unfold estimateTokens.
  pose proof (join_length sentences) as Hl. unfold count in Hn.
  apply Z.div_str_pos. lia.
Qed.

Lemma createLargerContextChunks_windows (sentences : list str)
      (targetSize : Z) (minChunks : option Num.num) :
  10 < count sentences ->
  exists p,
    5 <= p
    /\ createLargerContextChunks sentences targetSize minChunks
       = windowLoop (List.length sentences) sentences p (overlapOf p) 0
    /\ (match minChunks with
        | Some m => atLeast 2 m
        | None => False
        end -> p < count sentences).
Proof.
  intros Hn. unfold createLargerContextChunks.
  replace (count sentences <=? 10) with false
    by (symmetry; apply Z.leb_gt; exact Hn).
  cbv zeta.
  set (calc := Num.max 1
                 (Num.ceil
                    (Num.divZ (estimateTokens (join space sentences))
                       (Num.ofZ targetSize)))).
  assert (Hcalc : atLeast 1 calc).
  { apply atLeast_max_ceil; [now apply many_sentences_have_tokens|].
    discriminate. }
  set (numChunks :=
         match minChunks with
         | Some (Num.Fin q) =>
             if Qeq_bool q 0 then calc else Num.max2 calc (Num.Fin q)
         | Some Num.PInf => Num.max2 calc Num.PInf
         | _ => calc
         end).
  assert (Hnum : atLeast 1 numChunks
                 /\ (match minChunks with
                     | Some m => atLeast 2 m
                     | None => False
                     end -> atLeast 2 numChunks)).
  { unfold numChunks. destruct minChunks as [[q| |]|].
    - destruct (Qeq_bool q 0) eqn:E.
      + split; [exact Hcalc|]. cbn. intros H. apply Qeq_bool_eq in E.
        rewrite E in H. unfold Qle in H. simpl in H. lia.
      + split; [apply atLeast_max2_l; [exact Hcalc | discriminate]|].
        intros H. apply atLeast_max2_r; [exact H|].
        eapply atLeast_not_NaN; exact Hcalc.
    - split; intros; (apply atLeast_max2_r;
                      [exact I | eapply atLeast_not_NaN; exact Hcalc]).
    - split; [exact Hcalc|]. cbn. tauto.
    - split; [exact Hcalc | tauto]. }
  destruct Hnum as [H1 H2].
  destruct (window_width (count sentences) numChunks Hn H1)
    as (p & Hp & Hp5 & Hpn).
  fold numChunks. rewrite Hp.
  exists (Qfloor p). split; [exact Hp5|]. split; [reflexivity|].
  intros H. apply Hpn. apply H2. exact H.
Qed.

Lemma createForcedChunks_windows (sentences : list str) (targetSize : Z) :
  10 < count sentences ->
  exists p,
    5 <= p < count sentences
    /\ createForcedChunks sentences targetSize
       = windowLoop (List.length sentences) sentences p (overlapOf p) 0.
Proof.
  intros Hn. unfold createForcedChunks.
  replace (10 <? count sentences) with true
    by (symmetry; apply Z.ltb_lt; exact Hn).
  cbv zeta.
  set (minChunks := Num.max 3
                      (Num.ceil
                         (Num.divZ (estimateTokens (join space sentences))
                            (Num.ofZ targetSize)))).
  assert (Hmin : atLeast 2 minChunks).
  { apply (atLeast_weaken 2 3); [discriminate|].
    apply atLeast_max_ceil; [now apply many_sentences_have_tokens|].
    discriminate. }
  destruct (negb (Num.ltb (Num.floor (Num.divZ (count sentences) minChunks))
                    (Num.ofZ 3))
            && match Num.floor (Num.divZ (count sentences) minChunks) with
               | Num.NaN => false
               | _ => true
               end).
  - destruct (createLargerContextChunks_windows sentences targetSize
                (Some minChunks) Hn) as (p & H5 & Heq & Hlt).
    exists p. split; [split; [exact H5 | exact (Hlt Hmin)] | exact Heq].
  - replace (5 <? count sentences) with true
      by (symmetry; apply Z.ltb_lt; lia).
    destruct (createLargerContextChunks_windows sentences targetSize
                (Some (Num.ofZ 2)) Hn) as (p & H5 & Heq & Hlt).
    exists p. split; [split; [exact H5|] | exact Heq].
    apply Hlt. cbn. apply Qle_refl.
Qed.

Lemma createForcedChunks_few (sentences : list str) (targetSize : Z) :
  count sentences <= 10 ->
  createForcedChunks sentences targetSize = [join space sentences].
Proof.
  intros Hn. unfold createForcedChunks.
  replace (10 <? count sentences) with false
    by (symmetry; apply Z.ltb_ge; exact Hn).
  unfold createLargerContextChunks.
  replace (count sentences <=? 10) with true
    by (symmetry; apply Z.leb_le; exact Hn).
  destruct (5 <? count sentences); reflexivity.
Qed.

End ForcedChunks.

(** X16. The forced chunks of the Intelligent strategy lose no sentence:
    every sentence with a visible character lies in a chunk that is the
    join of a run of consecutive sentences around it, whatever the
    target size. *)
Theorem createForcedChunks_covers_every_sentence :
  forall (sentences : list Js.str) (targetSize : Z) (k : nat)
         (sentence : Js.str),
    nth_error sentences k = Some sentence ->
    ContextWindows.hasVisible sentence = true ->
    exists a e : Z,
      0 <= a <= Z.of_nat k
      /\ Z.of_nat k < e <= BaseChunkingStrategy.count sentences
      /\ In sentence (Js.slice sentences a e)
      /\ In (Js.join Js.space (Js.slice sentences a e))
            (IntelligentSamplingStrategy.createForcedChunks sentences
               targetSize).
Proof.
  intros sentences targetSize k sentence Hk Hs.
  assert (Hkn : Z.of_nat k < BaseChunkingStrategy.count sentences).
  { unfold BaseChunkingStrategy.count. apply Nat2Z.inj_lt.
    apply nth_error_Some. congruence. }
  assert (Hgoal : exists a e : Z,
             0 <= a <= Z.of_nat k
             /\ Z.of_nat k < e <= BaseChunkingStrategy.count sentences
             /\ In (Js.join Js.space (Js.slice sentences a e))
                   (IntelligentSamplingStrategy.createForcedChunks sentences
                      targetSize)).
  { destruct (Z_le_gt_dec (BaseChunkingStrategy.count sentences) 10)
      as [Hfew|Hmany].
    - exists 0, (BaseChunkingStrategy.count sentences).
      split; [lia|]. split; [lia|].
      rewrite createForcedChunks_few by exact Hfew. left. f_equal.
      rewrite slice_inside by (unfold BaseChunkingStrategy.count; lia).
      rewrite Z.sub_0_r. cbn [Z.to_nat skipn].
      unfold BaseChunkingStrategy.count. rewrite Nat2Z.id.
      symmetry. apply firstn_all.
    - destruct (createForcedChunks_windows sentences targetSize
                  ltac:(lia)) as (p & Hp & Heq).
      rewrite Heq.
      apply (windowLoop_covers sentences p ltac:(lia) (List.length sentences)
               0 k sentence); try assumption; try lia.
      unfold BaseChunkingStrategy.count. lia. }
  destruct Hgoal as (a & e & Ha & He & Hin).
  exists a, e. split; [exact Ha|]. split; [exact He|]. split; [|exact Hin].
  apply (slice_nth sentences a e k sentence); try lia; [|exact Hk].
  unfold BaseChunkingStrategy.count in He. lia.
Qed.

Lemma createForcedChunks_covers_every_sentence_witness :
  exists a e : Z,
    0 <= a <= Z.of_nat 6
    /\ Z.of_nat 6 < e
       <= BaseChunkingStrategy.count
            (BaseChunkingStrategy.splitIntoSentences ChunkingExamples.talk)
    /\ In (Js.of_string " Bake for an hour.")
          (Js.slice
             (BaseChunkingStrategy.splitIntoSentences ChunkingExamples.talk)
             a e)
    /\ In (Js.join Js.space
             (Js.slice
                (BaseChunkingStrategy.splitIntoSentences ChunkingExamples.talk)
                a e))
          (IntelligentSamplingStrategy.createForcedChunks
             (BaseChunkingStrategy.splitIntoSentences ChunkingExamples.talk)
             500).
Proof.
  apply (createForcedChunks_covers_every_sentence
           (BaseChunkingStrategy.splitIntoSentences ChunkingExamples.talk)
           500 6 (Js.of_string " Bake for an hour."));
    vm_compute; reflexivity.
Defined.

(** X17. With more than ten sentences that all have a visible
    character, the forced chunks are two or more, whatever the target
    size; with ten sentences or fewer there is one chunk, the sentences
    joined. *)
Theorem createForcedChunks_splits_long_lists :
  forall (sentences : list Js.str) (targetSize : Z),
    (10 < BaseChunkingStrategy.count sentences ->
     Forall (fun s => ContextWindows.hasVisible s = true) sentences ->
     (2 <= List.length
             (IntelligentSamplingStrategy.createForcedChunks sentences
                targetSize))%nat)
    /\ (BaseChunkingStrategy.count sentences <= 10 ->
        IntelligentSamplingStrategy.createForcedChunks sentences targetSize
        = [Js.join Js.space sentences]).
Proof.
  intros sentences targetSize. split.
  - intros Hn Hvis.
    destruct (createForcedChunks_windows sentences targetSize Hn)
      as (p & Hp & Heq).
    rewrite Heq. apply windowLoop_two; try assumption; try lia.
    unfold BaseChunkingStrategy.count in Hn. lia.
  - apply createForcedChunks_few.
Qed.

Lemma createForcedChunks_splits_long_lists_witness :
  (2 <= List.length
          (IntelligentSamplingStrategy.createForcedChunks
             (BaseChunkingStrategy.splitIntoSentences ChunkingExamples.lecture)
             500))%nat.
Proof.
  apply (proj1 (createForcedChunks_splits_long_lists
                  (BaseChunkingStrategy.splitIntoSentences
                     ChunkingExamples.lecture) 500)).
  - vm_compute. reflexivity.
  - apply Forall_forall. apply forallb_forall. vm_compute. reflexivity.
Defined.

Section ChunkerThreshold.
Import Js BaseChunkingStrategy.

(** Below 5.4 characters for each unit of the limit, the reduction
    factor stays under the sampling threshold of 1.5: the margin of the
    comparison, one part in [20 * tokens + 1], is wider than the rounding
    of the product and of the quotient. *)
Lemma reduction_factor_is_small (transcript : str) (maxLength : Z) :
  0 < maxLength ->
  len transcript < 2 ^ 48 ->
  5 * (len transcript + 3) < 27 * maxLength ->
  Num.ltb
    (Num.max 1
       (Num.divZ (estimateTokens transcript)
          (Num.mulQ (inject_Z maxLength) (Num.lit (9 # 10)))))
    (Num.Fin (3 # 2)) = true.
Proof.
  intros Hmax Hshort Hlen. rewrite ltb_max_one.
  assert (Hc : (9 # 10 <= Num.lit (9 # 10))%Q)
    by (apply Qle_bool_iff; vm_compute; reflexivity).
  set (c := Num.lit (9 # 10)) in *.
  assert (HM : (1 <= inject_Z maxLength)%Q)
    by (change 1%Q with (inject_Z 1); rewrite <- Zle_Qle; lia).
  set (M := inject_Z maxLength) in *.
  assert (Hx : (0 < M * c)%Q) by nra.
  destruct (round_within _ Hx) as [D1 _].
  unfold Num.mulQ, Num.divZ.
  set (d := Num.round (M * c)) in *.
  assert (Hd : (0 < d)%Q) by nra.
  destruct (Qeq_bool d 0) eqn:E.
  { apply Qeq_bool_eq in E. lra. }
  unfold estimateTokens.
  set (t := (len transcript + 3) / 4).
  assert (Ht : 0 <= t /\ 20 * t + 1 <= 27 * maxLength /\ 40 * t + 1 < 2 ^ 53).
  { unfold t. pose proof (Z.mul_div_le (len transcript + 3) 4 ltac:(lia)).
    assert (0 <= len transcript) by (unfold len; lia).
    assert (0 <= (len transcript + 3) / 4) by (apply Z.div_pos; lia).
    change (2 ^ 48) with 281474976710656 in Hshort.
    change (2 ^ 53) with 9007199254740992. lia. }
  destruct Ht as (T0 & T1 & T2).
  assert (QT0 : (0 <= inject_Z t)%Q)
    by (change 0%Q with (inject_Z 0); rewrite <- Zle_Qle; exact T0).
  assert (QT1 : (20 * inject_Z t + 1 <= 27 * M)%Q).
  { unfold M. change 20%Q with (inject_Z 20). change 27%Q with (inject_Z 27).
    change 1%Q with (inject_Z 1).
    rewrite <- !inject_Z_mult, <- inject_Z_plus, <- Zle_Qle. exact T1. }
  assert (QT2 : (40 * inject_Z t + 1 <= 9007199254740991)%Q).
  { change 40%Q with (inject_Z 40). change 1%Q with (inject_Z 1).
    change 9007199254740991%Q with (inject_Z 9007199254740991).
    rewrite <- inject_Z_mult, <- inject_Z_plus, <- Zle_Qle.
    change (2 ^ 53) with 9007199254740992 in T2. lia. }
  set (T := inject_Z t) in *.
  assert (Hq : (0 <= T / d)%Q) by (apply Qle_shift_div_l; [exact Hd | lra]).
  destruct (round_within_nonneg _ Hq) as [_ R].
  assert (Hqd : (T / d * d == T)%Q) by (field; lra).
  set (q := (T / d)%Q) in *.
  unfold Num.ltb. apply negb_true_iff.
  destruct (Qle_bool _ _) eqn:F; [|reflexivity]. exfalso.
  apply Qle_bool_iff in F.
  set (r := Num.round q) in *.
  set (u1 := (9007199254740991 # 9007199254740992)%Q) in *.
  set (u2 := (9007199254740993 # 9007199254740992)%Q) in *.
  assert (K1 : (0 <= q * (d - (9 # 10) * M * u1))%Q).
  { apply Qmult_le_0_compat; [exact Hq|]. unfold u1 in *. nra. }
  assert (K2 : (0 <= (q * u2 - (3 # 2)) * M)%Q).
  { apply Qmult_le_0_compat; lra. }
  unfold u1, u2 in *. nra.
Qed.

(** Beyond 2^50 characters the rounding can reach the threshold: with
    a limit of 374303800591943 and 505310130799123 tokens the exact
    quotient is below 1.5 and the computed reduction factor is 1.5. *)
Example threshold_reached_by_rounding :
  20 * 505310130799123 < 27 * 374303800591943
  /\ Num.max 1
       (Num.divZ 505310130799123
          (Num.mulQ (inject_Z 374303800591943) (Num.lit (9 # 10))))
     = Num.Fin (3 # 2).
Proof. split; vm_compute; reflexivity. Qed.

End ChunkerThreshold.

Section Flags.
Import Js.

Lemma eqb_eq (a : str) : forall b, eqb a b = true <-> a = b.
Proof.
  induction a as [|x a IH]; intros [|y b]; simpl; split; intros H;
    try reflexivity; try discriminate.
  - apply andb_true_iff in H as [H1 H2]. apply N.eqb_eq in H1.
    apply IH in H2. congruence.
  - injection H as -> ->. apply andb_true_iff. split.
    + apply N.eqb_refl.
    + now apply IH.
Qed.

Lemma includes_In (args : list str) (flag : str) :
  AppConfig.includes args flag = true <-> In flag args.
Proof.
  unfold AppConfig.includes. rewrite existsb_exists. split.
  - intros (x & Hx & E). apply eqb_eq in E. now subst.
  - intros H. exists flag. split; [exact H | now apply eqb_eq].
Qed.

Lemma includes_same (args1 args2 : list str) (flag : str) :
  (forall f, In f args1 <-> In f args2) ->
  AppConfig.includes args1 flag = AppConfig.includes args2 flag.
Proof.
  intros H. destruct (AppConfig.includes args1 flag) eqn:E1,
                     (AppConfig.includes args2 flag) eqn:E2;
    try reflexivity.
  - apply includes_In, H, includes_In in E1. congruence.
  - apply includes_In, H, includes_In in E2. congruence.
Qed.

End Flags.

(** X18. The chunker node compares the length of the transcript in
    characters with a limit that its Uniform and Bookend strategies read
    as tokens: with one of these two strategies a transcript shorter
    than 5.4 times the limit is never sampled, also when the node marks
    it as a long video; all its sentences are packed into the chunks.
    The transcript has fewer than 2^48 characters, so that the rounding
    of the reduction factor cannot reach the threshold. *)
Theorem chunker_samples_only_far_beyond_its_limit :
  forall (toLowerCase : Js.str -> Js.str) (maxTranscriptLength : Z)
         (strategy : IChunkingStrategy.Strategy)
         (shared : TranscriptChunkerNode.YoutubeSharedStore)
         (transcript : Js.str),
    strategy <> IChunkingStrategy.Intelligent ->
    0 < maxTranscriptLength ->
    TranscriptChunkerNode.transcript shared = Some transcript ->
    transcript <> [] ->
    Js.len transcript < 2 ^ 48 ->
    5 * (Js.len transcript + 3) < 27 * maxTranscriptLength ->
    let sentences := BaseChunkingStrategy.splitIntoSentences transcript in
    TranscriptChunkerNode.run toLowerCase maxTranscriptLength strategy shared
    = inl {| TranscriptChunkerNode.transcript := Some transcript;
             TranscriptChunkerNode.longVideoMode :=
               if maxTranscriptLength <? Js.len transcript then Some true
               else TranscriptChunkerNode.longVideoMode shared;
             TranscriptChunkerNode.chunks :=
               Some (if BaseChunkingStrategy.count sentences <=? 1
                     then [transcript]
                     else BaseChunkingStrategy.createChunksFromSentences
                            sentences (inject_Z maxTranscriptLength)) |}.
Proof.
  intros toLowerCase maxLen strategy shared transcript Hs Hmax Ht Hne Hshort
         Hlen sentences.
  pose proof (reduction_factor_is_small transcript maxLen Hmax Hshort Hlen)
    as Hrf.
  unfold TranscriptChunkerNode.run, TranscriptChunkerNode.post,
    TranscriptChunkerNode.isLongVideo. rewrite Ht.
  destruct transcript as [|c r]; [congruence|].
  unfold TranscriptChunkerNode.exec, IChunkingStrategy.chunkTranscript.
  destruct strategy; [| |congruence].
  - unfold UniformSamplingStrategy.chunkTranscript,
      UniformSamplingStrategy.reductionFactor.
    fold sentences. rewrite Hrf. reflexivity.
  - unfold BookendSamplingStrategy.chunkTranscript,
      BookendSamplingStrategy.reductionFactor.
    fold sentences. rewrite Hrf. reflexivity.
Qed.

Lemma chunker_samples_only_far_beyond_its_limit_witness :
  TranscriptChunkerNode.run IntelligentSamplingStrategy.asciiLower 100
    IChunkingStrategy.Bookend
    {| TranscriptChunkerNode.transcript := Some ChunkingExamples.talk;
       TranscriptChunkerNode.longVideoMode := None;
       TranscriptChunkerNode.chunks := None |}
  = inl {| TranscriptChunkerNode.transcript := Some ChunkingExamples.talk;
           TranscriptChunkerNode.longVideoMode :=
             if 100 <? Js.len ChunkingExamples.talk then Some true
             else None;
           TranscriptChunkerNode.chunks :=
             Some (if BaseChunkingStrategy.count
                        (BaseChunkingStrategy.splitIntoSentences
                           ChunkingExamples.talk) <=? 1
                   then [ChunkingExamples.talk]
                   else BaseChunkingStrategy.createChunksFromSentences
                          (BaseChunkingStrategy.splitIntoSentences
                             ChunkingExamples.talk) (inject_Z 100)) |}.
Proof.
  apply (chunker_samples_only_far_beyond_its_limit
           IntelligentSamplingStrategy.asciiLower 100
           IChunkingStrategy.Bookend
           {| TranscriptChunkerNode.transcript := Some ChunkingExamples.talk;
              TranscriptChunkerNode.longVideoMode := None;
              TranscriptChunkerNode.chunks := None |}
           ChunkingExamples.talk).
  - discriminate.
  - lia.
  - reflexivity.
  - discriminate.
  - vm_compute. reflexivity.
  - vm_compute. reflexivity.
Defined.

(** X19. [parseCommandLineArgs] reads nothing but the presence of its
    four flags: two argument lists with the same elements, in any order
    and number, give the same configuration.  High quality takes
    precedence over long video and uniform over bookend, and the limit
    is always one of 120000, 300000 and 500000. *)
Theorem parseCommandLineArgs_reads_the_flags :
  forall args : list Js.str,
    let config := AppConfig.parseCommandLineArgs args in
    let given := fun flag => In (Js.of_string flag) args in
    (forall args' : list Js.str,
        (forall flag, In flag args <-> In flag args') ->
        AppConfig.parseCommandLineArgs args' = config)
    /\ (given "--high-quality"%string ->
        AppConfig.maxTranscriptLength config = 500000)
    /\ (~ given "--high-quality"%string -> given "--long-video"%string ->
        AppConfig.maxTranscriptLength config = 120000)
    /\ (~ given "--high-quality"%string -> ~ given "--long-video"%string ->
        AppConfig.maxTranscriptLength config = 300000)
    /\ (given "--sample-uniform"%string ->
        AppConfig.samplingMethod config = Js.of_string "uniform")
    /\ (~ given "--sample-uniform"%string ->
        given "--sample-bookend"%string ->
        AppConfig.samplingMethod config = Js.of_string "bookend")
    /\ (~ given "--sample-uniform"%string ->
        ~ given "--sample-bookend"%string ->
        AppConfig.samplingMethod config = Js.of_string "intelligent")
    /\ 120000 <= AppConfig.maxTranscriptLength config <= 500000.
Proof.
  intros args config given.
  assert (Hin : forall flag,
             AppConfig.includes args (Js.of_string flag) = true
             <-> given flag)
    by (intros flag; apply includes_In).
  assert (Hout : forall flag,
             ~ given flag ->
             AppConfig.includes args (Js.of_string flag) = false).
  { intros flag H. destruct (AppConfig.includes _ _) eqn:E; [|reflexivity].
    apply Hin in E. contradiction. }
  unfold config, AppConfig.parseCommandLineArgs.
  cbn [AppConfig.maxTranscriptLength AppConfig.samplingMethod].
  split.
  { intros args' Hsame.
    rewrite !(includes_same args args' _ Hsame). reflexivity. }
  split; [intros H; apply Hin in H; now rewrite H|].
  split; [intros H1 H2; apply Hin in H2; now rewrite (Hout _ H1), H2|].
  split; [intros H1 H2; now rewrite (Hout _ H1), (Hout _ H2)|].
  split; [intros H; apply Hin in H; now rewrite H|].
  split; [intros H1 H2; apply Hin in H2; now rewrite (Hout _ H1), H2|].
  split; [intros H1 H2; now rewrite (Hout _ H1), (Hout _ H2)|].
  destruct (AppConfig.includes args (Js.of_string "--high-quality"));
    [simpl; lia|].
  destruct (AppConfig.includes args (Js.of_string "--long-video"));
    simpl; lia.
Qed.

(** X20. From the command line to the chunker: when uniform or bookend
    sampling is asked for, whatever the other flags, the node that the
    flow builder makes samples no transcript shorter than 647997
    characters; it packs all the sentences of the transcript. *)
Theorem command_line_sampling_starts_late :
  forall (args : list Js.str) (toLowerCase : Js.str -> Js.str)
         (transcript : Js.str),
    let node :=
      YouTubeSummarizerFlowBuilder.transcriptChunker
        (AppConfig.parseCommandLineArgs args) in
    let sentences := BaseChunkingStrategy.splitIntoSentences transcript in
    In (Js.of_string "--sample-uniform") args
    \/ In (Js.of_string "--sample-bookend") args ->
    transcript <> [] ->
    Js.len transcript < 647997 ->
    snd node <> IChunkingStrategy.Intelligent
    /\ TranscriptChunkerNode.exec toLowerCase (fst node) (snd node)
         (Some transcript)
       = inl (if BaseChunkingStrategy.count sentences <=? 1
              then [transcript]
              else BaseChunkingStrategy.createChunksFromSentences sentences
                     (inject_Z (fst node))).
Proof.
  intros args toLowerCase transcript node sentences Hflag Hne Hlen.
  assert (Hmax : 120000 <= fst node).
  { unfold node, YouTubeSummarizerFlowBuilder.transcriptChunker,
      AppConfig.parseCommandLineArgs.
    cbn [fst AppConfig.maxTranscriptLength].
    destruct (AppConfig.includes args (Js.of_string "--high-quality"));
      [lia|].
    destruct (AppConfig.includes args (Js.of_string "--long-video"));
      simpl; lia. }
  assert (Hstrategy : snd node = IChunkingStrategy.Uniform
                      \/ snd node = IChunkingStrategy.Bookend).
  { unfold node, YouTubeSummarizerFlowBuilder.transcriptChunker,
      AppConfig.parseCommandLineArgs.
    cbn [snd AppConfig.samplingMethod].
    destruct (AppConfig.includes args (Js.of_string "--sample-uniform"))
      eqn:Eu; [left; reflexivity|].
    destruct (AppConfig.includes args (Js.of_string "--sample-bookend"))
      eqn:Eb; [right; reflexivity|].
    exfalso. destruct Hflag as [H|H]; apply includes_In in H; congruence. }
  assert (Hshort : Js.len transcript < 2 ^ 48)
    by (change (2 ^ 48) with 281474976710656; lia).
  pose proof (reduction_factor_is_small transcript (fst node) ltac:(lia)
                Hshort ltac:(lia)) as Hrf.
  split; [destruct Hstrategy as [-> | ->]; discriminate|].
  destruct transcript as [|c r]; [congruence|].
  unfold TranscriptChunkerNode.exec, IChunkingStrategy.chunkTranscript.
  destruct Hstrategy as [-> | ->].
  - unfold UniformSamplingStrategy.chunkTranscript,
      UniformSamplingStrategy.reductionFactor.
    fold sentences. rewrite Hrf. reflexivity.
  - unfold BookendSamplingStrategy.chunkTranscript,
      BookendSamplingStrategy.reductionFactor.
    fold sentences. rewrite Hrf. reflexivity.
Qed.

Lemma command_line_sampling_starts_late_witness :
  let args := [Js.of_string "--long-video"; Js.of_string "--sample-bookend"] in
  let node :=
    YouTubeSummarizerFlowBuilder.transcriptChunker
      (AppConfig.parseCommandLineArgs args) in
  let sentences :=
    BaseChunkingStrategy.splitIntoSentences ChunkingExamples.lecture in
  snd node <> IChunkingStrategy.Intelligent
  /\ TranscriptChunkerNode.exec IntelligentSamplingStrategy.asciiLower
       (fst node) (snd node) (Some ChunkingExamples.lecture)
     = inl (if BaseChunkingStrategy.count sentences <=? 1
            then [ChunkingExamples.lecture]
            else BaseChunkingStrategy.createChunksFromSentences sentences
                   (inject_Z (fst node))).
Proof.
  apply (command_line_sampling_starts_late
           [Js.of_string "--long-video"; Js.of_string "--sample-bookend"]
           IntelligentSamplingStrategy.asciiLower ChunkingExamples.lecture).
  - right. simpl. tauto.
  - discriminate.
  - vm_compute. reflexivity.
Defined.

(** X23. The chunking service hands [maxLength] to a strategy that
    reads it only when uniform or bookend sampling is named: for every
    other name, known or not, and when no name is given, it runs the
    Intelligent strategy, whose chunks do not depend on [maxLength]. *)
Theorem chunkingService_reads_maxLength_for_two_names :
  forall (toLowerCase : Js.str -> Js.str) (transcript : Js.str)
         (strategy : option Js.str),
    strategy <> Some (Js.of_string "uniform") ->
    strategy <> Some (Js.of_string "bookend") ->
    forall maxLength maxLength' : option Q,
      ChunkingService.chunkTranscript toLowerCase transcript strategy
        maxLength
      = ChunkingService.chunkTranscript toLowerCase transcript strategy
          maxLength'
      /\ ChunkingService.chunkTranscript toLowerCase transcript strategy
           maxLength
         = IChunkingStrategy.chunkTranscript toLowerCase
             IChunkingStrategy.Intelligent transcript 0.
Proof.
  intros toLowerCase transcript strategy Hu Hb maxLength maxLength'.
  assert (Hs : forall m,
             ChunkingService.chunkTranscript toLowerCase transcript strategy m
             = IChunkingStrategy.chunkTranscript toLowerCase
                 IChunkingStrategy.Intelligent transcript 0).
  { intros m. unfold ChunkingService.chunkTranscript.
    destruct strategy as [name|]; [|reflexivity].
    unfold ChunkingService.strategies.
    destruct (Js.eqb name (Js.of_string "intelligent")); [reflexivity|].
    destruct (Js.eqb name (Js.of_string "bookend")) eqn:E1.
    { apply eqb_eq in E1. subst. congruence. }
    destruct (Js.eqb name (Js.of_string "uniform")) eqn:E2.
    { apply eqb_eq in E2. subst. congruence. }
    reflexivity. }
  split; [now rewrite !Hs | apply Hs].
Qed.

Lemma chunkingService_reads_maxLength_for_two_names_witness :
  ChunkingService.chunkTranscript IntelligentSamplingStrategy.asciiLower
    ChunkingExamples.talk (Some (Js.of_string "smart")) (Some 10%Q)
  = ChunkingService.chunkTranscript IntelligentSamplingStrategy.asciiLower
      ChunkingExamples.talk (Some (Js.of_string "smart")) None
  /\ ChunkingService.chunkTranscript IntelligentSamplingStrategy.asciiLower
       ChunkingExamples.talk (Some (Js.of_string "smart")) (Some 10%Q)
     = IChunkingStrategy.chunkTranscript IntelligentSamplingStrategy.asciiLower
         IChunkingStrategy.Intelligent ChunkingExamples.talk 0.
Proof.
  apply (chunkingService_reads_maxLength_for_two_names
           IntelligentSamplingStrategy.asciiLower ChunkingExamples.talk
           (Some (Js.of_string "smart"))); discriminate.
Defined.

Section Formatter.
Import Js TextContent SummaryFormatterNode.

Lemma keptInOrder_app_r (pieces : list str) (text more : str) :
  keptInOrder pieces text -> keptInOrder pieces (text ++ more).
Proof.
  induction 1 as [text|before piece pieces rest _ IH]; [constructor|].
  rewrite <- !app_assoc. constructor. exact IH.
Qed.

Lemma keptInOrder_frame (pieces : list str) (before text after : str) :
  keptInOrder pieces text -> keptInOrder pieces (before ++ text ++ after).
Proof.
  intros H. apply (keptInOrder_app_r _ _ after) in H.
  destruct H as [t|b piece pieces rest H]; [constructor|].
  rewrite app_assoc. constructor. exact H.
Qed.

Lemma keptInOrder_app_l (pieces : list str) (before text : str) :
  keptInOrder pieces text -> keptInOrder pieces (before ++ text).
Proof.
  intros H. destruct H as [t|b piece pieces rest H]; [constructor|].
  rewrite app_assoc. constructor. exact H.
Qed.

(** The pieces of the split lie in the text, in their order. *)
Lemma splitGo_kept (s : str) :
  forall (skipping : bool) (cur : str),
    (skipping = true -> cur = []) ->
    exists gap first others rest,
      splitGo skipping cur s = (rev cur ++ first) :: others
      /\ s = gap ++ first ++ rest
      /\ keptInOrder others rest
      /\ (skipping = false -> gap = []).
Proof.
  induction s as [|c r IH]; intros skipping cur Hcur.
  - exists [], [], [], []. cbn [splitGo]. rewrite app_nil_r.
    repeat split. constructor.
  - cbn [splitGo]. destruct (skipping && isLineFeed c) eqn:E1.
    + apply andb_true_iff in E1 as [-> _]. rewrite (Hcur eq_refl).
      destruct (IH true [] ltac:(reflexivity))
        as (gap & first & others & rest & H1 & H2 & H3 & _).
      exists (c :: gap), first, others, rest.
      split; [exact H1|]. split; [rewrite H2; reflexivity|].
      split; [exact H3 | discriminate].
    + destruct (isLineFeed c
                && match r with
                   | d :: _ => isLineFeed d
                   | [] => false
                   end) eqn:E2.
      * destruct (IH true [] ltac:(reflexivity))
          as (gap & first & others & rest & H1 & H2 & H3 & _).
        exists [], [], (first :: others), (c :: r).
        rewrite app_nil_r, H1. cbn [rev app].
        split; [reflexivity|]. split; [reflexivity|]. split; [|reflexivity].
        rewrite H2. change (c :: gap ++ first ++ rest)
                      with ((c :: gap) ++ first ++ rest).
        constructor. exact H3.
      * destruct (IH false (c :: cur) ltac:(discriminate))
          as (gap & first & others & rest & H1 & H2 & H3 & H4).
        rewrite (H4 eq_refl) in H2. cbn [app] in H2.
        exists [], (c :: first), others, rest.
        split; [rewrite H1; cbn [rev]; now rewrite <- app_assoc|].
        split; [rewrite H2; reflexivity|].
        split; [exact H3 | reflexivity].
Qed.

Lemma splitParagraphs_kept (summary : str) :
  keptInOrder (splitParagraphs summary) summary.
Proof.
  destruct (splitGo_kept summary false [] ltac:(discriminate))
    as (gap & first & others & rest & H1 & H2 & H3 & H4).
  unfold splitParagraphs. rewrite H1. rewrite (H4 eq_refl) in H2.
  cbn [rev app] in *. rewrite H2.
  change (first ++ rest) with ([] ++ first ++ rest).
  constructor. exact H3.
Qed.

Lemma nth_error_last {A} (l : list A) (d : A) :
  l <> [] -> nth_error l (List.length l - 1) = Some (last l d).
Proof.
  induction l as [|y l IH]; intros Hl; [congruence|].
  destruct l as [|z l]; [reflexivity|].
  cbn [List.length Nat.sub] in *. rewrite Nat.sub_0_r in *.
  cbn [nth_error]. rewrite IH by discriminate. reflexivity.
Qed.

(** A list of two elements or more: its first, its middle, its last. *)
Lemma first_middle_last (l : list str) :
  (2 <= List.length l)%nat ->
  l = itemText l 0
        :: slice l 1 (-1)
        ++ [itemText l (Z.of_nat (List.length l) - 1)].
Proof.
  intros Hn. destruct l as [|x l]; [simpl in Hn; lia|].
  assert (Hl : l <> []) by (destruct l; [simpl in Hn; lia | discriminate]).
  cbn [List.length] in Hn.
  assert (Hmid : slice (x :: l) 1 (-1) = removelast l).
  { unfold slice, sliceIndex.
    replace (1 <? 0) with false by reflexivity.
    replace (-1 <? 0) with true by reflexivity.
    cbn [List.length]. rewrite Z.min_l by lia.
    replace (Z.to_nat (Z.max (Z.of_nat (S (List.length l)) + -1) 0 - 1))
      with (pred (List.length l)) by lia.
    change (Z.to_nat 1) with 1%nat. cbn [skipn].
    symmetry. apply removelast_firstn_len. }
  assert (Hlast : itemText (x :: l) (Z.of_nat (List.length (x :: l)) - 1)
                  = last l x).
  { unfold itemText. cbn [List.length].
    replace (Z.of_nat (S (List.length l)) - 1 <? 0) with false
      by (symmetry; apply Z.ltb_ge; lia).
    replace (Z.to_nat (Z.of_nat (S (List.length l)) - 1))
      with (S (List.length l - 1)) by lia.
    cbn [nth_error]. now rewrite (nth_error_last l x Hl). }
  rewrite Hmid, Hlast. unfold itemText.
  cbn [Z.ltb Z.compare Z.to_nat nth_error]. f_equal.
  apply app_removelast_last. exact Hl.
Qed.

Lemma bullets_kept (middle : list str) :
  forall (tail : list str) (rest : str),
    keptInOrder tail rest ->
    keptInOrder (middle ++ tail)
      (join (nl ++ nl) (map bullet middle) ++ rest).
Proof.
  assert (Hb : forall p, exists mark, bullet p = mark ++ p).
  { intros p. unfold bullet.
    destruct (startsWith (trim p) (of_string "-")
              || startsWith (trim p) (of_string "*"));
      [exists []; reflexivity|].
    destruct (len p <? 100); [eexists; reflexivity | exists []; reflexivity]. }
  induction middle as [|p middle IH]; intros tail rest H; [exact H|].
  destruct (Hb p) as (mark & Hp).
  destruct middle as [|q middle].
  - cbn [map join app]. rewrite Hp, <- app_assoc. constructor. exact H.
  - change (join (nl ++ nl) (map bullet (p :: q :: middle)))
      with (bullet p ++ (nl ++ nl)
            ++ join (nl ++ nl) (map bullet (q :: middle))).
    rewrite Hp, <- !app_assoc. cbn [app]. constructor.
    specialize (IH tail rest H).
    apply (keptInOrder_frame _ (nl ++ nl) _ []) in IH.
    rewrite app_nil_r, <- app_assoc in IH. exact IH.
Qed.

Lemma addSections_kept (paragraphs : list str) :
  (3 < List.length paragraphs)%nat ->
  keptInOrder paragraphs (addSectionsToLongSummary paragraphs).
Proof.
  intros Hn. rewrite (first_middle_last paragraphs) at 1 by lia.
  set (middle := slice paragraphs 1 (-1)).
  set (first := itemText paragraphs 0).
  set (final := itemText paragraphs (Z.of_nat (List.length paragraphs) - 1)).
  assert (Hm : (0 <? Z.of_nat (List.length middle)) = true).
  { apply Z.ltb_lt.
    pose proof (f_equal (@List.length _) (first_middle_last paragraphs
                                           ltac:(lia))) as Hl.
    cbn [List.length] in Hl. rewrite length_app in Hl. cbn [List.length] in Hl.
    fold middle in Hl. lia. }
  assert (Hshape :
            addSectionsToLongSummary paragraphs
            = (of_string "## Overview" ++ nl ++ nl)
                ++ first
                ++ ((nl ++ nl ++ of_string "## Key Points" ++ nl ++ nl)
                      ++ (join (nl ++ nl) (map bullet middle)
                            ++ ((nl ++ nl ++ of_string "## Conclusion"
                                    ++ nl ++ nl)
                                  ++ final ++ [])))).
  { unfold addSectionsToLongSummary. fold middle first final. rewrite Hm.
    replace (2 <? Z.of_nat (List.length paragraphs)) with true
      by (symmetry; apply Z.ltb_lt; lia).
    rewrite app_nil_r, <- !app_assoc. reflexivity. }
  rewrite Hshape. constructor. apply keptInOrder_app_l.
  apply bullets_kept. constructor. constructor.
Qed.

End Formatter.

(** X22. Formatting loses nothing of a summary: the formatted text
    starts with the title and ends with the dated footer, a summary that
    has a Markdown header of its own stands unchanged between them, and
    in every case the paragraphs of the summary are kept in the
    formatted text in their order. *)
Theorem formatting_keeps_every_paragraph :
  forall (localeString summary : Js.str),
    summary <> [] ->
    let formatted := SummaryFormatterNode.enhanceSummary localeString summary in
    SummaryFormatterNode.exec localeString (Some summary) = inl formatted
    /\ (exists body,
          formatted
          = SummaryFormatterNode.title ++ body
              ++ SummaryFormatterNode.footer localeString)
    /\ (SummaryFormatterNode.hasHeaders summary = true ->
        formatted
        = SummaryFormatterNode.title ++ summary
            ++ SummaryFormatterNode.footer localeString)
    /\ TextContent.keptInOrder
         (SummaryFormatterNode.splitParagraphs summary) formatted.
Proof.
  intros localeString summary Hne formatted.
  split; [destruct summary; [congruence | reflexivity]|].
  unfold formatted, SummaryFormatterNode.enhanceSummary.
  destruct (SummaryFormatterNode.hasHeaders summary) eqn:Eh; cbn [negb].
  - rewrite <- app_assoc. split; [eexists; reflexivity|].
    split; [reflexivity|].
    apply keptInOrder_frame. apply splitParagraphs_kept.
  - destruct (3 <? Z.of_nat
                     (List.length
                        (SummaryFormatterNode.splitParagraphs summary)))
      eqn:En.
    + rewrite <- app_assoc. split; [eexists; reflexivity|].
      split; [discriminate|].
      apply keptInOrder_frame. apply addSections_kept.
      apply Z.ltb_lt in En. lia.
    + split.
      { exists (Js.of_string "## Summary" ++ SummaryFormatterNode.nl
                ++ SummaryFormatterNode.nl ++ summary).
        rewrite <- !app_assoc. reflexivity. }
      split; [discriminate|].
      rewrite <- !app_assoc. apply keptInOrder_app_l.
      rewrite !app_assoc, <- (app_assoc _ summary).
      apply keptInOrder_frame. apply splitParagraphs_kept.
Qed.

Lemma formatting_keeps_every_paragraph_witness :
  let summary := Js.of_string "One." ++ SummaryFormatterNode.nl
                 ++ SummaryFormatterNode.nl ++ Js.of_string "Two." in
  let formatted :=
    SummaryFormatterNode.enhanceSummary (Js.of_string "1/1/2025") summary in
  SummaryFormatterNode.exec (Js.of_string "1/1/2025") (Some summary)
  = inl formatted
  /\ (exists body,
        formatted
        = SummaryFormatterNode.title ++ body
            ++ SummaryFormatterNode.footer (Js.of_string "1/1/2025"))
  /\ (SummaryFormatterNode.hasHeaders summary = true ->
      formatted
      = SummaryFormatterNode.title ++ summary
          ++ SummaryFormatterNode.footer (Js.of_string "1/1/2025"))
  /\ TextContent.keptInOrder
       (SummaryFormatterNode.splitParagraphs summary) formatted.
Proof.
  apply (formatting_keeps_every_paragraph (Js.of_string "1/1/2025")
           (Js.of_string "One." ++ SummaryFormatterNode.nl
            ++ SummaryFormatterNode.nl ++ Js.of_string "Two.")).
  discriminate.
Defined.

Section ReducerPrompt.
Import Js TextContent SummaryReducerNode.

Variable approxPercentage : Z -> Z -> str.

Lemma sections_kept (length : Z) (chunkSummaries : list str) :
  forall (index : Z) (rest : str),
    keptInOrder chunkSummaries
      (join nl (sectionsFrom approxPercentage length chunkSummaries index)
       ++ rest).
Proof.
  induction chunkSummaries as [|summary others IH]; intros index rest;
    [constructor|].
  cbn [sectionsFrom].
  assert (Hs : exists before,
             section approxPercentage length summary index
             = before ++ summary ++ nl).
  { unfold section.
    exists (of_string "SECTION " ++ showZ (index + 1) ++ of_string " ["
            ++ positionIndicator approxPercentage index length
            ++ of_string "]:" ++ nl).
    rewrite <- !app_assoc. reflexivity. }
  destruct Hs as (before & Hs). rewrite Hs.
  destruct others as [|next others].
  - cbn [sectionsFrom join]. rewrite <- !app_assoc. constructor. constructor.
  - change (join nl (?x :: sectionsFrom approxPercentage length
                            (next :: others) (index + 1)))
      with (x ++ nl ++ join nl (sectionsFrom approxPercentage length
                                  (next :: others) (index + 1))).
    rewrite <- !app_assoc. constructor.
    apply keptInOrder_app_l. apply keptInOrder_app_l. apply IH.
Qed.

End ReducerPrompt.

(** X24. The prompt of the Reduce stage holds every chunk summary, in
    the order of the chunks and each in a section of its own; there are
    as many sections as summaries. *)
Theorem reduce_prompt_keeps_every_summary :
  forall (approxPercentage : Z -> Z -> Js.str) (chunkSummaries : list Js.str),
    TextContent.keptInOrder chunkSummaries
      (SummaryReducerNode.createSummaryReducePrompt approxPercentage
         chunkSummaries)
    /\ List.length
         (SummaryReducerNode.sectionsFrom approxPercentage
            (Z.of_nat (List.length chunkSummaries)) chunkSummaries 0)
       = List.length chunkSummaries.
Proof.
  intros approxPercentage chunkSummaries. split.
  - unfold SummaryReducerNode.createSummaryReducePrompt.
    rewrite !app_assoc. rewrite <- (app_assoc _ _ SummaryReducerNode.promptTail).
    apply keptInOrder_app_l. apply sections_kept.
  - generalize (Z.of_nat (List.length chunkSummaries)) as n.
    generalize 0 as i.
    induction chunkSummaries as [|s l IH]; intros i n; [reflexivity|].
    cbn [SummaryReducerNode.sectionsFrom List.length]. now rewrite IH.
Qed.

Section ReducerLoop.
Import Js SummaryReducerNode.

Variable approxPercentage : Z -> Z -> str.
Variable maxRetries : Z.
Variable generateContent : Backend.
Variable chunkSummaries : list str.

Local Abbreviation prompt :=
  (createSummaryReducePrompt approxPercentage chunkSummaries).

Lemma reducer_retryLoop_shape (fuel : nat) :
  forall (lastError : option Error) (sent : list str) (backoffs0 : list Z),
    Z.of_nat fuel = Z.max 0 (maxRetries - Z.of_nat (List.length sent)) ->
    let a := retryLoop approxPercentage fuel maxRetries generateContent
               chunkSummaries (Z.of_nat (List.length sent)) lastError sent
               backoffs0 in
    exists failures : nat,
      (forall j, (j < failures)%nat ->
         exists t, generateContent (List.length sent + j)%nat prompt
                   = Rejected t)
      /\ backoffs a
         = backoffs0
             ++ map RetryShape.backoffMs (seq (S (List.length sent)) failures)
      /\ match completion a with
         | Returned summary =>
             (failures < fuel)%nat
             /\ generateContent (List.length sent + failures)%nat prompt
                = Resolved summary
             /\ prompts a = sent ++ repeat prompt (S failures)
         | Threw e =>
             failures = fuel
             /\ prompts a = sent ++ repeat prompt failures
             /\ ((failures = O
                  /\ e = match lastError with
                         | Some e0 => e0
                         | None => FailedToGenerate maxRetries
                         end)
                 \/ exists last t,
                      failures = S last
                      /\ generateContent (List.length sent + last)%nat prompt
                         = Rejected t
                      /\ e = toError t)
         end.
Proof.
  induction fuel as [|fuel IH]; intros lastError sent backoffs0 Hfuel a.
  - exists 0%nat. subst a. cbn [retryLoop prompts completion backoffs].
    rewrite !app_nil_r. split; [intros j Hj; lia|]. split; [reflexivity|].
    split; [reflexivity|]. split; [reflexivity|]. left. split; reflexivity.
  - subst a. cbn [retryLoop].
    replace (Z.of_nat (List.length sent) <? maxRetries) with true
      by (symmetry; apply Z.ltb_lt; lia).
    fold prompt.
    destruct (generateContent (List.length sent) prompt) as [summary|t] eqn:E.
    + exists 0%nat. cbn [prompts completion backoffs repeat seq map].
      rewrite app_nil_r, Nat.add_0_r.
      split; [intros j Hj; lia|]. split; [reflexivity|].
      split; [lia|]. split; [exact E | reflexivity].
    + assert (Hb1 : 2 ^ (Z.of_nat (List.length sent) + 1) * 1000
                    = RetryShape.backoffMs (S (List.length sent))).
      { unfold RetryShape.backoffMs. f_equal. f_equal. lia. }
      rewrite Hb1.
      pose proof (IH (Some (toError t)) (sent ++ [prompt])
                     (backoffs0
                      ++ [RetryShape.backoffMs (S (List.length sent))]))
        as IH'.
      rewrite length_app in IH'. cbn [List.length] in IH'.
      replace (Z.of_nat (List.length sent + 1))
        with (Z.of_nat (List.length sent) + 1) in IH' by lia.
      specialize (IH' ltac:(lia)). cbv zeta in IH'.
      destruct IH' as (f & Hj & Hb & Hc).
      exists (S f). split.
      { intros [|j] Hlt.
        - rewrite Nat.add_0_r. exists t. exact E.
        - destruct (Hj j ltac:(lia)) as (t' & Ht'). exists t'.
          rewrite <- Ht'. f_equal. lia. }
      split.
      { rewrite Hb, <- app_assoc. f_equal. cbn [app seq map]. f_equal.
        f_equal. f_equal. lia. }
      destruct (completion _) as [summary|e].
      * destruct Hc as (H1 & H2 & H3). split; [lia|]. split.
        -- rewrite <- H2. f_equal. lia.
        -- rewrite H3, <- app_assoc. reflexivity.
      * destruct Hc as (H1 & H2 & H3). split; [lia|]. split.
        -- rewrite H2, <- app_assoc. reflexivity.
        -- right. destruct H3 as [[H3 He]|(last & t' & H3 & Ht' & He)].
           ++ exists 0%nat, t. rewrite Nat.add_0_r.
              split; [lia|]. split; [exact E | exact He].
           ++ exists (S last), t'. split; [lia|]. split; [|exact He].
              rewrite <- Ht'. f_equal. lia.
Qed.

End ReducerLoop.

(** X25. The Reduce stage retries as the Map stage does.  Without chunk
    summaries it throws at once and calls nothing.  Otherwise, whatever
    the service does, it calls it at most [maxRetries] times with one and
    the same prompt, sleeps [2^k * 1000] milliseconds after the [k]-th
    failure (also after the last), returns the first summary it gets, and
    gives up only after [maxRetries] failures, with the error of the last
    call. *)
Theorem reducer_exec_shape :
  forall (approxPercentage : Z -> Z -> Js.str) (maxRetries : Z)
         (generateContent : SummaryReducerNode.Backend)
         (chunkSummaries : option (list Js.str)),
    let a := SummaryReducerNode.exec approxPercentage maxRetries
               generateContent chunkSummaries in
    let calls := List.length (SummaryReducerNode.prompts a) in
    let failures := List.length (SummaryReducerNode.backoffs a) in
    match chunkSummaries with
    | None | Some [] =>
        a = {| SummaryReducerNode.prompts := [];
               SummaryReducerNode.backoffs := [];
               SummaryReducerNode.completion :=
                 SummaryReducerNode.Threw SummaryReducerNode.NoChunkSummaries |}
    | Some summaries =>
        let prompt :=
          SummaryReducerNode.createSummaryReducePrompt approxPercentage
            summaries in
        Z.of_nat calls <= Z.max 0 maxRetries
        /\ SummaryReducerNode.prompts a = repeat prompt calls
        /\ SummaryReducerNode.backoffs a
           = map RetryShape.backoffMs (seq 1 failures)
        /\ (forall j, (j < failures)%nat ->
              exists t,
                generateContent j prompt = SummaryReducerNode.Rejected t)
        /\ match SummaryReducerNode.completion a with
           | SummaryReducerNode.Returned summary =>
               calls = S failures
               /\ generateContent failures prompt
                  = SummaryReducerNode.Resolved summary
           | SummaryReducerNode.Threw e =>
               calls = failures
               /\ Z.of_nat failures = Z.max 0 maxRetries
               /\ ((failures = O
                    /\ e = SummaryReducerNode.FailedToGenerate maxRetries)
                   \/ exists last t,
                        failures = S last
                        /\ generateContent last prompt
                           = SummaryReducerNode.Rejected t
                        /\ e = SummaryReducerNode.toError t)
           end
    end.
Proof.
  intros approxPercentage maxRetries g chunkSummaries a calls failures.
  destruct chunkSummaries as [[|s l]|]; try reflexivity.
  cbv zeta.
  set (prompt := SummaryReducerNode.createSummaryReducePrompt
                   approxPercentage (s :: l)).
  destruct (reducer_retryLoop_shape approxPercentage maxRetries g (s :: l)
              (Z.to_nat maxRetries) None [] [] ltac:(simpl; lia))
    as (f & Hj & Hb & Hc).
  cbn [List.length app Z.of_nat] in Hj, Hb, Hc.
  change (SummaryReducerNode.retryLoop approxPercentage (Z.to_nat maxRetries)
            maxRetries g (s :: l) 0 None [] []) with a in Hb, Hc.
  fold prompt in Hj, Hc.
  assert (Hf : failures = f).
  { unfold failures. rewrite Hb, length_map, length_seq. reflexivity. }
  rewrite <- Hf in *. clear Hf f.
  assert (Hcalls : forall n, SummaryReducerNode.prompts a = repeat prompt n ->
                             calls = n).
  { intros n Hn. unfold calls. rewrite Hn. apply repeat_length. }
  destruct (SummaryReducerNode.completion a) as [summary|e].
  - destruct Hc as (H1 & H2 & H3).
    rewrite (Hcalls _ H3). split; [lia|]. split; [exact H3|].
    split; [exact Hb|]. split; [exact Hj|]. split; [reflexivity | exact H2].
  - destruct Hc as (H1 & H2 & H3).
    rewrite (Hcalls _ H2). split; [lia|]. split; [exact H2|].
    split; [exact Hb|]. split; [exact Hj|]. split; [reflexivity|].
    split; [lia|]. exact H3.
Qed.

Section IntelligentNeverRaises.
Import Js BaseChunkingStrategy IntelligentSamplingStrategy.

(** Beyond 3000 tokens the reduction factor is a finite number, at
    least 1.1. *)
Lemma reductionFactor_finite (totalTokens : Z) :
  3000 < totalTokens ->
  exists r, reductionFactor totalTokens = Num.Fin r /\ (11 # 10 <= r)%Q.
Proof.
  intros HT. unfold reductionFactor, targetChunkSize.
  set (m := Z.max 3 ((totalTokens + 2999) / 3000)).
  assert (Hm : 3 <= m <= totalTokens).
  { unfold m. split; [lia|].
    assert ((totalTokens + 2999) / 3000 <= totalTokens); [|lia].
    apply Z.lt_succ_r. apply Z.div_lt_upper_bound; lia. }
  assert (Ht : 1 <= totalTokens / m).
  { apply Z.div_le_lower_bound; lia. }
  assert (Hc : 1 <= (totalTokens + 3999) / 4000).
  { apply Z.div_le_lower_bound; lia. }
  set (d := Z.min 1500 (totalTokens / m) * ((totalTokens + 3999) / 4000)).
  assert (Hd : 1 <= d) by (unfold d; nia).
  unfold Num.divZ, Num.ofZ.
  assert (Hz : Qeq_bool (inject_Z d) 0 = false).
  { destruct (Qeq_bool (inject_Z d) 0) eqn:E; [|reflexivity].
    apply Qeq_bool_eq in E. unfold Qeq in E. simpl in E. lia. }
  rewrite Hz. unfold Num.max, Num.max2. eexists. split; [reflexivity|].
  assert (Hl : (11 # 10 <= Num.lit (11 # 10))%Q)
    by (apply Qle_bool_iff; vm_compute; reflexivity).
  unfold Num.Qmaxb. destruct (Qle_bool (Num.lit (11 # 10)) _) eqn:E.
  - apply Qle_bool_iff in E. lra.
  - exact Hl.
Qed.

(** Of one sentence or more, at least one is to be kept. *)
Lemma numSentencesToKeep_positive (n : Z) (r : Q) :
  1 <= n -> (11 # 10 <= r)%Q ->
  exists k, numSentencesToKeep n (Num.Fin r) = Num.Fin k /\ 1 <= Qfloor k.
Proof.
  intros Hn Hr. unfold numSentencesToKeep.
  assert (Hpos : (0 < r)%Q) by (eapply Qlt_le_trans; [|exact Hr]; reflexivity).
  assert (Hz : Qeq_bool r 0 = false).
  { destruct (Qeq_bool r 0) eqn:E; [|reflexivity].
    apply Qeq_bool_eq in E. rewrite E in Hpos. discriminate Hpos. }
  unfold Num.divZ. rewrite Hz. unfold Num.min, Num.mulZ, Num.ceil.
  eexists. split; [reflexivity|]. rewrite Qfloor_Z.
  set (pct := Num.Qminb (Num.lit (4 # 5)) (Num.round (inject_Z 2 / r))).
  assert (Hpct : (0 < pct)%Q).
  { unfold pct, Num.Qminb. destruct (Qle_bool _ _); [reflexivity|].
    apply round_pos.
    apply Qlt_shift_div_l; [exact Hpos|]. rewrite Qmult_0_l. reflexivity. }
  assert (Hprod : (0 < inject_Z n * pct)%Q).
  { apply Qmult_lt_0_compat; [|exact Hpct].
    change 0%Q with (inject_Z 0). rewrite <- Zlt_Qlt. lia. }
  pose proof (round_pos _ Hprod) as Hr0.
  pose proof (Qle_ceiling (Num.round (inject_Z n * pct))) as Hc.
  assert (H0 : (inject_Z 0
                < inject_Z (Qceiling (Num.round (inject_Z n * pct))))%Q)
    by (eapply Qlt_le_trans; eassumption).
  rewrite <- Zlt_Qlt in H0. lia.
Qed.

Lemma calculateImportanceThreshold_defined
      (scoredSentences : list ScoredSentence) (r : Q) :
  scoredSentences <> [] -> (11 # 10 <= r)%Q ->
  calculateImportanceThreshold scoredSentences (Num.Fin r) <> None.
Proof.
  intros Hne Hr. unfold calculateImportanceThreshold.
  destruct (numSentencesToKeep_positive (count scoredSentences) r)
    as (k & Hk & Hk1); [|exact Hr|].
  { unfold count. destruct scoredSentences; [congruence | simpl; lia]. }
  rewrite Hk.
  destruct (count (sortWith byScoreDescending scoredSentences) <=? Qfloor k)
    eqn:E; [discriminate|].
  apply Z.leb_gt in E. unfold itemAt.
  replace (Qfloor k - 1 <? 0) with false by (symmetry; apply Z.ltb_ge; lia).
  destruct (nth_error _ _) eqn:En; [discriminate|].
  apply nth_error_None in En. unfold count in E. lia.
Qed.

Lemma scoreFrom_length (toLowerCase : str -> str) (n : Z)
      (sentences : list str) :
  forall index,
    List.length (scoreFrom toLowerCase n sentences index)
    = List.length sentences.
Proof.
  induction sentences as [|s l IH]; intros index; [reflexivity|].
  cbn [scoreFrom List.length]. now rewrite IH.
Qed.

Lemma chunkTranscript_defined (toLowerCase : str -> str) (transcript : str)
      (maxLength : Q) :
  exists chunks,
    chunkTranscript toLowerCase transcript maxLength = Some chunks.
Proof.
  unfold chunkTranscript.
  destruct (count (splitIntoSentences transcript) <=? 1) eqn:E1;
    [eexists; reflexivity|].
  cbv zeta.
  destruct (estimateTokens transcript <=? 3000) eqn:E2;
    [eexists; reflexivity|].
  apply Z.leb_gt in E1, E2.
  destruct (reductionFactor_finite _ E2) as (r & Hr & Hr1). rewrite Hr.
  unfold extractImportantSegments.
  set (scored := scoreSentences toLowerCase (splitIntoSentences transcript)).
  assert (Hne : sortBy index scored <> []).
  { intros H. apply (f_equal (@List.length _)) in H. unfold sortBy in H.
    rewrite (Permutation_length (sortWith_Permutation _ scored)) in H.
    unfold scored, scoreSentences in H. rewrite scoreFrom_length in H.
    unfold count in E1. simpl in H. lia. }
  pose proof (calculateImportanceThreshold_defined _ r Hne Hr1) as Hthr.
  destruct (calculateImportanceThreshold (sortBy index scored) (Num.Fin r));
    [|congruence].
  cbv zeta.
  destruct (match currentSegment _ with
            | [] => _
            | _ :: _ => _
            end); eexists; reflexivity.
Qed.

End IntelligentNeverRaises.

(** X28. The Intelligent strategy never fails: for every transcript
    [chunkTranscript] returns chunks.  On its sampling path (more than
    3000 estimated tokens) the reduction factor is finite and at least
    1.1, so at least one sentence is to be kept and the importance
    threshold is read off a sentence that exists. *)
Theorem intelligent_chunkTranscript_never_raises :
  forall (toLowerCase : Js.str -> Js.str) (transcript : Js.str)
         (maxLength : Q),
    (exists chunks,
        IntelligentSamplingStrategy.chunkTranscript toLowerCase transcript
          maxLength = Some chunks)
    /\ (3000 < BaseChunkingStrategy.estimateTokens transcript ->
        exists r,
          IntelligentSamplingStrategy.reductionFactor
            (BaseChunkingStrategy.estimateTokens transcript) = Num.Fin r
          /\ (11 # 10 <= r)%Q).
Proof.
  intros toLowerCase transcript maxLength. split.
  - apply chunkTranscript_defined.
  - apply reductionFactor_finite.
Qed.

Section UniformNeverEmpty.
Import Js BaseChunkingStrategy UniformSamplingStrategy.

Lemma createChunksFromSentences_not_empty (sentences : list str)
      (maxTokensPerChunk : Q) :
  sentences <> [] ->
  createChunksFromSentences sentences maxTokensPerChunk <> [].
Proof.
  intros Hne.
  destruct (createChunksFromSentences_groups sentences maxTokensPerChunk)
    as (groups & Heq & Hcat & _).
  rewrite Heq. destruct groups as [|g groups]; [|discriminate].
  simpl in Hcat. congruence.
Qed.

Lemma sampleSentences_not_empty (sentences : list str)
      (reductionFactor : Num.num) :
  sentences <> [] -> sampleSentences sentences reductionFactor <> [].
Proof.
  intros Hne. unfold sampleSentences.
  destruct sentences as [|s l]; [congruence|].
  cbn [List.length sampleLoop].
  replace (0 <? count (s :: l)) with true
    by (symmetry; apply Z.ltb_lt; unfold count; simpl; lia).
  discriminate.
Qed.

Lemma uniform_chunkTranscript_not_empty (transcript : str) (maxLength : Q) :
  chunkTranscript transcript maxLength <> [].
Proof.
  unfold chunkTranscript.
  destruct (count (splitIntoSentences transcript) <=? 1) eqn:E;
    [discriminate|].
  apply Z.leb_gt in E.
  assert (Hne : splitIntoSentences transcript <> []).
  { intros H. rewrite H in E. unfold count in E. simpl in E. lia. }
  cbv zeta. destruct (Num.ltb _ _).
  - apply createChunksFromSentences_not_empty. exact Hne.
  - apply createChunksFromSentences_not_empty.
    apply sampleSentences_not_empty. exact Hne.
Qed.

End UniformNeverEmpty.

(** X29. Uniform sampling always returns a chunk: for every transcript
    and every [maxLength], [chunkTranscript] of the Uniform strategy
    returns at least one chunk (the sample always holds the first
    sentence). *)
Theorem uniform_always_returns_a_chunk :
  forall (transcript : Js.str) (maxLength : Q),
    UniformSamplingStrategy.chunkTranscript transcript maxLength <> []
    /\ forall (sentences : list Js.str) (reductionFactor : Num.num),
         sentences <> [] ->
         UniformSamplingStrategy.sampleSentences sentences reductionFactor
         <> [].
Proof.
  intros transcript maxLength. split.
  - apply uniform_chunkTranscript_not_empty.
  - apply sampleSentences_not_empty.
Qed.

(** X30. A transcript that the validator accepts is always chunked: it
    is present and not empty, so the chunker node, which follows the
    validator on its edge [valid], does not throw, whatever its limit
    and its strategy; with the Uniform strategy it returns at least one
    chunk. *)
Theorem validated_transcript_is_always_chunked :
  forall (minTranscriptLength : Z) (transcript : option Js.str)
         (toLowerCase : Js.str -> Js.str) (maxTranscriptLength : Z)
         (strategy : IChunkingStrategy.Strategy),
    TranscriptValidatorNode.isValid
      (TranscriptValidatorNode.exec minTranscriptLength transcript) = true ->
    exists (text : Js.str) (chunks : list Js.str),
      transcript = Some text
      /\ text <> []
      /\ TranscriptChunkerNode.exec toLowerCase maxTranscriptLength strategy
           transcript = inl chunks
      /\ (strategy = IChunkingStrategy.Uniform -> chunks <> []).
Proof.
  intros minLen transcript toLowerCase maxLen strategy Hvalid.
  destruct transcript as [text|]; [|discriminate Hvalid].
  destruct text as [|c r]; [discriminate Hvalid|].
  unfold TranscriptChunkerNode.exec, IChunkingStrategy.chunkTranscript.
  destruct strategy.
  - eexists. eexists. split; [reflexivity|]. split; [discriminate|].
    split; [reflexivity|]. intros _.
    apply uniform_chunkTranscript_not_empty.
  - eexists. eexists. split; [reflexivity|]. split; [discriminate|].
    split; [reflexivity|]. discriminate.
  - destruct (chunkTranscript_defined toLowerCase (c :: r) (inject_Z maxLen))
      as (chunks & Hc).
    rewrite Hc. exists (c :: r), chunks. split; [reflexivity|].
    split; [discriminate|]. split; [reflexivity|]. discriminate.
Qed.

Lemma validated_transcript_is_always_chunked_witness :
  exists (text : Js.str) (chunks : list Js.str),
    Some ChunkingExamples.unpunctuated = Some text
    /\ text <> []
    /\ TranscriptChunkerNode.exec IntelligentSamplingStrategy.asciiLower
         300000 IChunkingStrategy.Intelligent
         (Some ChunkingExamples.unpunctuated) = inl chunks
    /\ (IChunkingStrategy.Intelligent = IChunkingStrategy.Uniform ->
        chunks <> []).
Proof.
  apply (validated_transcript_is_always_chunked 100
           (Some ChunkingExamples.unpunctuated)
           IntelligentSamplingStrategy.asciiLower 300000
           IChunkingStrategy.Intelligent).
  vm_compute. reflexivity.
Defined.
